(* ===== verification/_CoqProject ===== *)
-Q . S2P
Prelude.v
Models.v
GoFmt.v
GoTime.v
GoString.v
GoJson.v
GoDuration.v
GoFloat.v
Netip.v
Sha256.v
Shuffle.v
Stats.v
Fairness.v
Report.v
Seal.v
Database.v
Effects.v
Invariant.v
Growth.v
Booking.v
Events.v
Codec.v
Scenario.v
Draw.v
AuditTrail.v
Lock.v
Concurrent.v
Auth.v
System.v
Interleave.v
Gate.v
Http.v
Wire.v
Client.v
FairnessApi.v
SetupUsers.v
RoundTrip.v
Workers.v
Programs.v
Middleware.v
Config.v
Migrate.v
Server.v
Router.v
