(* ===== verification/Prelude.v ===== *)
(** * A verification development for the Lottery Management System backend

    The program is a Go server: users register and book places at events, an
    administrator closes an event and draws the winners, and everyone can
    read the sealed results.  PostgreSQL holds the state, Redis a lock per
    event.

    ** The parts of the program and where they are modelled

    - [Models]: the structs of [src/internal/models/models.go].
    - [GoFmt], [GoTime], [GoString], [GoDuration], [GoFloat], [Netip],
      [Sha256]: what the code uses of the Go standard library ([strconv],
      [time], [strings], [sort.Float64s], [%.Nf], [net/netip],
      [net.SplitHostPort], [crypto/sha256], [encoding/hex]), executable.
    - [GoJson]: [encoding/json], executable on bytes: the scanner, string
      literals with their escapes and surrogates, the printer, and decoding
      into structs with the matching of field names.
    - [Shuffle]: [src/internal/lottery/algorithm.go], [FairShuffle] and
      [SelectWinners], over a random source given as a type class
      ([RandSource], [RandLaws]); [crypto/rand.Int] over a byte stream is an
      instance of it.
    - [Seal]: [src/internal/lottery/seal.go], the text and digest of a draw.
    - [Database]: the schema of [src/internal/db/migrations], the SQL
      statements of the services as an indexed type [stmt] with an executable
      semantics, and [src/internal/pgerr/pgerr.go].
    - [Effects]: service methods are programs over commands (transactions,
      statements, Redis, gates, clocks); [run] executes a program in a
      [world] under an [env] that decides every failure, clock and timeout;
      [wp] and its rules are the program logic.
    - [Invariant], [Growth]: the invariant of the committed tables, and what
      only ever grows.
    - [Booking], [Lock]: [src/internal/booking/service.go], the booking
      transaction, the Redis lock with its retry loop, and [BookWithLock].
    - [Gate]: [src/internal/booking/gate.go], as a transition system in which
      goroutines are interleaved at every mutex section and channel
      operation.
    - [Events]: [src/internal/event/service.go].
    - [Draw]: [src/internal/lottery/service.go], [RunDraw] and [GetResults].
    - [AuditTrail]: the schema as a guard: any data change sent by the runtime role
      or by the owner, under the privileges (the [GRANT]s as they are written)
      and triggers of [002_harden_audit.sql] and the constraints of
      [001_init.sql].
    - [Auth]: [src/internal/auth/service.go] and [GenerateToken].
    - [System]: all requests, in any order, each under its own environment.
    - [Concurrent], [Interleave]: all requests at once, interleaved statement
      by statement under the database's row locks; a logic for one session
      among others, and the refinement of every request to one atomic step.
    - [Codec]: [DecodeJSON] of [src/internal/httpx/respond.go] and the struct
      tags of the requests; [Wire]: the bytes of the answers, with the struct
      tags of [src/internal/models/models.go].
    - [Http]: [src/internal/httpx/respond.go], the handlers, authentication
      and the route table of [src/cmd/server/main.go].
    - [Middleware]: [src/internal/middleware/clientip.go] and [http.go]: the
      client address behind proxies, the per-account login key, headers,
      CORS, the body limit, the response writer, logger and recoverer.
    - [Config]: [src/internal/config/config.go], the environment and [Load].
    - [Migrate]: [src/internal/db/migrate.go], the migrations runner over a
      database in which every call may fail.
    - [Server]: [src/cmd/server/main.go] and [health.go],
      [src/internal/db/postgres.go] and [redis.go]: start-up, in which the
      programs of [Config], [Migrate] and [Auth] run, the deferred clean-up,
      the shutdown and the probes.
    - [Stats], [Fairness]: [src/loadtest/stats/chisq.go], in [float64]
      arithmetic, and [src/loadtest/cmd/fairness/main.go], the experiment that
      tests the draw.
    - [Report]: [src/loadtest/cmd/aggregate/main.go], the report over the
      summaries of load-test runs, and the texts the fairness tests print.
    - [Router]: the handler chain of [src/cmd/server/main.go], from the TCP
      peer through the middleware, the limiters and the route table to the
      handlers of [Http], and back.
    - [Client]: a client of the server over a network that loses requests and
      answers while others use the server; [FairnessApi] and [SetupUsers]:
      [src/loadtest/cmd/fairness-api/main.go] and [setup-users/main.go], run
      against the server of [Http] and reading the bytes of [Wire].
    - [RoundTrip]: the requests of the clients read by the server, its answers
      read by the clients.
    - [Workers]: the worker pool of both programs (channel, goroutines, mutex
      and WaitGroup) as a step relation; [Programs]: the two programs with
      their pools, from the tokens file one writes to the report of the other.
    - [Scenario]: a concrete history on which theorems are instantiated.

    ** How state and effects correspond

    Tables with a looked-up key are finite maps, [bookings] and
    [lottery_draws] lists in insertion order.  A transaction is a list of
    pending writes over the committed tables; a failed statement aborts it, a
    commit publishes the writes, and a commit whose answer is lost may have
    published them.  [fault] distinguishes a call that failed before it had an
    effect from one whose answer was lost.  Go errors are values of an
    inductive type per package; errors that wrap a cause keep only their
    context.  [int64] arithmetic wraps where the code computes with it
    ([wrap64]).  Times are nanoseconds since Go's zero time; a [time.Time]
    read from the database carries the server's time zone, [Wire] prints UTC,
    so on a server in another zone the bytes of a time differ in its offset,
    but not the instant a client decodes.  SQL leaves the order of rows with
    equal sort keys open: the environment chooses it for every query of a list
    ([env_ties], [order_by]).

    ** What the theorems show

    - the draw is fair: counting the answer sequences of the random source,
      every order and every set of winners comes out equally often, for the
      algorithm and for the whole [RunDraw] transaction; and the expected
      counts the fairness experiment tests against are the true means;
    - a draw commits its audit rows, seal and status together or not at all,
      happens at most once, records every entrant exactly once, and is read
      back unchanged and verified for ever after; tampering with the record is
      detected up to a SHA-256 collision between two specific texts;
    - whatever data changes the runtime role and the owner send after a draw,
      audit rows and seals stay and results that still verify are those of
      the draw; and the privileges of the runtime role cover every statement
      of the services, reads, row locks and key sequences included;
    - concurrent requests are linearizable: whatever interleaves and whatever
      fails, each request takes effect in one of its own steps and answers as
      its sequential specification says, reads and logins included (what
      [Close], [Cancel], [List] and [GetResults] read last, they read at a
      later step of theirs); so no reachable state is oversold or has
      a double booking, the record only grows, and events follow their
      lifecycle; and the row locks never deadlock;
    - a booking request leaves its gate on every path and gives back its lock
      unless Redis fails at the end or the lock has expired; the retry loop
      ends; the Redis lock excludes until it expires;
    - the gate excludes, serves in arrival order, makes progress and does not
      leak;
    - registration and login, and the status transitions, on every branch;
      the pages of the list of events, up to ties of their draw times;
    - every route is guarded as the documented table says; the answers of the
      handlers have the uniform envelope, and which other answers exist; no
      password hash leaves the server;
    - a client cannot choose its address by sending headers, the configured
      proxies are trusted exactly as written, and login attempts are counted
      per account; the whole chain of middleware runs exactly the routed
      handler, on what the client sent, or touches nothing, a peer over its budget reaches no handler,
      an account over its budget (and the shared one) no password check,
      however the body is written and the email spelt, every answer carries
      the security headers, and all but those of the probes are logged under
      the address the limiters counted;
    - what the clients write is what the server reads, byte for byte, and the
      reverse;
    - the load-test clients report what the server committed: [oneDraw]'s
      winners are those of a committed draw over exactly the given users,
      whatever was lost and retried, with a bounded number of requests; a
      worker pool does what a sequential loop would, does not deadlock and
      ends; so, under every schedule, the tokens [setup-users] writes are
      those users' and the tallies of [fairness-api] count right; a cell of
      the report shows the range and a median;
    - [Load] accepts exactly the environments it documents and returns
      well-formed values;
    - migrations are applied in order, each once and entirely, whatever fails,
      and running them again changes nothing;
    - the server listens only when its configuration is valid, the migrations
      are applied, both datastores answered a ping and the bootstrap
      administrator exists, and it releases every connection on every path.

    ** Bounds and fuel

    The retry loop of the Redis lock has fuel [budget / 1 ms + 2]: every
    completed wait takes at least a millisecond of the wait budget, and
    [acquireRedisLock_terminates] shows that the fuel is never used up.  The
    rejection loop of [crypto/rand.Int] consumes its byte stream.  The parsers
    of [GoDuration] and [GoString] have the length of their text as fuel, and
    every turn consumes at least a byte; the parser of IPv6 addresses has the
    eight turns of the code.  The JSON parser has fuel for two calls per byte
    and one more, and more fuel changes nothing ([parse_fuel]); nesting is
    limited to 10000 levels as in the library.  The retry loops of the clients count down the
    attempts the code makes.  All other recursion is structural.

    ** What is not modelled

    Third-party code is a parameter: bcrypt, JWT, [net/mail], the Unicode case
    tables, the wording of the errors of [encoding/json] and, in [Report], the
    decoding of the k6 summaries (floating-point literals); their documented laws are classes
    ([BcryptLaws], [LowerKeepsSpace]) used only where a theorem says so; so are
    [redis.ParseURL], [pgxpool.ParseConfig], the sorting routine of
    [sort.Slice] and what PostgreSQL does with the text of a migration, and in
    [Router] the counters of [httprate] and chi's request ids.  Not modelled
    are chi's 30-second deadline, log lines other than the access line of
    [Logger], the flags, opening of files and printed summaries of the
    load-test tools, the k6 scripts, and what only a superuser can do to the database (disabling
    triggers).  In
    [Concurrent] a statement is atomic and starts once its row lock is free,
    Redis may hold anything at any moment and a gate may let anyone in, so the
    results do not depend on them; the interleaving of goroutines at the gates
    is in [Gate].  Of the orders of the participants of a draw with equal
    [booked_at], which the draw then shuffles, the model takes that of their
    insertion. *)

From stdpp Require Export prelude gmap strings list pretty sorting.

(** ** Results: Go's [(value, error)] pairs *)

(** A Go function that returns [(T, error)] either returns a value or a
    non-nil error; the value that accompanies an error is never read by the
    callers of this program, so it is not kept. *)
Inductive result (E A : Type) : Type :=
| Ok (a : A)
| Err (e : E).
Arguments Ok {E A} a.
Arguments Err {E A} e.

#[export] Instance result_ret {E} : MRet (result E) := fun A a => Ok a.
#[export] Instance result_bind {E} : MBind (result E) :=
  fun A B f m => match m with Ok a => f a | Err e => Err e end.
#[export] Instance result_fmap {E} : FMap (result E) :=
  fun A B f m => match m with Ok a => Ok (f a) | Err e => Err e end.

#[export] Instance result_eq_dec `{EqDecision E, EqDecision A} :
  EqDecision (result E A).
Proof. solve_decision. Defined.

Definition is_ok {E A} (r : result E A) : bool :=
  match r with Ok _ => true | Err _ => false end.

Definition map_err {E E' A} (f : E -> E') (r : result E A) : result E' A :=
  match r with Ok a => Ok a | Err e => Err (f e) end.

(** ** Effectful code: programs over a family of commands *)

(** [C X] is the type of commands whose answer is in [X].  A program is a
    finite tree of commands; what a command does is decided by the
    interpreter, so that one translation of a source function is run both
    sequentially and interleaved with others. *)
Inductive prog (C : Type -> Type) (A : Type) : Type :=
| Ret (a : A)
| Act {X : Type} (c : C X) (k : X -> prog C A).
Arguments Ret {C A} a.
Arguments Act {C A X} c k.

Fixpoint prog_bind' {C A B} (f : A -> prog C B) (p : prog C A) : prog C B :=
  match p with
  | Ret a => f a
  | Act c k => Act c (fun x => prog_bind' f (k x))
  end.

#[export] Instance prog_ret {C} : MRet (prog C) := fun A => Ret.
#[export] Instance prog_bind {C} : MBind (prog C) :=
  fun A B => prog_bind'.

Definition perform {C X} (c : C X) : prog C X := Act c Ret.

(** [try x := m catch e => h in k]: run [m]; on an error [e] return [Err h]
    (Go: [x, err := m; if err != nil { return h }]), otherwise go on with the
    value [x]. *)
Definition try_catch {C E E' A B} (m : prog C (result E A)) (h : E -> E')
    (k : A -> prog C (result E' B)) : prog C (result E' B) :=
  m ≫= fun r => match r with Ok x => k x | Err e => Ret (Err (h e)) end.

Notation "'try' x ':=' m 'catch' e '=>' h 'in' k" :=
  (try_catch m (fun e => h) (fun x => k))
  (at level 10, x name, e name, m at level 100, h at level 100,
   k at level 200,
   format "'try'  x  ':='  m  'catch'  e  '=>'  h  'in' '//' k").

(** ** Tactics *)

(** Split on the scrutinee of some [match] or [if] of a hypothesis. *)
Ltac case_in H :=
  match type of H with
  | context [match ?x with _ => _ end] => destruct x eqn:?
  end.

Ltac solve_cases := repeat (case_match || case_decide); simplify_eq/=; eauto.

(** The development's hint databases: [lottery] for resolution, [lsimpl] for
    rewriting. *)
Create HintDb lottery discriminated.
Create Rewrite HintDb lsimpl.

(** ** Counting *)

Section Counting.
Context {A B : Type}.
Implicit Types (l : list A).

Lemma sum_list_with_const (f : A -> nat) (c : nat) l :
  (forall x, x ∈ l -> f x = c) -> sum_list_with f l = length l * c.
Proof.
  induction l as [|x l IH]; intros Hf; simpl; [done|].
  rewrite Hf by constructor. rewrite IH; [done|].
  intros y Hy. apply Hf. by constructor.
Qed.

Lemma sum_list_with_ext (f g : A -> nat) l :
  (forall x, x ∈ l -> f x = g x) -> sum_list_with f l = sum_list_with g l.
Proof.
  induction l as [|x l IH]; intros Hf; simpl; [done|].
  rewrite Hf by constructor. rewrite IH; [done|].
  intros y Hy. apply Hf. by constructor.
Qed.

Lemma length_bind (f : A -> list B) l :
  length (l ≫= f) = sum_list_with (fun x => length (f x)) l.
Proof. induction l; simpl; [done|]. rewrite length_app. by f_equal. Qed.

Lemma length_filter_bind (P : B -> Prop) `{!forall y, Decision (P y)}
    (f : A -> list B) l :
  length (filter P (l ≫= f)) = sum_list_with (fun x => length (filter P (f x))) l.
Proof.
  induction l; simpl; [done|]. rewrite filter_app, length_app. by f_equal.
Qed.

Lemma length_filter_fmap (P : B -> Prop) `{!forall y, Decision (P y)} (f : A -> B) l :
  length (filter P (f <$> l)) = length (filter (fun x => P (f x)) l).
Proof.
  induction l as [|x l IH]; [done|]. rewrite fmap_cons, !filter_cons.
  repeat case_decide; simpl; rewrite ?IH; done.
Qed.

Context (P Q : A -> Prop) `{!forall x, Decision (P x), !forall x, Decision (Q x)}.

Lemma length_filter_ext l :
  (forall x, x ∈ l -> P x <-> Q x) -> length (filter P l) = length (filter Q l).
Proof.
  induction l as [|x l IH]; intros HPQ; [done|].
  rewrite !filter_cons. assert (P x <-> Q x) by (apply HPQ; constructor).
  assert (length (filter P l) = length (filter Q l)).
  { apply IH. intros y Hy. apply HPQ. by constructor. }
  repeat case_decide; simpl; intuition lia.
Qed.

Lemma length_filter_all l : (forall x, x ∈ l -> P x) -> length (filter P l) = length l.
Proof.
  induction l as [|x l IH]; intros HP; [done|].
  rewrite filter_cons_True by (apply HP; constructor). simpl. f_equal.
  apply IH. intros y Hy. apply HP. by constructor.
Qed.

Lemma length_filter_none l : (forall x, x ∈ l -> ~ P x) -> length (filter P l) = 0.
Proof.
  induction l as [|x l IH]; intros HP; [done|].
  rewrite filter_cons_False by (apply HP; constructor).
  apply IH. intros y Hy. apply HP. by constructor.
Qed.

Lemma length_filter_or_disjoint l :
  (forall x, x ∈ l -> P x -> ~ Q x) ->
  length (filter (fun x => P x \/ Q x) l) = length (filter P l) + length (filter Q l).
Proof.
  induction l as [|x l IH]; intros HPQ; [done|].
  rewrite !filter_cons. assert (P x -> ~ Q x) by (apply HPQ; constructor).
  assert (length (filter (fun x => P x \/ Q x) l)
          = length (filter P l) + length (filter Q l)).
  { apply IH. intros y Hy. apply HPQ. by constructor. }
  repeat case_decide; simpl; intuition lia.
Qed.
End Counting.

Lemma filter_partition {A} (P : A -> Prop) `{!forall x, Decision (P x)} (l : list A) :
  filter P l ++ filter (fun x => ~ P x) l ≡ₚ l.
Proof.
  induction l as [|x l IH]; [done|]. rewrite !filter_cons. destruct (decide (P x)).
  - rewrite decide_False by tauto. simpl. by rewrite IH.
  - rewrite decide_True by tauto. by rewrite <- Permutation_middle, IH.
Qed.

(** A sum over [0 .. n-1] with one exceptional index. *)
Lemma sum_list_with_seq_except (f : nat -> nat) (n q a b : nat) :
  q < n -> f q = a -> (forall j, j < n -> j <> q -> f j = b) ->
  sum_list_with f (seq 0 n) = a + (n - 1) * b.
Proof.
  intros Hq Ha Hb.
  assert (seq 0 n = seq 0 q ++ q :: seq (S q) (n - S q)) as ->.
  { change (q :: seq (S q) (n - S q)) with (seq (0 + q) (S (n - S q))).
    rewrite <- seq_app. f_equal. lia. }
  rewrite sum_list_with_app. simpl. rewrite Ha.
  rewrite !(sum_list_with_const _ b), !length_seq.
  - nia.
  - intros j Hj%elem_of_seq. apply Hb; lia.
  - intros j Hj%elem_of_seq. apply Hb; lia.
Qed.
