(* ===== verification/Models.v ===== *)
(** * Data model

    The structs of [src/internal/models/models.go].  Go's [int64] and [int]
    are [Z] (the code that computes with them wraps explicitly, see [GoInt]);
    [time.Time] is the number of nanoseconds since Go's zero time
    (0001-01-01T00:00:00Z), so that [IsZero] is a test against [0]. *)

From S2P Require Import Prelude.

(** ** Users *)

Record User := mkUser {
  user_ID : Z;
  user_Email : string;
  user_FullName : string;
  user_Role : string;
  user_PasswordHash : string;
  user_CreatedAt : Z;
  user_UpdatedAt : Z
}.

(** ** Events *)

Inductive EventStatus :=
| EventStatusOpen
| EventStatusClosed
| EventStatusDrawn
| EventStatusCancelled.

#[export] Instance EventStatus_eq_dec : EqDecision EventStatus.
Proof. solve_decision. Defined.

(** [string(status)]: the text the database column holds. *)
Definition status_string (s : EventStatus) : string :=
  match s with
  | EventStatusOpen => "open"
  | EventStatusClosed => "closed"
  | EventStatusDrawn => "drawn"
  | EventStatusCancelled => "cancelled"
  end.

#[export] Instance status_string_inj : Inj (=) (=) status_string.
Proof. by intros [] []. Qed.

Record Event := mkEvent {
  event_ID : Z;
  event_Title : string;
  event_Description : string;
  event_Capacity : Z;
  event_DrawAt : Z;
  event_Status : EventStatus;
  event_WinnerCount : Z;
  event_CreatedBy : Z;
  event_BookingCount : Z;
  event_CreatedAt : Z;
  event_UpdatedAt : Z
}.

(** ** Bookings *)

Record Booking := mkBooking {
  booking_ID : Z;
  booking_EventID : Z;
  booking_UserID : Z;
  booking_BookedAt : Z
}.

(** ** Lottery draws *)

Record LotteryDraw := mkDraw {
  draw_ID : Z;
  draw_EventID : Z;
  draw_WinnerUserID : Z;
  draw_DrawRank : Z;
  draw_EntropySource : string;
  draw_TotalEntrants : Z;
  draw_DrawnAt : Z
}.

Record DrawResult := mkDrawResult {
  dr_EventID : Z;
  dr_EventTitle : string;
  dr_TotalEntrants : Z;
  dr_Winners : list LotteryDraw;
  dr_Waitlist : list LotteryDraw;
  dr_DrawnAt : Z;
  dr_Digest : string;
  dr_Integrity : string
}.

(** ** Requests *)

Record RegisterRequest := mkRegisterRequest {
  reg_Email : string;
  reg_Password : string;
  reg_FullName : string
}.

Record LoginRequest := mkLoginRequest {
  login_Email : string;
  login_Password : string
}.

Record LoginResponse := mkLoginResponse {
  lresp_Token : string;
  lresp_User : User
}.

Record CreateEventRequest := mkCreateEventRequest {
  cer_Title : string;
  cer_Description : string;
  cer_Capacity : Z;
  cer_DrawAt : Z;
  cer_WinnerCount : Z
}.

(** Pagination metadata of a list response. *)
Record Meta := mkMeta {
  meta_Total : Z;
  meta_Page : Z;
  meta_Limit : Z
}.

#[export] Instance User_eq_dec : EqDecision User.
Proof. solve_decision. Defined.
#[export] Instance Event_eq_dec : EqDecision Event.
Proof. solve_decision. Defined.
#[export] Instance Booking_eq_dec : EqDecision Booking.
Proof. solve_decision. Defined.
#[export] Instance LotteryDraw_eq_dec : EqDecision LotteryDraw.
Proof. solve_decision. Defined.
#[export] Instance DrawResult_eq_dec : EqDecision DrawResult.
Proof. solve_decision. Defined.
