(* ===== verification/GoFmt.v ===== *)
(** * Numbers and strings: [strconv], [fmt], [encoding/hex]

    The parts of Go's standard library the program prints and parses numbers
    with: [%d] and [strconv.FormatInt], the zero-padded integers of package
    [time], [strconv.ParseInt] and [Atoi], and hexadecimal.  A Go string is a
    sequence of bytes, that is a Rocq [string]. *)

From S2P Require Import Prelude.
From Stdlib Require Import Ascii.

(** ** Characters of a string *)

Abbreviation chars := String.list_ascii_of_string.

Lemma chars_app s1 s2 : chars (s1 +:+ s2) = chars s1 ++ chars s2.
Proof.
  induction s1 as [|c s1 IH]; [done|].
  change (c :: chars (s1 +:+ s2) = c :: (chars s1 ++ chars s2)). by rewrite IH.
Qed.

#[export] Instance chars_inj : Inj (=) (=) chars.
Proof.
  intros s1 s2 Hs. rewrite <- (String.string_of_list_ascii_of_string s1).
  rewrite <- (String.string_of_list_ascii_of_string s2). by rewrite Hs.
Qed.

Lemma string_of_list_ascii_inj l1 l2 :
  String.string_of_list_ascii l1 = String.string_of_list_ascii l2 -> l1 = l2.
Proof.
  intros Heq. rewrite <- (String.list_ascii_of_string_of_list_ascii l1), Heq.
  apply String.list_ascii_of_string_of_list_ascii.
Qed.

Lemma chars_length s : length (chars s) = String.length s.
Proof. induction s as [|c s IH]; [done|]. cbn. by f_equal. Qed.

(** A separator that occurs in neither field is found at the same place. *)
Lemma split_at_sep (c : ascii) (a a' b b' : list ascii) :
  c ∉ a -> c ∉ a' -> a ++ c :: b = a' ++ c :: b' -> a = a' /\ b = b'.
Proof.
  revert a'. induction a as [|x a IH]; intros [|x' a'] Ha Ha' Heq; simpl in Heq.
  - by injection Heq as ->.
  - injection Heq as -> _. by destruct Ha'; constructor.
  - injection Heq as -> _. by destruct Ha; constructor.
  - injection Heq as -> Heq. apply not_elem_of_cons in Ha as [_ Ha], Ha' as [_ Ha'].
    destruct (IH a' Ha Ha' Heq) as [-> ->]. done.
Qed.

(** ** Decimal digits *)

Definition is_digit (c : ascii) : bool :=
  bool_decide (48 <= N_of_ascii c <= 57)%N.

Definition digit_value (c : ascii) : Z := (Z.of_N (N_of_ascii c) - 48)%Z.

(** The value of a string of decimal digits. *)
Definition digits_value (l : list ascii) : Z :=
  foldl (fun acc c => acc * 10 + digit_value c)%Z 0%Z l.

(** [%d] and [strconv.FormatInt(x, 10)]. *)
Definition FormatInt (x : Z) : string := pretty x.

(** [appendInt(b, x, width)] of package [time], for [x >= 0]. *)
Definition appendInt (x : Z) (width : nat) : string :=
  let s := FormatInt x in
  String.string_of_list_ascii (replicate (width - String.length s) "0"%char) +:+ s.

(** *** [strconv.ParseInt(s, 10, 64)] *)

Inductive num_error := ErrSyntax | ErrRange.

#[export] Instance num_error_eq_dec : EqDecision num_error.
Proof. solve_decision. Defined.

Definition max_int64 : Z := 9223372036854775807.
Definition min_int64 : Z := -9223372036854775808.

(** Arithmetic on [int64] (and [int], which is 64 bits wide) wraps around. *)
Definition wrap64 (z : Z) : Z := ((z + 9223372036854775808) `mod` 18446744073709551616 - 9223372036854775808)%Z.

(** A conversion to [int32] keeps the low 32 bits. *)
Definition wrap32 (z : Z) : Z := ((z + 2147483648) `mod` 4294967296 - 2147483648)%Z.

(** An optional leading sign: is it a minus, and what follows. *)
Definition split_sign (l : list ascii) : bool * list ascii :=
  match l with
  | [] => (false, [])
  | c :: ds => if decide (c = "+"%char) then (false, ds)
               else if decide (c = "-"%char) then (true, ds)
               else (false, l)
  end.

(** [ParseInt] returns a value beside its error: [0] on a syntax error and
    the nearest bound on a range error.  Some callers ignore the error and use
    the value. *)
Definition ParseInt (s : string) : Z * option num_error :=
  let (neg, ds) := split_sign (chars s) in
  if bool_decide (ds = []) || negb (forallb is_digit ds) then (0%Z, Some ErrSyntax)
  else
    let un := digits_value ds in
    if neg then
      if decide (un <= max_int64 + 1)%Z then ((- un)%Z, None) else (min_int64, Some ErrRange)
    else
      if decide (un <= max_int64)%Z then (un, None) else (max_int64, Some ErrRange).

(** [strconv.Atoi]: [int] is 64 bits wide. *)
Definition Atoi (s : string) : Z * option num_error := ParseInt s.

(** ** Hexadecimal *)

Definition hex_digit (n : Z) : ascii :=
  ascii_of_N (Z.to_N (if decide (n < 10)%Z then 48 + n else 87 + n))%Z.

(** [hex.EncodeToString]. *)
Definition hex_encode (bytes : list Z) : string :=
  String.string_of_list_ascii
    (b ← bytes; [hex_digit (b `div` 16)%Z; hex_digit (b `mod` 16)%Z]).

(** ** Lemmas *)

Lemma digits_value_app l1 l2 :
  digits_value (l1 ++ l2) = (digits_value l1 * 10 ^ Z.of_nat (length l2) + digits_value l2)%Z.
Proof.
  revert l1. induction l2 as [|c l2 IH] using rev_ind; intros l1.
  - rewrite app_nil_r. unfold digits_value at 3. simpl. lia.
  - rewrite app_assoc. unfold digits_value. rewrite !foldl_snoc.
    fold (digits_value (l1 ++ l2)). fold (digits_value l2). rewrite IH, length_app.
    replace (Z.of_nat (length l2 + length [c])) with (Z.of_nat (length l2) + 1)%Z
      by (simpl; lia).
    rewrite Z.pow_add_r by lia. fold (digits_value l1). lia.
Qed.

Lemma digits_value_zeros n : digits_value (replicate n "0"%char) = 0%Z.
Proof.
  induction n as [|n IH]; [done|]. rewrite replicate_S_end, digits_value_app, IH.
  unfold digits_value. simpl. done.
Qed.

Lemma pretty_N_char_spec (x : N) :
  (x < 10)%N -> is_digit (pretty_N_char x) = true /\ digit_value (pretty_N_char x) = Z.of_N x.
Proof.
  intros Hx. assert (x = 0 \/ x = 1 \/ x = 2 \/ x = 3 \/ x = 4 \/ x = 5 \/ x = 6 \/ x = 7 \/ x = 8
    \/ x = 9)%N as Hc by lia.
  by repeat (destruct Hc as [->|Hc]; [done|]); subst.
Qed.

Lemma pretty_N_go_spec (x : N) (s : string) :
  exists ds, chars (pretty_N_go x s) = ds ++ chars s /\
    Forall (fun c => is_digit c = true) ds /\ digits_value ds = Z.of_N x /\
    ((0 < x)%N -> ds <> [] /\ head ds <> Some "0"%char).
Proof.
  revert s. induction (N.lt_wf_0 x) as [x _ IH]; intros s.
  assert (x = 0 \/ 0 < x)%N as [->|Hx] by lia.
  { exists []. rewrite pretty_N_go_0. split_and!; [done|constructor|done|lia]. }
  rewrite pretty_N_go_step by done.
  destruct (IH (x `div` 10)%N (N.div_lt x 10 Hx eq_refl)
              (String (pretty_N_char (x `mod` 10)) s)) as (ds & Hds & Hdig & Hval & Hhead).
  destruct (pretty_N_char_spec (x `mod` 10)) as [Hc Hv]; [by apply N.mod_lt|].
  exists (ds ++ [pretty_N_char (x `mod` 10)]). split_and!.
  - rewrite Hds. cbn. by rewrite <- app_assoc.
  - apply Forall_app. auto.
  - rewrite digits_value_app, Hval.
    change (Z.of_nat (length [pretty_N_char (x `mod` 10)])) with 1%Z.
    rewrite Z.pow_1_r. unfold digits_value. simpl. rewrite Hv.
    rewrite N2Z.inj_div, N2Z.inj_mod by done.
    pose proof (Z.div_mod (Z.of_N x) (Z.of_N 10)). lia.
  - intros _. split; [by destruct ds|].
    destruct ds as [|d ds]; simpl.
    + intros [= Hz]. unfold digits_value in Hval. simpl in Hval.
      rewrite Hz in Hv. change (digit_value "0") with 0%Z in Hv.
      pose proof (N.div_mod x 10). lia.
    + assert (0 < x `div` 10)%N as [_ Hh]%Hhead; [|done].
      destruct (decide (x `div` 10 = 0)%N) as [E|]; [|by apply N.neq_0_lt_0].
      rewrite E in Hds. rewrite pretty_N_go_0 in Hds. apply (f_equal length) in Hds.
      cbn in Hds. rewrite length_app in Hds. cbn in Hds. lia.
Qed.

Lemma digits_value_nonneg ds :
  Forall (fun c => is_digit c = true) ds ->
  (0 <= digits_value ds < 10 ^ Z.of_nat (length ds))%Z.
Proof.
  induction ds as [|c ds IH] using rev_ind; intros Hd; [done|].
  apply Forall_app in Hd as [Hd Hc]. rewrite digits_value_app, length_app.
  inv Hc. match goal with H : is_digit c = true |- _ => rename H into Hc end.
  apply bool_decide_eq_true in Hc.
  specialize (IH Hd). change (Z.of_nat (length [c])) with 1%Z.
  replace (Z.of_nat (length ds + length [c])) with (Z.of_nat (length ds) + 1)%Z by (simpl; lia).
  rewrite Z.pow_add_r, Z.pow_1_r by lia.
  assert (0 <= digits_value [c] < 10)%Z
    by (unfold digits_value, digit_value; simpl; lia). lia.
Qed.

(** Without a leading zero, the value bounds the number of digits. *)
Lemma digits_length ds n :
  Forall (fun c => is_digit c = true) ds -> head ds <> Some "0"%char ->
  (digits_value ds < 10 ^ Z.of_nat n)%Z -> length ds <= n.
Proof.
  intros Hd Hh Hv. destruct ds as [|c ds]; [simpl; lia|].
  destruct (decide (length (c :: ds) <= n)) as [|Hlen]; [done|exfalso].
  change (c :: ds) with ([c] ++ ds) in Hv. rewrite digits_value_app in Hv.
  apply Forall_cons in Hd as [Hc Hd].
  pose proof (digits_value_nonneg ds Hd). apply bool_decide_eq_true in Hc.
  assert (1 <= digits_value [c])%Z.
  { unfold digits_value, digit_value. simpl.
    destruct (decide (N_of_ascii c = 48)%N) as [E|]; [|lia].
    destruct Hh. simpl. rewrite <- (ascii_N_embedding c), E. done. }
  assert (10 ^ Z.of_nat n <= 10 ^ Z.of_nat (length ds))%Z; [|nia].
  apply Z.pow_le_mono_r; simpl in Hlen; lia.
Qed.

Lemma FormatInt_nonneg_spec x :
  (0 <= x)%Z -> exists ds, chars (FormatInt x) = ds /\
    Forall (fun c => is_digit c = true) ds /\ digits_value ds = x /\ ds <> [] /\
    ((0 < x)%Z -> head ds <> Some "0"%char).
Proof.
  intros Hx. unfold FormatInt, pretty, pretty_Z. destruct x as [|p|p]; [|..|lia].
  { eexists. split; [done|]. split_and!; [repeat constructor|done|done|lia]. }
  unfold pretty, pretty_positive, pretty, pretty_N. rewrite decide_False by done.
  destruct (pretty_N_go_spec (N.pos p) "") as (ds & -> & Hd & Hv & Hh).
  rewrite app_nil_r. exists ds. destruct Hh as [? Hh]; [done|]. split_and!; done.
Qed.

Lemma FormatInt_neg_spec x :
  (x < 0)%Z -> exists ds, chars (FormatInt x) = "-"%char :: ds /\
    Forall (fun c => is_digit c = true) ds /\ digits_value ds = (- x)%Z /\ ds <> [].
Proof.
  intros Hx. destruct x as [|p|p]; [lia..|].
  destruct (FormatInt_nonneg_spec (Z.pos p)) as (ds & Hds & Hd & Hv & Hne & _); [lia|].
  exists ds. split; [|done]. unfold FormatInt, pretty, pretty_Z in *.
  by rewrite chars_app, Hds.
Qed.

Lemma FormatInt_chars x c :
  c ∈ chars (FormatInt x) -> is_digit c = true \/ c = "-"%char.
Proof.
  destruct (decide (0 <= x)%Z).
  - destruct (FormatInt_nonneg_spec x) as (ds & -> & Hd & _); [done|].
    rewrite Forall_forall in Hd. auto.
  - destruct (FormatInt_neg_spec x) as (ds & -> & Hd & _); [lia|].
    rewrite Forall_forall in Hd. rewrite elem_of_cons. intros [->|]; auto.
Qed.

(** A character that is neither a digit nor a minus sign does not occur in a
    printed number. *)
Lemma not_in_FormatInt c x :
  is_digit c = false -> c <> "-"%char -> c ∉ chars (FormatInt x).
Proof. intros Hd Hm [H|H]%FormatInt_chars; congruence. Qed.

#[export] Instance FormatInt_inj : Inj (=) (=) FormatInt.
Proof. apply _. Qed.

Lemma appendInt_spec x width :
  (0 <= x)%Z ->
  Forall (fun c => is_digit c = true) (chars (appendInt x width)) /\
  digits_value (chars (appendInt x width)) = x.
Proof.
  intros Hx. unfold appendInt. rewrite chars_app, String.list_ascii_of_string_of_list_ascii.
  destruct (FormatInt_nonneg_spec x Hx) as (ds & -> & Hd & Hv & _).
  rewrite digits_value_app, digits_value_zeros, Hv. split; [|lia].
  apply Forall_app. split; [|done]. by apply Forall_replicate.
Qed.

Lemma appendInt_length x width :
  (0 <= x < 10 ^ Z.of_nat width)%Z -> (0 < width) ->
  length (chars (appendInt x width)) = width.
Proof.
  intros Hx Hw. unfold appendInt.
  rewrite chars_app, String.list_ascii_of_string_of_list_ascii, <- chars_length.
  rewrite length_app, length_replicate.
  assert (length (chars (FormatInt x)) <= width); [|lia].
  destruct (decide (x = 0)%Z) as [->|]; [done|].
  destruct (FormatInt_nonneg_spec x) as (ds & -> & Hd & Hv & _ & Hh); [lia|].
  apply digits_length; [done|apply Hh; lia|lia].
Qed.

Lemma appendInt_inj x y width :
  (0 <= x)%Z -> (0 <= y)%Z -> appendInt x width = appendInt y width -> x = y.
Proof.
  intros Hx Hy Heq. destruct (appendInt_spec x width Hx) as [_ <-].
  destruct (appendInt_spec y width Hy) as [_ <-]. by rewrite Heq.
Qed.

Lemma not_in_appendInt c x width :
  (0 <= x)%Z -> is_digit c = false -> c ∉ chars (appendInt x width).
Proof.
  intros Hx Hc Hin. destruct (appendInt_spec x width Hx) as [Hd _].
  rewrite Forall_forall in Hd. by rewrite Hd in Hc.
Qed.

Lemma is_digit_sign c : is_digit c = true -> c <> "+"%char /\ c <> "-"%char.
Proof. split; intros ->; done. Qed.

Lemma forallb_digits ds : Forall (fun c => is_digit c = true) ds -> forallb is_digit ds = true.
Proof. induction 1; simpl; [done|]. by rewrite H, IHForall. Qed.

Lemma ParseInt_digits s ds :
  chars s = ds -> ds <> [] -> Forall (fun c => is_digit c = true) ds ->
  (digits_value ds <= max_int64)%Z -> ParseInt s = (digits_value ds, None).
Proof.
  intros Hs Hne Hd Hle. unfold ParseInt. rewrite Hs.
  assert (split_sign ds = (false, ds)) as ->.
  { destruct ds as [|c ds]; [done|]. inv Hd. simpl.
    destruct (is_digit_sign c) as [Hp Hm]; [done|]. by rewrite !decide_False. }
  rewrite bool_decide_false, forallb_digits by done. simpl. by rewrite decide_True.
Qed.

Lemma ParseInt_FormatInt x :
  (min_int64 <= x <= max_int64)%Z -> ParseInt (FormatInt x) = (x, None).
Proof.
  intros Hx. destruct (decide (0 <= x)%Z).
  - destruct (FormatInt_nonneg_spec x) as (ds & Hs & Hd & Hv & Hne); [done|].
    destruct Hne as [Hne _]. rewrite <- Hv at 2. eapply ParseInt_digits; eauto. rewrite Hv. lia.
  - destruct (FormatInt_neg_spec x) as (ds & Hs & Hd & Hv & Hne); [lia|].
    unfold ParseInt. rewrite Hs. simpl. rewrite bool_decide_false, forallb_digits by done. simpl.
    rewrite Hv, decide_True by (unfold min_int64, max_int64 in *; lia).
    f_equal. lia.
Qed.

Lemma wrap64_id z : (min_int64 <= z <= max_int64)%Z -> wrap64 z = z.
Proof. unfold wrap64, min_int64, max_int64. intros Hz. rewrite Z.mod_small by lia. lia. Qed.

Lemma wrap64_range z : (min_int64 <= wrap64 z <= max_int64)%Z.
Proof.
  unfold wrap64, min_int64, max_int64.
  pose proof (Z.mod_pos_bound (z + 9223372036854775808) 18446744073709551616). lia.
Qed.

#[export] Hint Resolve not_in_FormatInt not_in_appendInt : lottery.
