(* ===== verification/GoTime.v ===== *)
(** * Instants: the parts of package [time] the program relies on

    An instant is the number of nanoseconds since Go's zero time.  The draw
    digest prints instants with [t.UTC().Format(time.RFC3339Nano)]; the point
    of this file is that the printed form determines the instant. *)

From S2P Require Import Prelude GoFmt.
From Stdlib Require Import Ascii.

Definition Nanosecond : Z := 1.
Definition Microsecond : Z := 1000.
Definition Millisecond : Z := 1000000.
Definition Second : Z := 1000000000.
Definition Minute : Z := 60000000000.
Definition Hour : Z := 3600000000000.
Definition ns_per_day : Z := 86400000000000.

Definition IsZero (t : Z) : bool := bool_decide (t = 0)%Z.

(** [t.Truncate(d)]: rounded down to a multiple of [d] since the zero time. *)
Definition Truncate (t d : Z) : Z := (t - t `mod` d)%Z.

(** ** Calendar *)

Definition daysPer400Years : Z := 146097.
Definition daysPer100Years : Z := 36524.
Definition daysPer4Years : Z := 1461.

Definition isLeap (year : Z) : bool :=
  bool_decide (year `mod` 4 = 0 /\ (year `mod` 100 <> 0 \/ year `mod` 400 = 0))%Z.

Definition daysBefore : list Z :=
  [0; 31; 59; 90; 120; 151; 181; 212; 243; 273; 304; 334; 365]%Z.

Definition days_before (month : Z) : Z := default 0%Z (daysBefore !! Z.to_nat month).

(** Year and day of the year (from 0) of a day counted from 0001-01-01. *)
Definition year_yday (d : Z) : Z * Z :=
  (let n := d `div` daysPer400Years in
   let y := 400 * n in
   let d := d - daysPer400Years * n in
   let n := d `div` daysPer100Years in
   let n := n - n `div` 4 in
   let y := y + 100 * n in
   let d := d - daysPer100Years * n in
   let n := d `div` daysPer4Years in
   let y := y + 4 * n in
   let d := d - daysPer4Years * n in
   let n := d `div` 365 in
   let n := n - n `div` 4 in
   (y + n + 1, d - 365 * n))%Z.

(** Month (1-12) and day (1-31) of a day of the year. *)
Definition month_day (leap : bool) (yday : Z) : Z * Z :=
  (if leap && (yday =? 59) then (2, 29)
   else
     let day := if leap && (59 <? yday) then yday - 1 else yday in
     let month := day `div` 31 in
     let end_ := days_before (month + 1) in
     if end_ <=? day then (month + 2, day - end_ + 1)
     else (month + 1, day - days_before month + 1))%Z.

(** ** [Format(time.RFC3339Nano)] of an instant in UTC *)

(** The characters of a list without its trailing zeros. *)
Fixpoint trim_zeros (l : list ascii) : list ascii :=
  match l with
  | [] => []
  | c :: l' => match trim_zeros l' with
               | [] => if decide (c = "0"%char) then [] else [c]
               | l'' => c :: l''
               end
  end.

(** [appendNano]: the fraction, without trailing zeros, nothing if it is 0. *)
Definition appendNano (nanosec : Z) : list ascii :=
  if decide (nanosec = 0)%Z then []
  else "."%char :: trim_zeros (chars (appendInt nanosec 9)).

Definition format_date (d : Z) : list ascii :=
  let (year, yday) := year_yday d in
  let (month, day) := month_day (isLeap year) yday in
  chars (appendInt year 4) ++ "-"%char :: chars (appendInt month 2) ++
  "-"%char :: chars (appendInt day 2).

Definition format_clock (ns : Z) : list ascii :=
  chars (appendInt (ns `div` Hour) 2) ++ ":"%char ::
  chars (appendInt ((ns `div` Minute) `mod` 60) 2) ++ ":"%char ::
  chars (appendInt ((ns `div` Second) `mod` 60) 2) ++ appendNano (ns `mod` Second).

Definition FormatRFC3339Nano (t : Z) : string :=
  String.string_of_list_ascii
    (format_date (t `div` ns_per_day) ++ "T"%char ::
     format_clock (t `mod` ns_per_day) ++ ["Z"%char]).

Example format_example :
  FormatRFC3339Nano 63902919845123456000 = "2026-01-02T03:04:05.123456Z".
Proof. vm_compute. reflexivity. Qed.

(** ** The printed form determines the instant *)

(** The days before the first of January of year [y0 + 1]. *)
Definition days_before_year (y0 : Z) : Z :=
  (365 * y0 + y0 `div` 4 - y0 `div` 100 + y0 `div` 400)%Z.

Lemma days_before_year_split a b c e :
  (0 <= a)%Z -> (0 <= b <= 3)%Z -> (0 <= c <= 24)%Z -> (0 <= e <= 3)%Z ->
  days_before_year (400 * a + 100 * b + 4 * c + e) =
  (daysPer400Years * a + daysPer100Years * b + daysPer4Years * c + 365 * e)%Z.
Proof.
  intros. unfold days_before_year, daysPer400Years, daysPer100Years, daysPer4Years. 
  replace ((400 * a + 100 * b + 4 * c + e) `div` 4)%Z with (100 * a + 25 * b + c)%Z
    by (apply (Z.div_unique _ 4 _ e); lia).
  replace ((400 * a + 100 * b + 4 * c + e) `div` 100)%Z with (4 * a + b)%Z
    by (apply (Z.div_unique _ 100 _ (4 * c + e)); lia).
  replace ((400 * a + 100 * b + 4 * c + e) `div` 400)%Z with a
    by (apply (Z.div_unique _ 400 _ (100 * b + 4 * c + e)); lia).
  lia.
Qed.

Lemma cycle_bounds d q m :
  (0 < q)%Z -> (0 <= d)%Z -> (d <= 4 * q + m)%Z -> (0 <= m < q)%Z ->
  let n := (d `div` q - (d `div` q) `div` 4)%Z in
  (0 <= n <= 3)%Z /\ (0 <= d - q * n)%Z /\ (d - q * n <= q + m)%Z.
Proof.
  intros Hq Hd Hm Hmq n.
  assert (0 <= d `div` q <= 4)%Z as Hn.
  { split; [apply Z.div_pos; lia|]. apply Z.lt_succ_r, Z.div_lt_upper_bound; lia. }
  pose proof (Z.div_mod d q) as Hdm. pose proof (Z.mod_pos_bound d q Hq) as Hb.
  set (k := (d `div` q)%Z) in *. 
  assert (k = 4 \/ k <= 3)%Z as [Hk|Hk] by lia.
  - unfold n. rewrite Hk in *. change (4 `div` 4)%Z with 1%Z. lia.
  - assert (n = k) as ->. { unfold n. rewrite (Z.div_small k 4) by lia. lia. } lia.
Qed.

Lemma year_yday_spec d :
  (0 <= d)%Z ->
  (1 <= (year_yday d).1)%Z /\ (0 <= (year_yday d).2 < 366)%Z /\
  d = (days_before_year ((year_yday d).1 - 1) + (year_yday d).2)%Z.
Proof.
  intros Hd. unfold year_yday. simpl.
  set (a := (d `div` daysPer400Years)%Z).
  assert (0 <= a)%Z as Ha by (apply Z.div_pos; done).
  pose proof (Z.div_mod d daysPer400Years) as Hda.
  pose proof (Z.mod_pos_bound d daysPer400Years) as Hba. fold a in Hda.
  set (d1 := (d - daysPer400Years * a)%Z).
  assert (0 <= d1 < daysPer400Years)%Z as Hd1 by (unfold daysPer400Years in *; lia).
  destruct (cycle_bounds d1 daysPer100Years 0) as (Hb & Hlo2 & Hhi2);
    [done|lia|unfold daysPer400Years, daysPer100Years in *; lia|done|].
  set (b := (d1 `div` daysPer100Years - (d1 `div` daysPer100Years) `div` 4)%Z) in *.
  set (d2 := (d1 - daysPer100Years * b)%Z) in *.
  set (c := (d2 `div` daysPer4Years)%Z).
  pose proof (Z.div_mod d2 daysPer4Years) as Hdc.
  pose proof (Z.mod_pos_bound d2 daysPer4Years) as Hbc. fold c in Hdc.
  assert (0 <= c <= 24)%Z as Hc.
  { split; [by apply Z.div_pos|]. apply Z.lt_succ_r, Z.div_lt_upper_bound; [done|].
    unfold daysPer100Years, daysPer4Years in *. lia. }
  set (d3 := (d2 - daysPer4Years * c)%Z).
  assert (0 <= d3 < daysPer4Years)%Z as Hd3 by (unfold daysPer4Years in *; lia).
  destruct (cycle_bounds d3 365 0) as (He & Hlo4 & Hhi4);
    [done|lia|unfold daysPer4Years in *; lia|done|].
  set (e := (d3 `div` 365 - (d3 `div` 365) `div` 4)%Z) in *.
  replace (400 * a + 100 * b + 4 * c + e + 1 - 1)%Z
    with (400 * a + 100 * b + 4 * c + e)%Z by lia.
  rewrite days_before_year_split by done. unfold d3, d2, d1 in *. lia.
Qed.

(** The day of the year a month and day come from. *)
Definition yday_of (leap : bool) (md : Z * Z) : Z :=
  (days_before (md.1 - 1) + md.2 - 1 + (if leap && (2 <? md.1) then 1 else 0))%Z.

Lemma month_day_inverse_check :
  forallb (fun y => (yday_of true (month_day true y) =? y)%Z &&
                    (yday_of false (month_day false y) =? y)%Z &&
                    (0 <=? (month_day true y).1)%Z && (0 <=? (month_day true y).2)%Z &&
                    (0 <=? (month_day false y).1)%Z && (0 <=? (month_day false y).2)%Z)
          (seqZ 0 366) = true.
Proof. vm_compute. reflexivity. Qed.

Lemma month_day_spec leap y :
  (0 <= y < 366)%Z ->
  yday_of leap (month_day leap y) = y /\
  (0 <= (month_day leap y).1)%Z /\ (0 <= (month_day leap y).2)%Z.
Proof.
  intros Hy. pose proof month_day_inverse_check as Hc.
  rewrite forallb_forall in Hc. specialize (Hc y).
  rewrite <- list_elem_of_In, elem_of_seqZ in Hc. specialize (Hc Hy).
  rewrite !andb_true_iff, !Z.eqb_eq, !Z.leb_le in Hc. destruct leap; intuition auto.
Qed.

Lemma format_date_inj d1 d2 :
  (0 <= d1)%Z -> (0 <= d2)%Z -> format_date d1 = format_date d2 -> d1 = d2.
Proof.
  intros H1 H2. unfold format_date.
  pose proof (year_yday_spec d1 H1) as (Hy1 & Hb1 & Hd1).
  pose proof (year_yday_spec d2 H2) as (Hy2 & Hb2 & Hd2).
  destruct (year_yday d1) as [y1 yd1], (year_yday d2) as [y2 yd2]. simpl in *.
  pose proof (month_day_spec (isLeap y1) yd1 Hb1) as (Hi1 & Hm1 & Hday1).
  pose proof (month_day_spec (isLeap y2) yd2 Hb2) as (Hi2 & Hm2 & Hday2).
  destruct (month_day _ yd1) as [m1 dd1], (month_day _ yd2) as [m2 dd2]. simpl in *.
  intros [Hy Hrest]%split_at_sep; [|apply not_in_appendInt; [lia|done]..].
  apply split_at_sep in Hrest as [Hm Hd]; [|apply not_in_appendInt; [lia|done]..].
  apply chars_inj, appendInt_inj in Hy, Hm, Hd; try lia.
  by rewrite Hd1, Hd2, <- Hi1, <- Hi2, Hy, Hm, Hd.
Qed.

Lemma trim_zeros_spec l : exists k, l = trim_zeros l ++ replicate k "0"%char.
Proof.
  induction l as [|c l [k IH]]; [by exists 0|]. simpl.
  destruct (trim_zeros l) as [|c' l'] eqn:Ht.
  - case_decide as Hc.
    + exists (S k). simpl in *. by rewrite Hc, IH at 1.
    + exists k. simpl in *. by rewrite IH at 1.
  - exists k. simpl in *. by rewrite IH at 1.
Qed.

Lemma trim_zeros_inj l1 l2 :
  length l1 = length l2 -> trim_zeros l1 = trim_zeros l2 -> l1 = l2.
Proof.
  intros Hlen Heq. destruct (trim_zeros_spec l1) as [k1 H1], (trim_zeros_spec l2) as [k2 H2].
  rewrite H1, H2, !length_app, Heq, !length_replicate in Hlen.
  assert (k1 = k2) as -> by lia. rewrite H1, H2. by rewrite Heq.
Qed.

Lemma appendNano_inj sec1 sec2 n1 n2 :
  (0 <= n1 < Second)%Z -> (0 <= n2 < Second)%Z -> (0 <= sec1)%Z -> (0 <= sec2)%Z ->
  chars (appendInt sec1 2) ++ appendNano n1 = chars (appendInt sec2 2) ++ appendNano n2 ->
  sec1 = sec2 /\ n1 = n2.
Proof.
  intros Hn1 Hn2 Hs1 Hs2. unfold appendNano. repeat case_decide; subst.
  - rewrite !app_nil_r. intros ?%chars_inj%appendInt_inj; done.
  - rewrite app_nil_r. intros Heq. exfalso.
    apply (not_in_appendInt "." sec1 2); [done..|]. rewrite Heq.
    apply elem_of_app. right. constructor.
  - rewrite app_nil_r. intros Heq. exfalso.
    apply (not_in_appendInt "." sec2 2); [done..|]. rewrite <- Heq.
    apply elem_of_app. right. constructor.
  - intros [Hs Hn]%split_at_sep; [|by apply not_in_appendInt..].
    apply chars_inj, appendInt_inj in Hs; [|done..]. split; [done|].
    apply trim_zeros_inj in Hn; [apply chars_inj, appendInt_inj in Hn; [done|lia..]|].
    change Second with (10 ^ Z.of_nat 9)%Z in *. by rewrite !appendInt_length by lia.
Qed.

(** The clock as hours, minutes, seconds and nanoseconds. *)
Lemma clock_split c :
  (c = c `div` Hour * Hour + (c `div` Minute) `mod` 60 * Minute +
       (c `div` Second) `mod` 60 * Second + c `mod` Second)%Z.
Proof.
  pose proof (Z.div_mod c Second) as E1. pose proof (Z.div_mod (c `div` Second) 60) as E2.
  pose proof (Z.div_mod (c `div` Minute) 60) as E3. rewrite Z.div_div in E2, E3 by done.
  change (Second * 60)%Z with Minute in E2. change (Minute * 60)%Z with Hour in E3.
  unfold Hour, Minute, Second in *. lia.
Qed.

Lemma format_clock_inj c1 c2 :
  (0 <= c1 < ns_per_day)%Z -> (0 <= c2 < ns_per_day)%Z ->
  format_clock c1 = format_clock c2 -> c1 = c2.
Proof.
  intros H1 H2. unfold format_clock.
  assert (forall c, (0 <= c)%Z -> (0 <= c `div` Hour)%Z) as Hh by (intros; by apply Z.div_pos).
  assert (forall c k, (0 <= (c `div` k) `mod` 60)%Z) as Hm
    by (intros; by apply Z.mod_pos_bound).
  intros [Eh Hrest]%split_at_sep; [|apply not_in_appendInt; [apply Hh; lia|done]..].
  apply split_at_sep in Hrest as [Em Hrest]; [|by apply not_in_appendInt..].
  apply appendNano_inj in Hrest as [Es En]; [|by apply Z.mod_pos_bound|by apply Z.mod_pos_bound|done..].
  apply chars_inj, appendInt_inj in Eh, Em; auto; [|apply Hh; lia..].
  rewrite (clock_split c1), (clock_split c2). congruence.
Qed.

Lemma not_in_format_date d c :
  (0 <= d)%Z -> is_digit c = false -> c <> "-"%char -> c ∉ format_date d.
Proof.
  intros Hd Hc Hm. unfold format_date.
  pose proof (year_yday_spec d Hd) as (Hy & Hb & _).
  destruct (year_yday d) as [y yd]. simpl in *.
  pose proof (month_day_spec (isLeap y) yd Hb) as (_ & Hmo & Hda).
  destruct (month_day _ yd) as [m dd]. simpl in *.
  rewrite !elem_of_app, !elem_of_cons, !elem_of_app, !elem_of_cons.
  intros [H|[H|[H|[H|H]]]]; try done;
    (eapply not_in_appendInt; [|exact Hc|exact H]; lia).
Qed.

Lemma chars_FormatRFC3339Nano t :
  chars (FormatRFC3339Nano t) =
  format_date (t `div` ns_per_day)%Z ++ "T"%char ::
  format_clock (t `mod` ns_per_day)%Z ++ ["Z"%char].
Proof. apply String.list_ascii_of_string_of_list_ascii. Qed.

Lemma split_stamp (a a' b b' : list ascii) :
  "T"%char ∉ a -> "T"%char ∉ a' ->
  a ++ "T"%char :: b ++ ["Z"%char] = a' ++ "T"%char :: b' ++ ["Z"%char] -> a = a' /\ b = b'.
Proof. intros Ha Ha' [-> [-> _]%app_inj_tail]%split_at_sep; done. Qed.

(** Two non-negative instants with the same printed form are equal. *)
Lemma FormatRFC3339Nano_inj t1 t2 :
  (0 <= t1)%Z -> (0 <= t2)%Z -> FormatRFC3339Nano t1 = FormatRFC3339Nano t2 -> t1 = t2.
Proof.
  intros H1 H2 Heq.
  assert (forall t, (0 <= t)%Z -> (0 <= t `div` ns_per_day)%Z) as Hday
    by (intros t Ht; exact (Z.div_pos t ns_per_day Ht eq_refl)).
  apply (f_equal String.list_ascii_of_string) in Heq.
  rewrite !chars_FormatRFC3339Nano in Heq.
  apply split_stamp in Heq as [Hd Hc]; [|apply not_in_format_date; [by apply Hday|done..]..].
  apply format_date_inj in Hd; [|by apply Hday..].
  apply format_clock_inj in Hc; [|exact (Z.mod_pos_bound _ ns_per_day eq_refl)..].
  rewrite (Z.div_mod t1 ns_per_day), (Z.div_mod t2 ns_per_day) by discriminate.
  by rewrite Hd, Hc.
Qed.

Lemma trim_zeros_incl l c : c ∈ trim_zeros l -> c ∈ l.
Proof. destruct (trim_zeros_spec l) as [k Hk]. intros ?. rewrite Hk. apply elem_of_app. auto. Qed.

(** No line break in a printed instant. *)
Lemma FormatRFC3339Nano_newline t :
  (0 <= t)%Z -> "010"%char ∉ chars (FormatRFC3339Nano t).
Proof.
  intros Ht. rewrite chars_FormatRFC3339Nano.
  assert (0 <= t `div` ns_per_day)%Z by (by apply Z.div_pos).
  pose proof (Z.mod_pos_bound t ns_per_day eq_refl) as Hc.
  unfold format_clock, appendNano.
  rewrite !elem_of_app, elem_of_cons, !elem_of_app, elem_of_cons, elem_of_app, elem_of_cons,
    elem_of_app, list_elem_of_singleton.
  assert (forall x n, (0 <= x)%Z -> "010"%char ∉ chars (appendInt x n)) as Hi
    by (intros; by apply not_in_appendInt).
  assert (0 <= (t `mod` ns_per_day) `div` Hour)%Z by (apply Z.div_pos; [lia|done]).
  intros [Hin|[?|[[Hin|[?|[Hin|[?|[Hin|Hin]]]]]|?]]]; try done;
    try by (revert Hin; apply Hi; try done; by apply Z.mod_pos_bound).
  - by revert Hin; apply not_in_format_date.
  - case_decide; [by apply not_elem_of_nil in Hin|].
    apply elem_of_cons in Hin as [|Hin%trim_zeros_incl]; [done|].
    revert Hin. apply Hi. by apply Z.mod_pos_bound.
Qed.

(** ** Truncation *)

Lemma Truncate_nonneg t d : (0 < d)%Z -> (0 <= t)%Z -> (0 <= Truncate t d)%Z.
Proof. intros Hd Ht. unfold Truncate. pose proof (Z.mod_le t d). lia. Qed.

(** ** [time.Parse(time.RFC3339, ...)] *)

(** [getnum]: one or two digits; two if [fixed]. *)
Definition getnum (l : list ascii) (fixed : bool) : option (Z * list ascii) :=
  match l with
  | c :: l1 =>
    if is_digit c then
      match l1 with
      | d :: l2 => if is_digit d then Some (digits_value [c; d], l2)
                   else if fixed then None else Some (digits_value [c], l1)
      | [] => if fixed then None else Some (digits_value [c], [])
      end
    else None
  | [] => None
  end.

(** Four digits. *)
Definition get_year (l : list ascii) : option (Z * list ascii) :=
  match l with
  | a :: b :: c :: d :: l' => if forallb is_digit [a; b; c; d] then Some (digits_value [a; b; c; d], l') else None
  | _ => None
  end.

Definition skip_char (c : ascii) (l : list ascii) : option (list ascii) :=
  match l with
  | x :: l' => if decide (x = c) then Some l' else None
  | [] => None
  end.

Fixpoint leading_digits (l : list ascii) : list ascii * list ascii :=
  match l with
  | c :: l' => if is_digit c then let (a, b) := leading_digits l' in (c :: a, b) else ([], l)
  | [] => ([], [])
  end.

(** [parseNanoseconds]: the digits beyond the ninth are dropped. *)
Definition parseNanoseconds (ds : list ascii) : Z :=
  let ds := take 9 ds in (digits_value ds * 10 ^ Z.of_nat (9 - length ds))%Z.

(** The fraction after the seconds, which the layout does not mention: a point
    or a comma and at least one digit. *)
Definition get_fraction (l : list ascii) : Z * list ascii :=
  match l with
  | c :: d :: l' =>
    if bool_decide (c = "."%char \/ c = ","%char) && is_digit d
    then let (ds, rest) := leading_digits (d :: l') in (parseNanoseconds ds, rest)
    else (0%Z, l)
  | _ => (0%Z, l)
  end.

(** [Z07:00]: the offset from UTC in seconds. *)
Definition get_zone (l : list ascii) : option (Z * list ascii) :=
  match l with
  | c :: l' =>
    if decide (c = "Z"%char) then Some (0%Z, l')
    else match l' with
    | h1 :: h2 :: colon :: m1 :: m2 :: rest =>
      if decide (colon = ":"%char) then
        '(hr, _) ← getnum [h1; h2] true; '(mm, _) ← getnum [m1; m2] true;
        if decide (24 < hr \/ 60 < mm)%Z then None
        else if decide (c = "+"%char) then Some ((hr * 60 + mm) * 60, rest)%Z
        else if decide (c = "-"%char) then Some (- ((hr * 60 + mm) * 60), rest)%Z
        else None
      else None
    | _ => None
    end
  | [] => None
  end.

Definition daysIn (month year : Z) : Z :=
  if decide (month = 2 /\ isLeap year = true)%Z then 29
  else days_before month - days_before (month - 1).

Definition in_bounds (lo hi x : Z) : option unit := if decide (lo <= x <= hi)%Z then Some tt else None.

Definition ParseRFC3339 (l : list ascii) : option Z :=
  '(year, l) ← get_year l; l ← skip_char "-" l;
  '(month, l) ← getnum l true; _ ← in_bounds 1 12 month; l ← skip_char "-" l;
  '(day, l) ← getnum l true; l ← skip_char "T" l;
  '(hour, l) ← getnum l false; _ ← in_bounds 0 23 hour; l ← skip_char ":" l;
  '(min, l) ← getnum l true; _ ← in_bounds 0 59 min; l ← skip_char ":" l;
  '(sec, l) ← getnum l true; _ ← in_bounds 0 59 sec;
  let (nsec, l) := get_fraction l in
  '(zone, l) ← get_zone l;
  if decide (l = []) then
    _ ← in_bounds 1 (daysIn month year) day;
    Some ((days_before_year (year - 1) + yday_of (isLeap year) (month, day)) * ns_per_day +
          hour * Hour + min * Minute + (sec - zone) * Second + nsec)%Z
  else None.

(** [Time.MarshalJSON] and [UnmarshalJSON] of an instant in UTC: years beyond
    9999 cannot be printed, and the text between the quotes is read as it is,
    without unescaping. *)
Definition max_time : Z := 315537897600000000000.

(** *** Reading a printed instant *)

Lemma quarter n : (0 <= n <= 4)%Z -> (n - n `div` 4 = if decide (n = 4) then 3 else n)%Z.
Proof. intros Hn. case_decide as H4; [by rewrite H4|]. rewrite (Z.div_small n 4); lia. Qed.

(** Only leap years have 366 days. *)
Lemma year_yday_leap d :
  (0 <= d)%Z -> isLeap (year_yday d).1 = false -> ((year_yday d).2 < 365)%Z.
Proof.
  intros Hd. unfold year_yday, isLeap, daysPer400Years, daysPer100Years, daysPer4Years. cbn [fst snd].
  set (a := (d `div` 146097)%Z). set (d1 := (d - 146097 * a)%Z).
  set (n := (d1 `div` 36524)%Z). set (b := (n - n `div` 4)%Z). set (d2 := (d1 - 36524 * b)%Z).
  set (c := (d2 `div` 1461)%Z). set (d3 := (d2 - 1461 * c)%Z).
  set (e' := (d3 `div` 365)%Z). set (e := (e' - e' `div` 4)%Z).
  rewrite bool_decide_eq_false. intros Hleap.
  destruct (decide (d3 - 365 * e < 365)%Z) as [|Hyd]; [done|exfalso].
  assert (0 <= d1 < 146097)%Z as Hd1 by (unfold d1, a; Z.to_euclidean_division_equations; lia).
  assert (0 <= n <= 4 /\ 36524 * n <= d1 < 36524 * n + 36524)%Z as Hn
    by (unfold n; Z.to_euclidean_division_equations; lia).
  assert (b = if decide (n = 4) then 3 else n)%Z as Hb.
  { apply quarter. lia. }
  assert (0 <= d2 <= 36524)%Z as Hd2 by (unfold d2; rewrite Hb; case_decide; lia).
  assert (0 <= c <= 24 /\ 1461 * c <= d2 < 1461 * c + 1461)%Z as Hc
    by (unfold c; Z.to_euclidean_division_equations; lia).
  assert (0 <= d3 <= 1460)%Z as Hd3 by (unfold d3; lia).
  assert (0 <= e' <= 4 /\ 365 * e' <= d3 < 365 * e' + 365)%Z as He
    by (unfold e'; Z.to_euclidean_division_equations; lia).
  assert (e = if decide (e' = 4) then 3 else e')%Z as He'.
  { apply quarter. lia. }
  destruct (decide (e' = 4)%Z) as [H4|H4]; [|lia].
  clearbody e e'. clear He. apply Hleap. unfold d3, d2 in *. clearbody c d1 n a b.
  destruct (decide (n = 4)%Z); Z.to_euclidean_division_equations; lia.
Qed.

Lemma days_before_year_mono y z : (y <= z)%Z -> (days_before_year y <= days_before_year z)%Z.
Proof. intros Hyz. unfold days_before_year. Z.to_euclidean_division_equations. lia. Qed.

(** Month and day of a day of the year are in range. *)
Lemma month_day_bounds_check :
  forallb (fun p : bool * Z => let (leap, y) := p in
    let (m, d) := month_day leap y in
    (1 <=? m)%Z && (m <=? 12)%Z && (1 <=? d)%Z &&
    (d <=? if leap && (m =? 2)%Z then 29 else days_before m - days_before (m - 1))%Z)
    (((fun y => (true, y)) <$> seqZ 0 366) ++ ((fun y => (false, y)) <$> seqZ 0 365)) = true.
Proof. vm_compute. reflexivity. Qed.

Lemma month_day_bounds year y :
  (0 <= y < if isLeap year then 366 else 365)%Z ->
  let (m, d) := month_day (isLeap year) y in (1 <= m <= 12)%Z /\ (1 <= d <= daysIn m year)%Z.
Proof.
  intros Hy. pose proof month_day_bounds_check as Hc. rewrite forallb_forall in Hc.
  specialize (Hc (isLeap year, y)). rewrite <- list_elem_of_In, elem_of_app in Hc.
  assert ((isLeap year, y) ∈ (fun y => (true, y)) <$> seqZ 0 366 \/
          (isLeap year, y) ∈ (fun y => (false, y)) <$> seqZ 0 365) as Hin.
  { destruct (isLeap year); [left|right]; apply list_elem_of_fmap_2, elem_of_seqZ; lia. }
  specialize (Hc Hin). cbv beta iota in Hc. destruct (month_day (isLeap year) y) as [m d].
  rewrite !andb_true_iff, !Z.leb_le in Hc. destruct Hc as [[[Hm1 Hm2] Hd1] Hd2]. split; [done|].
  split; [done|]. unfold daysIn. 
  case_decide as Hcd; [destruct Hcd as [-> Hl]; by rewrite Hl in Hd2|].
  destruct (isLeap year), (Z.eqb_spec m 2); cbn [andb] in Hd2; try done. by destruct Hcd.
Qed.

(** Two digits, four digits. *)
Lemma appendInt_digits x w :
  (0 <= x < 10 ^ Z.of_nat w)%Z -> 0 < w ->
  length (chars (appendInt x w)) = w /\ Forall (fun c => is_digit c = true) (chars (appendInt x w)) /\
  digits_value (chars (appendInt x w)) = x.
Proof.
  intros Hx Hw. split; [by apply appendInt_length|]. apply appendInt_spec. lia.
Qed.

Lemma getnum_appendInt x fixed r : (0 <= x < 100)%Z -> getnum (chars (appendInt x 2) ++ r) fixed = Some (x, r).
Proof.
  intros Hx. destruct (appendInt_digits x 2 Hx ltac:(lia)) as (Hlen & Hd & Hv).
  destruct (chars (appendInt x 2)) as [|c [|d [|]]]; try done. cbn [app getnum].
  apply Forall_cons in Hd as [-> Hd]. apply Forall_inv in Hd as ->. by rewrite Hv.
Qed.

Lemma get_year_appendInt x r : (0 <= x < 10000)%Z -> get_year (chars (appendInt x 4) ++ r) = Some (x, r).
Proof.
  intros Hx. destruct (appendInt_digits x 4 Hx ltac:(lia)) as (Hlen & Hd & Hv).
  destruct (chars (appendInt x 4)) as [|a [|b [|c [|d [|]]]]]; try done. cbn [app get_year].
  by rewrite forallb_digits, Hv by done.
Qed.

Lemma leading_digits_app ds c r :
  Forall (fun c => is_digit c = true) ds -> is_digit c = false -> leading_digits (ds ++ c :: r) = (ds, c :: r).
Proof.
  intros Hd Hc. induction Hd as [|x ds Hx _ IH]; cbn [app leading_digits]; [by rewrite Hc|]. by rewrite Hx, IH.
Qed.

Lemma get_fraction_appendNano n r :
  (0 <= n < Second)%Z -> get_fraction (appendNano n ++ "Z"%char :: r) = (n, "Z"%char :: r).
Proof.
  intros Hn. unfold appendNano. case_decide as H0; [subst; by destruct r|].
  destruct (appendInt_digits n 9 Hn ltac:(lia)) as (Hlen & Hd & Hv).
  destruct (trim_zeros_spec (chars (appendInt n 9))) as [k Hk].
  set (ds := trim_zeros (chars (appendInt n 9))) in *. rewrite Hk in Hd, Hv, Hlen.
  apply Forall_app in Hd as [Hd _]. rewrite digits_value_app, digits_value_zeros, length_replicate in Hv.
  rewrite length_app, length_replicate in Hlen.
  destruct ds as [|d ds]; [cbn in Hv; lia|]. cbn [app get_fraction].
  rewrite bool_decide_true by auto. pose proof (Forall_inv Hd) as ->. cbn [andb].
  change (d :: ds ++ "Z"%char :: r) with ((d :: ds) ++ "Z"%char :: r).
  rewrite leading_digits_app by done. unfold parseNanoseconds. rewrite take_ge by lia.
  replace (9 - length (d :: ds)) with k by lia. f_equal. lia.
Qed.

(** The steps of reading a printed field and a separator. *)
Ltac read_field :=
  rewrite <- ?app_assoc; cbn [app]; rewrite getnum_appendInt by lia; cbn [mbind option_bind].
Ltac read_char :=
  cbn [skip_char]; rewrite decide_True by done; cbn [mbind option_bind].

(** Reading a printed instant gives it back, up to the year 9999. *)
Lemma ParseRFC3339_Format t :
  (0 <= t < max_time)%Z -> ParseRFC3339 (chars (FormatRFC3339Nano t)) = Some t.
Proof.
  intros Ht. rewrite chars_FormatRFC3339Nano. unfold format_date, format_clock.
  assert (0 <= t `div` ns_per_day < 3652059)%Z as Hday.
  { split; [apply Z.div_pos; [lia|done]|]. apply Z.div_lt_upper_bound; [done|].
    unfold ns_per_day, max_time in *. lia. }
  pose proof (year_yday_spec _ (proj1 Hday)) as (Hy & Hyd & Hsum).
  pose proof (year_yday_leap _ (proj1 Hday)) as Hleap.
  destruct (year_yday (t `div` ns_per_day)) as [year yd]. cbn [fst snd] in *.
  assert (year <= 9999)%Z as Hy2.
  { destruct (decide (year <= 9999)%Z) as [|Hn]; [done|].
    pose proof (days_before_year_mono 9999 (year - 1) ltac:(lia)) as Hm.
    change (days_before_year 9999) with 3652059%Z in Hm. lia. }
  assert (0 <= yd < if isLeap year then 366 else 365)%Z as Hyd2.
  { destruct (isLeap year); [lia|]. specialize (Hleap eq_refl). lia. }
  pose proof (month_day_bounds year yd Hyd2) as Hb. pose proof (month_day_spec (isLeap year) yd Hyd) as (Hinv & _).
  destruct (month_day (isLeap year) yd) as [month day]. destruct Hb as [Hm Hd].
  assert (daysIn month year <= 31)%Z as Hd31.
  { clear -Hm. unfold daysIn, days_before. case_decide; [lia|].
    assert (month ∈ seqZ 1 12) as Hin by (apply elem_of_seqZ; lia). vm_compute in Hin.
    repeat (apply elem_of_cons in Hin as [->|Hin]; [vm_compute; discriminate|]). by apply not_elem_of_nil in Hin. }
  pose proof (Z.mod_pos_bound t ns_per_day eq_refl) as Hc. set (c := (t `mod` ns_per_day)%Z) in *.
  assert (0 <= c `div` Hour <= 23)%Z as Hh.
  { split; [by apply Z.div_pos; [lia|]|]. apply Z.lt_succ_r, Z.div_lt_upper_bound; [done|].
    unfold ns_per_day, Hour in *. lia. }
  pose proof (Z.mod_pos_bound (c `div` Minute) 60 eq_refl) as Hmin.
  pose proof (Z.mod_pos_bound (c `div` Second) 60 eq_refl) as Hsec.
  pose proof (Z.mod_pos_bound c Second eq_refl) as Hns.
  assert (forall lo hi x, (lo <= x <= hi)%Z -> in_bounds lo hi x = Some tt) as Hin
    by (intros; unfold in_bounds; by rewrite decide_True).
  unfold ParseRFC3339. rewrite <- !app_assoc. cbn [app].
  rewrite get_year_appendInt by lia. cbn [mbind option_bind]. read_char.
  read_field. rewrite Hin by done. cbn [mbind option_bind]. read_char. read_field. read_char.
  read_field. rewrite Hin by done. cbn [mbind option_bind]. read_char.
  read_field. rewrite Hin by lia. cbn [mbind option_bind]. read_char.
  read_field. rewrite Hin by lia. cbn [mbind option_bind].
  rewrite get_fraction_appendNano by done. cbn [get_zone].
  rewrite decide_True by done. cbn [mbind option_bind]. rewrite decide_True by done.
  rewrite Hin by done. cbn [mbind option_bind]. f_equal.
  rewrite Hinv, <- Hsum. pose proof (clock_split c) as Hclock.
  pose proof (Z.div_mod t ns_per_day) as Hdm. fold c in Hdm. lia.
Qed.
