(* ===== verification/GoString.v ===== *)
(** * Strings: the parts of package [strings] the program uses

    Go strings are byte sequences; white space is Unicode white space in its
    UTF-8 encoding. *)

From S2P Require Import Prelude GoFmt.
From Stdlib Require Import Ascii.

(** ** [strings.TrimSpace] *)

Definition byte_char (n : N) : ascii := ascii_of_N n.

(** The UTF-8 encodings of the runes [unicode.IsSpace] accepts. *)
Definition space_runes : list (list ascii) :=
  map (fun bs : list N => byte_char <$> bs)
  [[9]; [10]; [11]; [12]; [13]; [32];                       (* \t \n \v \f \r space *)
   [194; 133]; [194; 160];                                  (* U+0085 U+00A0 *)
   [225; 154; 128];                                         (* U+1680 *)
   [226; 128; 128]; [226; 128; 129]; [226; 128; 130]; [226; 128; 131];
   [226; 128; 132]; [226; 128; 133]; [226; 128; 134]; [226; 128; 135];
   [226; 128; 136]; [226; 128; 137]; [226; 128; 138];       (* U+2000 - U+200A *)
   [226; 128; 168]; [226; 128; 169]; [226; 128; 175];       (* U+2028 U+2029 U+202F *)
   [226; 129; 159]; [227; 128; 128]]%N.                     (* U+205F U+3000 *)

(** [l] without the prefix [p], if it has it. *)
Fixpoint strip_prefix (p l : list ascii) : option (list ascii) :=
  match p, l with
  | [], _ => Some l
  | x :: p', y :: l' => if decide (x = y) then strip_prefix p' l' else None
  | _ :: _, [] => None
  end.

(** [l] without the first of [ps] that is a prefix of it. *)
Fixpoint strip_any (ps : list (list ascii)) (l : list ascii) : option (list ascii) :=
  match ps with
  | [] => None
  | p :: ps' => match strip_prefix p l with
                | Some l' => Some l'
                | None => strip_any ps' l
                end
  end.

(** Strip as often as possible; every strip shortens the list, so its length
    is fuel enough. *)
Fixpoint strip_all (fuel : nat) (ps : list (list ascii)) (l : list ascii) : list ascii :=
  match fuel with
  | O => l
  | S fuel' => match strip_any ps l with
               | Some l' => strip_all fuel' ps l'
               | None => l
               end
  end.

Definition trim_left (l : list ascii) : list ascii := strip_all (length l) space_runes l.
Definition trim_right (l : list ascii) : list ascii :=
  reverse (strip_all (length l) (reverse <$> space_runes) (reverse l)).

Definition TrimSpace (s : string) : string :=
  String.string_of_list_ascii (trim_right (trim_left (chars s))).

(** [len(s)]: the number of bytes. *)
Definition len (s : string) : Z := Z.of_nat (String.length s).

(** [strings.Contains]. *)
Fixpoint contains_in (sub l : list ascii) : bool :=
  match strip_prefix sub l with
  | Some _ => true
  | None => match l with [] => false | _ :: l' => contains_in sub l' end
  end.

Definition Contains (s substr : string) : bool := contains_in (chars substr) (chars s).

(** [strings.HasPrefix]. *)
Definition HasPrefix (s prefix : string) : bool :=
  match strip_prefix (chars prefix) (chars s) with Some _ => true | None => false end.

(** ** UTF-8 validity *)

Definition byte_val (c : ascii) : N := N_of_ascii c.
Definition in_range (lo hi : N) (c : ascii) : bool := ((lo <=? byte_val c) && (byte_val c <=? hi))%N.
Definition cont_byte : ascii -> bool := in_range 128 191.

(** The well-formed sequences of the Unicode standard: no overlong forms, no
    surrogates, nothing beyond U+10FFFF. *)
Fixpoint utf8_valid (l : list ascii) : bool :=
  match l with
  | [] => true
  | c :: l1 =>
    if in_range 0 127 c then utf8_valid l1
    else match l1 with
    | [] => false
    | c1 :: l2 =>
      if in_range 194 223 c then cont_byte c1 && utf8_valid l2
      else match l2 with
      | [] => false
      | c2 :: l3 =>
        if in_range 224 239 c then
          (if in_range 224 224 c then in_range 160 191 c1
           else if in_range 237 237 c then in_range 128 159 c1
           else cont_byte c1) && cont_byte c2 && utf8_valid l3
        else match l3 with
        | [] => false
        | c3 :: l4 =>
          in_range 240 244 c &&
          (if in_range 240 240 c then in_range 144 191 c1
           else if in_range 244 244 c then in_range 128 143 c1
           else cont_byte c1) && cont_byte c2 && cont_byte c3 && utf8_valid l4
        end
      end
    end
  end.

Example TrimSpace_example : TrimSpace "  a b	" = "a b".
Proof. reflexivity. Qed.

(** ** Lemmas *)

Lemma strip_prefix_spec p l l' : strip_prefix p l = Some l' <-> l = p ++ l'.
Proof.
  revert l. induction p as [|x p IH]; intros l; simpl; [naive_solver|].
  destruct l as [|y l]; [done|]. case_decide as Hxy.
  - subst. rewrite IH. naive_solver.
  - naive_solver.
Qed.

Lemma strip_any_spec ps l l' :
  strip_any ps l = Some l' -> exists p, p ∈ ps /\ l = p ++ l'.
Proof.
  induction ps as [|p ps IH]; simpl; [done|].
  destruct (strip_prefix p l) as [l''|] eqn:Hp.
  - intros [= ->]. exists p. apply strip_prefix_spec in Hp. set_solver.
  - intros (p' & Hp' & ->)%IH. exists p'. set_solver.
Qed.

Lemma strip_any_None ps l : strip_any ps l = None <-> forall p, p ∈ ps -> ~ exists l', l = p ++ l'.
Proof.
  induction ps as [|p ps IH]; simpl; [split; [by intros _ p ?%not_elem_of_nil|done]|].
  destruct (strip_prefix p l) as [l''|] eqn:Hp.
  - split; [done|]. intros Hn. destruct (Hn p); [constructor|].
    exists l''. by apply strip_prefix_spec.
  - rewrite IH. split; intros H p' Hp'.
    + apply elem_of_cons in Hp' as [->|Hp']; [|auto].
      intros [l' Hl']. apply strip_prefix_spec in Hl'. congruence.
    + apply H. by constructor.
Qed.

(** [strip_all] stops only when nothing can be stripped. *)
Lemma strip_all_done fuel ps l :
  Forall (fun p => p <> []) ps -> length l <= fuel ->
  strip_any ps (strip_all fuel ps l) = None.
Proof.
  intros Hps. revert l. induction fuel as [|fuel IH]; intros l Hl; simpl.
  - apply strip_any_None. intros p Hp [l' ->].
    rewrite Forall_forall in Hps. specialize (Hps p Hp).
    destruct p; [done|simpl in Hl; lia].
  - destruct (strip_any ps l) as [l'|] eqn:Hs; [|done].
    apply IH. apply strip_any_spec in Hs as (p & Hp & ->).
    rewrite Forall_forall in Hps. specialize (Hps p Hp).
    destruct p; [done|]. simpl in Hl. rewrite length_app in Hl. lia.
Qed.

Lemma strip_all_suffix fuel ps l : exists p, l = p ++ strip_all fuel ps l.
Proof.
  revert l. induction fuel as [|fuel IH]; intros l; simpl; [by exists []|].
  destruct (strip_any ps l) as [l'|] eqn:Hs; [|by exists []].
  apply strip_any_spec in Hs as (p & _ & ->). destruct (IH l') as [p' Hp'].
  exists (p ++ p'). rewrite <- app_assoc. by rewrite <- Hp'.
Qed.

Lemma strip_all_id fuel ps l : strip_any ps l = None -> strip_all fuel ps l = l.
Proof. intros Hs. destruct fuel; simpl; [done|]. by rewrite Hs. Qed.

Lemma space_runes_nonempty :
  Forall (fun p => p <> []) space_runes /\ Forall (fun p => p <> []) (reverse <$> space_runes).
Proof. split; apply (bool_decide_unpack _); vm_compute; exact I. Qed.

(** A trimmed string starts and ends with no space, and is the string between
    two stretches that were cut off. *)
Lemma TrimSpace_spec s :
  exists p q, chars s = p ++ chars (TrimSpace s) ++ q /\
    strip_any (reverse <$> space_runes) (reverse (chars (TrimSpace s))) = None.
Proof.
  unfold TrimSpace. rewrite String.list_ascii_of_string_of_list_ascii.
  unfold trim_right, trim_left. set (l1 := strip_all _ _ (chars s)).
  destruct (strip_all_suffix (length (chars s)) space_runes (chars s)) as [p Hp].
  destruct (strip_all_suffix (length l1) (reverse <$> space_runes) (reverse l1)) as [q Hq].
  exists p, (reverse q). rewrite reverse_involutive. split.
  - rewrite <- reverse_app, <- Hq, reverse_involutive. done.
  - apply strip_all_done; [apply space_runes_nonempty|by rewrite length_reverse].
Qed.

Lemma TrimSpace_length s : String.length (TrimSpace s) <= String.length s.
Proof.
  destruct (TrimSpace_spec s) as (p & q & Hs & _). apply (f_equal length) in Hs.
  rewrite !length_app, !chars_length in Hs. lia.
Qed.

(** A string that neither starts nor ends with a space is left as it is. *)
Lemma TrimSpace_id s :
  strip_any space_runes (chars s) = None ->
  strip_any (reverse <$> space_runes) (reverse (chars s)) = None -> TrimSpace s = s.
Proof.
  intros Hl Hr. unfold TrimSpace, trim_left, trim_right. rewrite (strip_all_id _ _ (chars s)) by done.
  rewrite strip_all_id by done. by rewrite reverse_involutive, String.string_of_list_ascii_of_string.
Qed.

Lemma TrimSpace_idemp s : TrimSpace (TrimSpace s) = TrimSpace s.
Proof.
  apply TrimSpace_id; [|by destruct (TrimSpace_spec s) as (_ & _ & _ & ?)].
  apply strip_any_None. intros p Hp [l' Hl].
  assert (strip_any space_runes (trim_left (chars s)) = None) as Hn
    by (apply strip_all_done; [apply space_runes_nonempty|done]).
  rewrite strip_any_None in Hn. apply (Hn p Hp).
  unfold TrimSpace in Hl. rewrite String.list_ascii_of_string_of_list_ascii in Hl.
  unfold trim_right in Hl. set (l1 := trim_left (chars s)) in *.
  destruct (strip_all_suffix (length l1) (reverse <$> space_runes) (reverse l1)) as [q Hq].
  exists (l' ++ reverse q). rewrite app_assoc, <- Hl, <- reverse_app, <- Hq. by rewrite reverse_involutive.
Qed.

(** ** [strings.ToLower] *)

Definition is_ascii (c : ascii) : bool := (byte_val c <? 128)%N.

(** ['A'..'Z'] become ['a'..'z']. *)
Definition lower_byte (c : ascii) : ascii :=
  if in_range 65 90 c then byte_char (byte_val c + 32) else c.

(** The Unicode tables [strings.ToLower] consults for a string with a byte
    beyond ASCII. *)
Class UnicodeLower := unicode_lower : string -> string.

(** The fast path of [strings.ToLower] is bytewise. *)
Definition ToLower `{UnicodeLower} (s : string) : string :=
  if forallb is_ascii (chars s)
  then String.string_of_list_ascii (lower_byte <$> chars s)
  else unicode_lower s.

(** *** Lowering and trimming commute on ASCII *)

Definition ascii_space (c : ascii) : bool := in_range 9 13 c || in_range 32 32 c.

Lemma strip_any_ascii c l :
  is_ascii c = true ->
  strip_any space_runes (c :: l) = (if ascii_space c then Some l else None) /\
  strip_any (reverse <$> space_runes) (c :: l) = (if ascii_space c then Some l else None).
Proof.
  destruct c as [[] [] [] [] [] [] [] []]; intros Hc; try discriminate Hc; split; reflexivity.
Qed.

(** ASCII text whose ends are no spaces: trimming removes the spaces around it. *)
Definition solid (c : ascii) : bool := is_ascii c && negb (ascii_space c).

Lemma strip_any_solid c l :
  solid c = true ->
  strip_any space_runes (c :: l) = None /\ strip_any (reverse <$> space_runes) (c :: l) = None.
Proof.
  intros [Ha Hs]%andb_prop. destruct (strip_any_ascii c l Ha) as [-> ->].
  destruct (ascii_space c); [discriminate Hs|split; reflexivity].
Qed.

Lemma TrimSpace_solid s :
  Forall (fun c => solid c = true) (chars s) -> TrimSpace s = s.
Proof.
  intros Hs. apply TrimSpace_id.
  - destruct Hs as [|c l Hc _]; [reflexivity|]. exact (proj1 (strip_any_solid c l Hc)).
  - apply Forall_reverse in Hs. destruct Hs as [|c l Hc _]; [reflexivity|].
    exact (proj2 (strip_any_solid c l Hc)).
Qed.

Lemma TrimSpace_lead s :
  Forall (fun c => solid c = true) (chars s) -> TrimSpace (String " " s) = s.
Proof.
  intros Hs. rewrite <- (TrimSpace_solid s Hs) at 2.
  unfold TrimSpace, trim_left. cbn [String.list_ascii_of_string length strip_all].
  rewrite (proj1 (strip_any_ascii " " (chars s) eq_refl)). reflexivity.
Qed.

Lemma lower_byte_ascii c :
  is_ascii c = true -> is_ascii (lower_byte c) = true /\ ascii_space (lower_byte c) = ascii_space c.
Proof.
  destruct c as [[] [] [] [] [] [] [] []]; intros Hc; try discriminate Hc; split; reflexivity.
Qed.

Lemma strip_all_lower ps fuel l :
  ps = space_runes \/ ps = reverse <$> space_runes ->
  Forall (fun c => is_ascii c = true) l ->
  strip_all fuel ps (lower_byte <$> l) = lower_byte <$> strip_all fuel ps l /\
  Forall (fun c => is_ascii c = true) (strip_all fuel ps l).
Proof.
  intros Hps Hl. revert l Hl. induction fuel as [|fuel IH]; intros l Hl; [done|].
  assert (strip_any ps [] = None) as Hnil by (destruct Hps; subst; reflexivity).
  destruct Hl as [|c l Hc Hl]; [simpl; by rewrite Hnil|]. rewrite fmap_cons. cbn [strip_all].
  destruct (strip_any_ascii c l Hc) as [E1 E2].
  destruct (lower_byte_ascii c Hc) as [Hc' Hs].
  destruct (strip_any_ascii (lower_byte c) (lower_byte <$> l) Hc') as [F1 F2].
  rewrite Hs in F1, F2. destruct Hps as [->| ->]; [rewrite E1, F1|rewrite E2, F2];
    destruct (ascii_space c); [by apply IH|by auto using Forall_cons|by apply IH|by auto using Forall_cons].
Qed.

Lemma ascii_chars s : forallb is_ascii (chars s) = true <-> Forall (fun c => is_ascii c = true) (chars s).
Proof. rewrite forallb_forall, Forall_forall. by setoid_rewrite list_elem_of_In. Qed.

Lemma TrimSpace_ToLower `{UnicodeLower} s :
  forallb is_ascii (chars s) = true -> TrimSpace (ToLower s) = ToLower (TrimSpace s).
Proof.
  intros Ha. pose proof Ha as Hl%ascii_chars.
  destruct (strip_all_lower space_runes (length (chars s)) (chars s)) as [E1 A1]; [by left|done|].
  set (l1 := strip_all (length (chars s)) space_runes (chars s)) in *.
  destruct (strip_all_lower (reverse <$> space_runes) (length l1) (reverse l1)) as [E2 A2];
    [by right|by apply Forall_reverse|].
  assert (chars (TrimSpace s) = trim_right l1) as Ht.
  { unfold TrimSpace. by rewrite String.list_ascii_of_string_of_list_ascii. }
  assert (Forall (fun c => is_ascii c = true) (trim_right l1)) as A3
    by (unfold trim_right; by apply Forall_reverse).
  assert (forallb is_ascii (chars (TrimSpace s)) = true) as Hb by (apply ascii_chars; by rewrite Ht).
  unfold ToLower at 2. rewrite Hb, Ht.
  unfold ToLower, TrimSpace. rewrite Ha, !String.list_ascii_of_string_of_list_ascii. f_equal.
  unfold trim_left. rewrite length_fmap, E1. unfold trim_right.
  rewrite <- fmap_reverse, length_fmap, E2, fmap_reverse. done.
Qed.

(** *** Lowering and trimming commute *)

(** What the Unicode tables say of white space: no space has case and none is
    the lower case of another character, so that lowering neither adds nor
    removes white space around a text. *)
Class LowerKeepsSpace `{UnicodeLower} : Prop := lower_keeps_space s :
  forallb is_ascii (chars s) = false -> TrimSpace (unicode_lower s) = ToLower (TrimSpace s).

Lemma TrimSpace_lower `{LowerKeepsSpace} s : TrimSpace (ToLower s) = ToLower (TrimSpace s).
Proof.
  destruct (forallb is_ascii (chars s)) eqn:Ha; [by apply TrimSpace_ToLower|].
  unfold ToLower at 1. rewrite Ha. by apply lower_keeps_space.
Qed.

(** Lowering byte by byte, the tables of a program that knows no letters
    beyond ASCII. *)
Definition lower_bytes : UnicodeLower := fun s =>
  String.string_of_list_ascii (lower_byte <$> chars s).

(** No letter of either case. *)
Definition caseless (b : ascii) : bool := negb (in_range 65 90 b) && negb (in_range 97 122 b).

Lemma caseless_lower b c : caseless b = true -> lower_byte c = b <-> c = b.
Proof.
  unfold caseless. intros [H1 H2]%andb_prop. unfold lower_byte.
  destruct (in_range 65 90 c) eqn:Hc; [|done]. split; [intros <-|intros ->]; exfalso.
  - destruct c as [[] [] [] [] [] [] [] []]; try discriminate Hc; discriminate H2.
  - by rewrite Hc in H1.
Qed.

Lemma strip_prefix_lower p l :
  Forall (fun b => caseless b = true) p ->
  strip_prefix p (lower_byte <$> l) = (fun l' : list ascii => (lower_byte <$> l' : list ascii)) <$> strip_prefix p l.
Proof.
  intros Hp. revert l. induction Hp as [|b p Hb _ IH]; intros [|c l]; try done. simpl.
  pose proof (caseless_lower b c Hb). repeat case_decide; [apply IH|naive_solver..|done].
Qed.

Lemma strip_any_lower ps l :
  Forall (Forall (fun b => caseless b = true)) ps ->
  strip_any ps (lower_byte <$> l) = (fun l' : list ascii => (lower_byte <$> l' : list ascii)) <$> strip_any ps l.
Proof.
  intros Hps. induction Hps as [|p ps Hp _ IH]; [done|]. simpl. rewrite strip_prefix_lower by done.
  by destruct (strip_prefix p l).
Qed.

Lemma strip_all_lower_bytes ps fuel l :
  Forall (Forall (fun b => caseless b = true)) ps ->
  strip_all fuel ps (lower_byte <$> l) = lower_byte <$> strip_all fuel ps l.
Proof.
  intros Hps. revert l. induction fuel as [|fuel IH]; intros l; [done|]. simpl.
  rewrite strip_any_lower by done. by destruct (strip_any ps l); [apply IH|].
Qed.

Lemma space_runes_caseless :
  Forall (Forall (fun b => caseless b = true)) space_runes /\
  Forall (Forall (fun b => caseless b = true)) (reverse <$> space_runes).
Proof. split; apply (bool_decide_unpack _); vm_compute; exact I. Qed.

Lemma lower_bytes_keeps_space : LowerKeepsSpace (H := lower_bytes).
Proof.
  intros s _. assert (forall t, @ToLower lower_bytes t = lower_bytes t) as ->
    by (intros t; unfold ToLower; by case_match).
  unfold TrimSpace, unicode_lower, lower_bytes, trim_left, trim_right.
  rewrite !String.list_ascii_of_string_of_list_ascii. f_equal.
  rewrite length_fmap, (strip_all_lower_bytes space_runes) by apply space_runes_caseless.
  by rewrite <- fmap_reverse, length_fmap, (strip_all_lower_bytes (reverse <$> space_runes)),
    fmap_reverse by apply space_runes_caseless.
Qed.

(** ** Substrings *)

Lemma contains_in_spec sub l :
  contains_in sub l = true <-> exists p q, l = p ++ sub ++ q.
Proof.
  induction l as [|c l IH]; simpl; destruct (strip_prefix sub _) as [q|] eqn:Hs.
  - split; [|done]. intros _. apply strip_prefix_spec in Hs. by exists [], q.
  - split; [done|]. intros (p & q & Heq). symmetry in Heq.
    apply app_eq_nil in Heq as [-> Heq]. simpl in Heq. apply app_eq_nil in Heq as [-> ->].
    by simpl in Hs.
  - split; [|done]. intros _. apply strip_prefix_spec in Hs. by exists [], q.
  - rewrite IH. split.
    + intros (p & q & ->). by exists (c :: p), q.
    + intros ([|c' p] & q & Heq).
      * assert (strip_prefix sub (c :: l) = Some q) as Hp by (by apply strip_prefix_spec).
        congruence.
      * injection Heq as -> ->. eauto.
Qed.

(** A substring brings its characters along. *)
Lemma Contains_char s sub c : Contains s sub = true -> c ∈ chars sub -> c ∈ chars s.
Proof.
  intros (p & q & ->)%contains_in_spec Hc. rewrite !elem_of_app. auto.
Qed.

(** ASCII is well-formed. *)
Lemma ascii_valid l : Forall (fun c => is_ascii c = true) l -> utf8_valid l = true.
Proof.
  induction 1 as [|c l Hc _ IH]; [done|]. cbn [utf8_valid].
  assert (in_range 0 127 c = true) as ->; [|done]. unfold in_range, is_ascii in *.
  apply N.ltb_lt in Hc. apply andb_true_iff. split; apply N.leb_le; lia.
Qed.
