(* ===== verification/GoJson.v ===== *)
(** * [encoding/json]: texts and values

    What the program uses of [encoding/json], executable on bytes: the scanner
    (white space, string and number literals, nesting up to 10000 levels), the
    unquoting of strings with their escapes and malformed UTF-8, the matching
    of keys with struct fields, and the encoder with its escapes.  A parsed
    value keeps string and number literals as they are written, as the
    decoder does until it knows the Go type they go into. *)

From S2P Require Import Prelude GoFmt GoString.
From Stdlib Require Import Ascii.

(** ** Runes *)

(** The UTF-8 encoding of U+FFFD. *)
Definition RuneError : list ascii := byte_char <$> [239; 191; 189]%N.

(** [utf8.DecodeRune] along a text: the bytes of every well-formed rune, and
    [None] for a byte that does not start one. *)
Fixpoint runes (l : list ascii) : list (option (list ascii)) :=
  match l with
  | [] => []
  | c :: l1 =>
    if is_ascii c then Some [c] :: runes l1
    else match l1 with
    | [] => None :: runes l1
    | c1 :: l2 =>
      if in_range 194 223 c && cont_byte c1 then Some [c; c1] :: runes l2
      else match l2 with
      | [] => None :: runes l1
      | c2 :: l3 =>
        if in_range 224 239 c &&
           (if in_range 224 224 c then in_range 160 191 c1
            else if in_range 237 237 c then in_range 128 159 c1 else cont_byte c1) && cont_byte c2
        then Some [c; c1; c2] :: runes l3
        else match l3 with
        | [] => None :: runes l1
        | c3 :: l4 =>
          if in_range 240 244 c &&
             (if in_range 240 240 c then in_range 144 191 c1
              else if in_range 244 244 c then in_range 128 143 c1 else cont_byte c1) &&
             cont_byte c2 && cont_byte c3
          then Some [c; c1; c2; c3] :: runes l4
          else None :: runes l1
        end
      end
    end
  end.

(** A text with every malformed byte replaced by U+FFFD. *)
Definition coerce (l : list ascii) : list ascii := runes l ≫= default RuneError.

(** [utf8.EncodeRune], for a code point outside the surrogates. *)
Definition EncodeRune (r : Z) : list ascii :=
  let byte z := byte_char (Z.to_N z) in
  if decide (r < 128)%Z then [byte r]
  else if decide (r < 2048)%Z then [byte (192 + r / 64); byte (128 + r `mod` 64)]%Z
  else if decide (r < 65536)%Z
  then [byte (224 + r / 4096); byte (128 + (r / 64) `mod` 64); byte (128 + r `mod` 64)]%Z
  else [byte (240 + r / 262144); byte (128 + (r / 4096) `mod` 64); byte (128 + (r / 64) `mod` 64);
        byte (128 + r `mod` 64)]%Z.

(** ** Values *)

Unset Elimination Schemes.
Inductive json :=
| JNull
| JBool (b : bool)
| JNumber (lit : list ascii)
| JString (raw : list ascii)
| JArray (l : list json)
| JObject (l : list (list ascii * json)).
Set Elimination Schemes.

(** Induction through the two kinds of lists. *)
Lemma json_ind (P : json -> Prop) :
  P JNull -> (forall b, P (JBool b)) -> (forall lit, P (JNumber lit)) -> (forall raw, P (JString raw)) ->
  (forall l, Forall P l -> P (JArray l)) -> (forall l, Forall (fun m => P m.2) l -> P (JObject l)) ->
  forall j, P j.
Proof.
  intros Hnull Hbool Hnum Hstr Harr Hobj. fix IH 1.
  intros [|b|lit|raw|l|l]; [exact Hnull|apply Hbool|apply Hnum|apply Hstr| |].
  - apply Harr. induction l as [|j l IHl]; constructor; [apply IH|exact IHl].
  - apply Hobj. induction l as [|[k j] l IHl]; constructor; [apply IH|exact IHl].
Qed.

(** ** Scanning *)

Definition json_space (c : ascii) : bool :=
  bool_decide (c = " "%char \/ c = "009"%char \/ c = "010"%char \/ c = "013"%char).

Fixpoint skip_spaces (l : list ascii) : list ascii :=
  match l with
  | c :: l' => if json_space c then skip_spaces l' else l
  | [] => []
  end.

Definition quote_char : ascii := "034"%char.
Definition backslash : ascii := "092"%char.

Definition is_hex (c : ascii) : bool :=
  is_digit c || in_range 97 102 c || in_range 65 70 c.

(** A string literal after its opening quote: the text up to the closing one,
    and what follows. *)
Fixpoint scan_string (l : list ascii) : option (list ascii * list ascii) :=
  match l with
  | [] => None
  | c :: l1 =>
    if decide (c = quote_char) then Some ([], l1)
    else if decide (c = backslash) then
      match l1 with
      | [] => None
      | e :: l2 =>
        if existsb (fun x => bool_decide (x = e))
             [quote_char; backslash; "/"%char; "b"%char; "f"%char; "n"%char; "r"%char; "t"%char]
        then '(raw, rest) ← scan_string l2; Some (c :: e :: raw, rest)
        else if decide (e = "u"%char) then
          match l2 with
          | h1 :: h2 :: h3 :: h4 :: l3 =>
            if forallb is_hex [h1; h2; h3; h4]
            then '(raw, rest) ← scan_string l3; Some (c :: e :: h1 :: h2 :: h3 :: h4 :: raw, rest)
            else None
          | _ => None
          end
        else None
      end
    else if (byte_val c <? 32)%N then None
    else '(raw, rest) ← scan_string l1; Some (c :: raw, rest)
  end.

Fixpoint span_digits (l : list ascii) : list ascii * list ascii :=
  match l with
  | c :: l' => if is_digit c then let (a, b) := span_digits l' in (c :: a, b) else ([], l)
  | [] => ([], [])
  end.

(** At least one digit. *)
Definition scan_digits (l : list ascii) : option (list ascii * list ascii) :=
  let (ds, rest) := span_digits l in if decide (ds = []) then None else Some (ds, rest).

Definition scan_fraction (l : list ascii) : option (list ascii * list ascii) :=
  match l with
  | c :: l' => if decide (c = "."%char)
               then '(ds, rest) ← scan_digits l'; Some (c :: ds, rest) else Some ([], l)
  | [] => Some ([], [])
  end.

Definition scan_exponent (l : list ascii) : option (list ascii * list ascii) :=
  match l with
  | c :: l1 =>
    if decide (c = "e"%char \/ c = "E"%char) then
      match l1 with
      | s :: l2 => if decide (s = "+"%char \/ s = "-"%char)
                   then '(ds, rest) ← scan_digits l2; Some (c :: s :: ds, rest)
                   else '(ds, rest) ← scan_digits l1; Some (c :: ds, rest)
      | [] => None
      end
    else Some ([], l)
  | [] => Some ([], [])
  end.

(** A number without a leading zero, [0] itself apart. *)
Definition scan_int (l : list ascii) : option (list ascii * list ascii) :=
  match l with
  | c :: l' => if decide (c = "0"%char) then Some ([c], l') else scan_digits l
  | [] => None
  end.

Definition scan_unsigned (l : list ascii) : option (list ascii * list ascii) :=
  '(int, l) ← scan_int l; '(frac, l) ← scan_fraction l; '(exp, l) ← scan_exponent l;
  Some (int ++ frac ++ exp, l).

Definition scan_number (l : list ascii) : option (list ascii * list ascii) :=
  match l with
  | c :: l' => if decide (c = "-"%char)
               then '(lit, rest) ← scan_unsigned l'; Some (c :: lit, rest) else scan_unsigned l
  | [] => None
  end.

Definition scan_literal (l : list ascii) : option (json * list ascii) :=
  match strip_prefix (chars "null") l with
  | Some rest => Some (JNull, rest)
  | None =>
    match strip_prefix (chars "true") l with
    | Some rest => Some (JBool true, rest)
    | None =>
      match strip_prefix (chars "false") l with
      | Some rest => Some (JBool false, rest)
      | None => '(lit, rest) ← scan_number l; Some (JNumber lit, rest)
      end
    end
  end.

Definition maxNestingDepth : Z := 10000.

(** A value at nesting depth [depth]; the members of an object after its brace
    (there is at least one); the elements of an array after its bracket. *)
Fixpoint parse_value (fuel : nat) (depth : Z) (l : list ascii) : option (json * list ascii) :=
  match fuel with
  | O => None
  | S fuel =>
    match skip_spaces l with
    | [] => None
    | c :: l1 =>
      if decide (c = "{"%char) then
        if decide (depth < maxNestingDepth)%Z then
          match skip_spaces l1 with
          | [] => None
          | c2 :: l2 => if decide (c2 = "}"%char) then Some (JObject [], l2)
                        else '(ms, rest) ← parse_members fuel (depth + 1) (c2 :: l2); Some (JObject ms, rest)
          end
        else None
      else if decide (c = "["%char) then
        if decide (depth < maxNestingDepth)%Z then
          match skip_spaces l1 with
          | [] => None
          | c2 :: l2 => if decide (c2 = "]"%char) then Some (JArray [], l2)
                        else '(vs, rest) ← parse_elements fuel (depth + 1) (c2 :: l2); Some (JArray vs, rest)
          end
        else None
      else if decide (c = quote_char) then
        '(raw, rest) ← scan_string l1; Some (JString raw, rest)
      else scan_literal (c :: l1)
    end
  end
with parse_members (fuel : nat) (depth : Z) (l : list ascii)
  : option (list (list ascii * json) * list ascii) :=
  match fuel with
  | O => None
  | S fuel =>
    match skip_spaces l with
    | [] => None
    | q :: l1 =>
      if decide (q = quote_char) then
        '(key, l2) ← scan_string l1;
        match skip_spaces l2 with
        | [] => None
        | colon :: l3 =>
          if decide (colon = ":"%char) then
            '(v, l4) ← parse_value fuel depth l3;
            match skip_spaces l4 with
            | [] => None
            | c :: l5 =>
              if decide (c = ","%char)
              then '(ms, rest) ← parse_members fuel depth l5; Some ((key, v) :: ms, rest)
              else if decide (c = "}"%char) then Some ([(key, v)], l5) else None
            end
          else None
        end
      else None
    end
  end
with parse_elements (fuel : nat) (depth : Z) (l : list ascii) : option (list json * list ascii) :=
  match fuel with
  | O => None
  | S fuel =>
    '(v, l1) ← parse_value fuel depth l;
    match skip_spaces l1 with
    | [] => None
    | c :: l2 =>
      if decide (c = ","%char)
      then '(vs, rest) ← parse_elements fuel depth l2; Some (v :: vs, rest)
      else if decide (c = "]"%char) then Some ([v], l2) else None
    end
  end.

(** The first value of a text, and what follows it.  Every call consumes a
    byte or hands its text on once, so the fuel is enough ([parse_fuel]). *)
Definition parse (l : list ascii) : option (json * list ascii) :=
  parse_value (S (2 * length l)) 0 l.

(** ** Strings *)

Definition hex_value (c : ascii) : Z :=
  if is_digit c then digit_value c
  else if in_range 97 102 c then (Z.of_N (byte_val c) - 87)%Z else (Z.of_N (byte_val c) - 55)%Z.

(** [getu4], after the backslash. *)
Definition getu4 (l : list (option (list ascii))) : option (Z * list (option (list ascii))) :=
  match l with
  | Some [u] :: Some [h1] :: Some [h2] :: Some [h3] :: Some [h4] :: l' =>
    if bool_decide (u = "u"%char) && forallb is_hex [h1; h2; h3; h4]
    then Some (((hex_value h1 * 16 + hex_value h2) * 16 + hex_value h3) * 16 + hex_value h4, l')%Z
    else None
  | _ => None
  end.

(** [utf16.DecodeRune]. *)
Definition surrogate_pair (r1 r2 : Z) : option Z :=
  if decide (55296 <= r1 < 56320 /\ 56320 <= r2 < 57344)%Z
  then Some ((r1 - 55296) * 1024 + (r2 - 56320) + 65536)%Z else None.

Definition is_surrogate (r : Z) : bool := bool_decide (55296 <= r < 57344)%Z.

(** What an escape other than [\u] stands for. *)
Definition escape_char (e : ascii) : option ascii :=
  if decide (e = quote_char \/ e = backslash \/ e = "/"%char \/ e = "'"%char) then Some e
  else if decide (e = "b"%char) then Some "008"%char
  else if decide (e = "f"%char) then Some "012"%char
  else if decide (e = "n"%char) then Some "010"%char
  else if decide (e = "r"%char) then Some "013"%char
  else if decide (e = "t"%char) then Some "009"%char
  else None.

(** The rune of a pair whose first half was [r1], if a second half follows. *)
Definition second_half (r1 : Z) (l : list (option (list ascii)))
  : option (Z * list (option (list ascii))) :=
  match l with
  | Some [b] :: l' => if decide (b = backslash)
                      then '(r2, rest) ← getu4 l'; r ← surrogate_pair r1 r2; Some (r, rest)
                      else None
  | _ => None
  end.

(** [unquoteBytes] on the runes of a literal. *)
Fixpoint unquote_runes (fuel : nat) (l : list (option (list ascii))) : option (list ascii) :=
  match fuel with
  | O => None
  | S fuel =>
    match l with
    | [] => Some []
    | None :: l1 => s ← unquote_runes fuel l1; Some (RuneError ++ s)
    | Some [c] :: l1 =>
      if decide (c = backslash) then
        match l1 with
        | Some [e] :: l2 =>
          if decide (e = "u"%char) then
            '(r, l3) ← getu4 l1;
            if is_surrogate r then
              match second_half r l3 with
              | Some (d, l5) => s ← unquote_runes fuel l5; Some (EncodeRune d ++ s)
              | None => s ← unquote_runes fuel l3; Some (RuneError ++ s)
              end
            else s ← unquote_runes fuel l3; Some (EncodeRune r ++ s)
          else x ← escape_char e; s ← unquote_runes fuel l2; Some (x :: s)
        | _ => None
        end
      else if bool_decide (c = quote_char) || (byte_val c <? 32)%N then None
      else s ← unquote_runes fuel l1; Some (c :: s)
    | Some bs :: l1 => s ← unquote_runes fuel l1; Some (bs ++ s)
    end
  end.

Definition unquote (raw : list ascii) : option (list ascii) :=
  unquote_runes (S (length raw)) (runes raw).

(** ** Encoding *)

Definition hex_of (n : N) : ascii := hex_digit (Z.of_N n).

(** How [appendString] writes a byte of ASCII (with HTML escaping). *)
Definition quote_byte (c : ascii) : list ascii :=
  if decide (c = quote_char \/ c = backslash) then [backslash; c]
  else if decide (c = "008"%char) then [backslash; "b"%char]
  else if decide (c = "012"%char) then [backslash; "f"%char]
  else if decide (c = "010"%char) then [backslash; "n"%char]
  else if decide (c = "013"%char) then [backslash; "r"%char]
  else if decide (c = "009"%char) then [backslash; "t"%char]
  else if (byte_val c <? 32)%N || bool_decide (c = "<"%char \/ c = ">"%char \/ c = "&"%char)
  then [backslash; "u"%char; "0"%char; "0"%char; hex_of (byte_val c / 16); hex_of (byte_val c mod 16)]
  else [c].

Definition quote_rune (r : option (list ascii)) : list ascii :=
  match r with
  | None => backslash :: chars "ufffd"
  | Some [c] => quote_byte c
  | Some bs => if decide (bs = byte_char <$> [226; 128; 168]%N) then backslash :: chars "u2028"
               else if decide (bs = byte_char <$> [226; 128; 169]%N) then backslash :: chars "u2029"
               else bs
  end.

(** A string between its quotes. *)
Definition quote_text (l : list ascii) : list ascii := runes l ≫= quote_rune.

Definition in_quotes (l : list ascii) : list ascii := quote_char :: l ++ [quote_char].

Fixpoint comma_separated (l : list (list ascii)) : list ascii :=
  match l with
  | [] => []
  | [x] => x
  | x :: l' => x ++ ","%char :: comma_separated l'
  end.

(** A value without white space, as [Marshal] writes it. *)
Fixpoint print (j : json) : list ascii :=
  match j with
  | JNull => chars "null"
  | JBool b => chars (if b then "true" else "false")
  | JNumber lit => lit
  | JString raw => in_quotes raw
  | JArray l => "["%char :: comma_separated (print <$> l) ++ ["]"%char]
  | JObject l =>
      "{"%char :: comma_separated ((fun m => in_quotes m.1 ++ ":"%char :: print m.2) <$> l) ++ ["}"%char]
  end.

(** [%d] and [%q] of Go values as JSON. *)
Definition json_int (x : Z) : json := JNumber (chars (FormatInt x)).
Definition json_string (s : string) : json := JString (quote_text (chars s)).
Definition json_object (l : list (string * json)) : json := JObject (prod_map chars id <$> l).

(** ** Lemmas: runes *)

(** A rune that [runes] finds is found again wherever its bytes stand. *)
Definition rune_ok (r : option (list ascii)) : Prop :=
  match r with
  | None => True
  | Some bs => (forall t, runes (bs ++ t) = Some bs :: runes t) /\
               match bs with
               | [] => False
               | [c] => is_ascii c = true
               | _ => Forall (fun c => is_ascii c = false) bs
               end
  end.

Lemma in_range_not_ascii lo hi c : (128 <= lo)%N -> in_range lo hi c = true -> is_ascii c = false.
Proof.
  unfold in_range, is_ascii. intros Hlo [H _]%andb_prop. apply N.leb_le in H. apply N.ltb_ge. lia.
Qed.

Lemma runes_ascii c t : is_ascii c = true -> runes (c :: t) = Some [c] :: runes t.
Proof. intros Hc. simpl. by rewrite Hc. Qed.

Lemma runes_ok l : Forall rune_ok (runes l).
Proof.
  induction l as [l IH] using (induction_ltof1 _ length). unfold ltof in IH.
  destruct l as [|c l1]; [constructor|]. cbn [runes].
  assert (Forall rune_ok (runes l1)) as H1 by (apply IH; simpl; lia).
  destruct (is_ascii c) eqn:Hc.
  { constructor; [|done]. split; [|done]. intros t. by apply runes_ascii. }
  destruct l1 as [|c1 l2]; [by repeat constructor|].
  destruct (in_range 194 223 c && cont_byte c1) eqn:H2.
  { constructor; [|apply IH; simpl; lia]. split; [intros t; cbn [app runes]; by rewrite Hc, H2|].
    apply andb_prop in H2 as [_ Hc1]. repeat constructor; [done|]. by eapply in_range_not_ascii, Hc1. }
  destruct l2 as [|c2 l3]; [by constructor|].
  destruct (in_range 224 239 c && _ && cont_byte c2) eqn:H3.
  { constructor; [|apply IH; simpl; lia]. split; [intros t; cbn [app runes]; by rewrite Hc, H2, H3|].
    apply andb_prop in H3 as [[_ Hc1]%andb_prop Hc2].
    repeat constructor; [done| |by eapply in_range_not_ascii, Hc2].
    repeat case_match; by eapply in_range_not_ascii, Hc1. }
  destruct l3 as [|c3 l4]; [by constructor|].
  destruct (in_range 240 244 c && _ && cont_byte c2 && cont_byte c3) eqn:H4; [|by constructor].
  constructor; [|apply IH; simpl; lia]. split; [intros t; cbn [app runes]; by rewrite Hc, H2, H3, H4|].
  apply andb_prop in H4 as [[[_ Hc1]%andb_prop Hc2]%andb_prop Hc3].
  repeat constructor; [done| |by eapply in_range_not_ascii, Hc2|by eapply in_range_not_ascii, Hc3].
  repeat case_match; by eapply in_range_not_ascii, Hc1.
Qed.

(** Well-formed text is all runes. *)
Lemma runes_valid l : utf8_valid l = true -> Forall is_Some (runes l) /\ coerce l = l.
Proof.
  unfold coerce. induction l as [l IH] using (induction_ltof1 _ length). unfold ltof in IH.
  destruct l as [|c l1]; [done|]. cbn [runes utf8_valid].
  assert (in_range 0 127 c = is_ascii c) as ->.
  { unfold in_range, is_ascii. rewrite (proj2 (N.leb_le 0 _)) by lia. simpl.
    destruct (N.leb_spec (byte_val c) 127), (N.ltb_spec (byte_val c) 128); (done || lia). }
  assert (forall r t, length t < length (c :: l1) -> utf8_valid t = true ->
    Forall is_Some (Some r :: runes t) /\
    (Some r :: runes t) ≫= default RuneError = r ++ t) as Hstep.
  { intros r t Ht Hv. destruct (IH t Ht Hv) as [Hall Heq]. split; [by constructor; [eexists|]|].
    by rewrite bind_cons, Heq. }
  destruct (is_ascii c) eqn:Hc; [intros Hv; by apply (Hstep [c]); [simpl; lia|]|].
  destruct l1 as [|c1 l2]; [done|].
  destruct (in_range 194 223 c) eqn:H2; cbn [andb].
  { intros [-> Hv]%andb_prop. by apply (Hstep [c; c1]); [simpl; lia|]. }
  destruct l2 as [|c2 l3]; [done|].
  destruct (in_range 224 239 c) eqn:H3; cbn [andb].
  { intros [[-> ->]%andb_prop Hv]%andb_prop. by apply (Hstep [c; c1; c2]); [simpl; lia|]. }
  destruct l3 as [|c3 l4]; [done|].
  intros [[[[-> ->]%andb_prop ->]%andb_prop ->]%andb_prop Hv]%andb_prop.
  by apply (Hstep [c; c1; c2; c3]); [simpl; lia|].
Qed.

(** ** Lemmas: quoting *)

(** Bytes of ASCII, one by one. *)
Definition ascii_runes (l : list ascii) : list (option (list ascii)) := (fun c => Some [c]) <$> l.

Lemma runes_ascii_app l t :
  Forall (fun c => is_ascii c = true) l -> runes (l ++ t) = ascii_runes l ++ runes t.
Proof.
  induction 1 as [|c l Hc _ IH]; [done|]. cbn [app ascii_runes fmap list_fmap].
  rewrite runes_ascii by done. by rewrite IH.
Qed.

Lemma quote_byte_ascii c : is_ascii c = true -> Forall (fun x => is_ascii x = true) (quote_byte c).
Proof.
  intros Hc. apply (bool_decide_unpack _). destruct c as [[] [] [] [] [] [] [] []]; try discriminate Hc;
    vm_compute; exact I.
Qed.

Lemma scan_quote_byte c t :
  is_ascii c = true ->
  scan_string (quote_byte c ++ t) = '(raw, rest) ← scan_string t; Some (quote_byte c ++ raw, rest).
Proof.
  intros Hc. destruct c as [[] [] [] [] [] [] [] []]; try discriminate Hc; reflexivity.
Qed.

Lemma unquote_quote_byte c fuel t :
  is_ascii c = true ->
  unquote_runes (S fuel) (ascii_runes (quote_byte c) ++ t) = s ← unquote_runes fuel t; Some (c :: s).
Proof.
  intros Hc. destruct c as [[] [] [] [] [] [] [] []]; try discriminate Hc; reflexivity.
Qed.

Lemma high_byte c : is_ascii c = false -> c <> quote_char /\ c <> backslash /\ (byte_val c <? 32)%N = false.
Proof. destruct c as [[] [] [] [] [] [] [] []]; by intros [=]. Qed.

Lemma scan_high bs t :
  Forall (fun c => is_ascii c = false) bs ->
  scan_string (bs ++ t) = '(raw, rest) ← scan_string t; Some (bs ++ raw, rest).
Proof.
  induction 1 as [|c bs Hc _ IH]; cbn [app].
  - by destruct (scan_string t) as [[]|].
  - destruct (high_byte c Hc) as (Hq & Hb & Hs). cbn [scan_string].
    rewrite decide_False, decide_False, Hs, IH by done. by destruct (scan_string t) as [[]|].
Qed.

Lemma quote_rune_cases r :
  rune_ok r ->
  (forall t, scan_string (quote_rune r ++ t) = '(raw, rest) ← scan_string t; Some (quote_rune r ++ raw, rest)) /\
  (forall fuel t, unquote_runes (S fuel) (runes (quote_rune r ++ t))
     = s ← unquote_runes fuel (runes t); Some (default RuneError r ++ s)) /\
  quote_rune r <> [].
Proof.
  destruct r as [[|c [|c2 bs]]|]; [by intros []| | |].
  - intros [_ Hc]. cbn [quote_rune default]. split_and!.
    + intros t. by apply scan_quote_byte.
    + intros fuel t. rewrite runes_ascii_app by (by apply quote_byte_ascii). by apply unquote_quote_byte.
    + destruct c as [[] [] [] [] [] [] [] []]; discriminate.
  - intros [Hr Hall]. cbn [quote_rune default].
    case_decide as H28; [rewrite H28; split_and!; [reflexivity..|done]|].
    case_decide as H29; [rewrite H29; split_and!; [reflexivity..|done]|].
    split_and!; [intros t; by apply scan_high| |done]. intros fuel t. by rewrite Hr.
  - intros _. split_and!; [reflexivity..|done].
Qed.

(** The scanner finds the end of a quoted string. *)
Lemma scan_quote_text l rest :
  scan_string (quote_text l ++ quote_char :: rest) = Some (quote_text l, rest).
Proof.
  unfold quote_text. induction (runes_ok l) as [|r rs Hr _ IH]; [done|].
  rewrite bind_cons, <- app_assoc. destruct (quote_rune_cases r Hr) as (-> & _ & _). by rewrite IH.
Qed.

(** Unquoting gives back what was quoted, malformed bytes replaced. *)
Lemma unquote_quote_text l : unquote (quote_text l) = Some (coerce l).
Proof.
  unfold unquote, quote_text, coerce. pose proof (runes_ok l) as Hok. revert Hok.
  generalize (runes l) as rs. intros rs Hok.
  assert (length rs <= length (rs ≫= quote_rune)) as Hlen.
  { induction Hok as [|r rs Hr _ IH]; [done|]. rewrite bind_cons, length_app. cbn [length].
    destruct (quote_rune_cases r Hr) as (_ & _ & Hne). destruct (quote_rune r); [done|]. simpl. lia. }
  assert (forall fuel, length rs < fuel ->
    unquote_runes fuel (runes (rs ≫= quote_rune)) = Some (rs ≫= default RuneError)) as Hgo; [|apply Hgo; lia].
  clear Hlen. induction Hok as [|r rs Hr _ IH]; intros [|fuel] Hf; cbn [length] in Hf; try lia; [done|].
  rewrite bind_cons. destruct (quote_rune_cases r Hr) as (_ & -> & _).
  by rewrite IH by lia.
Qed.

(** The fuel of [unquote] is enough: any larger amount gives the same. *)
Lemma unquote_fuel f g l : length l < f -> length l < g -> unquote_runes f l = unquote_runes g l.
Proof.
  revert g l. induction f as [|f IH]; intros [|g] l Hf Hg; try lia. cbn [unquote_runes].
  assert (forall t, length t < length l -> unquote_runes f t = unquote_runes g t) as Hrec
    by (intros t Ht; apply IH; lia). clear IH Hf Hg.
  assert (forall t r t', getu4 t = Some (r, t') -> length t' < length t) as Hu4.
  { intros t r t' Hg. unfold getu4 in Hg. repeat case_match; simplify_eq; simpl; lia. }
  destruct l as [|[[|c [|]]|] l1]; try done; try (rewrite Hrec by (simpl; lia); done).
  destruct (decide (c = backslash)) as [_|_]; [|by rewrite Hrec by (simpl; lia)].
  destruct l1 as [|[[|e [|]]|] l2]; try done.
  destruct (decide (e = "u"%char)) as [_|_]; [|by rewrite Hrec by (simpl; lia)].
  destruct (getu4 _) as [[r l3]|] eqn:Hg; [|done]. apply Hu4 in Hg. cbn [mbind option_bind].
  destruct (is_surrogate r); [|by rewrite Hrec by (simpl in *; lia)].
  destruct (second_half r l3) as [[d l5]|] eqn:Hp; [|by rewrite Hrec by (simpl in *; lia)].
  rewrite Hrec; [done|]. unfold second_half in Hp. destruct l3 as [|[[|b [|]]|] l4]; try done.
  case_decide; [|done]. destruct (getu4 l4) as [[r2 l6]|] eqn:Hg2; [|done]. apply Hu4 in Hg2.
  cbn in Hp. destruct (surrogate_pair r r2); simplify_eq/=. lia.
Qed.

Lemma unquote_plain l :
  Forall (fun c => is_ascii c = true /\ c <> backslash /\ c <> quote_char /\ (byte_val c <? 32)%N = false) l ->
  unquote l = Some l.
Proof.
  intros Hl. unfold unquote. rewrite <- (app_nil_r l) at 2.
  rewrite runes_ascii_app by (eapply Forall_impl; [exact Hl|naive_solver]). cbn [runes]. rewrite app_nil_r.
  induction Hl as [|c l (_ & Hb & Hq & Hs) _ IH]; [done|].
  change (ascii_runes (c :: l)) with (Some [c] :: ascii_runes l). cbn [length].
  remember (S (length l)) as fuel. cbn [unquote_runes].
  rewrite decide_False, bool_decide_false, Hs by done. cbn [orb]. by rewrite IH.
Qed.

(** ** Lemmas: the parser *)

Lemma skip_spaces_length l : length (skip_spaces l) <= length l.
Proof. induction l as [|c l IH]; [done|]. simpl. destruct (json_space c); simpl; lia. Qed.

Lemma scan_string_length l raw rest : scan_string l = Some (raw, rest) -> length rest < length l.
Proof.
  revert raw. induction l as [l IH] using (induction_ltof1 _ length). unfold ltof in IH. intros raw.
  assert (forall t, length t < length l -> forall f : list ascii -> list ascii,
    ('(raw', rest') ← scan_string t; Some (f raw', rest')) = Some (raw, rest) -> length rest < length l) as Hgo.
  { intros t Ht f Heq. destruct (scan_string t) as [[raw' rest']|] eqn:Hs; [|done]. cbn in Heq.
    injection Heq as _ <-. specialize (IH t Ht raw' Hs). lia. }
  destruct l as [|c l1]; [done|]. cbn [scan_string].
  case_decide; [intros [= _ <-]; simpl; lia|]. case_decide.
  - destruct l1 as [|e l2]; [done|]. destruct (existsb _ _); [apply (Hgo l2); simpl; lia|].
    case_decide; [|done]. destruct l2 as [|h1 [|h2 [|h3 [|h4 l3]]]]; try done.
    destruct (forallb _ _); [apply (Hgo l3); simpl; lia|done].
  - destruct (_ <? _)%N; [done|]. apply (Hgo l1). simpl. lia.
Qed.

Lemma span_digits_spec l ds rest :
  span_digits l = (ds, rest) ->
  l = ds ++ rest /\ Forall (fun c => is_digit c = true) ds /\
  (forall c l', rest = c :: l' -> is_digit c = false).
Proof.
  revert ds. induction l as [|c l IH]; intros ds; simpl; [by intros [= <- <-]|].
  destruct (is_digit c) eqn:Hc; [|intros [= <- <-]; by split_and!; [..|intros ?? [= <- _]]].
  destruct (span_digits l) as [a b]. intros [= <- <-].
  destruct (IH a eq_refl) as (-> & Hall & Hrest). split_and!; [done|by constructor|done].
Qed.

Lemma scan_digits_length l ds rest : scan_digits l = Some (ds, rest) -> length rest < length l.
Proof.
  unfold scan_digits. destruct (span_digits l) as [a b] eqn:Hs. apply span_digits_spec in Hs as [-> _].
  case_decide; [done|]. intros [= <- <-]. destruct a; [done|]. rewrite length_app. simpl. lia.
Qed.

Lemma scan_unsigned_length l lit rest : scan_unsigned l = Some (lit, rest) -> length rest < length l.
Proof.
  unfold scan_unsigned. destruct (scan_int l) as [[int l1]|] eqn:Hint; [|done].
  assert (length l1 < length l) as H1.
  { unfold scan_int in Hint. destruct l as [|c l']; [done|]. case_decide; [simplify_eq/=; lia|].
    by eapply scan_digits_length. }
  cbn. destruct (scan_fraction l1) as [[frac l2]|] eqn:Hfrac; [|done].
  assert (length l2 <= length l1) as H2.
  { unfold scan_fraction in Hfrac. destruct l1 as [|c l']; [by simplify_eq|]. case_decide; [|by simplify_eq].
    destruct (scan_digits l') as [[ds r]|] eqn:Hd; simplify_eq/=. apply scan_digits_length in Hd. lia. }
  cbn. destruct (scan_exponent l2) as [[exp l3]|] eqn:Hexp; [|done]. cbn. intros [= _ <-].
  assert (length l3 <= length l2); [|lia].
  unfold scan_exponent in Hexp. destruct l2 as [|c l']; [by simplify_eq|].
  case_decide; [|by simplify_eq]. destruct l' as [|s l'']; [done|]. case_decide;
    (destruct (scan_digits _) as [[ds r]|] eqn:Hd; simplify_eq/=; apply scan_digits_length in Hd; simpl in *; lia).
Qed.

Lemma scan_number_length l lit rest : scan_number l = Some (lit, rest) -> length rest < length l.
Proof.
  destruct l as [|c l]; [done|]. cbn [scan_number]. case_decide; [|apply scan_unsigned_length].
  destruct (scan_unsigned l) as [[lit' r]|] eqn:Hu; [|done]. cbn. intros [= _ <-].
  apply scan_unsigned_length in Hu. simpl. lia.
Qed.

Lemma scan_literal_length l j rest : scan_literal l = Some (j, rest) -> length rest < length l.
Proof.
  unfold scan_literal.
  assert (forall p t, p <> [] -> strip_prefix p l = Some t -> length t < length l) as Hp.
  { intros p t Hne ->%strip_prefix_spec. rewrite length_app. destruct p; [done|]. simpl. lia. }
  destruct (strip_prefix (chars "null") l) eqn:H1; [intros [= _ <-]; by apply (Hp (chars "null"))|].
  destruct (strip_prefix (chars "true") l) eqn:H2; [intros [= _ <-]; by apply (Hp (chars "true"))|].
  destruct (strip_prefix (chars "false") l) eqn:H3; [intros [= _ <-]; by apply (Hp (chars "false"))|].
  destruct (scan_number l) as [[lit r]|] eqn:Hn; [|done]. cbn. intros [= _ <-].
  by eapply scan_number_length.
Qed.

Lemma skip_spaces_cons l c l' : skip_spaces l = c :: l' -> length l' < length l.
Proof. intros Hs. pose proof (skip_spaces_length l) as Hl. rewrite Hs in Hl. simpl in Hl. lia. Qed.

Lemma parse_shorter fuel :
  (forall depth l j rest, parse_value fuel depth l = Some (j, rest) -> length rest < length l) /\
  (forall depth l ms rest, parse_members fuel depth l = Some (ms, rest) -> length rest < length l) /\
  (forall depth l vs rest, parse_elements fuel depth l = Some (vs, rest) -> length rest < length l).
Proof.
  induction fuel as [|fuel (IHv & IHm & IHe)]; [done|]. split_and!; intros depth l x rest.
  - cbn [parse_value]. destruct (skip_spaces l) as [|c l1] eqn:Hs; [done|]. apply skip_spaces_cons in Hs.
    case_decide; [|case_decide].
    + case_decide; [|done]. destruct (skip_spaces l1) as [|c2 l2] eqn:Hs1; [done|].
      pose proof (skip_spaces_length l1) as Hl. rewrite Hs1 in Hl. simpl in Hl.
      case_decide; [intros [= _ <-]; lia|].
      destruct (parse_members fuel _ _) as [[ms r]|] eqn:Hm; [|done]. intros [= _ <-].
      apply IHm in Hm. simpl in Hm. lia.
    + case_decide; [|done]. destruct (skip_spaces l1) as [|c2 l2] eqn:Hs1; [done|].
      pose proof (skip_spaces_length l1) as Hl. rewrite Hs1 in Hl. simpl in Hl.
      case_decide; [intros [= _ <-]; lia|].
      destruct (parse_elements fuel _ _) as [[ms r]|] eqn:Hm; [|done]. intros [= _ <-].
      apply IHe in Hm. simpl in Hm. lia.
    + case_decide.
      * destruct (scan_string l1) as [[raw r]|] eqn:Hr; [|done]. intros [= _ <-].
        apply scan_string_length in Hr. lia.
      * intros Hlit%scan_literal_length. simpl in Hlit. lia.
  - cbn [parse_members]. destruct (skip_spaces l) as [|q l1] eqn:Hs; [done|]. apply skip_spaces_cons in Hs.
    case_decide; [|done]. destruct (scan_string l1) as [[key l2]|] eqn:Hk; [|done].
    apply scan_string_length in Hk. cbn.
    destruct (skip_spaces l2) as [|colon l3] eqn:Hs2; [done|]. apply skip_spaces_cons in Hs2.
    case_decide; [|done]. destruct (parse_value fuel depth l3) as [[v l4]|] eqn:Hv; [|done].
    apply IHv in Hv. cbn. destruct (skip_spaces l4) as [|c l5] eqn:Hs4; [done|]. apply skip_spaces_cons in Hs4.
    case_decide; [|case_decide; [intros [= _ <-]; lia|done]].
    destruct (parse_members fuel depth l5) as [[ms r]|] eqn:Hm; [|done]. intros [= _ <-].
    apply IHm in Hm. lia.
  - cbn [parse_elements]. destruct (parse_value fuel depth l) as [[v l1]|] eqn:Hv; [|done].
    apply IHv in Hv. cbn. destruct (skip_spaces l1) as [|c l2] eqn:Hs; [done|]. apply skip_spaces_cons in Hs.
    case_decide; [|case_decide; [intros [= _ <-]; lia|done]].
    destruct (parse_elements fuel depth l2) as [[ms r]|] eqn:Hm; [|done]. intros [= _ <-].
    apply IHe in Hm. lia.
Qed.

(** The parser never stops for want of fuel: twice the length of the text is
    enough, more changes nothing. *)
Lemma parse_fuel f :
  (forall g depth l, 2 * length l < f -> 2 * length l < g -> parse_value f depth l = parse_value g depth l) /\
  (forall g depth l, 2 * length l < f -> 2 * length l < g -> parse_members f depth l = parse_members g depth l) /\
  (forall g depth l, 2 * length l + 1 < f -> 2 * length l + 1 < g ->
     parse_elements f depth l = parse_elements g depth l).
Proof.
  induction f as [|f (IHv & IHm & IHe)]; [split_and!; intros; lia|].
  split_and!; intros [|g] depth l Hf Hg; try lia.
  - cbn [parse_value]. destruct (skip_spaces l) as [|c l1] eqn:Hs; [done|]. apply skip_spaces_cons in Hs.
    pose proof (skip_spaces_length l1) as Hl.
    destruct (skip_spaces l1) as [|c2 l2]; [done|]. simpl in Hl.
    by rewrite (IHm g (depth + 1)%Z (c2 :: l2)), (IHe g (depth + 1)%Z (c2 :: l2)) by (simpl; lia).
  - cbn [parse_members]. destruct (skip_spaces l) as [|q l1] eqn:Hs; [done|]. apply skip_spaces_cons in Hs.
    case_decide; [|done]. destruct (scan_string l1) as [[key l2]|] eqn:Hk; [|done].
    apply scan_string_length in Hk. cbn [mbind option_bind].
    destruct (skip_spaces l2) as [|colon l3] eqn:Hs2; [done|]. apply skip_spaces_cons in Hs2.
    rewrite (IHv g) by lia. case_decide; [|done].
    destruct (parse_value g depth l3) as [[v l4]|] eqn:Hv; [|done].
    apply parse_shorter in Hv. cbn [mbind option_bind].
    destruct (skip_spaces l4) as [|c l5] eqn:Hs4; [done|]. apply skip_spaces_cons in Hs4.
    by rewrite (IHm g) by lia.
  - cbn [parse_elements]. rewrite (IHv g) by lia.
    destruct (parse_value g depth l) as [[v l1]|] eqn:Hv; [|done].
    apply parse_shorter in Hv. cbn [mbind option_bind].
    destruct (skip_spaces l1) as [|c l2] eqn:Hs; [done|]. apply skip_spaces_cons in Hs.
    by rewrite (IHe g) by lia.
Qed.

(** ** Lemmas: parsing what was printed *)

(** The values [Marshal] builds: integers, quoted strings and keys. *)
Inductive written : json -> Prop :=
| written_null : written JNull
| written_bool b : written (JBool b)
| written_int x : written (json_int x)
| written_string l : written (JString (quote_text l))
| written_array l : Forall written l -> written (JArray l)
| written_object l : Forall (fun m => (exists k, m.1 = quote_text k) /\ written m.2) l -> written (JObject l).

Fixpoint height (j : json) : Z :=
  match j with
  | JArray l => 1 + foldr Z.max 0 (height <$> l)
  | JObject l => 1 + foldr Z.max 0 ((fun m => height m.2) <$> l)
  | _ => 0
  end%Z.

(** What may follow a number. *)
Definition ends_number (rest : list ascii) : Prop :=
  match rest with
  | [] => True
  | c :: _ => is_digit c = false /\ c <> "."%char /\ c <> "e"%char /\ c <> "E"%char
  end.

Lemma span_digits_app ds rest :
  Forall (fun c => is_digit c = true) ds -> ends_number rest -> span_digits (ds ++ rest) = (ds, rest).
Proof.
  intros Hd Hr. induction Hd as [|c ds Hc _ IH]; cbn [app span_digits].
  - destruct rest as [|c rest]; [done|]. cbn [span_digits]. by destruct Hr as [-> _].
  - by rewrite Hc, IH.
Qed.

Lemma scan_int_nonneg x rest :
  (0 <= x)%Z -> ends_number rest -> scan_int (chars (FormatInt x) ++ rest) = Some (chars (FormatInt x), rest).
Proof.
  intros Hx Hr. destruct (decide (x = 0)%Z) as [->|Hx0]; [reflexivity|].
  destruct (FormatInt_nonneg_spec x Hx) as (ds & -> & Hd & _ & Hne & Hhead).
  specialize (Hhead ltac:(lia)). unfold scan_int. destruct ds as [|c ds]; [done|]. cbn [app].
  rewrite decide_False by (intros ->; by apply Hhead).
  unfold scan_digits. change (c :: ds ++ rest) with ((c :: ds) ++ rest).
  by rewrite span_digits_app, decide_False.
Qed.

Lemma FormatInt_opp x : (x < 0)%Z -> chars (FormatInt x) = "-"%char :: chars (FormatInt (- x)).
Proof. destruct x as [|p|p]; [lia..|]. intros _. unfold FormatInt, pretty, pretty_Z. by rewrite chars_app. Qed.

Lemma scan_unsigned_int x rest :
  (0 <= x)%Z -> ends_number rest ->
  scan_unsigned (chars (FormatInt x) ++ rest) = Some (chars (FormatInt x), rest).
Proof.
  intros Hx Hr. unfold scan_unsigned. rewrite scan_int_nonneg by done. cbn [mbind option_bind].
  assert (scan_fraction rest = Some ([], rest)) as ->.
  { destruct rest as [|c rest]; [done|]. destruct Hr as (_ & Hr & _). unfold scan_fraction.
    by rewrite decide_False. }
  cbn [mbind option_bind].
  assert (scan_exponent rest = Some ([], rest)) as ->.
  { destruct rest as [|c rest]; [done|]. destruct Hr as (_ & _ & He & HE). unfold scan_exponent.
    rewrite decide_False; [done|]. by intros [?|?]. }
  cbn. by rewrite app_nil_r.
Qed.

(** The first character of a printed number. *)
Lemma FormatInt_head x :
  exists c t, chars (FormatInt x) = c :: t /\ (is_digit c = true /\ (0 <= x)%Z \/ c = "-"%char /\ (x < 0)%Z).
Proof.
  destruct (decide (0 <= x)%Z) as [Hx|Hx].
  - destruct (FormatInt_nonneg_spec x Hx) as ([|c t] & Hc & Hd & _ & Hne & _); [done|].
    exists c, t. split; [done|]. left. by apply Forall_inv in Hd.
  - exists "-"%char, (chars (FormatInt (- x))). rewrite FormatInt_opp by lia. split; [done|]. right. split; [done|lia].
Qed.

Lemma scan_literal_int x rest :
  ends_number rest -> scan_literal (chars (FormatInt x) ++ rest) = Some (json_int x, rest).
Proof.
  intros Hr. unfold scan_literal, json_int. destruct (FormatInt_head x) as (c & t & Hc & Hd).
  assert (c <> "n"%char /\ c <> "t"%char /\ c <> "f"%char) as (Hn & Ht & Hf).
  { destruct Hd as [[Hd _]|[-> _]]; [|done]. by split_and!; intros ->. }
  assert (forall p q, q <> c -> strip_prefix (q :: p) (chars (FormatInt x) ++ rest) = None) as Hp.
  { intros p q Hq. rewrite Hc. cbn [app strip_prefix]. by rewrite decide_False by done. }
  change (chars "null") with ("n"%char :: chars "ull"). change (chars "true") with ("t"%char :: chars "rue").
  change (chars "false") with ("f"%char :: chars "alse").
  rewrite !(Hp _ _ (not_eq_sym Hn)), !(Hp _ _ (not_eq_sym Ht)), !(Hp _ _ (not_eq_sym Hf)).
  assert (scan_number (chars (FormatInt x) ++ rest) = Some (chars (FormatInt x), rest)) as ->; [|done].
  destruct Hd as [[Hd Hx]|[-> Hx]].
  - rewrite <- (scan_unsigned_int x rest) by done. rewrite Hc. cbn [app scan_number].
    rewrite decide_False; [done|]. by intros ->.
  - rewrite FormatInt_opp by lia. cbn [app scan_number]. rewrite decide_True by done.
    by rewrite scan_unsigned_int by (done || lia).
Qed.

(** After any of these a value ends. *)
Lemma ends_comma c rest :
  c = ","%char \/ c = "]"%char \/ c = "}"%char -> ends_number (c :: rest).
Proof. by intros [-> | [-> | ->]]. Qed.

Lemma foldr_max_nonneg l : (0 <= foldr Z.max 0 l)%Z.
Proof. induction l; simpl; lia. Qed.

(** No printed value starts with white space or a closing bracket. *)
Lemma print_head j :
  written j -> exists c t, print j = c :: t /\ json_space c = false /\ c <> "]"%char /\ c <> "}"%char.
Proof.
  intros [| [] | x | | | ]; try by eexists _, _.
  destruct (FormatInt_head x) as (c & t & Hc & Hd). exists c, t. split; [done|].
  destruct Hd as [[Hd _]|[-> _]]; [|done]. destruct c as [[] [] [] [] [] [] [] []]; by split_and!.
Qed.

Lemma skip_print j rest : written j -> skip_spaces (print j ++ rest) = print j ++ rest.
Proof.
  intros Hj. destruct (print_head j Hj) as (c & t & -> & Hc & _). cbn [app skip_spaces]. by rewrite Hc.
Qed.

Lemma comma_cons (x : list ascii) l rest :
  l <> [] -> comma_separated (x :: l) ++ rest = x ++ ","%char :: comma_separated l ++ rest.
Proof. destruct l as [|y l]; [done|]. intros _. cbn [comma_separated]. by rewrite <- app_assoc. Qed.

(** Parsing a printed value gives it back. *)
Definition parses_back (j : json) : Prop :=
  forall fuel depth rest, 2 * length (print j) < fuel -> (depth + height j <= maxNestingDepth)%Z ->
    ends_number rest -> parse_value fuel depth (print j ++ rest) = Some (j, rest).

Lemma elements_back l fuel depth rest :
  l <> [] -> Forall written l -> Forall parses_back l ->
  2 * length (comma_separated (print <$> l)) + 1 < fuel ->
  (depth + foldr Z.max 0 (height <$> l) <= maxNestingDepth)%Z ->
  parse_elements fuel depth (comma_separated (print <$> l) ++ "]"%char :: rest) = Some (l, rest).
Proof.
  intros Hne Hw Hb. revert fuel. induction Hb as [|j l Hj _ IH]; [done|].
  apply Forall_cons in Hw as [Hwj Hwl]. intros [|fuel] Hf Hd; [lia|]. simpl in Hd.
  cbn [parse_elements]. destruct l as [|j2 l].
  - cbn [fmap list_fmap comma_separated] in *. rewrite Hj; [done|lia|simpl in Hd; lia|by apply ends_comma; auto].
  - assert (length (comma_separated (print <$> j :: j2 :: l)) =
      length (print j) + S (length (comma_separated (print <$> j2 :: l)))) as Hlen
      by (cbn; by rewrite length_app).
    rewrite Hlen in Hf. rewrite fmap_cons, comma_cons by done.
    rewrite Hj; [|lia|lia|by apply ends_comma; auto]. cbn [mbind option_bind skip_spaces].
    change (json_space ",") with false. cbv iota. rewrite decide_True by done.
    rewrite IH; [done|done|done|lia|simpl in *; lia].
Qed.

Lemma members_back (l : list (list ascii * json)) fuel depth rest :
  l <> [] -> Forall (fun m => (exists k, m.1 = quote_text k) /\ written m.2) l ->
  Forall (fun m => parses_back m.2) l ->
  let text m := in_quotes m.1 ++ ":"%char :: print m.2 in
  2 * length (comma_separated (text <$> l)) < fuel ->
  (depth + foldr Z.max 0 ((fun m => height m.2) <$> l) <= maxNestingDepth)%Z ->
  parse_members fuel depth (comma_separated (text <$> l) ++ "}"%char :: rest) = Some (l, rest).
Proof.
  intros Hne Hw Hb text. revert fuel. induction Hb as [|[key j] l Hj _ IH]; [done|].
  apply Forall_cons in Hw as [[[k Hk] Hwj] Hwl]. cbn [fst snd] in *. subst key.
  intros [|fuel] Hf Hd; [lia|]. simpl in Hd. cbn [parse_members].
  assert (forall t, text (quote_text k, j) ++ t = quote_char :: quote_text k ++ quote_char :: ":"%char :: print j ++ t)
    as Htext by (intros t; unfold text, in_quotes; cbn; by rewrite <- !app_assoc).
  assert (2 + length (print j) < length (text (quote_text k, j))) as Htl
    by (unfold text, in_quotes; cbn; rewrite !length_app; simpl; lia).
  destruct l as [|m2 l].
  - cbn [fmap list_fmap comma_separated] in *. rewrite Htext. cbn [skip_spaces].
    change (json_space quote_char) with false. cbv iota. rewrite decide_True by done.
    rewrite scan_quote_text. cbn [mbind option_bind skip_spaces].
    change (json_space ":") with false. cbv iota. rewrite decide_True by done.
    rewrite Hj; [done|lia|simpl in Hd; lia|by apply ends_comma; auto].
  - assert (length (comma_separated (text <$> (quote_text k, j) :: m2 :: l)) =
      length (text (quote_text k, j)) + S (length (comma_separated (text <$> m2 :: l)))) as Hlen
      by (cbn; by rewrite length_app).
    rewrite Hlen in Hf. rewrite fmap_cons, comma_cons by done. rewrite Htext. cbn [skip_spaces].
    change (json_space quote_char) with false. cbv iota. rewrite decide_True by done.
    rewrite scan_quote_text. cbn [mbind option_bind skip_spaces].
    change (json_space ":") with false. cbv iota. rewrite decide_True by done.
    rewrite Hj; [|lia|lia|by apply ends_comma; auto]. cbn [mbind option_bind skip_spaces].
    change (json_space ",") with false. cbv iota. rewrite decide_True by done.
    rewrite IH; [done|done|done|lia|simpl in *; lia].
Qed.

Lemma print_parses_back j : written j -> parses_back j.
Proof.
  induction j as [|b|lit|raw|l IH|l IH] using json_ind; intros Hw fuel depth rest Hf Hd Hr;
    (destruct fuel as [|fuel]; [lia|]); cbn [parse_value]; rewrite skip_print by done.
  - reflexivity.
  - by destruct b.
  - inversion Hw as [| |x Hx| | |]; subst. destruct (FormatInt_head x) as (c & t & Hc & Hdig).
    cbn [json_int print]. rewrite Hc. cbn [app].
    rewrite !decide_False by (intros ->; destruct Hdig as [[? _]|[? _]]; done).
    rewrite app_comm_cons, <- Hc. by apply scan_literal_int.
  - inversion Hw; subst. cbn [print in_quotes app]. rewrite !decide_False by done. rewrite decide_True by done.
    rewrite <- app_assoc. cbn [app]. by rewrite scan_quote_text.
  - inversion Hw as [| | | |? Hl|]; subst. cbn [print app]. rewrite decide_False by done. rewrite decide_True by done.
    pose proof (foldr_max_nonneg (height <$> l)). simpl in Hd.
    rewrite decide_True by lia. rewrite <- app_assoc. cbn [app].
    destruct l as [|j l]; [reflexivity|].
    assert (exists c t, comma_separated (print <$> j :: l) ++ "]"%char :: rest = c :: t /\
      json_space c = false /\ c <> "]"%char) as (c & t & Heq & Hsp & Hne).
    { destruct (print_head j) as (c & t & Hc & Hsp & Hne & _); [by apply Forall_inv in Hl|].
      rewrite fmap_cons. destruct l; cbn [fmap list_fmap comma_separated];
        rewrite Hc; eexists c, _; cbn; done. }
    rewrite Heq. cbn [skip_spaces]. rewrite Hsp, decide_False by done. rewrite <- Heq.
    rewrite elements_back; [done..| | |].
    + apply Forall_forall. intros x Hx. rewrite Forall_forall in IH, Hl. auto.
    + cbn [print length] in Hf. rewrite length_app in Hf. simpl in Hf |- *. lia.
    + simpl in *. lia.
  - inversion Hw as [| | | | |? Hl]; subst. cbn [print app]. rewrite decide_True by done.
    pose proof (foldr_max_nonneg ((fun m => height m.2) <$> l)). simpl in Hd.
    rewrite decide_True by lia. rewrite <- app_assoc. cbn [app].
    destruct l as [|m l]; [reflexivity|].
    assert (exists t, comma_separated ((fun m => in_quotes m.1 ++ ":"%char :: print m.2) <$> m :: l) ++ "}"%char :: rest
      = quote_char :: t) as (t & Heq) by (rewrite fmap_cons; destruct l; eexists; reflexivity).
    rewrite Heq. cbn [skip_spaces]. change (json_space quote_char) with false. cbv iota.
    rewrite decide_False by done. rewrite <- Heq.
    rewrite members_back; [done..| | |].
    + apply Forall_forall. intros x Hx. rewrite Forall_forall in IH, Hl. by apply IH, Hl.
    + cbn [print length] in Hf. rewrite length_app in Hf. simpl in Hf |- *. lia.
    + simpl in *. lia.
Qed.

(** A printed value is parsed back, with the rest of the text left over. *)
Lemma parse_print j rest :
  written j -> (height j <= maxNestingDepth)%Z -> ends_number rest -> parse (print j ++ rest) = Some (j, rest).
Proof.
  intros Hw Hh Hr. apply print_parses_back; [done| |done|done]. rewrite length_app. lia.
Qed.

(** ** Decoding into structs *)

(** A decoder changes the Go value it is given; [None] is an error, after
    which the callers do not use the value. *)
Definition decoder (A : Type) : Type := json -> A -> option A.

Definition decode_string : decoder string := fun j old =>
  match j with
  | JNull => Some old
  | JString raw => String.string_of_list_ascii <$> unquote raw
  | _ => None
  end.

(** An [int64] (or [int]): the literal must be an integer in range. *)
Definition decode_int : decoder Z := fun j old =>
  match j with
  | JNull => Some old
  | JNumber lit => match ParseInt (String.string_of_list_ascii lit) with
                   | (x, None) => Some x
                   | (_, Some _) => None
                   end
  | _ => None
  end.

(** A slice: its elements are decoded into fresh values. *)
Definition decode_slice {A} (zero : A) (d : decoder A) : decoder (list A) := fun j _ =>
  match j with
  | JNull => Some []
  | JArray l => mapM (fun j => d j zero) l
  | _ => None
  end.

(** [foldName]: ASCII letters in upper case; U+017F and U+212A fold to [S] and
    [K], no other rune folds to ASCII. *)
Definition upper_byte (c : ascii) : ascii :=
  if in_range 97 122 c then ascii_of_N (byte_val c - 32) else c.

Definition fold_rune (r : option (list ascii)) : list ascii :=
  match r with
  | None => RuneError
  | Some [c] => [upper_byte c]
  | Some bs => if decide (bs = byte_char <$> [197; 191]%N) then ["S"%char]
               else if decide (bs = byte_char <$> [226; 132; 170]%N) then ["K"%char] else bs
  end.

Definition foldName (l : list ascii) : list ascii := runes l ≫= fold_rune.

(** A field of a struct: its name in JSON and how a value is put into it. *)
Definition field (A : Type) : Type := string * decoder A.

(** The field a key names.  The names of a struct differ by more than case,
    so looking for the folded name also finds the exact one. *)
Fixpoint find_field {A} (fields : list (field A)) (key : list ascii) : option (decoder A) :=
  match fields with
  | [] => None
  | (name, d) :: fields' =>
      if decide (foldName (chars name) = foldName key) then Some d else find_field fields' key
  end.

(** The members of an object in turn.  [strict] is [DisallowUnknownFields]. *)
Fixpoint decode_members {A} (strict : bool) (fields : list (field A)) (ms : list (list ascii * json)) (a : A)
  : option A :=
  match ms with
  | [] => Some a
  | (raw, v) :: ms' =>
    key ← unquote raw;
    match find_field fields key with
    | Some d => a' ← d v a; decode_members strict fields ms' a'
    | None => if strict then None else decode_members strict fields ms' a
    end
  end.

Definition decode_struct {A} (strict : bool) (fields : list (field A)) : decoder A := fun j a =>
  match j with
  | JNull => Some a
  | JObject ms => decode_members strict fields ms a
  | _ => None
  end.

(** [json.Unmarshal]: nothing but white space may follow the value. *)
Definition Unmarshal {A} (d : decoder A) (zero : A) (text : string) : option A :=
  '(j, rest) ← parse (chars text);
  if decide (skip_spaces rest = []) then d j zero else None.

(** [json.Marshal] of a [map[string]string], given in the order of its keys. *)
Definition Marshal_map (m : list (string * string)) : string :=
  String.string_of_list_ascii
    (print (JObject ((fun kv => (quote_text (chars kv.1), json_string kv.2)) <$> m))).

(** ** Lemmas: decoding what was encoded *)

Lemma option_bind_ret {A} (mx : option A) : (a ← mx; Some a) = mx.
Proof. by destruct mx. Qed.

(** Look the names of encoded fields up in the table of a decoder. *)
Ltac found_in F key l :=
  lazymatch eval hnf in l with
  | (_, ?d) :: ?l' => first [change (find_field F key) with (Some d) | found_in F key l']
  end.
Ltac lookup_fields :=
  repeat match goal with
  | |- context [find_field ?F (chars ?n)] =>
      match type of (find_field F (chars n)) with
      | option ?T => first [change (find_field F (chars n)) with (@None T) | found_in F (chars n) F]
      end
  end; cbn [mbind option_bind fst snd]; rewrite ?option_bind_ret.

Lemma ParseInt_printed x y : ParseInt (FormatInt x) = (y, None) -> y = x /\ (min_int64 <= x <= max_int64)%Z.
Proof.
  destruct (decide (min_int64 <= x <= max_int64)%Z) as [Hx|Hx].
  { rewrite ParseInt_FormatInt by done. by intros [= <-]. }
  unfold ParseInt. destruct (decide (0 <= x)%Z).
  - destruct (FormatInt_nonneg_spec x) as (ds & -> & Hd & Hv & Hne & _); [done|].
    assert (split_sign ds = (false, ds)) as ->.
    { destruct ds as [|c ds]; [done|]. apply Forall_inv in Hd. unfold split_sign.
      destruct (is_digit_sign c Hd). by rewrite !decide_False. }
    rewrite bool_decide_false, forallb_digits by done. cbn [negb orb]. rewrite Hv.
    rewrite decide_False by (unfold min_int64, max_int64 in *; lia). done.
  - destruct (FormatInt_neg_spec x) as (ds & -> & Hd & Hv & Hne); [lia|]. cbn [split_sign].
    rewrite decide_False, decide_True by done. rewrite bool_decide_false, forallb_digits by done. cbn [negb orb].
    rewrite Hv, decide_False by (unfold min_int64, max_int64 in *; lia). done.
Qed.

(** An integer is read as it was written, or not at all. *)
Lemma decode_int_in_range x old y :
  decode_int (json_int x) old = Some y -> y = x /\ (min_int64 <= x <= max_int64)%Z.
Proof.
  cbn [decode_int json_int]. rewrite String.string_of_list_ascii_of_string.
  destruct (ParseInt (FormatInt x)) as [z [|]] eqn:Hp; [done|]. intros [= <-]. by apply ParseInt_printed.
Qed.

Lemma decode_int_json x old y : decode_int (json_int x) old = Some y -> y = x.
Proof. by intros [? _]%decode_int_in_range. Qed.

Lemma decode_int_range x old : (min_int64 <= x <= max_int64)%Z -> decode_int (json_int x) old = Some x.
Proof.
  intros Hx. cbn [decode_int json_int]. rewrite String.string_of_list_ascii_of_string.
  by rewrite ParseInt_FormatInt.
Qed.

(** A string is read with malformed bytes replaced. *)
Definition coerced (s : string) : string := String.string_of_list_ascii (coerce (chars s)).

Lemma decode_string_json s old : decode_string (json_string s) old = Some (coerced s).
Proof. cbn [decode_string json_string]. by rewrite unquote_quote_text. Qed.

Lemma coerced_valid s : utf8_valid (chars s) = true -> coerced s = s.
Proof.
  intros Hs. unfold coerced. destruct (runes_valid _ Hs) as [_ ->].
  apply String.string_of_list_ascii_of_string.
Qed.

Lemma coerced_ascii s : forallb is_ascii (chars s) = true -> coerced s = s.
Proof.
  intros Hs%ascii_chars. unfold coerced. rewrite <- (String.string_of_list_ascii_of_string s) at 2. f_equal.
  unfold coerce. induction Hs as [|c l Hc _ IH]; [done|].
  rewrite runes_ascii by done. rewrite bind_cons, IH. done.
Qed.

