(* ===== verification/GoDuration.v ===== *)
(** * Durations: [time.ParseDuration]

    The parser of package [time] for texts such as [1h30m] or [1.5s],
    executable.  A [time.Duration] counts nanoseconds in an [int64]; the
    fraction is computed in [float64], here the specification of binary
    floating point of the Standard Library. *)

From S2P Require Import Prelude GoFmt GoString.
From Stdlib Require Import Ascii SpecFloat.

(** ** [float64] *)

Definition f64_of (n : Z) : spec_float := binary_normalize 53 1024 n 0 false.
Definition f64_mul : spec_float -> spec_float -> spec_float := SFmul 53 1024.
Definition f64_div : spec_float -> spec_float -> spec_float := SFdiv 53 1024.

(** [uint64(x)] for a value in range: towards zero. *)
Definition f64_trunc (x : spec_float) : Z :=
  match x with
  | S754_finite false m e =>
      if decide (0 <= e)%Z then Z.shiftl (Z.pos m) e else Z.shiftr (Z.pos m) (- e)
  | _ => 0
  end.

(** ** The parser *)

Definition two63 : Z := 9223372036854775808.

(** [leadingInt]: the leading digits and the rest; none on overflow. *)
Fixpoint leadingInt (s : list ascii) (x : Z) : option (Z * list ascii) :=
  match s with
  | [] => Some (x, [])
  | c :: s' =>
    if negb (is_digit c) then Some (x, s)
    else if decide (two63 / 10 < x)%Z then None
    else
      let x' := (x * 10 + digit_value c)%Z in
      if decide (two63 < x')%Z then None else leadingInt s' x'
  end.

(** [leadingFraction]: digits that no longer fit are skipped. *)
Fixpoint leadingFraction (s : list ascii) (x : Z) (scale : spec_float) (overflow : bool)
  : Z * spec_float * list ascii :=
  match s with
  | [] => (x, scale, [])
  | c :: s' =>
    if negb (is_digit c) then (x, scale, s)
    else if overflow then leadingFraction s' x scale true
    else if decide ((two63 - 1) / 10 < x)%Z then leadingFraction s' x scale true
    else
      let y := (x * 10 + digit_value c)%Z in
      if decide (two63 < y)%Z then leadingFraction s' x scale true
      else leadingFraction s' y (f64_mul scale (f64_of 10)) false
  end.

(** The letters of the unit and the rest. *)
Fixpoint leadingUnit (s : list ascii) : list ascii * list ascii :=
  match s with
  | [] => ([], [])
  | c :: s' => if bool_decide (c = "."%char) || is_digit c then ([], s)
               else let (u, r) := leadingUnit s' in (c :: u, r)
  end.

(** [unitMap]; the two spellings of the microsecond are U+00B5 and U+03BC. *)
Definition unitMap (u : string) : option Z :=
  if decide (u = "ns") then Some 1%Z
  else if decide (u = "us") then Some 1000%Z
  else if decide (chars u = byte_char <$> [194; 181; 115]%N) then Some 1000%Z
  else if decide (chars u = byte_char <$> [206; 188; 115]%N) then Some 1000%Z
  else if decide (u = "ms") then Some 1000000%Z
  else if decide (u = "s") then Some 1000000000%Z
  else if decide (u = "m") then Some 60000000000%Z
  else if decide (u = "h") then Some 3600000000000%Z
  else None.

(** The optional fraction: its digits, its scale, the rest, and whether there
    was a digit. *)
Definition duration_fraction (s : list ascii) : Z * spec_float * list ascii * bool :=
  match s with
  | c :: s1 =>
    if decide (c = "."%char) then
      let '(f, scale, s2) := leadingFraction s1 0 (f64_of 1) false in
      (f, scale, s2, negb (length s2 =? length s1))
    else (0%Z, f64_of 1, s, false)
  | [] => (0%Z, f64_of 1, s, false)
  end.

(** One number with its unit: its nanoseconds and the rest. *)
Definition duration_term (s : list ascii) : option (Z * list ascii) :=
  match s with
  | [] => None
  | c :: _ =>
    if negb (bool_decide (c = "."%char) || is_digit c) then None
    else
    '(v, s1) ← leadingInt s 0;
    let pre := negb (length s1 =? length s) in
    let '(f, scale, s2, post) := duration_fraction s1 in
    if negb pre && negb post then None
    else
    let (u, s3) := leadingUnit s2 in
    if decide (u = []) then None
    else
    unit ← unitMap (String.string_of_list_ascii u);
    if decide (two63 / unit < v)%Z then None
    else
    let v := (v * unit)%Z in
    let v' := if decide (0 < f)%Z
              then (v + f64_trunc (f64_mul (f64_of f) (f64_div (f64_of unit) scale)))%Z else v in
    if decide (0 < f /\ two63 < v')%Z then None
    else Some (v', s3)
  end.

(** The loop, adding in [uint64]; every term takes at least one byte, so the length is fuel
    enough. *)
Fixpoint duration_terms (fuel : nat) (s : list ascii) (d : Z) : option Z :=
  match s, fuel with
  | [], _ => Some d
  | _, O => None
  | _, S fuel' =>
    '(v, s') ← duration_term s;
    let d' := ((d + v) mod (2 * two63))%Z in
    if decide (two63 < d')%Z then None else duration_terms fuel' s' d'
  end.

Definition ParseDuration (text : string) : option Z :=
  let '(neg, s) := split_sign (chars text) in
  if decide (s = ["0"%char]) then Some 0%Z
  else if decide (s = []) then None
  else
    d ← duration_terms (length s) s 0;
    if neg : bool then Some (- d)%Z
    else if decide (two63 - 1 < d)%Z then None else Some d.

Example ParseDuration_examples :
  ParseDuration <$> ["1h30m"; "1.5s"; "-2ms"; "0"; "10"; "1.1h"; ".5m"; "2562047h47m16.854775807s";
                     "2562047h47m16.854775808s"; "-2562047h47m16.854775808s"; "1s 2s"; "+5us"] =
  [Some 5400000000000; Some 1500000000; Some (-2000000); Some 0; None; Some 3960000000000;
   Some 30000000000; Some 9223372036854775807; None; Some (-9223372036854775808); None;
   Some 5000]%Z.
Proof. vm_compute. reflexivity. Qed.

(** ** Lemmas *)

Lemma f64_trunc_nonneg x : (0 <= f64_trunc x)%Z.
Proof.
  destruct x as [| | |[] m e]; simpl; try lia. case_decide.
  - by apply Z.shiftl_nonneg.
  - by apply Z.shiftr_nonneg.
Qed.

Lemma duration_terms_range fuel s d n :
  duration_terms fuel s d = Some n -> (0 <= d <= two63)%Z -> (0 <= n <= two63)%Z.
Proof.
  revert s d. induction fuel as [|fuel IH]; intros [|c s] d Hd Hr; simpl in Hd;
    try (by injection Hd as <-); try done.
  apply bind_Some in Hd as ([v s'] & _ & Hd). case_decide; [done|].
  eapply IH; [exact Hd|]. unfold two63 in *.
  pose proof (Z.mod_pos_bound (d + v) (2 * 9223372036854775808)). lia.
Qed.

(** Every accepted duration fits an [int64]. *)
Lemma ParseDuration_range text d : ParseDuration text = Some d -> (min_int64 <= d <= max_int64)%Z.
Proof.
  unfold ParseDuration. intros Hd.
  destruct (split_sign (chars text)) as [neg s].
  case_decide; [by injection Hd as <-|]. case_decide; [done|].
  apply bind_Some in Hd as (n & Hn%duration_terms_range & Hd); [|by unfold two63].
  unfold min_int64, max_int64, two63 in *. destruct neg; [injection Hd as <-; lia|].
  case_decide; [done|]. injection Hd as <-. lia.
Qed.

Lemma digits_value_from ds x : 
  foldl (fun acc c => acc * 10 + digit_value c)%Z x ds = (x * 10 ^ Z.of_nat (length ds) + digits_value ds)%Z.
Proof.
  unfold digits_value. revert x. induction ds as [|c ds IH]; intros x; [simpl; lia|].
  cbn [foldl length]. rewrite (IH (x * 10 + digit_value c)%Z), (IH (0 * 10 + digit_value c)%Z).
  rewrite Nat2Z.inj_succ, Z.pow_succ_r by lia. ring.
Qed.

Lemma leadingInt_digits ds rest x :
  Forall (fun c => is_digit c = true) ds -> (0 <= x)%Z ->
  (foldl (fun acc c => acc * 10 + digit_value c)%Z x ds <= two63)%Z ->
  match rest with c :: _ => is_digit c = false | [] => True end ->
  leadingInt (ds ++ rest) x = Some (foldl (fun acc c => acc * 10 + digit_value c)%Z x ds, rest).
Proof.
  intros Hd. revert x. induction Hd as [|c ds Hc Hd IH]; intros x Hx Hv Hr.
  { simpl. destruct rest as [|c rest]; [done|]. simpl. by rewrite Hr. }
  assert (0 <= digit_value c <= 9)%Z as Hdv.
  { unfold is_digit, digit_value in *. apply bool_decide_eq_true in Hc. lia. }
  simpl in *. rewrite Hc. simpl.
  assert (x * 10 + digit_value c <= two63)%Z as Hstep.
  { etrans; [|exact Hv]. rewrite digits_value_from.
    pose proof (digits_value_nonneg ds Hd). assert (1 <= 10 ^ Z.of_nat (length ds))%Z; [|nia].
    pose proof (Z.pow_pos_nonneg 10 (Z.of_nat (length ds))). lia. }
  rewrite decide_False by (unfold two63 in *; Z.to_euclidean_division_equations; lia).
  rewrite decide_False by lia. apply IH; [lia|done..].
Qed.

(** A whole number of a unit is read as that many units. *)
Lemma ParseDuration_units n u k :
  (0 <= n)%Z -> u ∈ ["ns"; "us"; "ms"; "s"; "m"; "h"] -> unitMap u = Some k ->
  (n * k <= max_int64)%Z -> ParseDuration (FormatInt n +:+ u) = Some (n * k)%Z.
Proof.
  intros Hn Hu Hk Hle.
  destruct (FormatInt_nonneg_spec n Hn) as (ds & Hds & Hd & Hv & Hne & _).
  destruct ds as [|c ds]; [done|].
  assert (exists x xs, chars u = x :: xs /\ is_digit x = false /\ x <> "."%char /\
    leadingUnit (chars u) = (chars u, []) /\ (0 < k)%Z) as (x & xs & Hux & Hxd & Hxp & Hlu & Hkp).
  { clear -Hu Hk. repeat (apply elem_of_cons in Hu as [->|Hu];
      [vm_compute in Hk; injection Hk as <-; by eexists _, _|]). by apply elem_of_nil in Hu. }
  assert (is_digit c = true) as Hc by (by inv Hd).
  assert (n <= two63)%Z as Hn63 by (unfold max_int64, two63 in *; nia).
  unfold ParseDuration. rewrite chars_app, Hds. simpl app.
  assert (split_sign (c :: ds ++ chars u) = (false, c :: ds ++ chars u)) as ->.
  { destruct (is_digit_sign c Hc). simpl. by rewrite !decide_False. }
  rewrite decide_False by (intros [= -> Hnil]; apply app_nil in Hnil as [_ Hnil]; by rewrite Hux in Hnil).
  rewrite decide_False by done.
  assert (duration_term (c :: ds ++ chars u) = Some (n * k, [])%Z) as Hterm.
  { unfold duration_term. rewrite Hc, orb_true_r. simpl negb. cbv iota.
    change (c :: ds ++ chars u) with ((c :: ds) ++ chars u).
    rewrite leadingInt_digits; [|done|lia|fold (digits_value (c :: ds)); by rewrite Hv|by rewrite Hux].
    fold (digits_value (c :: ds)). rewrite Hv. simpl mbind. cbv beta iota.
    assert ((length (chars u) =? S (length (ds ++ chars u))) = false) as Hlen.
    { apply Nat.eqb_neq. rewrite length_app. lia. }
    cbn [length app]. rewrite Hlen.
    assert (duration_fraction (chars u) = (0%Z, f64_of 1, chars u, false)) as ->.
    { rewrite Hux. simpl. by rewrite decide_False. }
    rewrite Hlu. simpl negb. cbv iota. rewrite decide_False by (by rewrite Hux).
    rewrite String.string_of_list_ascii_of_string, Hk. simpl mbind.
    rewrite decide_False by (unfold max_int64, two63 in *; Z.to_euclidean_division_equations; nia).
    cbv zeta. done. }
  cbn [duration_terms length]. rewrite Hterm. simpl mbind. cbv beta iota zeta.
  rewrite Z.add_0_l, Z.mod_small by (unfold max_int64, two63 in *; nia).
  rewrite decide_False by (unfold max_int64, two63 in *; lia).
  destruct (length (ds ++ chars u)); simpl; rewrite decide_False by (unfold max_int64, two63 in *; lia); done.
Qed.
