(* ===== verification/GoFloat.v ===== *)
(** * [float64]: order and printing

    [sort.Float64s] and the verb [%.Nf] of package [fmt], over the Standard
    Library's specification of binary floating point; executable.  A printed
    number is the exact value rounded to [N] decimals, half to even. *)

From stdpp Require Import sorting.
From S2P Require Import Prelude GoFmt GoDuration.
From Stdlib Require Import Ascii SpecFloat.

Abbreviation f64 := spec_float.

(** ** Order *)

Definition isNaN (x : f64) : bool := match x with S754_nan => true | _ => false end.

(** The [Less] of [sort.Float64Slice]: NaN comes first. *)
Definition f64_less (x y : f64) : bool := SFltb x y || (isNaN x && negb (isNaN y)).

Definition f64_le (x y : f64) : Prop := f64_less y x = false.

#[export] Instance f64_le_dec : RelDecision f64_le.
Proof. intros x y. unfold f64_le. apply _. Defined.

(** The order is the lexicographic one on these keys. *)
Definition f64_key (x : f64) : Z * Z * Z :=
  match x with
  | S754_nan => (-3, 0, 0)
  | S754_infinity true => (-2, 0, 0)
  | S754_finite true m e => (-1, - e, - Z.pos m)
  | S754_zero _ => (0, 0, 0)
  | S754_finite false m e => (1, e, Z.pos m)
  | S754_infinity false => (2, 0, 0)
  end%Z.

Definition lex_lt (a b : Z * Z * Z) : Prop :=
  let '(a1, a2, a3) := a in let '(b1, b2, b3) := b in
  (a1 < b1 \/ a1 = b1 /\ (a2 < b2 \/ a2 = b2 /\ a3 < b3))%Z.

Lemma f64_less_key x y : f64_less x y = true <-> lex_lt (f64_key x) (f64_key y).
Proof.
  unfold f64_less, SFltb, SFcompare, lex_lt.
  destruct x as [sx|sx| |sx mx ex], y as [sy|sy| |sy my ey]; try destruct sx; try destruct sy;
    simpl; try (split; [done|lia]); try (split; [lia|done]).
  - destruct (Z.compare_spec ex ey) as [->|He|He]; simpl.
    + rewrite Pos.compare_cont_spec. destruct (Pos.compare_spec mx my); simpl; split; (done || lia).
    + split; [done|lia].
    + split; [lia|done].
  - destruct (Z.compare_spec ex ey) as [->|He|He]; simpl.
    + rewrite Pos.compare_cont_spec. destruct (Pos.compare_spec mx my); simpl; split; (done || lia).
    + split; [lia|done].
    + split; [done|lia].
Qed.

Lemma f64_le_key x y : f64_le x y <-> ~ lex_lt (f64_key y) (f64_key x).
Proof. unfold f64_le. rewrite <- f64_less_key. by destruct (f64_less y x). Qed.

#[export] Instance f64_le_total : Total f64_le.
Proof.
  intros x y. rewrite !f64_le_key. unfold lex_lt.
  destruct (f64_key x) as [[a1 a2] a3], (f64_key y) as [[b1 b2] b3]. lia.
Qed.

#[export] Instance f64_le_trans : Transitive f64_le.
Proof.
  intros x y z. rewrite !f64_le_key. unfold lex_lt.
  destruct (f64_key x) as [[a1 a2] a3], (f64_key y) as [[b1 b2] b3], (f64_key z) as [[c1 c2] c3]. lia.
Qed.

#[export] Instance f64_le_refl : Reflexive f64_le.
Proof. intros x. by destruct (total f64_le x x). Qed.

(** Equal in the order: the same float, unless they are zeros. *)
Lemma f64_le_antisym x y :
  f64_le x y -> f64_le y x -> x <> S754_zero true -> y <> S754_zero true -> x = y.
Proof.
  rewrite !f64_le_key. unfold lex_lt. intros Hxy Hyx Hx Hy.
  assert (f64_key x = f64_key y) as Hk.
  { destruct (f64_key x) as [[a1 a2] a3], (f64_key y) as [[b1 b2] b3]. repeat f_equal; lia. }
  destruct x as [[]|[]| |[] mx ex], y as [[]|[]| |[] my ey]; simpl in Hk; simplify_eq; try done.
  - f_equal; lia.
Qed.

(** [sort.Float64s]: the sorted order; which of two zeros comes first is open
    in the source and never shows. *)
Definition Float64s (xs : list f64) : list f64 := merge_sort f64_le xs.

Lemma Float64s_perm xs : Float64s xs ≡ₚ xs.
Proof. apply merge_sort_Permutation. Qed.

Lemma Float64s_sorted xs : StronglySorted f64_le (Float64s xs).
Proof. apply StronglySorted_merge_sort; apply _. Qed.

(** Sorting does not depend on the order of the input. *)
Lemma Float64s_unique xs ys :
  xs ≡ₚ ys -> Forall (fun x => x <> S754_zero true) xs -> Float64s xs = Float64s ys.
Proof.
  intros Hp Hz. apply (StronglySorted_unique_strong f64_le).
  - intros x y Hx Hy Hxy Hyx. rewrite Forall_forall in Hz.
    apply f64_le_antisym; [done..| |]; apply Hz.
    + by rewrite Float64s_perm in Hx.
    + by rewrite Float64s_perm, <- Hp in Hy.
  - apply Float64s_sorted.
  - apply Float64s_sorted.
  - by rewrite !Float64s_perm.
Qed.

(** Positions of a sorted list. *)
Lemma sorted_lookup_le l i j x y :
  StronglySorted f64_le l -> l !! i = Some x -> l !! j = Some y -> i <= j -> f64_le x y.
Proof.
  intros Hs. revert i j. induction Hs as [|z l _ IH Hz]; intros i j Hi Hj Hij; [done|].
  destruct i as [|i], j as [|j]; simpl in Hi, Hj.
  - by simplify_eq.
  - injection Hi as ->. rewrite Forall_forall in Hz. eapply Hz, list_elem_of_lookup_2, Hj.
  - lia.
  - by apply (IH i j); [..|lia].
Qed.

(** ** Conversions *)

(** [int64(x)] on amd64: towards zero; the least integer when out of range. *)
Definition int64_of (x : f64) : Z :=
  let z := match x with
           | S754_finite s m e =>
               let a := if decide (0 <= e)%Z then Z.shiftl (Z.pos m) e else Z.shiftr (Z.pos m) (- e) in
               if s : bool then (- a)%Z else a
           | S754_zero _ => 0%Z
           | _ => min_int64
           end in
  if decide (min_int64 <= z <= max_int64)%Z then z else min_int64.

(** ** [%.Nf] *)

(** [num / den] rounded to the nearest integer, half to even. *)
Definition round_half_even (num den : Z) : Z :=
  let q := (num / den)%Z in
  match (2 * (num mod den) ?= den)%Z with
  | Lt => q
  | Gt => (q + 1)%Z
  | Eq => if Z.even q then q else (q + 1)%Z
  end.

(** [m * 2^e * 10^prec], rounded. *)
Definition scaled (prec : nat) (m : positive) (e : Z) : Z :=
  let num := (Z.pos m * 10 ^ Z.of_nat prec)%Z in
  if decide (0 <= e)%Z then (num * 2 ^ e)%Z else round_half_even num (2 ^ (- e)).

(** [n] with a point before its last [prec] digits. *)
Definition with_point (prec : nat) (n : Z) : string :=
  let whole := FormatInt (n / 10 ^ Z.of_nat prec) in
  if decide (prec = 0) then whole
  else whole +:+ "." +:+ appendInt (n mod 10 ^ Z.of_nat prec) prec.

Definition FormatFixed (prec : nat) (x : f64) : string :=
  match x with
  | S754_nan => "NaN"
  | S754_infinity false => "+Inf"
  | S754_infinity true => "-Inf"
  | S754_zero s => (if s : bool then "-" else "") +:+ with_point prec 0
  | S754_finite s m e => (if s : bool then "-" else "") +:+ with_point prec (scaled prec m e)
  end.

(** The printed number is within half a unit of its last digit. *)
Lemma round_half_even_close num den :
  (0 < den)%Z -> (2 * Z.abs (round_half_even num den * den - num) <= den)%Z.
Proof.
  intros Hd. unfold round_half_even. pose proof (Z.div_mod num den ltac:(lia)) as Hdm.
  pose proof (Z.mod_pos_bound num den Hd) as Hb.
  set (q := (num / den)%Z) in *. set (r := (num mod den)%Z) in *.
  destruct (Z.compare_spec (2 * r) den); [destruct (Z.even q)|..]; nia.
Qed.

Example FormatFixed_examples :
  FormatFixed 2 (f64_div (f64_of 1) (f64_of 8)) = "0.12" /\
  FormatFixed 1 (f64_of 25) = "25.0" /\ FormatFixed 0 (f64_div (f64_of 5) (f64_of 2)) = "2" /\
  FormatFixed 4 (f64_div (f64_of 1) (f64_of 3)) = "0.3333".
Proof. split_and!; vm_compute; reflexivity. Qed.
