(* ===== verification/Netip.v ===== *)
(** * Addresses: [net/netip], [net.SplitHostPort] and [strings.Split]

    What the configuration and the client-address middleware use of Go's
    address packages, executable: parsing and printing of IPv4 and IPv6
    addresses, prefixes and their membership test. *)

From S2P Require Import Prelude GoFmt GoString.
From Stdlib Require Import Ascii.

(** ** [strings.Split] with a one-byte separator *)

Fixpoint split_chars (sep : ascii) (l : list ascii) : list (list ascii) :=
  match l with
  | [] => [[]]
  | c :: l' =>
    if decide (c = sep) then [] :: split_chars sep l'
    else match split_chars sep l' with
         | f :: fs => (c :: f) :: fs
         | [] => [[c]]
         end
  end.

Definition Split (s : string) (sep : ascii) : list string :=
  String.string_of_list_ascii <$> split_chars sep (chars s).

(** ** Positions of a byte *)

(** The parts before and after the first and the last occurrence of a byte. *)
Fixpoint cut_first (c : ascii) (l : list ascii) : option (list ascii * list ascii) :=
  match l with
  | [] => None
  | x :: l' => if decide (x = c) then Some ([], l')
               else p ← cut_first c l'; Some (x :: p.1, p.2)
  end.

Definition cut_last (c : ascii) (l : list ascii) : option (list ascii * list ascii) :=
  p ← cut_first c (reverse l); Some (reverse p.2, reverse p.1).

(** ** Addresses *)

(** A valid [netip.Addr]; an IPv6 address may have a zone. *)
Inductive Addr :=
| Addr4 (a : Z)
| Addr6 (a : Z) (zone : string).

#[export] Instance Addr_eq_dec : EqDecision Addr.
Proof. solve_decision. Defined.

Definition BitLen (a : Addr) : Z := match a with Addr4 _ => 32 | Addr6 _ _ => 128 end.
Definition hasZone (a : Addr) : bool :=
  match a with Addr4 _ => false | Addr6 _ z => negb (bool_decide (z = "")) end.

(** [::ffff:a.b.c.d]. *)
Definition Is4In6 (a : Addr) : bool :=
  match a with Addr4 _ => false | Addr6 v _ => bool_decide (Z.shiftr v 32 = 65535)%Z end.

Definition Unmap (a : Addr) : Addr :=
  match a with
  | Addr6 v _ => if Is4In6 a then Addr4 (Z.land v (Z.ones 32)) else a
  | Addr4 _ => a
  end.

(** The value of big-endian bytes. *)
Definition of_bytes (bs : list Z) : Z := foldl (fun acc b => acc * 256 + b)%Z 0%Z bs.

(** *** Parsing *)

(** [parseIPv4Fields]: [prev] is the byte before, [val] and [digLen] the
    current field, [fields] the finished ones. *)
Fixpoint parseIPv4Fields (s : list ascii) (prev : option ascii) (val digLen : Z) (fields : list Z)
  : option (list Z) :=
  match s with
  | [] => if decide (length fields < 3) then None else Some (fields ++ [val])
  | c :: s' =>
    if is_digit c then
      if decide (digLen = 1 /\ val = 0)%Z then None
      else
        let val' := (val * 10 + digit_value c)%Z in
        if decide (255 < val')%Z then None
        else parseIPv4Fields s' (Some c) val' (digLen + 1) fields
    else if decide (c = ".")%char then
      if decide (prev = None \/ s' = [] \/ prev = Some "."%char) then None
      else if decide (length fields = 3) then None
      else parseIPv4Fields s' (Some c) 0 0 (fields ++ [val])
    else None
  end.

Definition parseIPv4 (s : list ascii) : option Addr :=
  fields ← parseIPv4Fields s None 0 0 []; Some (Addr4 (of_bytes fields)).

Definition hex_value (c : ascii) : option Z :=
  let n := N_of_ascii c in
  if is_digit c then Some (digit_value c)
  else if bool_decide (97 <= n <= 102)%N then Some (Z.of_N n - 87)%Z
  else if bool_decide (65 <= n <= 70)%N then Some (Z.of_N n - 55)%Z
  else None.

(** The hexadecimal number at the start of [s]: its value, its length and the
    rest; none if it is too long. *)
Fixpoint hex_group (s : list ascii) (off acc : Z) : option (Z * Z * list ascii) :=
  match s with
  | [] => Some (acc, off, [])
  | c :: s' =>
    match hex_value c with
    | None => Some (acc, off, s)
    | Some d =>
      let acc' := (acc * 16 + d)%Z in
      if decide (3 < off)%Z then None
      else if decide (65535 < acc')%Z then None
      else hex_group s' (off + 1) acc'
    end
  end.

(** The loop of [parseIPv6]: the rest of the text, the bytes so far (two per
    turn, so eight turns fill the address) and the place of the ellipsis. *)
Fixpoint parseIPv6_loop (turns : nat) (s : list ascii) (ip : list Z) (ellipsis : option nat)
  : option (list ascii * list Z * option nat) :=
  match turns with
  | O => Some (s, ip, ellipsis)
  | S turns' =>
    '(acc, off, rest) ← hex_group s 0 0;
    if decide (off = 0)%Z then None
    else if decide (head rest = Some "."%char) then
      if decide (ellipsis = None /\ length ip <> 12) then None
      else if decide (16 < length ip + 4) then None
      else fields ← parseIPv4Fields s None 0 0 []; Some ([], ip ++ fields, ellipsis)
    else
      let ip' := ip ++ [acc / 256; acc mod 256]%Z in
      match rest with
      | [] => Some ([], ip', ellipsis)
      | c :: rest1 =>
        if decide (c <> ":"%char) then None
        else match rest1 with
        | [] => None
        | c1 :: rest2 =>
          if decide (c1 = ":"%char) then
            match ellipsis with
            | Some _ => None
            | None => match rest2 with
                      | [] => Some ([], ip', Some (length ip'))
                      | _ => parseIPv6_loop turns' rest2 ip' (Some (length ip'))
                      end
            end
          else parseIPv6_loop turns' rest1 ip' ellipsis
        end
      end
  end.

(** The sixteen bytes: the ellipsis stands for at least one group of zeros. *)
Definition expand (ip : list Z) (ellipsis : option nat) : option (list Z) :=
  if decide (length ip < 16) then
    e ← ellipsis; Some (take e ip ++ replicate (16 - length ip) 0%Z ++ drop e ip)
  else match ellipsis with Some _ => None | None => Some ip end.

Definition parseIPv6 (s0 : list ascii) : option Addr :=
  '(s, zone) ← match cut_first "%" s0 with
               | None => Some (s0, "")
               | Some (_, []) => None
               | Some (s, z) => Some (s, String.string_of_list_ascii z)
               end;
  let '(s, ellipsis) := match s with
                        | ":"%char :: ":"%char :: s' => (s', Some 0)
                        | _ => (s, None)
                        end in
  if decide (ellipsis = Some 0 /\ s = []) then Some (Addr6 0 zone)
  else
    '(rest, ip, ellipsis') ← parseIPv6_loop 8 s [] ellipsis;
    if decide (rest <> []) then None
    else bytes ← expand ip ellipsis'; Some (Addr6 (of_bytes bytes) zone).

(** [ParseAddr]: the first of [.], [:] and [%] decides. *)
Fixpoint addr_kind (s : list ascii) : option ascii :=
  match s with
  | [] => None
  | c :: s' => if decide (c = "." \/ c = ":" \/ c = "%")%char then Some c else addr_kind s'
  end.

Definition ParseAddr (s : string) : option Addr :=
  match addr_kind (chars s) with
  | Some "."%char => parseIPv4 (chars s)
  | Some ":"%char => parseIPv6 (chars s)
  | _ => None
  end.

(** *** Printing *)

(** The [n] big-endian digits of [v] to the base [2^w]. *)
Definition to_fields (w : Z) (n : nat) (v : Z) : list Z :=
  (fun i => Z.land (Z.shiftr v (w * Z.of_nat i)) (Z.ones w)) <$> reverse (seq 0 n).

Definition join_with (sep : string) (l : list string) : string :=
  match l with [] => "" | x :: l' => x +:+ foldr (fun y acc => sep +:+ y +:+ acc) "" l' end.

Definition string4 (v : Z) : string := join_with "." (FormatInt <$> to_fields 8 4 v).

Definition hex_char (n : Z) : ascii :=
  ascii_of_N (Z.to_N (if decide (n < 10)%Z then 48 + n else 87 + n)).

(** [appendHex]: no leading zeros. *)
Definition appendHex (x : Z) : string :=
  let ds := to_fields 4 4 x in
  String.string_of_list_ascii (hex_char <$> match ds with
    | [a; b; c; d] => if decide (4096 <= x)%Z then ds
                      else if decide (256 <= x)%Z then [b; c; d]
                      else if decide (16 <= x)%Z then [c; d] else [d]
    | _ => ds
    end).

(** The length of the run of zero groups at the start. *)
Fixpoint zero_run (l : list Z) : nat :=
  match l with
  | [] => 0
  | g :: l' => if decide (g = 0)%Z then S (zero_run l') else 0
  end.

(** The first of the longest runs of at least two zero groups: its start and
    length. *)
Definition longest_run (groups : list Z) : option (nat * nat) :=
  foldl (fun best i =>
    let n := zero_run (drop i groups) in
    if decide (2 <= n /\ match best with Some (_, m) => m | None => 0 end < n)
    then Some (i, n) else best) None (seq 0 (length groups)).

Definition string6 (v : Z) : string :=
  let groups := to_fields 16 8 v in
  match longest_run groups with
  | Some (i, n) =>
      join_with ":" (appendHex <$> take i groups) +:+ "::" +:+
      join_with ":" (appendHex <$> drop (i + n) groups)
  | None => join_with ":" (appendHex <$> groups)
  end.

Definition AddrString (a : Addr) : string :=
  match a with
  | Addr4 v => string4 v
  | Addr6 v zone =>
      (if Is4In6 a then "::ffff:" +:+ string4 (Z.land v (Z.ones 32)) else string6 v) +:+
      (if decide (zone = "") then "" else "%" +:+ zone)
  end.

(** ** Prefixes *)

Record Prefix := mkPrefix { pf_addr : Addr; pf_bits : Z }.

(** [Contains]: same family, no zone, and the first bits agree. *)
Definition Contains (p : Prefix) (a : Addr) : bool :=
  if hasZone a then false
  else match pf_addr p, a with
  | Addr4 v, Addr4 u => bool_decide (Z.shiftr (Z.lxor u v) (32 - pf_bits p) = 0)%Z
  | Addr6 v _, Addr6 u _ => bool_decide (Z.shiftr (Z.lxor u v) (128 - pf_bits p) = 0)%Z
  | _, _ => false
  end.

(** [Masked]: the bits after the prefix are cleared. *)
Definition mask (v width bits : Z) : Z := Z.shiftl (Z.shiftr v (width - bits)) (width - bits).
Definition Masked (p : Prefix) : Prefix :=
  match pf_addr p with
  | Addr4 v => mkPrefix (Addr4 (mask v 32 (pf_bits p))) (pf_bits p)
  | Addr6 v _ => mkPrefix (Addr6 (mask v 128 (pf_bits p)) "") (pf_bits p)
  end.

Definition ParsePrefix (s : string) : option Prefix :=
  '(addr, bits) ← cut_last "/" (chars s);
  ip ← ParseAddr (String.string_of_list_ascii addr);
  if hasZone ip then None
  else
    match bits with
    | c :: _ :: _ =>
        if bool_decide (49 <= N_of_ascii c <= 57)%N then
          match Atoi (String.string_of_list_ascii bits) with
          | (n, None) => if decide (0 <= n <= BitLen ip)%Z then Some (mkPrefix ip n) else None
          | _ => None
          end
        else None
    | _ => match Atoi (String.string_of_list_ascii bits) with
           | (n, None) => if decide (0 <= n <= BitLen ip)%Z then Some (mkPrefix ip n) else None
           | _ => None
           end
    end.

(** ** [net.SplitHostPort] *)

Definition SplitHostPort (hostport : string) : option (string * string) :=
  let l := chars hostport in
  '(before, port) ← cut_last ":" l;
  let done := fun (host : list ascii) (j k : list ascii) =>
    if decide ("["%char ∈ j) then None
    else if decide ("]"%char ∈ k) then None
    else Some (String.string_of_list_ascii host, String.string_of_list_ascii port) in
  match l with
  | "["%char :: inner =>
      (* the first "]" must stand just before the last ":" *)
      '(host, after) ← cut_first "]" inner;
      if decide (length ("[" :: host)%char + 1 = length before)
      then done host inner after
      else None
  | _ => if decide (":"%char ∈ before) then None else done before l l
  end.

(** ** Lemmas *)

Lemma split_chars_app sep l1 l2 :
  split_chars sep (l1 ++ sep :: l2) = split_chars sep l1 ++ split_chars sep l2.
Proof.
  induction l1 as [|c l1 IH]; simpl; [by rewrite decide_True|].
  case_decide; rewrite IH; [done|]. destruct (split_chars sep l1) eqn:Hs; [|done].
  destruct l1 as [|d l1]; simpl in Hs; [done|].
  repeat (case_match || case_decide); done.
Qed.

Lemma Split_app s1 sep s2 :
  Split (s1 +:+ String sep s2) sep = Split s1 sep ++ Split s2 sep.
Proof. unfold Split. rewrite chars_app. simpl. by rewrite split_chars_app, fmap_app. Qed.

Lemma Split_none s sep : sep ∉ chars s -> Split s sep = [s].
Proof.
  intros Hs. unfold Split. assert (split_chars sep (chars s) = [chars s]) as ->.
  { induction (chars s) as [|c l IH]; [done|]. apply not_elem_of_cons in Hs as [Hc Hl].
    cbn [split_chars]. by rewrite decide_False, IH. }
  simpl. by rewrite String.string_of_list_ascii_of_string.
Qed.

(** Splitting at the comma what was joined with a comma and a space. *)
Lemma Split_join x l :
  Forall (fun y => ","%char ∉ chars y) (x :: l) ->
  Split (join_with ", " (x :: l)) "," = x :: (String " " <$> l).
Proof.
  revert x. induction l as [|y l IH]; intros x [Hx Hl]%Forall_cons; cbn [join_with foldr].
  - rewrite <- (String.string_of_list_ascii_of_string (x +:+ "")), chars_app, app_nil_r.
    rewrite String.string_of_list_ascii_of_string. by apply Split_none.
  - change (x +:+ ", " +:+ ?r) with (x +:+ String "," (String " " r)).
    rewrite Split_app, Split_none by done. apply Forall_cons in Hl as [Hy Hl].
    change (String " " (y +:+ foldr ?f ?e l)) with (join_with ", " (String " " y :: l)).
    rewrite IH; [done|]. apply Forall_cons. split; [|done].
    simpl. rewrite not_elem_of_cons. done.
Qed.

Lemma cut_first_app c a b : c ∉ a -> cut_first c (a ++ c :: b) = Some (a, b).
Proof.
  induction a as [|x a IH]; intros Ha; simpl; [by rewrite decide_True|].
  apply not_elem_of_cons in Ha as [Hx Ha]. by rewrite decide_False, IH.
Qed.

Lemma cut_last_app c a b : c ∉ b -> cut_last c (a ++ c :: b) = Some (a, b).
Proof.
  intros Hb. unfold cut_last. rewrite reverse_app, reverse_cons, <- app_assoc. cbn [app].
  rewrite cut_first_app by (by rewrite elem_of_reverse). simpl. by rewrite !reverse_involutive.
Qed.

(** *** IPv4 addresses are parsed back *)

Definition dec (b : Z) : list ascii := chars (FormatInt b).

(** One field, followed by anything. *)
Lemma parse_field b rest prev fields :
  (0 <= b <= 255)%Z ->
  exists c n, is_digit c = true /\
    parseIPv4Fields (dec b ++ rest) prev 0 0 fields = parseIPv4Fields rest (Some c) b n fields.
Proof.
  intros Hb. rewrite <- (Z2Nat.id b) by lia. assert (Z.to_nat b < 256) as Hn by lia.
  generalize (Z.to_nat b) Hn. clear b Hb Hn. intros n Hn.
  do 256 (destruct n as [|n]; [vm_compute dec; eexists _, _; split; [|reflexivity]; done|]). lia.
Qed.

Lemma parse_dot rest c val n fields :
  is_digit c = true -> rest <> [] -> length fields <> 3 ->
  parseIPv4Fields ("."%char :: rest) (Some c) val n fields =
  parseIPv4Fields rest (Some "."%char) 0 0 (fields ++ [val]).
Proof.
  intros Hc Hr Hf. cbn [parseIPv4Fields]. change (is_digit ".") with false. cbn iota.
  rewrite decide_True by reflexivity. rewrite decide_False; [by rewrite decide_False by done|].
  intros [?|[?|[= ->]]]; done.
Qed.

Lemma dec_nonempty b : (0 <= b)%Z -> dec b <> [].
Proof. intros Hb. unfold dec. by destruct (FormatInt_nonneg_spec b Hb) as (ds & -> & _ & _ & ? & _). Qed.

Lemma parse_fields b0 b1 b2 b3 :
  (0 <= b0 <= 255)%Z -> (0 <= b1 <= 255)%Z -> (0 <= b2 <= 255)%Z -> (0 <= b3 <= 255)%Z ->
  parseIPv4Fields (dec b0 ++ "."%char :: dec b1 ++ "."%char :: dec b2 ++ "."%char :: dec b3) None 0 0 []
  = Some [b0; b1; b2; b3].
Proof.
  intros H0 H1 H2 H3.
  assert (forall (b : Z) r, (0 <= b)%Z -> dec b ++ r <> []) as Hne.
  { intros b r Hb [? _]%app_nil. by apply (dec_nonempty b). }
  edestruct (parse_field b0) as (c0 & n0 & Hc0 & ->); [done|]. rewrite parse_dot by (done || apply Hne; lia).
  edestruct (parse_field b1) as (c1 & n1 & Hc1 & ->); [done|]. rewrite parse_dot by (done || apply Hne; lia).
  edestruct (parse_field b2) as (c2 & n2 & Hc2 & ->); [done|].
  rewrite parse_dot by (done || apply dec_nonempty; lia).
  destruct (parse_field b3 [] (Some "."%char) [b0; b1; b2] H3) as (c3 & n3 & Hc3 & Hp).
  rewrite app_nil_r in Hp. simpl app at 1. by rewrite Hp.
Qed.

Lemma of_to_bytes v : (0 <= v < 2 ^ 32)%Z -> of_bytes (to_fields 8 4 v) = v.
Proof.
  intros Hv. unfold to_fields, of_bytes. simpl.
  rewrite !Z.land_ones, !Z.shiftr_div_pow2 by lia. change (2 ^ 0)%Z with 1%Z. rewrite Z.div_1_r.
  change (2 ^ 8)%Z with 256%Z. change (2 ^ 16)%Z with 65536%Z. change (2 ^ 24)%Z with 16777216%Z.
  change (2 ^ 32)%Z with 4294967296%Z in Hv. Z.to_euclidean_division_equations. lia.
Qed.

Lemma byte_fields v i : (0 <= Z.land (Z.shiftr v i) (Z.ones 8) <= 255)%Z.
Proof. rewrite Z.land_ones by lia. pose proof (Z.mod_pos_bound (Z.shiftr v i) (2 ^ 8)). lia. Qed.

Lemma addr_kind_digits ds r :
  Forall (fun c => is_digit c = true) ds -> addr_kind (ds ++ "."%char :: r) = Some "."%char.
Proof.
  induction 1 as [|c ds Hc _ IH]; simpl; [done|].
  rewrite decide_False; [done|]. intros [->|[->| ->]]; done.
Qed.

Lemma ParseAddr_string4 v : (0 <= v < 2 ^ 32)%Z -> ParseAddr (string4 v) = Some (Addr4 v).
Proof.
  intros Hv. assert (exists b0 b1 b2 b3, to_fields 8 4 v = [b0; b1; b2; b3] /\
    (0 <= b0 <= 255)%Z /\ (0 <= b1 <= 255)%Z /\ (0 <= b2 <= 255)%Z /\ (0 <= b3 <= 255)%Z)
    as (b0 & b1 & b2 & b3 & Hf & H0 & H1 & H2 & H3).
  { unfold to_fields. simpl. eexists _, _, _, _. split; [done|]. split_and!; apply byte_fields. }
  assert (chars (string4 v) =
    dec b0 ++ "."%char :: dec b1 ++ "."%char :: dec b2 ++ "."%char :: dec b3) as Hs.
  { unfold string4. rewrite Hf. cbn [fmap list_fmap join_with foldr]. unfold dec.
    rewrite !chars_app. simpl. by rewrite app_nil_r. }
  unfold ParseAddr. rewrite Hs, addr_kind_digits.
  2: { unfold dec. destruct (FormatInt_nonneg_spec b0) as (ds & -> & Hd & _); [lia|done]. }
  unfold parseIPv4. rewrite parse_fields by done. simpl.
  by rewrite <- Hf, of_to_bytes.
Qed.

Lemma parse_fields_range s prev val n fields fs :
  parseIPv4Fields s prev val n fields = Some fs -> (0 <= val <= 255)%Z -> length fields <= 3 ->
  Forall (fun b => 0 <= b <= 255)%Z fields ->
  length fs = 4 /\ Forall (fun b => 0 <= b <= 255)%Z fs.
Proof.
  revert prev val n fields. induction s as [|c s IH]; intros prev val n fields Hp Hv Hl Hf; simpl in Hp.
  - case_decide; [done|]. injection Hp as <-. rewrite length_app. simpl. split; [lia|].
    apply Forall_app. split; [done|]. by apply Forall_singleton.
  - destruct (is_digit c) eqn:Hd.
    + repeat case_decide; try done. unfold is_digit, digit_value in *.
      apply bool_decide_eq_true in Hd. eapply IH; [exact Hp|lia|done..].
    + repeat case_decide; try done. eapply IH; [exact Hp|lia|rewrite length_app; simpl; lia|].
      apply Forall_app. split; [done|]. by apply Forall_singleton.
Qed.

Lemma parseIPv6_is6 l a : parseIPv6 l = Some a -> exists v z, a = Addr6 v z.
Proof.
  intros ([s zone] & _ & Hp)%bind_Some. cbv beta iota in Hp.
  destruct (match s with
            | ":"%char :: ":"%char :: s' => (s', Some 0)
            | _ => (s, None)
            end) as [s1 e1].
  destruct (decide _); [injection Hp as <-; eauto|].
  apply bind_Some in Hp as ([[rest ip] e2] & _ & Hp). cbv beta iota in Hp.
  destruct (decide _); [done|]. apply bind_Some in Hp as (bs & _ & [= <-]). eauto.
Qed.

(** IPv4 addresses are 32 bits wide. *)
Lemma ParseAddr_range s v : Unmap <$> ParseAddr s = Some (Addr4 v) -> (0 <= v < 2 ^ 32)%Z.
Proof.
  intros (a & Ha & Hp)%fmap_Some. destruct a as [u|u z]; cbn [Unmap Is4In6] in Hp.
  - injection Hp as Hp. subst u. unfold ParseAddr in Ha.
    assert (parseIPv4 (chars s) = Some (Addr4 v)) as H4.
    { destruct (addr_kind (chars s)) as [c|]; [|done].
      destruct (decide (c = "."%char)) as [->|]; [done|].
      destruct (decide (c = ":"%char)) as [->|]; [by apply parseIPv6_is6 in Ha as (? & ? & ?)|].
      exfalso. destruct c as [[] [] [] [] [] [] [] []]; done. }
    unfold parseIPv4 in H4. apply bind_Some in H4 as (fs & Hf & [= <-]).
    apply parse_fields_range in Hf as [Hl Hr]; [|lia|simpl; lia|constructor].
    destruct fs as [|b0 [|b1 [|b2 [|b3 [|]]]]]; try done.
    repeat (apply Forall_cons in Hr as [? Hr]). unfold of_bytes. simpl. lia.
  - case_bool_decide; [|done]. injection Hp as ->. rewrite Z.land_ones by lia.
    pose proof (Z.mod_pos_bound u (2 ^ 32)). lia.
Qed.

Lemma ParsePrefix_string4 v n :
  (0 <= v < 2 ^ 32)%Z -> (0 <= n <= 32)%Z ->
  ParsePrefix (string4 v +:+ String "/" (FormatInt n)) = Some (mkPrefix (Addr4 v) n).
Proof.
  intros Hv Hn. unfold ParsePrefix. rewrite chars_app. cbn [String.list_ascii_of_string].
  rewrite cut_last_app by auto with lottery. cbn [mbind option_bind].
  rewrite (String.string_of_list_ascii_of_string (string4 v)), ParseAddr_string4 by done.
  cbn [mbind option_bind hasZone BitLen].
  rewrite <- (Z2Nat.id n) by lia. assert (Z.to_nat n < 33) as Hm by lia.
  generalize (Z.to_nat n) Hm. clear. intros n Hn.
  do 33 (destruct n as [|n]; [reflexivity|]). lia.
Qed.
