(* ===== verification/Sha256.v ===== *)
(** * SHA-256

    [crypto/sha256.Sum256] (FIPS 180-4), executable, over lists of bytes.
    [src/internal/lottery/seal.go] seals a draw with it.  Nothing below
    assumes anything about the function: the tamper-evidence theorem of
    [Seal] exhibits a collision. *)

From S2P Require Import Prelude.

Definition w32 (x : Z) : Z := Z.land x 4294967295.
Definition add32 (x y : Z) : Z := w32 (x + y).
Definition rotr (x n : Z) : Z := w32 (Z.lor (Z.shiftr x n) (Z.shiftl x (32 - n))).

Definition Ch (x y z : Z) : Z := Z.lxor (Z.land x y) (Z.land (Z.lxor x 4294967295) z).
Definition Maj (x y z : Z) : Z := Z.lxor (Z.lxor (Z.land x y) (Z.land x z)) (Z.land y z).
Definition Sigma0 (x : Z) : Z := Z.lxor (Z.lxor (rotr x 2) (rotr x 13)) (rotr x 22).
Definition Sigma1 (x : Z) : Z := Z.lxor (Z.lxor (rotr x 6) (rotr x 11)) (rotr x 25).
Definition sigma0 (x : Z) : Z := Z.lxor (Z.lxor (rotr x 7) (rotr x 18)) (Z.shiftr x 3).
Definition sigma1 (x : Z) : Z := Z.lxor (Z.lxor (rotr x 17) (rotr x 19)) (Z.shiftr x 10).

(** The first 32 bits of the fractional parts of the cube roots of the first
    64 primes, and of the square roots of the first 8. *)
Definition sha_K : list Z := [
   1116352408; 1899447441; 3049323471; 3921009573;
   961987163; 1508970993; 2453635748; 2870763221;
   3624381080; 310598401; 607225278; 1426881987;
   1925078388; 2162078206; 2614888103; 3248222580;
   3835390401; 4022224774; 264347078; 604807628;
   770255983; 1249150122; 1555081692; 1996064986;
   2554220882; 2821834349; 2952996808; 3210313671;
   3336571891; 3584528711; 113926993; 338241895;
   666307205; 773529912; 1294757372; 1396182291;
   1695183700; 1986661051; 2177026350; 2456956037;
   2730485921; 2820302411; 3259730800; 3345764771;
   3516065817; 3600352804; 4094571909; 275423344;
   430227734; 506948616; 659060556; 883997877;
   958139571; 1322822218; 1537002063; 1747873779;
   1955562222; 2024104815; 2227730452; 2361852424;
   2428436474; 2756734187; 3204031479; 3329325298]%Z.

Definition sha_H0 : list Z := [
   1779033703; 3144134277; 1013904242; 2773480762;
   1359893119; 2600822924; 528734635; 1541459225]%Z.

(** ** Padding and blocks *)

Definition be_bytes (n : nat) (x : Z) : list Z :=
  (fun i => Z.land (Z.shiftr x (8 * Z.of_nat i)) 255) <$> reverse (seq 0 n).

Definition sha_pad (msg : list Z) : list Z :=
  let n := length msg in
  let zeros := Z.to_nat ((55 - Z.of_nat n) `mod` 64) in
  msg ++ [128%Z] ++ replicate zeros 0%Z ++ be_bytes 8 (8 * Z.of_nat n).

Fixpoint be_words (bytes : list Z) : list Z :=
  match bytes with
  | a :: b :: c :: d :: rest =>
      (Z.shiftl a 24 + Z.shiftl b 16 + Z.shiftl c 8 + d)%Z :: be_words rest
  | _ => []
  end.

(** ** Compression *)

(** The message schedule, newest word first. *)
Fixpoint schedule (n : nat) (rev_w : list Z) : list Z :=
  match n with
  | O => rev_w
  | S n' =>
    let at_ k := default 0%Z (rev_w !! k) in
    schedule n'
      (add32 (add32 (sigma1 (at_ 1)) (at_ 6)) (add32 (sigma0 (at_ 14)) (at_ 15)) :: rev_w)
  end.

Definition sha_round (st : list Z) (kw : Z * Z) : list Z :=
  match st with
  | [a; b; c; d; e; f; g; h] =>
    let t1 := add32 (add32 (add32 h (Sigma1 e)) (add32 (Ch e f g) kw.1)) kw.2 in
    let t2 := add32 (Sigma0 a) (Maj a b c) in
    [add32 t1 t2; a; b; c; add32 d t1; e; f; g]
  | _ => st
  end.

Definition sha_block (st : list Z) (block : list Z) : list Z :=
  let w := reverse (schedule 48 (reverse (be_words block))) in
  zip_with add32 st (foldl sha_round st (zip sha_K w)).

Fixpoint sha_blocks (fuel : nat) (st : list Z) (bytes : list Z) : list Z :=
  match fuel with
  | O => st
  | S fuel' =>
    match bytes with
    | [] => st
    | _ => sha_blocks fuel' (sha_block st (take 64 bytes)) (drop 64 bytes)
    end
  end.

(** [sha256.Sum256(msg)]: the 32 bytes of the digest. *)
Definition Sum256 (msg : list Z) : list Z :=
  let bytes := sha_pad msg in
  sha_blocks (length bytes) sha_H0 bytes ≫= be_bytes 4.

(** The digest of [abc]. *)
Example Sum256_abc :
  Sum256 [97; 98; 99]%Z =
  [186; 120; 22; 191; 143; 1; 207; 234; 65; 65; 64; 222; 93; 174; 34; 35;
   176; 3; 97; 163; 150; 23; 122; 156; 180; 16; 255; 97; 242; 0; 21; 173]%Z.
Proof. vm_compute. reflexivity. Qed.

Lemma be_bytes_range n x b : b ∈ be_bytes n x -> (0 <= b < 256)%Z.
Proof.
  unfold be_bytes. intros (i & -> & _)%list_elem_of_fmap.
  change 255%Z with (Z.ones 8). rewrite Z.land_ones by lia. by apply Z.mod_pos_bound.
Qed.

Lemma Sum256_range msg b : b ∈ Sum256 msg -> (0 <= b < 256)%Z.
Proof. unfold Sum256. intros (x & Hb & _)%list_elem_of_bind. by eapply be_bytes_range. Qed.
