(* ===== verification/Shuffle.v ===== *)
(** * The lottery algorithm

    [src/internal/lottery/algorithm.go]: the Fisher-Yates shuffle over
    [crypto/rand] and the split of the shuffled pool into winners and
    waitlist.  The random source is an interface ([RandSource], [RandLaws])
    with two instances: a tape of choices, over which fairness is counted,
    and [crypto/rand.Int] itself over a stream of bytes. *)

From S2P Require Import Prelude.
From Stdlib Require Import Factorial.

(** ** The random source *)

(** [rand.Int(rand.Reader, max)]: an integer and the reader's next state, or
    a read error. *)
Class RandSource (R : Type) := rand_Int : Z -> R -> option (Z * R).

(** The documented contract of [rand.Int]: a value in [[0, max)]. *)
Class RandLaws (R : Type) `{RandSource R} : Prop :=
  rand_Int_range (max : Z) (r : R) (v : Z) (r' : R) :
    (0 < max)%Z -> rand_Int max r = Some (v, r') -> (0 <= v < max)%Z.

(** ** Slices *)

(** [s[i]] with Go's bounds check; [None] is the runtime panic. *)
Definition go_index {A} (s : list A) (i : Z) : option A :=
  if decide (0 <= i)%Z then s !! Z.to_nat i else None.

(** [s[i], s[j] = s[j], s[i]]: both operands are read first, then the
    assignments run from left to right. *)
Definition go_swap {A} (s : list A) (i j : Z) : option (list A) :=
  x ← go_index s i; y ← go_index s j;
  Some (<[Z.to_nat j := x]> (<[Z.to_nat i := y]> s)).

(** ** FairShuffle and SelectWinners *)

Inductive alg_error :=
| ErrCryptoRand (position : Z)
| ErrPoolEmpty
| ErrWinnerCountTooLow
| ErrShuffling (e : alg_error)
| RuntimePanic.

#[export] Instance alg_error_eq_dec : EqDecision alg_error.
Proof. solve_decision. Defined.

Section Algorithm.
Context {R : Type} `{RandSource R}.

(** The loop [for i := n - 1; i > 0; i--]. *)
Fixpoint shuffle_loop (i : nat) (result : list Z) (r : R)
  : Prelude.result alg_error (list Z * R) :=
  match i with
  | O => Ok (result, r)
  | S i' =>
    match rand_Int (Z.of_nat i + 1) r with
    | None => Err (ErrCryptoRand (Z.of_nat i))
    | Some (j, r') =>
      match go_swap result (Z.of_nat i) j with
      | None => Err RuntimePanic
      | Some result' => shuffle_loop i' result' r'
      end
    end
  end.

Definition FairShuffle (participants : list Z) (r : R)
  : result alg_error (list Z * R) :=
  let n := length participants in
  if decide (n = 0) then Ok ([], r)
  else shuffle_loop (n - 1) participants r.

Definition SelectWinners (participants : list Z) (count : Z) (r : R)
  : result alg_error (list Z * list Z * R) :=
  if decide (length participants = 0) then Err ErrPoolEmpty
  else if decide (count < 1)%Z then Err ErrWinnerCountTooLow
  else
    match FairShuffle participants r with
    | Err e => Err (ErrShuffling e)
    | Ok (shuffled, r') =>
      if decide (Z.of_nat (length shuffled) <= count)%Z
      then Ok (shuffled, [], r')
      else Ok (take (Z.to_nat count) shuffled, drop (Z.to_nat count) shuffled, r')
    end.

End Algorithm.

(** ** The tape of choices *)

(** The answers of a run of [rand.Int], in order; an answer outside the
    requested range, like an exhausted tape, is an error. *)
#[export] Instance tape_source : RandSource (list nat) := fun max r =>
  match r with
  | [] => None
  | j :: r' => if decide (Z.of_nat j < max)%Z then Some (Z.of_nat j, r') else None
  end.

#[export] Instance tape_laws : RandLaws (list nat).
Proof.
  intros max [|j r] v r' Hmax Hr; unfold rand_Int, tape_source in Hr; [done|].
  case_decide; simplify_eq; lia.
Qed.

(** Every tape [[j_i; ...; j_1]] with [0 <= j_k <= k], each once. *)
Fixpoint choice_tapes (i : nat) : list (list nat) :=
  match i with
  | O => [[]]
  | S i' => j ← seq 0 (S (S i')); cons j <$> choice_tapes i'
  end.

(** The order a tape produces. *)
Definition shuffled_by (participants : list Z) (tape : list nat) : list Z :=
  match FairShuffle participants tape with Ok (out, _) => out | Err _ => [] end.

(** The winners a tape produces. *)
Definition winners_by (participants : list Z) (count : Z) (tape : list nat) : list Z :=
  match SelectWinners participants count tape with
  | Ok (winners, _, _) => winners
  | Err _ => []
  end.

(** ** [crypto/rand.Int] over a byte stream *)

(** [x.BitLen()] of a non-negative integer. *)
Definition bit_len (x : Z) : Z := if decide (x = 0)%Z then 0%Z else (Z.log2 x + 1)%Z.

(** [n.SetBytes(bytes)]: big-endian. *)
Definition be_value (bytes : list Z) : Z :=
  foldl (fun acc b => acc * 256 + b)%Z 0%Z bytes.

Definition byte_Z (b : Byte.byte) : Z := Z.of_N (Byte.to_N b).

(** One candidate: the bytes of a block with the first byte masked. *)
Definition candidate (mask : Z) (block : list Byte.byte) : Z :=
  match byte_Z <$> block with
  | [] => 0%Z
  | b :: bs => be_value (Z.land b mask :: bs)
  end.

(** The rejection loop: read [k] bytes, clear the bits of the first byte
    that a value below [max] does not need, accept if the value is below
    [max].  Each turn consumes [k > 0] bytes, so the length of the stream
    bounds the number of turns. *)
Fixpoint rejection_loop (max : Z) (k : nat) (mask : Z) (fuel : nat)
    (stream : list Byte.byte) : option (Z * list Byte.byte) :=
  match fuel with
  | O => None
  | S fuel' =>
    if decide (length stream < k) then None
    else
      let n := candidate mask (take k stream) in
      if decide (n < max)%Z then Some (n, drop k stream)
      else rejection_loop max k mask fuel' (drop k stream)
  end.

#[export] Instance crypto_source : RandSource (list Byte.byte) := fun max r =>
  let bitLen := bit_len (max - 1) in
  if decide (bitLen = 0)%Z then Some (0%Z, r)
  else
    let k := Z.to_nat ((bitLen + 7) `div` 8) in
    let b := (if decide (bitLen `mod` 8 = 0) then 8 else bitLen `mod` 8)%Z in
    rejection_loop max k (Z.shiftl 1 b - 1) (S (length r)) r.

(** ** Lemmas *)

Lemma be_value_nonneg acc bs :
  (0 <= acc)%Z -> Forall (fun b => 0 <= b)%Z bs ->
  (0 <= foldl (fun acc b => acc * 256 + b)%Z acc bs)%Z.
Proof.
  intros Hacc Hbs. revert acc Hacc.
  induction Hbs as [|b bs Hb _ IH]; intros acc Hacc; simpl; [done|].
  apply IH. lia.
Qed.

Lemma candidate_nonneg mask block : (0 <= mask)%Z -> (0 <= candidate mask block)%Z.
Proof.
  intros Hmask. unfold candidate. destruct block as [|b bs]; simpl; [done|].
  apply be_value_nonneg; [done|]. constructor.
  - apply Z.land_nonneg. by right.
  - apply Forall_fmap, Forall_true. intros x. unfold byte_Z, compose. lia.
Qed.

Lemma rejection_loop_range max k mask fuel stream v rest :
  (0 <= mask)%Z ->
  rejection_loop max k mask fuel stream = Some (v, rest) -> (0 <= v < max)%Z.
Proof.
  intros Hmask. revert stream. induction fuel as [|fuel IH]; intros stream; simpl; [done|].
  repeat case_decide; intros ?; simplify_eq; eauto using candidate_nonneg.
Qed.

#[export] Instance crypto_laws : RandLaws (list Byte.byte).
Proof.
  intros max r v r' Hmax. unfold rand_Int, crypto_source.
  case_decide; [intros [= <- <-]; lia|].
  apply rejection_loop_range.
  rewrite Z.shiftl_1_l. 
  assert (0 < 2 ^ (if decide (bit_len (max - 1) `mod` 8 = 0) then 8
                   else bit_len (max - 1) `mod` 8))%Z; [|lia].
  apply Z.pow_pos_nonneg; [lia|]. case_decide; [lia|].
  apply Z.mod_pos_bound. lia.
Qed.

(** *** Swapping *)

Lemma go_index_nat {A} (s : list A) (i : nat) : go_index s (Z.of_nat i) = s !! i.
Proof. unfold go_index. rewrite decide_True by lia. by rewrite Nat2Z.id. Qed.

Lemma go_swap_nat {A} (s : list A) (i j : nat) (x y : A) :
  s !! i = Some x -> s !! j = Some y ->
  go_swap s (Z.of_nat i) (Z.of_nat j) = Some (<[j:=x]> (<[i:=y]> s)).
Proof. intros Hi Hj. unfold go_swap. rewrite !go_index_nat, Hi, Hj. simpl. by rewrite !Nat2Z.id. Qed.

Lemma go_swap_inv {A} (s s' : list A) (i j : Z) :
  go_swap s i j = Some s' ->
  exists i' j' x y, i = Z.of_nat i' /\ j = Z.of_nat j' /\
    s !! i' = Some x /\ s !! j' = Some y /\ s' = <[j':=x]> (<[i':=y]> s).
Proof.
  unfold go_swap, go_index. intros Hs.
  case_decide; simplify_option_eq.
  eexists (Z.to_nat i), (Z.to_nat j), _, _. rewrite !Z2Nat.id by lia. done.
Qed.

Lemma swap_Permutation {A} (s : list A) (i j : nat) (x y : A) :
  s !! i = Some x -> s !! j = Some y -> <[j:=x]> (<[i:=y]> s) ≡ₚ s.
Proof.
  intros Hi Hj. destruct (decide (i = j)) as [->|Hne].
  { simplify_eq. rewrite list_insert_insert_eq. by rewrite list_insert_id. }
  apply Permutation_inj. split; [by rewrite !length_insert|].
  exists (fun k => if decide (k = i) then j else if decide (k = j) then i else k).
  split.
  - intros k1 k2. repeat case_decide; intros; subst; congruence.
  - pose proof (lookup_lt_Some _ _ _ Hi). pose proof (lookup_lt_Some _ _ _ Hj).
    intros k. repeat case_decide; subst.
    + rewrite Hj, list_lookup_insert_ne by done. by rewrite list_lookup_insert_eq.
    + by rewrite Hi, list_lookup_insert_eq by (rewrite length_insert; lia).
    + by rewrite !list_lookup_insert_ne by done.
Qed.

(** *** The loop *)

Section AlgorithmFacts.
Context {R : Type} `{RandSource R}.

Lemma shuffle_loop_Permutation i l (r : R) out r' :
  shuffle_loop i l r = Ok (out, r') -> out ≡ₚ l.
Proof.
  revert l r. induction i as [|i IH]; intros l r; simpl.
  { by intros [= <- _]. }
  destruct (rand_Int _ _) as [[j r1]|]; [|done].
  destruct (go_swap _ _ _) as [l'|] eqn:Hs; [|done]. intros ->%IH.
  apply go_swap_inv in Hs as (i' & j' & x & y & _ & _ & Hi & Hj & ->).
  by apply swap_Permutation.
Qed.

Lemma FairShuffle_Permutation ps (r : R) out r' :
  FairShuffle ps r = Ok (out, r') -> out ≡ₚ ps.
Proof.
  unfold FairShuffle. case_decide as Hn.
  - apply nil_length_inv in Hn as ->. by intros [= <- _].
  - apply shuffle_loop_Permutation.
Qed.

Context `{!RandLaws R}.

(** With a source that keeps its contract the loop never leaves the slice's
    bounds: its only error is the source's own. *)
Lemma shuffle_loop_error i l (r : R) e :
  i < length l -> shuffle_loop i l r = Err e ->
  exists k, e = ErrCryptoRand (Z.of_nat k) /\ 0 < k <= i.
Proof.
  revert l r. induction i as [|i IH]; intros l r Hi; cbn [shuffle_loop]; [done|].
  destruct (rand_Int _ _) as [[j r1]|] eqn:Hr.
  2: { intros [= <-]. exists (S i). split; [done|lia]. }
  apply rand_Int_range in Hr; [|lia].
  destruct (lookup_lt_is_Some_2 l (S i)) as [x Hx]; [lia|].
  destruct (lookup_lt_is_Some_2 l (Z.to_nat j)) as [y Hy]; [lia|].
  rewrite <- (Z2Nat.id j) by lia. rewrite (go_swap_nat _ _ _ x y) by done.
  intros (k & -> & Hk)%IH; [exists k; split; [done|lia]|].
  rewrite !length_insert. lia.
Qed.

End AlgorithmFacts.

(** *** Choice tapes *)

Lemma choice_tapes_S i tape :
  tape ∈ choice_tapes (S i) <->
  exists j t, tape = j :: t /\ j <= S i /\ t ∈ choice_tapes i.
Proof.
  cbn [choice_tapes]. rewrite list_elem_of_bind. split.
  - intros (j & (t & -> & Ht)%list_elem_of_fmap & Hj%elem_of_seq).
    exists j, t. split_and!; [done|lia|done].
  - intros (j & t & -> & Hj & Ht). exists j. split.
    + by apply list_elem_of_fmap_2.
    + apply elem_of_seq. lia.
Qed.

Lemma length_choice_tapes i : length (choice_tapes i) = fact (S i).
Proof.
  induction i as [|i IH]; [done|]. cbn [choice_tapes].
  rewrite length_bind, (sum_list_with_const _ (fact (S i))).
  - by rewrite length_seq.
  - intros j _. by rewrite length_fmap.
Qed.

Lemma NoDup_choice_tapes i : NoDup (choice_tapes i).
Proof.
  induction i as [|i IH]; [apply NoDup_singleton|]. cbn [choice_tapes].
  apply NoDup_bind.
  - intros j1 j2 t _ _ (t1 & -> & _)%list_elem_of_fmap.
    intros (t2 & [= -> _] & _)%list_elem_of_fmap. done.
  - intros j _. apply NoDup_fmap; [by intros ?? [= ->]|done].
  - apply NoDup_seq.
Qed.

(** Exchange positions [i] and [j]. *)
Definition swap_at (l : list Z) (i j : nat) : list Z :=
  match l !! i, l !! j with
  | Some x, Some y => <[j:=x]> (<[i:=y]> l)
  | _, _ => l
  end.

Lemma swap_at_lookup l i j k :
  i < length l -> j < length l ->
  swap_at l i j !! k =
    if decide (k = i) then l !! j else if decide (k = j) then l !! i else l !! k.
Proof.
  intros Hi Hj. unfold swap_at.
  destruct (lookup_lt_is_Some_2 l i Hi) as [x Hx].
  destruct (lookup_lt_is_Some_2 l j Hj) as [y Hy]. rewrite Hx, Hy.
  destruct (decide (k = j)) as [->|].
  - rewrite list_lookup_insert_eq by (rewrite length_insert; lia).
    case_decide; congruence.
  - rewrite list_lookup_insert_ne by done.
    case_decide; [subst; by rewrite list_lookup_insert_eq|].
    by rewrite list_lookup_insert_ne.
Qed.

Lemma swap_at_length l i j : length (swap_at l i j) = length l.
Proof. unfold swap_at. repeat case_match; by rewrite ?length_insert. Qed.

Lemma swap_at_Permutation l i j : swap_at l i j ≡ₚ l.
Proof. unfold swap_at. repeat case_match; auto using swap_Permutation. Qed.

Lemma swap_at_NoDup l i j : NoDup l -> NoDup (swap_at l i j).
Proof. by rewrite swap_at_Permutation. Qed.

Lemma shuffle_loop_tape i l j tape :
  S i < length l -> j <= S i ->
  shuffle_loop (S i) l (j :: tape) = shuffle_loop i (swap_at l (S i) j) tape.
Proof.
  intros Hi Hj. cbn [shuffle_loop]. unfold rand_Int, tape_source at 1.
  rewrite decide_True by lia.
  destruct (lookup_lt_is_Some_2 l (S i)) as [x Hx]; [lia|].
  destruct (lookup_lt_is_Some_2 l j) as [y Hy]; [lia|].
  rewrite (go_swap_nat _ _ _ x y) by done. unfold swap_at. by rewrite Hx, Hy.
Qed.

(** Positions above the loop variable are final. *)
Lemma shuffle_loop_suffix i l tape out r k :
  i < length l -> tape ∈ choice_tapes i -> shuffle_loop i l tape = Ok (out, r) ->
  i < k -> out !! k = l !! k.
Proof.
  revert l tape. induction i as [|i IH]; intros l tape Hi Ht Ho Hk.
  { by simplify_eq/=. }
  apply choice_tapes_S in Ht as (j & t & -> & Hj & Ht).
  rewrite shuffle_loop_tape in Ho by done.
  erewrite (IH (swap_at l (S i) j)); eauto; [|rewrite swap_at_length; lia|lia].
  rewrite swap_at_lookup by lia. by rewrite !decide_False by lia.
Qed.

Lemma shuffle_loop_total i l tape :
  i < length l -> tape ∈ choice_tapes i ->
  exists out, shuffle_loop i l tape = Ok (out, []).
Proof.
  revert l tape. induction i as [|i IH]; intros l tape Hi Ht.
  { apply list_elem_of_singleton in Ht as ->. by exists l. }
  apply choice_tapes_S in Ht as (j & t & -> & Hj & Ht).
  rewrite shuffle_loop_tape by done. apply IH; [|done]. rewrite swap_at_length. lia.
Qed.

(** *** One tape per order *)

(** Above position [i] both lists agree, so the element the target has at [i]
    sits at or below [i]. *)
Lemma target_index i (l out : list Z) x :
  NoDup l -> out ≡ₚ l -> (forall k, i < k -> out !! k = l !! k) ->
  out !! i = Some x -> exists j, j <= i /\ l !! j = Some x.
Proof.
  intros Hnd Hp Hsuf Hx.
  assert (x ∈ l) as Hin. { rewrite <- Hp. by eapply list_elem_of_lookup_2. }
  apply list_elem_of_lookup in Hin as [j Hj]. exists j. split; [|done].
  destruct (decide (j <= i)) as [|Hji]; [done|exfalso].
  rewrite <- Hsuf in Hj by lia. rewrite <- Hp in Hnd.
  assert (i = j) by (eapply NoDup_lookup; eauto). lia.
Qed.

Lemma agree_above_0 (l out : list Z) :
  out ≡ₚ l -> NoDup l -> (forall k, 0 < k -> out !! k = l !! k) -> out = l.
Proof.
  intros Hp Hnd Hsuf. apply list_eq. intros [|k]; [|apply Hsuf; lia].
  destruct (out !! 0) as [x|] eqn:Hx.
  - destruct (target_index 0 l out x) as (j & Hj & Hl); auto.
    assert (j = 0) as -> by lia. by rewrite Hl.
  - apply lookup_ge_None in Hx. rewrite Hp in Hx.
    symmetry. apply lookup_ge_None. done.
Qed.

Lemma shuffle_loop_surjective i (l out : list Z) :
  NoDup l -> i < length l -> out ≡ₚ l -> (forall k, i < k -> out !! k = l !! k) ->
  exists tape, tape ∈ choice_tapes i /\ shuffle_loop i l tape = Ok (out, []).
Proof.
  revert l. induction i as [|i IH]; intros l Hnd Hi Hp Hsuf.
  { exists []. split; [by apply list_elem_of_singleton|].
    simpl. by rewrite (agree_above_0 l out). }
  destruct (lookup_lt_is_Some_2 out (S i)) as [x Hx]; [by rewrite Hp|].
  destruct (target_index (S i) l out x) as (j & Hj & Hlj); auto.
  destruct (IH (swap_at l (S i) j)) as (tape & Ht & Ho).
  - by apply swap_at_NoDup.
  - rewrite swap_at_length. lia.
  - by rewrite swap_at_Permutation.
  - intros k Hk. rewrite swap_at_lookup by lia. case_decide; [subst; congruence|].
    rewrite decide_False by lia. apply Hsuf. lia.
  - exists (j :: tape). split; [apply choice_tapes_S; eauto|].
    by rewrite shuffle_loop_tape by lia.
Qed.

Lemma shuffle_loop_injective i l t1 t2 out :
  NoDup l -> i < length l -> t1 ∈ choice_tapes i -> t2 ∈ choice_tapes i ->
  shuffle_loop i l t1 = Ok (out, []) -> shuffle_loop i l t2 = Ok (out, []) -> t1 = t2.
Proof.
  revert l t1 t2. induction i as [|i IH]; intros l t1 t2 Hnd Hi Ht1 Ht2 H1 H2.
  { apply list_elem_of_singleton in Ht1 as ->, Ht2 as ->. done. }
  apply choice_tapes_S in Ht1 as (j1 & t1' & -> & Hj1 & Ht1).
  apply choice_tapes_S in Ht2 as (j2 & t2' & -> & Hj2 & Ht2).
  rewrite shuffle_loop_tape in H1, H2 by done.
  assert (j1 = j2) as <-.
  { pose proof H1 as E1. pose proof H2 as E2.
    eapply (shuffle_loop_suffix _ _ _ _ _ (S i)) in E1, E2; eauto;
      [|rewrite swap_at_length; lia|rewrite swap_at_length; lia].
    rewrite swap_at_lookup, decide_True in E1, E2 by lia.
    destruct (lookup_lt_is_Some_2 l j1) as [x Hx]; [lia|].
    eapply NoDup_lookup; eauto. congruence. }
  f_equal. eapply (IH (swap_at l (S i) j1)); eauto; [by apply swap_at_NoDup|rewrite swap_at_length; lia].
Qed.

Lemma FairShuffle_tape ps (tape : list nat) :
  0 < length ps -> FairShuffle ps tape = shuffle_loop (length ps - 1) ps tape.
Proof. intros Hn. unfold FairShuffle. by rewrite decide_False by lia. Qed.

Lemma shuffled_by_total ps (tape : list nat) :
  0 < length ps -> tape ∈ choice_tapes (length ps - 1) ->
  FairShuffle ps tape = Ok (shuffled_by ps tape, []).
Proof.
  intros Hn Ht. unfold shuffled_by. rewrite FairShuffle_tape by done.
  destruct (shuffle_loop_total (length ps - 1) ps tape) as [out ->]; [lia|done..].
Qed.

(** *** Counting outcomes *)

Definition loop_out (i : nat) (l : list Z) (tape : list nat) : list Z :=
  match shuffle_loop i l tape with Ok (out, _) => out | Err _ => [] end.

Lemma loop_out_ok i l tape :
  i < length l -> tape ∈ choice_tapes i ->
  shuffle_loop i l tape = Ok (loop_out i l tape, []).
Proof.
  intros Hi Ht. unfold loop_out.
  by destruct (shuffle_loop_total i l tape Hi Ht) as [out ->].
Qed.

Lemma loop_out_NoDup i l tape :
  NoDup l -> i < length l -> tape ∈ choice_tapes i -> NoDup (loop_out i l tape).
Proof.
  intros Hnd Hi Ht.
  by rewrite (shuffle_loop_Permutation _ _ _ _ _ (loop_out_ok i l tape Hi Ht)).
Qed.

(** Of the [(i+1)!] tapes of a loop from [i], exactly [i!] put a given element
    of the first [i+1] at a given position among the first [i+1]. *)
Lemma count_position i l k q p :
  NoDup l -> i < length l -> k <= i -> q <= i -> l !! q = Some p ->
  length (filter (fun t => loop_out i l t !! k = Some p) (choice_tapes i)) = fact i.
Proof.
  revert l k q. induction i as [|i IH]; intros l k q Hnd Hi Hk Hq Hp.
  { assert (k = 0) as -> by lia. assert (q = 0) as -> by lia.
    rewrite length_filter_all; [done|].
    intros t ->%list_elem_of_singleton. done. }
  cbn [choice_tapes]. rewrite length_filter_bind.
  assert (forall j, j <= S i ->
    length (filter (fun t => loop_out (S i) l t !! k = Some p)
                   (cons j <$> choice_tapes i)) =
    length (filter (fun t => loop_out i (swap_at l (S i) j) t !! k = Some p)
                   (choice_tapes i))) as Hj.
  { intros j Hj. rewrite length_filter_fmap. apply length_filter_ext.
    intros t Ht. unfold loop_out. by rewrite shuffle_loop_tape by lia. }
  assert (forall j t, j <= S i -> t ∈ choice_tapes i ->
    loop_out i (swap_at l (S i) j) t !! S i = l !! j) as Hlast.
  { intros j t Hjl Ht.
    rewrite (shuffle_loop_suffix i (swap_at l (S i) j) t _ []); eauto.
    - rewrite swap_at_lookup by lia. by rewrite decide_True.
    - rewrite swap_at_length. lia.
    - apply loop_out_ok; [rewrite swap_at_length; lia|done]. }
  destruct (decide (k = S i)) as [->|Hki].
  - rewrite (sum_list_with_seq_except _ _ q (fact (S i)) 0); [lia|lia|..].
    + rewrite Hj by lia. rewrite length_filter_all; [apply length_choice_tapes|].
      intros t Ht. by rewrite Hlast.
    + intros j Hlt Hne. rewrite Hj by lia. apply length_filter_none.
      intros t Ht. rewrite Hlast by (done || lia). intros Hlj.
      by pose proof (NoDup_lookup _ _ _ _ Hnd Hlj Hp).
  - rewrite (sum_list_with_seq_except _ _ q 0 (fact i)); [simpl; lia|lia|..].
    + rewrite Hj by lia. apply length_filter_none. intros t Ht Hk'.
      assert (k = S i); [|lia].
      eapply NoDup_lookup; [|done|].
      2: { rewrite Hlast by (done || lia). done. }
      apply loop_out_NoDup; [by apply swap_at_NoDup|rewrite swap_at_length; lia|done].
    + intros j Hlt Hne. rewrite Hj by lia.
      apply (IH _ k (if decide (q = S i) then j else q));
        [by apply swap_at_NoDup|rewrite swap_at_length; lia|lia|case_decide; lia|].
      rewrite swap_at_lookup by lia.
      repeat case_decide; try lia; subst; congruence.
Qed.

Lemma count_rank ps k p :
  NoDup ps -> k < length ps -> p ∈ ps ->
  length (filter (fun t => shuffled_by ps t !! k = Some p)
                 (choice_tapes (length ps - 1))) = fact (length ps - 1).
Proof.
  intros Hnd Hk Hp. apply list_elem_of_lookup in Hp as [q Hq].
  pose proof (lookup_lt_Some _ _ _ Hq).
  rewrite <- (count_position (length ps - 1) ps k q p) by (done || lia).
  apply length_filter_ext. intros t Ht. unfold shuffled_by, loop_out.
  by rewrite FairShuffle_tape by lia.
Qed.

Lemma shuffled_by_NoDup ps tape :
  NoDup ps -> 0 < length ps -> tape ∈ choice_tapes (length ps - 1) ->
  NoDup (shuffled_by ps tape).
Proof.
  intros Hnd Hn Ht.
  by rewrite (FairShuffle_Permutation _ _ _ _ (shuffled_by_total ps tape Hn Ht)).
Qed.

Lemma count_top ps c p :
  NoDup ps -> c <= length ps -> p ∈ ps ->
  length (filter (fun t => p ∈ take c (shuffled_by ps t))
                 (choice_tapes (length ps - 1))) = c * fact (length ps - 1).
Proof.
  intros Hnd Hc Hp. induction c as [|c IH].
  { apply length_filter_none. intros t _. rewrite take_0. by intros ?%not_elem_of_nil. }
  rewrite (length_filter_ext _
    (fun t => shuffled_by ps t !! c = Some p \/ p ∈ take c (shuffled_by ps t))).
  - rewrite length_filter_or_disjoint; [rewrite count_rank, IH by (done || lia); lia|].
    intros t Ht Hat (k & Hk)%list_elem_of_lookup.
    apply lookup_take_Some in Hk as [Hk Hlt].
    assert (k = c); [|lia]. eapply NoDup_lookup; [|done..].
    apply shuffled_by_NoDup; [done|lia|done].
  - intros t Ht. destruct (shuffled_by ps t !! c) as [x|] eqn:Hx.
    + rewrite (take_S_r _ _ _ Hx), elem_of_app, list_elem_of_singleton.
      split; [intros [ | ->]; auto|intros [Heq| ]; [right; congruence|auto]].
    + apply lookup_ge_None in Hx.
      rewrite !take_ge by lia. split; [auto|intros [ | ]; done].
Qed.

(** What [SelectWinners] returns on success. *)
Lemma SelectWinners_ok {R} `{RandSource R} ps count (r : R) w wl r' :
  SelectWinners ps count r = Ok (w, wl, r') ->
  ps <> [] /\ (1 <= count)%Z /\ w ++ wl ≡ₚ ps /\
  Z.of_nat (length w) = Z.min count (Z.of_nat (length ps)).
Proof.
  unfold SelectWinners. repeat case_decide; try done.
  destruct (FairShuffle ps r) as [[out r1]|] eqn:Hs; [|done].
  apply FairShuffle_Permutation in Hs.
  assert (ps <> []) by (by intros ->).
  pose proof (Permutation_length Hs) as Hlen.
  case_decide; intros [= <- <- <-]; split_and!; try done; try lia.
  - by rewrite app_nil_r.
  - by rewrite take_drop.
  - rewrite length_take. lia.
Qed.

(** Counting the answer sequences that make [p] a winner. *)
Lemma count_winning_tapes (ps : list Z) (count p : Z) :
  NoDup ps -> p ∈ ps -> (1 <= count <= Z.of_nat (length ps))%Z ->
  length (filter (fun tape => p ∈ winners_by ps count tape)
                 (choice_tapes (length ps - 1)))
  = Z.to_nat count * fact (length ps - 1).
Proof.
  intros Hnd Hp Hc.
  assert (0 < length ps) by (destruct ps; [by apply not_elem_of_nil in Hp|simpl; lia]).
  rewrite <- (count_top ps (Z.to_nat count) p) by (done || lia).
  apply length_filter_ext. intros t Ht. unfold winners_by, SelectWinners.
  rewrite !decide_False by lia. rewrite shuffled_by_total by done.
  pose proof (FairShuffle_Permutation _ _ _ _ (shuffled_by_total ps t H Ht)) as Hperm.
  apply Permutation_length in Hperm.
  case_decide; [|done]. by rewrite take_ge by lia.
Qed.

(** ** Properties *)

(** C22: the shuffle is uniform.  For [n] distinct participants there are
    exactly [n!] sequences of answers of [rand.Int], and every one of the
    orders of the participants comes from exactly one of them: if the answers
    are uniform and independent, every order is equally likely. *)
Theorem FairShuffle_uniform (ps out : list Z) :
  NoDup ps -> ps <> [] -> out ≡ₚ ps ->
  NoDup (choice_tapes (length ps - 1)) /\
  length (choice_tapes (length ps - 1)) = fact (length ps) /\
  exists tape, tape ∈ choice_tapes (length ps - 1) /\
    FairShuffle ps tape = Ok (out, []) /\
    forall tape', tape' ∈ choice_tapes (length ps - 1) ->
      FairShuffle ps tape' = Ok (out, []) -> tape' = tape.
Proof.
  intros Hnd Hne Hp.
  assert (0 < length ps) by (destruct ps; [done|simpl; lia]).
  split_and!; [apply NoDup_choice_tapes| |].
  { rewrite length_choice_tapes. f_equal. lia. }
  destruct (shuffle_loop_surjective (length ps - 1) ps out) as (tape & Ht & Ho);
    [done|lia|done| |].
  { intros k Hk. pose proof (Permutation_length Hp). by rewrite !lookup_ge_None_2 by lia. }
  exists tape. rewrite FairShuffle_tape by done. split_and!; [done..|].
  intros tape' Ht'. rewrite FairShuffle_tape by done. intros Ho'.
  eapply (shuffle_loop_injective (length ps - 1) ps); eauto with lia.
Qed.

Lemma FairShuffle_uniform_witness :
  exists tape, FairShuffle [7; 8; 9]%Z tape = Ok ([9; 7; 8]%Z, [] : list nat).
Proof.
  destruct (FairShuffle_uniform [7; 8; 9]%Z [9; 7; 8]%Z) as (_ & _ & tape & _ & Ho & _).
  - apply (bool_decide_unpack _). vm_compute. exact I.
  - done.
  - apply (bool_decide_unpack _). vm_compute. exact I.
  - exists tape. exact Ho.
Defined.

(** C1: every participant has the same chance to win.  Of the [n!] answer
    sequences of a draw of [count] winners out of [n] distinct participants,
    exactly [count * (n-1)!], a share of [count/n], make a given participant
    a winner. *)
Theorem SelectWinners_fair (ps : list Z) (count p : Z) :
  NoDup ps -> p ∈ ps -> (1 <= count <= Z.of_nat (length ps))%Z ->
  length (filter (fun tape => p ∈ winners_by ps count tape)
                 (choice_tapes (length ps - 1)))
  = Z.to_nat count * fact (length ps - 1).
Proof. apply count_winning_tapes. Qed.

Lemma SelectWinners_fair_witness :
  length (filter (fun tape => 8%Z ∈ winners_by [7; 8; 9; 10]%Z 2 tape) (choice_tapes 3)) = 12.
Proof.
  apply (SelectWinners_fair [7; 8; 9; 10]%Z 2 8).
  - apply (bool_decide_unpack _). vm_compute. exact I.
  - apply (bool_decide_unpack _). vm_compute. exact I.
  - simpl. lia.
Defined.

(** The result of [SelectWinners] on every branch, over any random source
    that keeps the contract of [rand.Int].  A pool is split into [min(count, n)]
    winners and the rest, together exactly the participants; an empty pool and
    a count below one are refused; the only other error is a failed read of the
    source, and the index of a swap is never out of range. *)
Theorem SelectWinners_correct {R : Type} `{RandLaws R} (ps : list Z) (count : Z) (r : R) :
  match SelectWinners ps count r with
  | Ok (winners, waitlist, _) =>
      ps <> [] /\ (1 <= count)%Z /\ winners ++ waitlist ≡ₚ ps /\
      Z.of_nat (length winners) = Z.min count (Z.of_nat (length ps))
  | Err ErrPoolEmpty => ps = []
  | Err ErrWinnerCountTooLow => ps <> [] /\ (count < 1)%Z
  | Err (ErrShuffling (ErrCryptoRand i)) =>
      ps <> [] /\ (1 <= count)%Z /\ (0 < i < Z.of_nat (length ps))%Z
  | Err _ => False
  end.
Proof.
  destruct (SelectWinners ps count r) as [[[w wl] r']|e] eqn:Hs.
  { by apply SelectWinners_ok in Hs. }
  revert Hs. unfold SelectWinners. case_decide as Hn.
  { intros [= <-]. by apply nil_length_inv. }
  assert (ps <> []) by (by intros ->).
  case_decide; [by intros [= <-]|].
  unfold FairShuffle. rewrite decide_False by done.
  destruct (shuffle_loop _ _ _) as [[out r1]|e'] eqn:Hl; [by case_decide|].
  intros [= <-]. apply shuffle_loop_error in Hl as (k & -> & Hk); [|lia].
  split_and!; [done|lia..].
Qed.

Lemma SelectWinners_correct_witness :
  SelectWinners [1; 2; 3]%Z 1 [0; 0] = Ok ([2]%Z, [3; 1]%Z, []) /\
  [2; 3; 1]%Z ≡ₚ [1; 2; 3]%Z.
Proof.
  split; [reflexivity|].
  pose proof (SelectWinners_correct [1; 2; 3]%Z 1 [0; 0]) as Hs.
  exact (proj1 (proj2 (proj2 Hs))).
Defined.
