(* ===== verification/Stats.v ===== *)
(** * Statistics of the fairness checks

    [src/loadtest/stats/chisq.go]: the chi-square tests, in [float64]
    arithmetic (no fused operations), over the logarithm, the exponential and
    the log-gamma function of package [math]. *)

From S2P Require Import Prelude GoDuration.
From Stdlib Require Import SpecFloat.

Abbreviation float64 := spec_float.

Definition f64_add : float64 -> float64 -> float64 := SFadd 53 1024.
Definition f64_sub : float64 -> float64 -> float64 := SFsub 53 1024.

(** [math.Lgamma] (without the sign), [math.Exp] and [math.Log]. *)
Class FloatMath := { Lgamma : float64 -> float64; Exp : float64 -> float64; Log : float64 -> float64 }.

(** The constants [1e-15] and [1e-300]; [1 / tiny] is a constant expression,
    so it is rounded once. *)
Definition eps : float64 := f64_div (f64_of 1) (f64_of (10 ^ 15)).
Definition tiny : float64 := S754_finite false 6032057205060441 (-1049).
Definition one_over_tiny : float64 := f64_of (10 ^ 300).

Section Gamma.
Context `{FloatMath}.

(** The loop of the series, [n] turns left: [sum] at its end. *)
Fixpoint series_loop (n : nat) (x ap sum del : float64) : float64 :=
  match n with
  | O => sum
  | S n' =>
    let ap := f64_add ap (f64_of 1) in
    let del := f64_mul del (f64_div x ap) in
    let sum := f64_add sum del in
    if SFltb (SFabs del) (f64_mul (SFabs sum) eps) then sum else series_loop n' x ap sum del
  end.

(** [math.Exp(-x + a*math.Log(x) - lg)]. *)
Definition gamma_factor (a x : float64) : float64 :=
  Exp (f64_sub (f64_add (SFopp x) (f64_mul a (Log x))) (Lgamma a)).

Definition gammaPSeries (a x : float64) : float64 :=
  let d := f64_div (f64_of 1) a in
  f64_mul (series_loop (Z.to_nat 10000) x a d d) (gamma_factor a x).

(** The loop of the continued fraction, at [i] with [n] turns left: [h] at its
    end. *)
Fixpoint fraction_loop (n : nat) (i : Z) (a b c d h : float64) : float64 :=
  match n with
  | O => h
  | S n' =>
    let an := f64_mul (SFopp (f64_of i)) (f64_sub (f64_of i) a) in
    let b := f64_add b (f64_of 2) in
    let d := f64_add (f64_mul an d) b in
    let d := if SFltb (SFabs d) tiny then tiny else d in
    let c := f64_add b (f64_div an c) in
    let c := if SFltb (SFabs c) tiny then tiny else c in
    let d := f64_div (f64_of 1) d in
    let del := f64_mul d c in
    let h := f64_mul h del in
    if SFltb (SFabs (f64_sub del (f64_of 1))) eps then h else fraction_loop n' (i + 1) a b c d h
  end.

Definition gammaQContinuedFraction (a x : float64) : float64 :=
  let b := f64_sub (f64_add x (f64_of 1)) a in
  let d := f64_div (f64_of 1) b in
  f64_mul (gamma_factor a x) (fraction_loop (Z.to_nat 9999) 1 a b one_over_tiny d d).

Definition gammaQ (a x : float64) : float64 :=
  if SFltb x (f64_add a (f64_of 1)) then f64_sub (f64_of 1) (gammaPSeries a x)
  else gammaQContinuedFraction a x.

Definition ChiSquareSF (x : float64) (df : Z) : float64 :=
  if SFleb x (S754_zero false) then f64_of 1
  else gammaQ (f64_div (f64_of df) (f64_of 2)) (f64_div x (f64_of 2)).

(** ** The tests *)

Record Result := mkResult {
  rt_Name : string;
  rt_Statistic : float64;
  rt_DF : Z;
  rt_PValue : float64;
  rt_Observed : list Z;
  rt_Expected : float64;
  rt_Note : string
}.

Definition square_dev (e : float64) (o : Z) : float64 :=
  f64_mul (f64_sub (f64_of o) e) (f64_sub (f64_of o) e).

(** [var ss float64; for _, o := range counts { ss += ... }]. *)
Definition sum_squares (counts : list Z) (e : float64) : float64 :=
  foldl (fun ss o => f64_add ss (square_dev e o)) (S754_zero false) counts.

Definition WinFrequency (counts : list Z) (draws winners : Z) : Result * Result :=
  let k := Z.of_nat (length counts) in
  let p := f64_div (f64_of winners) (f64_of k) in
  let e := f64_mul (f64_of draws) p in
  let ss := sum_squares counts e in
  let pearsonStat := f64_div ss e in
  let adjStat := f64_div ss
    (f64_div (f64_mul (f64_mul (f64_mul (f64_of draws) p) (f64_sub (f64_of 1) p)) (f64_of k)) (f64_of (k - 1))) in
  (mkResult "win frequency, textbook Pearson" pearsonStat (k - 1) (ChiSquareSF pearsonStat (k - 1)) counts e
     "assumes multinomial cells; conservative here because each draw picks distinct winners",
   mkResult "win frequency, variance-adjusted" adjStat (k - 1) (ChiSquareSF adjStat (k - 1)) counts e
     "divides by the exact null variance of a uniform k-subset draw; asymptotically chi2(k-1)").

Definition Uniform (name : string) (counts : list Z) : Result :=
  let k := Z.of_nat (length counts) in
  let n := foldl Z.add 0%Z counts in
  let e := f64_div (f64_of n) (f64_of k) in
  let stat := foldl (fun stat o => f64_add stat (f64_div (square_dev e o) e)) (S754_zero false) counts in
  mkResult name stat (k - 1) (ChiSquareSF stat (k - 1)) counts e
    "one count per draw; multinomial assumption holds".
End Gamma.

(** ** Comparisons with a threshold *)

Definition p05 : float64 := f64_div (f64_of 5) (f64_of 100).
Definition p01 : float64 := f64_div (f64_of 1) (f64_of 100).

Lemma below_p01 x : SFltb x p01 = true -> SFltb x p05 = true.
Proof.
  assert (p01 = S754_finite false 5764607523034235 (-59)) as -> by (vm_compute; reflexivity).
  assert (p05 = S754_finite false 7205759403792794 (-57)) as -> by (vm_compute; reflexivity).
  unfold SFltb, SFcompare.
  destruct x as [[]|[]| |[] m e]; try done.
  destruct (Z.compare_spec e (-59)) as [->|He|He]; [by intros _| |done].
  destruct (Z.compare_spec e (-57)); (done || lia).
Qed.

(** ** Examples *)

(** Counts 10, 20, 30: expected 20 each, a chi-square statistic of 10. *)
Example Uniform_example `{FloatMath} :
  rt_Statistic (Uniform "rank-1 frequency" [10; 20; 30]%Z) = f64_of 10 /\
  rt_Expected (Uniform "rank-1 frequency" [10; 20; 30]%Z) = f64_of 20.
Proof. split; vm_compute; reflexivity. Qed.

(** One winner out of two, 100 draws, 60 to 40: Pearson 4, and the same after
    the adjustment, which is by (1-p)k/(k-1) = 1. *)
Example WinFrequency_example `{FloatMath} :
  let (p, a) := WinFrequency [60; 40]%Z 100 1 in
  rt_Statistic p = f64_of 4 /\ rt_Statistic a = f64_of 4 /\ rt_DF p = 1%Z.
Proof. vm_compute. split_and!; reflexivity. Qed.
