(* ===== verification/Fairness.v ===== *)
(** * The fairness experiment

    [src/loadtest/cmd/fairness/main.go]: many draws over the same
    participants, the counts of wins and of first ranks, and the calibration
    of the tests of [Stats]. *)

From S2P Require Import Prelude GoDuration Shuffle Stats.
From Stdlib Require Import SpecFloat.

(** ** The program *)

(** How the process ends early: [os.Exit(1)] after an error of the draw or a
    result of the wrong shape, or a panic of the runtime. *)
Inductive exp_error :=
| DrawFailed (e : alg_error)
| WrongShape (d winners waitlist : Z)
| IndexPanic.

(** [participants[i] = int64(1000 + i)] and the index of every id. *)
Definition participants_of (k : nat) : list Z := (fun i => 1000 + Z.of_nat i)%Z <$> seq 0 k.
Definition index_of (participants : list Z) : gmap Z nat :=
  foldl (fun m p => <[p.2 := p.1]> m) ∅ (zip (seq 0 (length participants)) participants).

(** [counts[i]++]. *)
Definition incr (counts : list Z) (i : nat) : option (list Z) :=
  x ← counts !! i; Some (<[i := (x + 1)%Z]> counts).

(** [index[id]]: [0] for an id that is not in the map. *)
Definition position (index : gmap Z nat) (id : Z) : nat := default 0 (index !! id).

Definition tally (index : gmap Z nat) (counts : list Z) (ids : list Z) : option (list Z) :=
  foldl (fun o id => counts ← o; incr counts (position index id)) (Some counts) ids.

Section Experiment.
Context {R : Type} `{RandSource R}.

(** The loop over the draws, [n] of them left. *)
Fixpoint experiment_loop (participants : list Z) (index : gmap Z nat) (w : Z) (n : nat) (d : Z)
    (wins firsts : list Z) (r : R) : result exp_error (list Z * list Z * R) :=
  match n with
  | O => Ok (wins, firsts, r)
  | S n' =>
    match SelectWinners participants w r with
    | Err e => Err (DrawFailed e)
    | Ok (winners, waitlist, r') =>
      if decide (Z.of_nat (length winners) <> w \/
                 length winners + length waitlist <> length participants)
      then Err (WrongShape d (Z.of_nat (length winners)) (Z.of_nat (length waitlist)))
      else match tally index wins winners, tally index firsts (take 1 winners), head winners with
           | Some wins', Some firsts', Some _ =>
               experiment_loop participants index w n' (d + 1) wins' firsts' r'
           | _, _, _ => Err IndexPanic
           end
    end
  end.

Definition experiment (participants : list Z) (index : gmap Z nat) (w draws : Z) (r : R)
  : result exp_error (list Z * list Z * R) :=
  let k := length participants in
  experiment_loop participants index w (Z.to_nat draws) 0 (replicate k 0%Z) (replicate k 0%Z) r.

Context `{FloatMath}.

(** The results of one experiment, in the order of the names. *)
Definition test_results (wins firsts : list Z) (draws w : Z) : list Result :=
  let (p, a) := WinFrequency wins draws w in [p; a; Uniform "rank-1" firsts].

Definition count_below (bound : float64) (below : list Z) (results : list Result) : list Z :=
  zip_with (fun b res => if SFltb (rt_PValue res) bound then b + 1 else b)%Z below results.

(** The loop of [calibrate]: how often each p-value fell below the bounds. *)
Fixpoint calibrate_loop (participants : list Z) (index : gmap Z nat) (w draws : Z) (n : nat)
    (below05 below01 : list Z) (r : R) : result exp_error (list Z * list Z * R) :=
  match n with
  | O => Ok (below05, below01, r)
  | S n' =>
    match experiment participants index w draws r with
    | Err e => Err e
    | Ok (wins, firsts, r') =>
      let results := test_results wins firsts draws w in
      calibrate_loop participants index w draws n'
        (count_below p05 below05 results) (count_below p01 below01 results) r'
    end
  end.

Definition calibrate (participants : list Z) (index : gmap Z nat) (w draws repeat : Z) (r : R)
  : result exp_error (list Z * list Z * R) :=
  calibrate_loop participants index w draws (Z.to_nat repeat) [0; 0; 0]%Z [0; 0; 0]%Z r.
End Experiment.

(** ** Counting *)

Definition index_step (m : gmap Z nat) (p : nat * Z) : gmap Z nat := <[p.2 := p.1]> m.

Lemma index_keep (l : list Z) (m : gmap Z nat) x s q :
  x ∉ l -> m !! x = Some s -> foldl index_step m (zip (seq q (length l)) l) !! x = Some s.
Proof.
  revert m q. induction l as [|y l IH]; intros m q Hx Hm; [done|].
  apply not_elem_of_cons in Hx as [Hy Hx]. simpl. apply IH; [done|].
  unfold index_step. by rewrite lookup_insert_ne.
Qed.

Lemma index_from (l : list Z) (m : gmap Z nat) s j x :
  NoDup l -> l !! j = Some x -> foldl index_step m (zip (seq s (length l)) l) !! x = Some (s + j).
Proof.
  revert m s j. induction l as [|y l IH]; intros m s j Hnd Hx; [done|].
  apply NoDup_cons in Hnd as [Hy Hnd]. simpl. destruct j as [|j]; simpl in Hx.
  - injection Hx as ->. rewrite Nat.add_0_r. apply index_keep; [done|].
    unfold index_step. by rewrite lookup_insert_eq.
  - rewrite (IH _ (S s) j Hnd Hx). f_equal. lia.
Qed.

Lemma index_of_lookup ps i p : NoDup ps -> ps !! i = Some p -> position (index_of ps) p = i.
Proof.
  intros Hnd Hp. unfold position, index_of.
  change (fun (m : gmap Z nat) (p : nat * Z) => <[p.2 := p.1]> m) with index_step.
  by rewrite (index_from ps ∅ 0 i p Hnd Hp).
Qed.

Lemma incr_fmap (f : Z -> Z) ps i x :
  NoDup ps -> ps !! i = Some x ->
  incr (f <$> ps) i = Some ((fun p => if decide (p = x) then f p + 1 else f p)%Z <$> ps).
Proof.
  intros Hnd Hx. unfold incr. rewrite list_lookup_fmap, Hx. simpl. f_equal.
  apply list_eq. intros j. rewrite list_lookup_fmap.
  destruct (decide (j = i)) as [->|Hj].
  - rewrite list_lookup_insert_eq by (rewrite length_fmap; by eapply lookup_lt_Some).
    rewrite Hx. simpl. by rewrite decide_True.
  - rewrite list_lookup_insert_ne, list_lookup_fmap by done.
    destruct (ps !! j) as [y|] eqn:Hy; [|done]. simpl. rewrite decide_False; [done|].
    intros ->. apply Hj. by eapply NoDup_lookup.
Qed.

(** Counting distinct participants adds one to each of their cells. *)
Lemma tally_fmap (f : Z -> Z) ps ids :
  NoDup ps -> NoDup ids -> ids ⊆ ps ->
  tally (index_of ps) (f <$> ps) ids =
  Some ((fun p => f p + if decide (p ∈ ids) then 1 else 0)%Z <$> ps).
Proof.
  intros Hnd. unfold tally. revert f. induction ids as [|x ids IH]; intros f Hids Hsub.
  { cbn [foldl]. f_equal. apply list_fmap_ext. intros i p _.
    case_decide as Hd; [by apply not_elem_of_nil in Hd|lia]. }
  apply NoDup_cons in Hids as [Hx Hids].
  assert (x ∈ ps) as [i Hi]%list_elem_of_lookup by (apply Hsub; left).
  cbn [foldl mbind option_bind]. rewrite (index_of_lookup ps i x), (incr_fmap f ps i x) by done.
  rewrite IH; [|done|by intros y Hy; apply Hsub; right]. f_equal.
  apply list_fmap_ext. intros j p _. destruct (decide (p = x)) as [->|Hp].
  - rewrite (decide_False (P := x ∈ ids)) by done. rewrite decide_True by left. lia.
  - destruct (decide (p ∈ ids)) as [Hin|Hin], (decide (p ∈ x :: ids)) as [Hc|Hc]; try lia.
    + destruct Hc. by right.
    + by apply elem_of_cons in Hc as [?|?].
Qed.

(** ** The experiment counts repeated draws *)

(** The winners of [n] draws from one source. *)
Fixpoint draw_rounds {R} `{RandSource R} (ps : list Z) (w : Z) (n : nat) (r : R)
  : result alg_error (list (list Z) * R) :=
  match n with
  | O => Ok ([], r)
  | S n' =>
    match SelectWinners ps w r with
    | Err e => Err e
    | Ok (winners, _, r') =>
      match draw_rounds ps w n' r' with
      | Err e => Err e
      | Ok (rest, r'') => Ok (winners :: rest, r'')
      end
    end
  end.

(** In how many of the rounds each participant is listed. *)
Definition occurrences (rounds : list (list Z)) (p : Z) : nat :=
  length (filter (fun ids => p ∈ ids) rounds).
Definition cells (ps : list Z) (rounds : list (list Z)) : list Z :=
  (fun p => Z.of_nat (occurrences rounds p)) <$> ps.

Lemma occurrences_snoc rounds ids p :
  occurrences (rounds ++ [ids]) p = occurrences rounds p + if decide (p ∈ ids) then 1 else 0.
Proof.
  unfold occurrences. rewrite filter_app, length_app, filter_cons, filter_nil. by case_decide.
Qed.

Lemma cells_nil ps : cells ps [] = replicate (length ps) 0%Z.
Proof. unfold cells. induction ps as [|p ps IH]; [done|]. simpl. by f_equal. Qed.

Lemma tally_cells ps rounds ids :
  NoDup ps -> NoDup ids -> ids ⊆ ps ->
  tally (index_of ps) (cells ps rounds) ids = Some (cells ps (rounds ++ [ids])).
Proof.
  intros Hnd Hids Hsub. unfold cells at 1. rewrite tally_fmap by done. f_equal.
  apply list_fmap_ext. intros i p _. rewrite occurrences_snoc. case_decide; lia.
Qed.

Section Rounds.
Context {R : Type} `{RandSource R}.
Variables (ps : list Z) (w : Z).
Hypothesis Hnd : NoDup ps.
Hypothesis Hw : (1 <= w <= Z.of_nat (length ps))%Z.

Lemma round_ok (r : R) winners waitlist r' :
  SelectWinners ps w r = Ok (winners, waitlist, r') ->
  NoDup winners /\ winners ⊆ ps /\ Z.of_nat (length winners) = w /\
  length winners + length waitlist = length ps.
Proof.
  intros (_ & _ & Hp & Hl)%SelectWinners_ok.
  assert (NoDup (winners ++ waitlist)) as [Hn _]%NoDup_app by (by rewrite Hp).
  split_and!; [done| |lia|].
  - intros x Hx. rewrite <- Hp. apply elem_of_app. by left.
  - rewrite <- length_app. by rewrite Hp.
Qed.

Lemma experiment_loop_rounds n d rounds (r : R) :
  experiment_loop ps (index_of ps) w n d (cells ps rounds) (cells ps (take 1 <$> rounds)) r =
  match draw_rounds ps w n r with
  | Err e => Err (DrawFailed e)
  | Ok (more, r') => Ok (cells ps (rounds ++ more), cells ps (take 1 <$> (rounds ++ more)), r')
  end.
Proof.
  revert d rounds r. induction n as [|n IH]; intros d rounds r; cbn [experiment_loop draw_rounds].
  { by rewrite app_nil_r. }
  destruct (SelectWinners ps w r) as [[[winners waitlist] r']|e] eqn:Hs; [|done].
  destruct (round_ok r winners waitlist r' Hs) as (Hn & Hsub & Hl & Hk).
  rewrite decide_False by lia.
  rewrite (tally_cells ps rounds winners) by done.
  rewrite (tally_cells ps (take 1 <$> rounds) (take 1 winners));
    [|done|by eapply sublist_NoDup; [|apply sublist_take]|by etrans; [apply subseteq_take|]].
  destruct winners as [|x winners]; [simpl in Hl; lia|]. cbn [head].
  change [take 1 (x :: winners)] with (take 1 <$> [x :: winners]).
  rewrite <- fmap_app, IH.
  destruct (draw_rounds ps w n r') as [[more r'']|]; [|done]. by rewrite <- app_assoc.
Qed.

Lemma experiment_rounds draws (r : R) :
  experiment ps (index_of ps) w draws r =
  match draw_rounds ps w (Z.to_nat draws) r with
  | Err e => Err (DrawFailed e)
  | Ok (rounds, r') => Ok (cells ps rounds, cells ps (take 1 <$> rounds), r')
  end.
Proof.
  unfold experiment. rewrite <- cells_nil. exact (experiment_loop_rounds (Z.to_nat draws) 0 [] r).
Qed.

Lemma draw_rounds_ok n (r : R) rounds r' :
  draw_rounds ps w n r = Ok (rounds, r') ->
  length rounds = n /\ Forall (fun ids => NoDup ids /\ ids ⊆ ps /\ Z.of_nat (length ids) = w) rounds.
Proof.
  revert r rounds. induction n as [|n IH]; intros r rounds; cbn [draw_rounds].
  { by intros [= <- <-]. }
  destruct (SelectWinners ps w r) as [[[winners waitlist] r1]|e] eqn:Hs; [|done].
  destruct (draw_rounds ps w n r1) as [[rest r2]|] eqn:Hr; [|done]. intros [= <- <-].
  destruct (IH _ _ Hr) as [<- Hall]. split; [done|]. constructor; [|done].
  destruct (round_ok _ _ _ _ Hs) as (? & ? & ? & _). done.
Qed.
End Rounds.

(** ** Sums over the cells *)

Lemma cells_lookup ps rounds i p :
  ps !! i = Some p -> cells ps rounds !! i = Some (Z.of_nat (occurrences rounds p)).
Proof. intros Hp. unfold cells. by rewrite list_lookup_fmap, Hp. Qed.

Lemma sum_indicator (ps ids : list Z) :
  NoDup ps -> NoDup ids -> ids ⊆ ps ->
  length (filter (fun p => p ∈ ids) ps) = length ids.
Proof.
  intros Hps Hids Hsub. apply Permutation_length, NoDup_Permutation; [by apply NoDup_filter|done|].
  intros x. rewrite list_elem_of_filter. split; [by intros [? _]|]. intros Hx. split; [done|by apply Hsub].
Qed.

Lemma foldl_add (l : list Z) a : foldl Z.add a l = (a + foldl Z.add 0 l)%Z.
Proof.
  revert a. induction l as [|x l IH]; intros a; cbn [foldl]; [lia|].
  rewrite (IH (a + x)%Z), (IH (0 + x)%Z). lia.
Qed.

Lemma occurrences_cons ids rounds p :
  occurrences (ids :: rounds) p = (if decide (p ∈ ids) then 1 else 0) + occurrences rounds p.
Proof. unfold occurrences. rewrite filter_cons. by case_decide. Qed.

(** Rounds of [c] distinct participants fill the cells with [c] counts each. *)
Lemma cells_sum ps rounds c :
  NoDup ps -> Forall (fun ids => NoDup ids /\ ids ⊆ ps /\ length ids = c) rounds ->
  foldl Z.add 0%Z (cells ps rounds) = Z.of_nat (length rounds * c).
Proof.
  intros Hnd Hr. induction Hr as [|ids rounds (Hids & Hsub & Hc) _ IH].
  { rewrite cells_nil. induction ps as [|p ps IHp]; [done|]. simpl.
    apply IHp. by apply NoDup_cons in Hnd as [_ ?]. }
  cbn [length]. rewrite Nat.mul_succ_l, Nat2Z.inj_add, <- IH, <- Hc, <- (sum_indicator ps ids) by done.
  clear. unfold cells. induction ps as [|p ps IH]; [done|].
  rewrite !fmap_cons. cbn [foldl]. rewrite foldl_add, IH.
  rewrite (foldl_add _ (0 + Z.of_nat (occurrences rounds p))%Z), filter_cons, occurrences_cons.
  case_decide; cbn [length]; lia.
Qed.

Lemma occurrences_le rounds p : occurrences rounds p <= length rounds.
Proof. apply length_filter. Qed.

Lemma occurrences_take1 rounds p : occurrences (take 1 <$> rounds) p <= occurrences rounds p.
Proof.
  induction rounds as [|ids rounds IH]; [done|]. rewrite fmap_cons, !occurrences_cons.
  destruct (decide (p ∈ take 1 ids)) as [Hp|]; [|case_decide; lia].
  rewrite decide_True; [lia|]. by eapply subseteq_take.
Qed.

(** ** All answer sequences of an experiment *)

(** Every sequence of [d] elements of [T]. *)
Fixpoint sequences {A} (T : list A) (d : nat) : list (list A) :=
  match d with
  | O => [[]]
  | S d' => t ← T; cons t <$> sequences T d'
  end.

Lemma elem_of_sequences {A} (T : list A) d ts :
  ts ∈ sequences T d -> length ts = d /\ Forall (fun t => t ∈ T) ts.
Proof.
  revert ts. induction d as [|d IH]; intros ts; cbn [sequences].
  { by intros ->%list_elem_of_singleton. }
  intros (t & (ts' & -> & Hts)%list_elem_of_fmap & Ht)%list_elem_of_bind.
  destruct (IH ts' Hts) as [<- Hall]. split; [done|]. by constructor.
Qed.

Lemma sum_list_with_bind {A B} (f : B -> nat) (g : A -> list B) l :
  sum_list_with f (l ≫= g) = sum_list_with (fun x => sum_list_with f (g x)) l.
Proof. induction l as [|x l IH]; [done|]. simpl. rewrite sum_list_with_app. by f_equal. Qed.

Lemma sum_list_with_fmap {A B} (f : B -> nat) (g : A -> B) l :
  sum_list_with f (g <$> l) = sum_list_with (fun x => f (g x)) l.
Proof. induction l as [|x l IH]; [done|]. simpl. by f_equal. Qed.

Lemma sum_list_with_add {A} (f g : A -> nat) l :
  sum_list_with (fun x => f x + g x) l = sum_list_with f l + sum_list_with g l.
Proof. induction l as [|x l IH]; [done|]. simpl. rewrite IH. lia. Qed.

Lemma sum_list_with_mul {A} (f : A -> nat) c l :
  sum_list_with (fun x => c * f x) l = c * sum_list_with f l.
Proof. induction l as [|x l IH]; simpl; [lia|]. rewrite IH. lia. Qed.

Lemma sum_indicators {A} (P : A -> Prop) `{!forall x, Decision (P x)} (l : list A) :
  sum_list_with (fun x => if decide (P x) then 1 else 0) l = length (filter P l).
Proof. induction l as [|x l IH]; [done|]. rewrite filter_cons. simpl. rewrite IH. by case_decide. Qed.

Lemma length_sequences {A} (T : list A) d : length (sequences T d) = length T ^ d.
Proof.
  induction d as [|d IH]; [done|]. cbn [sequences Nat.pow].
  rewrite length_bind, (sum_list_with_const _ (length T ^ d)); [lia|].
  intros t _. by rewrite length_fmap.
Qed.

(** Over all sequences, a quantity that adds up over the elements. *)
Lemma sum_sequences {A} (f : A -> nat) (T : list A) d :
  length T * sum_list_with (sum_list_with f) (sequences T d) =
  d * sum_list_with f T * length T ^ d.
Proof.
  induction d as [|d IH]; [cbn; lia|]. cbn [sequences]. rewrite sum_list_with_bind.
  rewrite (sum_list_with_ext _ (fun t => length T ^ d * f t + sum_list_with (sum_list_with f) (sequences T d))).
  2: { intros t _. rewrite sum_list_with_fmap. cbn [sum_list_with].
       rewrite sum_list_with_add, (sum_list_with_const (fun _ => f t) (f t)) by done.
       by rewrite length_sequences. }
  rewrite sum_list_with_add, sum_list_with_mul.
  set (total := sum_list_with (sum_list_with f) (sequences T d)) in *.
  rewrite (sum_list_with_const (fun _ : A => total) total) by done. cbn [Nat.pow]. rewrite Nat.mul_add_distr_l, IH. lia.
Qed.

(** Every answer sequence of [d] draws among [n] participants: the tapes of
    the draws, one after the other. *)
Definition all_tapes (n d : nat) : list (list nat) :=
  (fun ts : list (list nat) => mjoin ts) <$> sequences (choice_tapes (n - 1)) d.

(** A tape is consumed by its draw; what follows is left for the next. *)
Lemma shuffle_loop_app i l tape rest :
  i < length l -> tape ∈ choice_tapes i ->
  shuffle_loop i l (tape ++ rest) = Ok (loop_out i l tape, rest).
Proof.
  unfold loop_out. revert l tape. induction i as [|i IH]; intros l tape Hi Ht.
  { apply list_elem_of_singleton in Ht as ->. done. }
  apply choice_tapes_S in Ht as (j & t & -> & Hj & Ht). cbn [app].
  rewrite (shuffle_loop_tape i l j (t ++ rest)), (shuffle_loop_tape i l j t) by lia.
  apply IH; [|done]. rewrite swap_at_length. lia.
Qed.

Lemma SelectWinners_app ps w tape rest :
  (1 <= w)%Z -> 0 < length ps -> tape ∈ choice_tapes (length ps - 1) ->
  exists waitlist, SelectWinners ps w (tape ++ rest) = Ok (winners_by ps w tape, waitlist, rest).
Proof.
  intros Hw Hn Ht. unfold winners_by, SelectWinners. rewrite !decide_False by lia.
  rewrite (shuffled_by_total ps tape) by done.
  assert (FairShuffle ps (tape ++ rest) = Ok (shuffled_by ps tape, rest)) as ->.
  { unfold shuffled_by. rewrite !FairShuffle_tape by done. apply shuffle_loop_app; [lia|done]. }
  case_decide; by eexists.
Qed.

Lemma draw_rounds_tapes ps w ts :
  (1 <= w)%Z -> 0 < length ps -> Forall (fun t => t ∈ choice_tapes (length ps - 1)) ts ->
  draw_rounds ps w (length ts) (mjoin ts) = Ok (winners_by ps w <$> ts, []).
Proof.
  intros Hw Hn Hts. induction Hts as [|t ts Ht _ IH]; [done|].
  cbn [length draw_rounds]. change (mjoin (t :: ts)) with (t ++ mjoin ts).
  destruct (SelectWinners_app ps w t (mjoin ts) Hw Hn Ht) as [waitlist ->]. by rewrite IH.
Qed.

Lemma occurrences_sum (ps : list Z) w ts p :
  occurrences (winners_by ps w <$> ts) p =
  sum_list_with (fun t => if decide (p ∈ winners_by ps w t) then 1 else 0) ts.
Proof. unfold occurrences. by rewrite length_filter_fmap, sum_indicators. Qed.

(** The only error of a possible draw is that of the source. *)
Lemma SelectWinners_error {R} `{RandLaws R} ps w (r : R) e :
  (1 <= w <= Z.of_nat (length ps))%Z -> SelectWinners ps w r = Err e ->
  exists position, e = ErrShuffling (ErrCryptoRand position).
Proof.
  intros Hw. unfold SelectWinners, FairShuffle. rewrite !decide_False by lia.
  destruct (shuffle_loop (length ps - 1) ps r) as [[out r']|e'] eqn:Hs; [by case_decide|].
  intros [= <-]. apply shuffle_loop_error in Hs as (k & -> & _); [|lia]. by eexists.
Qed.

Lemma draw_rounds_error {R} `{RandLaws R} ps w n (r : R) e :
  (1 <= w <= Z.of_nat (length ps))%Z -> draw_rounds ps w n r = Err e ->
  exists position, e = ErrShuffling (ErrCryptoRand position).
Proof.
  intros Hw. revert r. induction n as [|n IH]; intros r; cbn [draw_rounds]; [done|].
  destruct (SelectWinners ps w r) as [[[winners waitlist] r']|e'] eqn:Hs.
  - destruct (draw_rounds ps w n r') as [[rest r'']|e''] eqn:Hr; [done|].
    intros [= <-]. by eapply IH.
  - intros [= <-]. by eapply SelectWinners_error.
Qed.

(** The mean number of wins over all sequences of tapes. *)
Lemma mean_occurrences ps c p d :
  NoDup ps -> p ∈ ps -> (1 <= c <= Z.of_nat (length ps))%Z ->
  length ps * sum_list_with (fun ts => occurrences (winners_by ps c <$> ts) p)
                (sequences (choice_tapes (length ps - 1)) d) =
  d * Z.to_nat c * fact (length ps) ^ d.
Proof.
  intros Hnd Hp Hc. set (n := length ps) in *. set (T := choice_tapes (n - 1)).
  assert (length T = n * fact (n - 1)) as HT.
  { unfold T. rewrite length_choice_tapes. change (fact (S (n - 1))) with (S (n - 1) * fact (n - 1)).
    f_equal. lia. }
  assert (fact n = length T) as Hfact by (unfold T; rewrite length_choice_tapes; f_equal; lia).
  pose proof (sum_sequences (fun t => if decide (p ∈ winners_by ps c t) then 1 else 0) T d) as Hs.
  rewrite sum_indicators in Hs. unfold T in Hs at 3. unfold n in Hs at 1.
  rewrite (count_winning_tapes ps c p) in Hs by done. fold n in Hs. rewrite Hfact.
  rewrite (sum_list_with_ext _ (sum_list_with (fun t => if decide (p ∈ winners_by ps c t) then 1 else 0)))
    by (intros ts _; apply occurrences_sum).
  apply (Nat.mul_cancel_l _ _ (fact (n - 1))); [apply fact_neq_0|].
  set (total := sum_list_with _ (sequences T d)) in *. rewrite HT in Hs at 1. lia.
Qed.

Lemma winners_by_first ps w t :
  (1 <= w)%Z -> 0 < length ps -> t ∈ choice_tapes (length ps - 1) ->
  take 1 (winners_by ps w t) = winners_by ps 1 t.
Proof.
  intros Hw Hn Ht. unfold winners_by, SelectWinners. rewrite !decide_False by lia.
  rewrite shuffled_by_total by done. pose proof (shuffled_by_total ps t Hn Ht) as Hs.
  apply FairShuffle_Permutation, Permutation_length in Hs.
  repeat case_decide; try lia.
  - by rewrite take_ge by lia.
  - done.
  - rewrite take_take. f_equal. lia.
Qed.

(** ** Properties *)

(** The counts of an experiment are those of its draws.  With distinct
    participants and a possible number of winners the experiment never
    panics and never finds a result of the wrong shape; it fails only if the
    source of randomness does.  Otherwise its cells add up to [w] wins and one
    first rank per draw, and no cell exceeds the number of draws. *)
Theorem experiment_counts {R : Type} `{RandLaws R} (ps : list Z) (w draws : Z) (r : R) :
  NoDup ps -> (1 <= w <= Z.of_nat (length ps))%Z -> (0 <= draws)%Z ->
  match experiment ps (index_of ps) w draws r with
  | Ok (wins, firsts, _) =>
      length wins = length ps /\ length firsts = length ps /\
      foldl Z.add 0%Z wins = (draws * w)%Z /\ foldl Z.add 0%Z firsts = draws /\
      forall i x y, wins !! i = Some x -> firsts !! i = Some y -> (0 <= y <= x)%Z /\ (x <= draws)%Z
  | Err e => exists position, e = DrawFailed (ErrShuffling (ErrCryptoRand position))
  end.
Proof.
  intros Hnd Hw Hd. rewrite experiment_rounds by done.
  destruct (draw_rounds ps w (Z.to_nat draws) r) as [[rounds r']|e] eqn:Hr.
  - destruct (draw_rounds_ok ps w Hnd Hw _ _ _ _ Hr) as [Hl Hall]. split_and!.
    + unfold cells. by rewrite length_fmap.
    + unfold cells. by rewrite length_fmap.
    + rewrite (cells_sum ps rounds (Z.to_nat w)); [lia|done|].
      eapply Forall_impl; [exact Hall|]. intros ids (? & ? & ?). split_and!; [done..|lia].
    + rewrite (cells_sum ps _ 1), length_fmap; [lia|done|]. apply Forall_fmap.
      eapply Forall_impl; [exact Hall|]. intros ids (Hn & Hs & Hc). split_and!.
      * by eapply sublist_NoDup; [|apply sublist_take].
      * by etrans; [apply subseteq_take|].
      * unfold compose. rewrite length_take. lia.
    + intros i x y Hx Hy. unfold cells in Hx, Hy. rewrite list_lookup_fmap in Hx, Hy.
      destruct (ps !! i) as [p|]; [|done]. injection Hx as <-. injection Hy as <-.
      pose proof (occurrences_le rounds p). pose proof (occurrences_take1 rounds p). lia.
  - destruct (draw_rounds_error ps w (Z.to_nat draws) r e Hw Hr) as [position ->]. by exists position.
Qed.

(** C23: the expected counts of the tests are the true means.  Over all answer
    sequences of the random source for [draws] draws of [w] winners out of
    [n] distinct participants, each participant wins [draws * w / n] times on
    average, and is first [draws / n] times on average. *)
Theorem experiment_unbiased (ps : list Z) (w : Z) (draws : nat) (i : nat) :
  NoDup ps -> (1 <= w <= Z.of_nat (length ps))%Z -> i < length ps ->
  let n := length ps in
  let tapes := all_tapes n draws in
  let run := fun tape => experiment ps (index_of ps) w (Z.of_nat draws) tape in
  let wins := fun tape => match run tape with Ok (wins, _, _) => Z.to_nat (default 0%Z (wins !! i)) | Err _ => 0 end in
  let firsts := fun tape => match run tape with Ok (_, firsts, _) => Z.to_nat (default 0%Z (firsts !! i)) | Err _ => 0 end in
  length tapes = fact n ^ draws /\ Forall (fun tape => is_ok (run tape) = true) tapes /\
  n * sum_list_with wins tapes = draws * Z.to_nat w * length tapes /\
  n * sum_list_with firsts tapes = draws * length tapes.
Proof.
  intros Hnd Hw Hi n tapes run wins firsts.
  destruct (lookup_lt_is_Some_2 ps i Hi) as [p Hp].
  assert (p ∈ ps) as Hin by (by eapply list_elem_of_lookup_2).
  assert (length tapes = fact n ^ draws) as Hlen.
  { unfold tapes, all_tapes. rewrite length_fmap, length_sequences, length_choice_tapes. f_equal. f_equal. unfold n. lia. }
  assert (forall ts, ts ∈ sequences (choice_tapes (n - 1)) draws ->
    run (mjoin ts) = Ok (cells ps (winners_by ps w <$> ts), cells ps (winners_by ps 1 <$> ts), [])) as Hrun.
  { intros ts [Hl Hall]%elem_of_sequences. unfold run. rewrite experiment_rounds by done.
    rewrite Nat2Z.id, <- Hl, draw_rounds_tapes by (done || lia).
    rewrite <- list_fmap_compose. rewrite (list_fmap_ext (take 1 ∘ winners_by ps w) (winners_by ps 1)); [done|].
    intros j t Ht.
    apply winners_by_first; [lia|lia|]. rewrite Forall_forall in Hall. by eapply Hall, list_elem_of_lookup_2. }
  assert (forall c, (1 <= c <= Z.of_nat (length ps))%Z ->
    n * sum_list_with (fun ts => Z.to_nat (default 0%Z (cells ps (winners_by ps c <$> ts) !! i)))
          (sequences (choice_tapes (n - 1)) draws) = draws * Z.to_nat c * length tapes) as Hmean.
  { intros c Hc. rewrite Hlen. unfold n. rewrite <- (mean_occurrences ps c p) by done. f_equal.
    apply sum_list_with_ext. intros ts _. rewrite (cells_lookup ps _ i p Hp). simpl. lia. }
  split_and!; [done| | |].
  - apply Forall_fmap, Forall_forall. intros ts Hts. unfold compose. by rewrite Hrun.
  - rewrite <- (Hmean w) by done. unfold tapes, all_tapes. rewrite sum_list_with_fmap. f_equal.
    apply sum_list_with_ext. intros ts Hts. unfold wins. by rewrite Hrun.
  - transitivity (draws * Z.to_nat 1 * length tapes); [|simpl; lia]. rewrite <- (Hmean 1%Z) by lia. unfold tapes, all_tapes. rewrite sum_list_with_fmap. f_equal.
    apply sum_list_with_ext. intros ts Hts. unfold firsts. by rewrite Hrun.
Qed.

Lemma count_below_le n below05 below01 results :
  length below05 = length results -> length below01 = length results ->
  Forall2 (fun a b => 0 <= a <= b /\ b <= n)%Z below01 below05 ->
  Forall2 (fun a b => 0 <= a <= b /\ b <= n + 1)%Z
    (count_below p01 below01 results) (count_below p05 below05 results).
Proof.
  intros H5 H1 Hb. revert results H5 H1. unfold count_below.
  induction Hb as [|a b l1 l5 Hab _ IH]; intros [|res results] H5 H1; try done; simpl in *.
  constructor; [|apply IH; lia]. destruct (SFltb (rt_PValue res) p01) eqn:Hp.
  - rewrite (below_p01 _ Hp). lia.
  - destruct (SFltb (rt_PValue res) p05); lia.
Qed.

(** The calibration never counts a p-value below 0.01 that is not below 0.05,
    and never more than the experiments. *)
Lemma calibrate_counts {R : Type} `{RandSource R, FloatMath} ps index w draws repeat (r : R) below05 below01 r' :
  (0 <= repeat)%Z -> calibrate ps index w draws repeat r = Ok (below05, below01, r') ->
  Forall2 (fun a b => 0 <= a <= b /\ b <= repeat)%Z below01 below05.
Proof.
  intros Hrep. unfold calibrate.
  assert (forall n r b5 b1 done, length b5 = 3 -> length b1 = 3 ->
    Forall2 (fun a b => 0 <= a <= b /\ b <= done)%Z b1 b5 ->
    calibrate_loop ps index w draws n b5 b1 r = Ok (below05, below01, r') ->
    Forall2 (fun a b => 0 <= a <= b /\ b <= done + Z.of_nat n)%Z below01 below05) as Hloop.
  { clear r. induction n as [|n IH]; intros r b5 b1 done H5 H1 Hb; cbn [calibrate_loop].
    { intros [= <- <- <-]. by rewrite Z.add_0_r. }
    destruct (experiment ps index w draws r) as [[[wins firsts] r1]|]; [|discriminate].
    assert (length (test_results wins firsts draws w) = 3) as Ht by reflexivity.
    intros Hc. eapply IH in Hc; [|..|eapply count_below_le; [| |exact Hb]].
    - eapply Forall2_impl; [exact Hc|]. intros x y Hxy. cbv beta in *. lia.
    - unfold count_below. by rewrite length_zip_with, H5, Ht.
    - unfold count_below. by rewrite length_zip_with, H1, Ht.
    - by rewrite Ht.
    - by rewrite Ht. }
  intros Hc. eapply (Hloop _ _ _ _ 0%Z) in Hc; [|done..|by repeat constructor].
  eapply Forall2_impl; [exact Hc|]. intros x y Hxy. cbv beta in *. lia.
Qed.

(** ** Witnesses *)

Lemma experiment_counts_witness :
  exists wins firsts, experiment [7; 8; 9]%Z (index_of [7; 8; 9]%Z) 2 2 [1; 0; 2; 1] = Ok (wins, firsts, []) /\
    foldl Z.add 0%Z wins = 4%Z.
Proof.
  pose proof (experiment_counts [7; 8; 9]%Z 2 2 [1; 0; 2; 1]) as Hc.
  destruct (experiment [7; 8; 9]%Z (index_of [7; 8; 9]%Z) 2 2 [1; 0; 2; 1]) as [[[wins firsts] r]|e] eqn:He.
  - exists wins, firsts. assert (r = []) as -> by (vm_compute in He; congruence). split; [reflexivity|].
    apply Hc; [|simpl; lia|lia]. apply (bool_decide_unpack _). vm_compute. exact I.
  - vm_compute in He. discriminate He.
Defined.

Lemma experiment_unbiased_witness :
  length (all_tapes 3 2) = 36 /\
  3 * sum_list_with (fun tape =>
        match experiment [7; 8; 9]%Z (index_of [7; 8; 9]%Z) 2 2 tape with
        | Ok (wins, _, _) => Z.to_nat (default 0%Z (wins !! 1))
        | Err _ => 0
        end) (all_tapes 3 2) = 2 * 2 * length (all_tapes 3 2).
Proof.
  destruct (experiment_unbiased [7; 8; 9]%Z 2 2 1) as (Hl & _ & Hw & _).
  - apply (bool_decide_unpack _). vm_compute. exact I.
  - simpl. lia.
  - simpl. lia.
  - split; [exact Hl|exact Hw].
Defined.
