(* ===== verification/Report.v ===== *)
(** * Reports of the load tests

    [src/loadtest/cmd/aggregate/main.go]: for every directory of k6 summaries
    the median and the range of each metric across the runs; and the texts
    that [src/loadtest/stats/stats.go] and [src/loadtest/cmd/fairness/main.go]
    print.  The JSON decoder is an interface; the two regular expressions are
    matchers on bytes. *)

From stdpp Require Import sorting.
From S2P Require Import Prelude GoFmt GoString GoDuration GoFloat Shuffle Stats Fairness.
From Stdlib Require Import Ascii SpecFloat.

(** ** Numbers *)

(** [f]: integers as such, other numbers with up to two decimals. *)
Definition f (x : f64) : string :=
  if SFeqb x (f64_of (int64_of x)) then FormatInt (int64_of x)
  else if SFleb (f64_of 100) x then FormatFixed 0 x
  else if SFleb (f64_of 10) x then FormatFixed 1 x
  else FormatFixed 2 x.

Definition en_dash : string :=
  String (ascii_of_N 226) (String (ascii_of_N 128) (String (ascii_of_N 147) EmptyString)).

(** The median of a sorted list; [None] is an index out of range. *)
Definition median (s : list f64) : option f64 :=
  let n := length s in
  if Nat.odd n then s !! (n / 2)
  else guard (0 < n);; a ← s !! (n / 2 - 1); b ← s !! (n / 2); Some (f64_div (f64_add a b) (f64_of 2)).

Definition stat (xs : list f64) : option string :=
  let s := Float64s xs in
  med ← median s; lo ← s !! 0; hi ← last s;
  Some (f med +:+ " [" +:+ f lo +:+ " " +:+ en_dash +:+ " " +:+ f hi +:+ "]").

(** ** Summaries *)

Record metric := mkMetric { mt_Type : string; mt_Values : gmap string f64 }.
Record summary := mkSummary { sm_TestRunDurationMs : f64; sm_Metrics : gmap string metric }.
Record meta := mkMetaFile { me_Description : string; me_StageSeconds : f64 }.
Definition no_meta : meta := mkMetaFile "" (f64_of 0).

(** [json.Unmarshal] of a summary, and of a [meta.json] (whose error is
    ignored). *)
Class UnmarshalSummary := unmarshal_summary : string -> option summary.
Class UnmarshalMeta := unmarshal_meta : string -> meta.

(** [s.Metrics[name].Values[key]], with and without the check. *)
Definition value (name key : string) (s : summary) : option f64 :=
  m ← sm_Metrics s !! name; mt_Values m !! key.
Definition count (name : string) (s : summary) : f64 := default (f64_of 0) (value name "count" s).

(** ** The regular expressions *)

Definition strip_suffix (suf l : list ascii) : option (list ascii) :=
  reverse <$> strip_prefix (reverse suf) (reverse l).

(** [^run(\d+)\.json$] *)
Definition is_run_file (name : string) : bool :=
  match strip_prefix (chars "run") (chars name) ≫= strip_suffix (chars ".json") with
  | Some digits => negb (bool_decide (digits = [])) && forallb is_digit digits
  | None => false
  end.

(** [[a-z0-9_]] *)
Definition word_char (c : ascii) : bool :=
  in_range 97 122 c || is_digit c || bool_decide (c = "_"%char).

Definition kept_names : list string :=
  ["http_reqs"; "http_req_duration"; "http_req_failed"; "iterations"; "dropped_iterations";
   "data_received"; "book_201_duration"; "book_end_to_end_duration"; "book_attempts"].

(** A name of the first group of [keep]. *)
Definition kept_base (l : list ascii) : bool :=
  existsb (fun n => bool_decide (chars n = l)) kept_names ||
  existsb (fun p => match strip_prefix (chars p) l with
                    | Some rest => negb (bool_decide (rest = [])) && forallb word_char rest
                    | None => false
                    end) ["st_"; "draw_"].

(** The optional group [\{(stage|ep):[^}]+\}], after its brace. *)
Definition kept_tag (l : list ascii) : bool :=
  existsb (fun p => match strip_prefix (chars p) l ≫= strip_suffix ["}"%char] with
                    | Some body => negb (bool_decide (body = [])) &&
                                   forallb (fun c => negb (bool_decide (c = "}"%char))) body
                    | None => false
                    end) ["stage:"; "ep:"].

Fixpoint split_brace (l : list ascii) : list ascii * option (list ascii) :=
  match l with
  | [] => ([], None)
  | c :: l' => if decide (c = "{"%char) then ([], Some l')
               else let (a, b) := split_brace l' in (c :: a, b)
  end.

Definition keep (name : string) : bool :=
  let (base, tag) := split_brace (chars name) in
  kept_base base && match tag with None => true | Some l => kept_tag l end.

(** ** The table of a directory *)

(** The label of a row, and the value it shows of a run. *)
Definition row_spec : Type := string * (summary -> option f64).

Definition trendKeys : list string := ["med"; "p(95)"; "p(99)"; "max"].

Definition seconds (s : summary) : f64 := f64_div (sm_TestRunDurationMs s) (f64_of 1000).

(** [typ]: the type in the first run that has the metric. *)
Definition type_of (runs : list summary) (name : string) : string :=
  default "" (head (omap (fun s => mt_Type <$> sm_Metrics s !! name) runs)).

Definition metric_rows (m : meta) (runs : list summary) (name : string) : list row_spec :=
  let typ := type_of runs name in
  if decide (typ = "counter") then
    (name +:+ " count", fun s => Some (count name s)) ::
    (if HasPrefix name "http_reqs" || HasPrefix name "st_201" || HasPrefix name "iterations" then
       if Contains name "{stage:" && SFltb (f64_of 0) (me_StageSeconds m)
       then [(name +:+ " per s (stage)", fun s => Some (f64_div (count name s) (me_StageSeconds m)))]
       else if negb (Contains name "{stage:")
       then [(name +:+ " per s (run)", fun s => Some (f64_div (count name s) (seconds s)))]
       else []
     else [])
  else if decide (typ = "rate") then [(name +:+ " rate", value name "rate")]
  else if decide (typ = "trend") then
    if existsb (fun s => SFltb (f64_of 0) (count name s)) runs
    then (fun key => (name +:+ " " +:+ key +:+ (if HasPrefix name "book_attempts" then "" else " (ms)"),
                      value name key)) <$> trendKeys
    else []
  else [].

(** [sort.Strings]. *)
Definition string_le (a b : string) : Prop := String.leb a b = true.
#[export] Instance string_le_dec : RelDecision string_le.
Proof. intros a b. unfold string_le. apply _. Defined.
#[export] Instance string_le_total : Total string_le.
Proof. intros a b. apply String.leb_total. Qed.

(** The names worth tabulating: the keys of a map, sorted. *)
Definition metric_names (runs : list summary) : gset string :=
  list_to_set (filter (fun n => keep n = true) (runs ≫= fun s => (map_to_list (sm_Metrics s)).*1)).

Definition sorted_names (runs : list summary) : list string :=
  merge_sort string_le (elements (metric_names runs)).

Definition table_rows (m : meta) (runs : list summary) : list row_spec :=
  ("test duration (s)", fun s => Some (seconds s)) ::
  (sorted_names runs ≫= metric_rows m runs).

Definition newline : string := String (ascii_of_N 10) EmptyString.

(** [row]: no line when no run has the value. *)
Definition row (runs : list summary) (r : row_spec) : list string :=
  match stat (omap r.2 runs) with
  | Some cell => ["| " +:+ r.1 +:+ " | " +:+ cell +:+ " |" +:+ newline]
  | None => []
  end.

(** [strings.Join]. *)
Fixpoint Join (l : list string) (sep : string) : string :=
  match l with
  | [] => ""
  | [s] => s
  | s :: l' => s +:+ sep +:+ Join l' sep
  end.

Definition concat_text (l : list string) : string := foldr (fun a b => a +:+ b) "" l.

Section Emit.
Context `{UnmarshalSummary, UnmarshalMeta}.

(** The runs of a directory: [entries] are its files in the order of
    [os.ReadDir], with what reading them gives. *)
Definition runs_of (entries : list (string * option string)) : list (string * summary) :=
  omap (fun e => guard (is_run_file e.1 = true);; text ← e.2; s ← unmarshal_summary text;
                 Some (e.1, s)) entries.

(** [emit]: [rel] is the path that is shown, [meta_file] what reading
    [meta.json] gives. *)
Definition emit (rel : string) (entries : list (string * option string)) (meta_file : option string)
  : string :=
  let runs := (runs_of entries).*2 in
  let m := match meta_file with Some text => unmarshal_meta text | None => no_meta end in
  newline +:+ "## " +:+ rel +:+ newline +:+ newline +:+
  (if decide (me_Description m = "") then "" else me_Description m +:+ newline +:+ newline) +:+
  "Runs: " +:+ Join (runs_of entries).*1 ", " +:+ " (n=" +:+ FormatInt (Z.of_nat (length runs)) +:+ ")"
    +:+ newline +:+ newline +:+
  "| metric | value |" +:+ newline +:+ "|---|---|" +:+ newline +:+
  concat_text (table_rows m runs ≫= row runs).

(** [filepath.Glob(run*.json)] finds something. *)
Definition has_runs (entries : list (string * option string)) : bool :=
  existsb (fun e => match strip_prefix (chars "run") (chars e.1) ≫= strip_suffix (chars ".json") with
                    | Some _ => true | None => false end) entries.

(** [main]: the directories in the order of their paths. *)
Definition aggregate (dirs : list (string * list (string * option string) * option string)) : string :=
  "# Aggregated k6 results (generated by loadtest/cmd/aggregate)" +:+ newline +:+ newline +:+
  "Each cell is `median [min " +:+ en_dash +:+ " max]` across the runs listed. Local, single machine."
    +:+ newline +:+
  "A counter missing from a run's summary (k6 omits counters that never fired) is counted as 0."
    +:+ newline +:+
  concat_text ((fun d => emit d.1.1 d.1.2 d.2) <$> filter (fun d => has_runs d.1.2 = true) dirs).
End Emit.

(** ** The texts of the fairness tests *)

(** [%v] of a [[]int]. *)
Definition format_ints (l : list Z) : string := "[" +:+ Join (FormatInt <$> l) " " +:+ "]".

(** [Result.String]. *)
Definition Result_String (r : Result) : string :=
  rt_Name r +:+ ": chi2=" +:+ FormatFixed 4 (rt_Statistic r) +:+ " df=" +:+ FormatInt (rt_DF r) +:+
  " p=" +:+ FormatFixed 4 (rt_PValue r) +:+ " expected_per_cell=" +:+ FormatFixed 1 (rt_Expected r) +:+
  " observed=" +:+ format_ints (rt_Observed r) +:+ newline +:+ "  note: " +:+ rt_Note r.

Definition calibration_names : list string :=
  ["win frequency, textbook Pearson"; "win frequency, variance-adjusted"; "rank-1 frequency"].

(** [100*float64(n)/float64(repeat)] *)
Definition percentage (n repeat : Z) : string :=
  FormatFixed 2 (f64_div (f64_mul (f64_of 100) (f64_of n)) (f64_of repeat)).

(** The output of [calibrate]. *)
Definition calibration_text (k w draws repeat : Z) (below05 below01 : list Z) : string :=
  "source=algorithm calibration: " +:+ FormatInt repeat +:+ " independent experiments of " +:+
  FormatInt draws +:+ " draws, " +:+ FormatInt k +:+ " participants, " +:+ FormatInt w +:+ " winners"
    +:+ newline +:+
  concat_text (zip_with (fun name below =>
    name +:+ ": p<0.05 in " +:+ FormatInt below.1 +:+ "/" +:+ FormatInt repeat +:+ " (" +:+
    percentage below.1 repeat +:+ "%), p<0.01 in " +:+ FormatInt below.2 +:+ "/" +:+ FormatInt repeat
    +:+ " (" +:+ percentage below.2 repeat +:+ "%)" +:+ newline) calibration_names (zip below05 below01)).

Section Main.
Context {R : Type} `{RandSource R} `{FloatMath}.

(** [main] of [fairness]: what it prints, or how it ends early. *)
Definition fairness_main (k : nat) (w draws repeat : Z) (rand : R) : result exp_error string :=
  let participants := participants_of k in
  let index := index_of participants in
  if decide (1 < repeat)%Z then
    match calibrate participants index w draws repeat rand with
    | Err e => Err e
    | Ok (below05, below01, _) =>
        Ok (calibration_text (Z.of_nat k) w draws repeat below05 below01)
    end
  else
    match experiment participants index w draws rand with
    | Err e => Err e
    | Ok (wins, firsts, _) =>
      let (p, a) := WinFrequency wins draws w in
      Ok ("source=algorithm (internal/lottery.SelectWinners) participants=" +:+ FormatInt (Z.of_nat k)
            +:+ " winners_per_draw=" +:+ FormatInt w +:+ " draws=" +:+ FormatInt draws +:+ newline +:+
          Result_String p +:+ newline +:+ Result_String a +:+ newline +:+
          Result_String (Uniform "rank-1 frequency" firsts) +:+ newline)
    end.
End Main.

(** ** Lemmas *)

(** Few elements of a sorted list are before or after a position. *)
Lemma before_position s i x :
  StronglySorted f64_le s -> s !! i = Some x -> length (filter (fun y => f64_less y x = true) s) <= i.
Proof.
  intros Hs Hx. rewrite <- (take_drop i s) at 1. rewrite filter_app, length_app.
  assert (filter (fun y => f64_less y x = true) (drop i s) = []) as ->.
  { apply elem_of_nil_inv. intros y [Hy [j Hj]%list_elem_of_lookup]%list_elem_of_filter.
    rewrite lookup_drop in Hj.
    pose proof (sorted_lookup_le s i (i + j) x y Hs Hx Hj ltac:(lia)) as Hle.
    unfold f64_le in Hle. congruence. }
  simpl. pose proof (length_filter (fun y => f64_less y x = true) (take i s)) as Hl.
  rewrite length_take in Hl. lia.
Qed.

Lemma after_position s i x :
  StronglySorted f64_le s -> s !! i = Some x ->
  length (filter (fun y => f64_less x y = true) s) <= length s - S i.
Proof.
  intros Hs Hx. rewrite <- (take_drop (S i) s) at 1. rewrite filter_app, length_app.
  assert (filter (fun y => f64_less x y = true) (take (S i) s) = []) as ->.
  { apply elem_of_nil_inv. intros y [Hy [j Hj]%list_elem_of_lookup]%list_elem_of_filter.
    apply lookup_take_Some in Hj as [Hj Hlt].
    pose proof (sorted_lookup_le s j i y x Hs Hj Hx ltac:(lia)) as Hle.
    unfold f64_le in Hle. congruence. }
  simpl. pose proof (length_filter (fun y => f64_less x y = true) (drop (S i) s)) as Hl.
  rewrite length_drop in Hl. lia.
Qed.

(** The two middle positions of a sorted list (the same one if its length is
    odd). *)
Lemma median_middle s :
  0 < length s -> exists a b med, s !! ((length s - 1) / 2) = Some a /\ s !! (length s / 2) = Some b /\
    median s = Some med /\
    (if Nat.odd (length s) then a = b /\ med = a else med = f64_div (f64_add a b) (f64_of 2)).
Proof.
  intros Hn. unfold median. pose proof (Nat.div_mod (length s) 2 ltac:(lia)) as Hdm.
  assert (length s / 2 < length s) as Hlt by (apply Nat.div_lt; lia).
  destruct (lookup_lt_is_Some_2 s (length s / 2) Hlt) as [b Hb].
  destruct (Nat.odd (length s)) eqn:Hodd.
  - apply Nat.odd_spec in Hodd as [k Hk].
    assert ((length s - 1) / 2 = length s / 2) as Heq.
    { rewrite Hk. replace (2 * k + 1 - 1) with (k * 2) by lia. rewrite Nat.div_mul by lia.
      replace (2 * k + 1) with (1 + k * 2) by lia. rewrite Nat.div_add by lia. done. }
    exists b, b, b. by rewrite Heq.
  - assert (Nat.even (length s) = true) as Hev by (rewrite <- Nat.negb_odd, Hodd; done).
    apply Nat.even_spec in Hev as [k Hk].
    assert (length s / 2 = k) as Hk2 by (rewrite Hk, Nat.mul_comm; apply Nat.div_mul; lia).
    assert ((length s - 1) / 2 = length s / 2 - 1) as Heq.
    { rewrite Hk2, Hk. replace (2 * k - 1) with (1 + (k - 1) * 2) by lia. rewrite Nat.div_add by lia. done. }
    destruct (lookup_lt_is_Some_2 s (length s / 2 - 1)) as [a Ha]; [lia|].
    exists a, b, (f64_div (f64_add a b) (f64_of 2)). rewrite Heq. split_and!; [done..| |done].
    rewrite option_guard_True by done. cbn [mbind option_bind].
    rewrite Ha. cbn [mbind option_bind]. by rewrite Hb.
Qed.

Lemma stat_unique xs ys :
  xs ≡ₚ ys -> Forall (fun x => x <> S754_zero true) xs -> stat xs = stat ys.
Proof. intros Hp Hz. unfold stat. by rewrite (Float64s_unique xs ys). Qed.

(** ** Properties *)

(** A cell shows the median and the range.  For the values of the runs, in
    any order, the cell names the least and the greatest of them and a median:
    the middle value [a = b] of an odd number of values, the mean of the two
    middle values of an even number; fewer than half of the values are below
    [a] and fewer than half are above [b].  The cell does not depend on the
    order of the runs (without negative zeros, which JSON summaries of counts
    and durations do not have). *)
Theorem stat_correct xs :
  xs <> [] ->
  exists lo a b hi med, lo ∈ xs /\ a ∈ xs /\ b ∈ xs /\ hi ∈ xs /\
    stat xs = Some (f med +:+ " [" +:+ f lo +:+ " " +:+ en_dash +:+ " " +:+ f hi +:+ "]") /\
    (if Nat.odd (length xs) then a = b /\ med = a else med = f64_div (f64_add a b) (f64_of 2)) /\
    (forall x, x ∈ xs -> f64_le lo x /\ f64_le x hi) /\ f64_le a b /\
    2 * length (filter (fun x => f64_less x a = true) xs) < length xs /\
    2 * length (filter (fun x => f64_less b x = true) xs) < length xs /\
    (Forall (fun x => x <> S754_zero true) xs -> forall ys, ys ≡ₚ xs -> stat ys = stat xs).
Proof.
  intros Hne. pose proof (Float64s_perm xs) as Hp. pose proof (Float64s_sorted xs) as Hs.
  pose proof (Permutation_length Hp) as Hlen.
  assert (0 < length (Float64s xs)) as Hpos by (rewrite Hlen; destruct xs; [done|simpl; lia]).
  destruct (median_middle _ Hpos) as (a & b & med & Ha & Hb & Hmed & Hval).
  destruct (lookup_lt_is_Some_2 (Float64s xs) 0 Hpos) as [lo Hlo].
  destruct (lookup_lt_is_Some_2 (Float64s xs) (length (Float64s xs) - 1)) as [hi Hhi]; [lia|].
  assert (forall i x, Float64s xs !! i = Some x -> x ∈ xs) as Hin.
  { intros i x Hx. rewrite <- Hp. by eapply list_elem_of_lookup_2. }
  pose proof (Nat.div_mod (length xs) 2 ltac:(lia)) as Hdm.
  pose proof (Nat.mod_upper_bound (length xs) 2 ltac:(lia)).
  pose proof (Nat.div_mod (length xs - 1) 2 ltac:(lia)).
  pose proof (Nat.mod_upper_bound (length xs - 1) 2 ltac:(lia)).
  exists lo, a, b, hi, med. rewrite Hlen in *.
  split_and!; eauto.
  - unfold stat. rewrite Hmed. simpl. rewrite Hlo. simpl. by rewrite last_lookup, <- Nat.sub_1_r, Hlen, Hhi.
  - intros x. rewrite <- Hp. intros [i Hi]%list_elem_of_lookup. pose proof (lookup_lt_Some _ _ _ Hi).
    split; eapply sorted_lookup_le; eauto; lia.
  - eapply sorted_lookup_le; eauto. apply Nat.Div0.div_le_mono. lia.
  - pose proof (before_position _ _ _ Hs Ha) as Hc. rewrite Hp in Hc. lia.
  - pose proof (after_position _ _ _ Hs Hb) as Hc. rewrite Hp in Hc. lia.
  - intros Hz ys Hys. symmetry. by apply stat_unique.
Qed.

(** Three runs of a metric. *)
Definition three_runs : list f64 := [f64_of 30; f64_div (f64_of 41) (f64_of 4); f64_of 5].

Lemma stat_correct_witness :
  stat three_runs = Some ("10.2 [5 " +:+ en_dash +:+ " 30]") /\
  exists lo a b hi med, lo ∈ three_runs /\ hi ∈ three_runs /\ a = b /\ med = a /\
    stat three_runs = Some (f med +:+ " [" +:+ f lo +:+ " " +:+ en_dash +:+ " " +:+ f hi +:+ "]").
Proof.
  split; [vm_compute; reflexivity|].
  destruct (stat_correct three_runs) as (lo & a & b & hi & med & Hlo & _ & _ & Hhi & Hst & [Hab Hmed] & _);
    [done|].
  exists lo, a, b, hi, med. auto.
Defined.
