(* ===== verification/Seal.v ===== *)
(** * The seal of a draw

    [src/internal/lottery/seal.go]: the text that describes a draw's outcome
    and its SHA-256 digest. *)

From S2P Require Import Prelude GoFmt GoTime Sha256 Models.
From Stdlib Require Import Ascii.

Definition sealAlgorithm : string := "sha256-v1".

Definition IntegrityVerified : string := "verified".
Definition IntegrityMismatch : string := "mismatch".
Definition IntegrityUnsealed : string := "unsealed".

Definition newline : string := String "010" "".

(** [%d:%d:%s:%d\n] of one row. *)
Definition seal_line (r : LotteryDraw) : string :=
  FormatInt (draw_DrawRank r) +:+ ":" +:+ FormatInt (draw_WinnerUserID r) +:+ ":" +:+
  draw_EntropySource r +:+ ":" +:+ FormatInt (draw_TotalEntrants r) +:+ newline.

Fixpoint seal_lines (rows : list LotteryDraw) : string :=
  match rows with
  | [] => ""
  | r :: rows' => seal_line r +:+ seal_lines rows'
  end.

(** Everything the builder holds before it is hashed. *)
Definition seal_text (eventID winnerCount drawnAt : Z) (rows : list LotteryDraw) : string :=
  sealAlgorithm +:+ newline +:+
  "event:" +:+ FormatInt eventID +:+ newline +:+
  "winner_count:" +:+ FormatInt winnerCount +:+ newline +:+
  "drawn_at:" +:+ FormatRFC3339Nano drawnAt +:+ newline +:+
  "entrants:" +:+ FormatInt (Z.of_nat (length rows)) +:+ newline +:+
  seal_lines rows.

(** [[]byte(s)]. *)
Definition bytes_of (s : string) : list Z := (fun c => Z.of_N (N_of_ascii c)) <$> chars s.

Definition drawDigest (eventID winnerCount drawnAt : Z) (rows : list LotteryDraw) : string :=
  hex_encode (Sum256 (bytes_of (seal_text eventID winnerCount drawnAt rows))).

#[global] Arguments drawDigest : simpl never.

(** ** The text determines the outcome *)

(** What a line records of its row. *)
Definition line_fields (r : LotteryDraw) : Z * Z * string * Z :=
  (draw_DrawRank r, draw_WinnerUserID r, draw_EntropySource r, draw_TotalEntrants r).

Definition NL : ascii := "010".

Lemma split_at_last_sep (c : ascii) (a a' b b' : list ascii) :
  c ∉ b -> c ∉ b' -> a ++ c :: b = a' ++ c :: b' -> a = a' /\ b = b'.
Proof.
  intros Hb Hb' Heq. apply (f_equal reverse) in Heq.
  rewrite !reverse_app, !reverse_cons, <- !app_assoc in Heq. simpl in Heq.
  apply split_at_sep in Heq as [H1 H2]; [|by rewrite elem_of_reverse..].
  apply (inj reverse) in H1, H2. done.
Qed.

(** A line without its line break. *)
Definition line_chars (r : LotteryDraw) : list ascii :=
  chars (FormatInt (draw_DrawRank r)) ++ ":"%char :: chars (FormatInt (draw_WinnerUserID r)) ++
  ":"%char :: chars (draw_EntropySource r) ++ ":"%char :: chars (FormatInt (draw_TotalEntrants r)).

Lemma chars_seal_line r : chars (seal_line r) = line_chars r ++ [NL].
Proof.
  unfold seal_line, line_chars. rewrite !chars_app. simpl.
  rewrite <- !app_assoc. simpl. rewrite <- !app_assoc. simpl. by rewrite <- !app_assoc.
Qed.

Lemma line_chars_inj r1 r2 : line_chars r1 = line_chars r2 -> line_fields r1 = line_fields r2.
Proof.
  unfold line_chars, line_fields.
  intros [E1 H]%split_at_sep; [|by apply not_in_FormatInt..].
  apply split_at_sep in H as [E2 H]; [|by apply not_in_FormatInt..].
  apply split_at_last_sep in H as [E3 E4]; [|by apply not_in_FormatInt..].
  apply chars_inj, FormatInt_inj in E1, E2, E4. apply chars_inj in E3. congruence.
Qed.

(** The number of line breaks. *)
Definition breaks (l : list ascii) : nat := length (filter (fun c => c = NL) l).

Lemma breaks_app l1 l2 : breaks (l1 ++ l2) = breaks l1 + breaks l2.
Proof. unfold breaks. by rewrite filter_app, length_app. Qed.

Lemma breaks_0 l : breaks l = 0 <-> NL ∉ l.
Proof.
  unfold breaks. split.
  - intros Hb Hin. apply nil_length_inv in Hb.
    by apply (filter_nil_not_elem_of (fun c => c = NL) l NL).
  - intros Hn. apply length_filter_none. by intros x Hx ->.
Qed.

Lemma line_chars_breaks r : NL ∈ line_chars r <-> NL ∈ chars (draw_EntropySource r).
Proof.
  assert (forall z, NL ∉ chars (FormatInt z)) as Hz by (intros z; by apply not_in_FormatInt).
  unfold line_chars. rewrite !elem_of_app, !elem_of_cons, !elem_of_app, !elem_of_cons,
    !elem_of_app, !elem_of_cons.
  split; [|auto 10].
  intros [H|[H|[H|[H|[H|[H|H]]]]]]; try done; by apply Hz in H.
Qed.

Lemma chars_seal_lines_cons r rows :
  chars (seal_lines (r :: rows)) = line_chars r ++ NL :: chars (seal_lines rows).
Proof. simpl. rewrite chars_app, chars_seal_line, <- app_assoc. done. Qed.

Lemma seal_lines_breaks rows :
  length rows <= breaks (chars (seal_lines rows)).
Proof.
  induction rows as [|r rows IH]; [done|].
  rewrite chars_seal_lines_cons, breaks_app.
  change (NL :: chars (seal_lines rows)) with ([NL] ++ chars (seal_lines rows)).
  rewrite breaks_app. change (breaks [NL]) with 1. simpl. lia.
Qed.

Definition one_line (r : LotteryDraw) : Prop := NL ∉ chars (draw_EntropySource r).

Lemma seal_lines_breaks_eq rows :
  breaks (chars (seal_lines rows)) = length rows <-> Forall one_line rows.
Proof.
  induction rows as [|r rows IH]; [split; [constructor|done]|].
  rewrite chars_seal_lines_cons, breaks_app, Forall_cons.
  change (NL :: chars (seal_lines rows)) with ([NL] ++ chars (seal_lines rows)).
  rewrite breaks_app. change (breaks [NL]) with 1. simpl.
  pose proof (seal_lines_breaks rows) as Hle. rewrite <- IH. unfold one_line.
  rewrite <- line_chars_breaks, <- breaks_0. lia.
Qed.

Lemma seal_lines_inj rows1 rows2 :
  Forall one_line rows1 -> Forall one_line rows2 -> length rows1 = length rows2 ->
  chars (seal_lines rows1) = chars (seal_lines rows2) ->
  line_fields <$> rows1 = line_fields <$> rows2.
Proof.
  intros H1. revert rows2.
  induction H1 as [|r1 rows1 Hr1 _ IH]; intros [|r2 rows2] H2 Hlen Heq; [done..|].
  apply Forall_cons in H2 as [Hr2 H2]. rewrite !chars_seal_lines_cons in Heq.
  apply split_at_sep in Heq as [Hl Heq]; [|by rewrite line_chars_breaks..].
  rewrite !fmap_cons. f_equal; [by apply line_chars_inj|]. simpl in Hlen. auto with lia.
Qed.

(** One labelled header field. *)
Lemma field_split (label : string) (f1 f2 : string) (rest1 rest2 : list ascii) :
  NL ∉ chars f1 -> NL ∉ chars f2 ->
  chars label ++ chars f1 ++ chars newline ++ rest1 =
  chars label ++ chars f2 ++ chars newline ++ rest2 ->
  f1 = f2 /\ rest1 = rest2.
Proof.
  intros H1 H2 Heq%app_inv_head. apply split_at_sep in Heq as [Hf ->]; [|done..].
  by apply chars_inj in Hf.
Qed.

Lemma seal_text_inj e1 w1 t1 rows1 e2 w2 t2 rows2 :
  (0 <= t1)%Z -> (0 <= t2)%Z -> Forall one_line rows1 ->
  seal_text e1 w1 t1 rows1 = seal_text e2 w2 t2 rows2 ->
  e1 = e2 /\ w1 = w2 /\ t1 = t2 /\ line_fields <$> rows1 = line_fields <$> rows2.
Proof.
  intros Ht1 Ht2 Hone Heq. apply (f_equal String.list_ascii_of_string) in Heq.
  assert (forall z, NL ∉ chars (FormatInt z)) as Hz by (intros z; by apply not_in_FormatInt).
  unfold seal_text in Heq. rewrite !chars_app in Heq.
  do 2 apply app_inv_head in Heq.
  apply field_split in Heq as [E1 Heq]; [|by apply Hz..].
  apply field_split in Heq as [E2 Heq]; [|by apply Hz..].
  apply field_split in Heq as [E3 Heq]; [|by apply FormatRFC3339Nano_newline..].
  apply field_split in Heq as [E4 Heq]; [|by apply Hz..].
  apply FormatInt_inj in E1, E2, E4. apply FormatRFC3339Nano_inj in E3; [|done..].
  assert (length rows1 = length rows2) as Hlen by lia.
  split_and!; [done..|]. apply seal_lines_inj; [done| |done..].
  apply seal_lines_breaks_eq. rewrite <- Heq, <- Hlen. by apply seal_lines_breaks_eq.
Qed.

(** ** Bytes and hexadecimal *)

Lemma bytes_of_inj s1 s2 : bytes_of s1 = bytes_of s2 -> s1 = s2.
Proof.
  unfold bytes_of. intros Heq. apply chars_inj. revert Heq. apply list_fmap_eq_inj.
  intros c1 c2 Hc. apply N2Z.inj in Hc.
  rewrite <- (ascii_N_embedding c1), <- (ascii_N_embedding c2). by rewrite Hc.
Qed.

Lemma hex_digit_check :
  forallb (fun p => bool_decide (hex_digit p.1 = hex_digit p.2 -> p.1 = p.2))
    (x ← seqZ 0 16; pair x <$> seqZ 0 16) = true.
Proof. vm_compute. reflexivity. Qed.

Lemma hex_digit_inj x y :
  (0 <= x < 16)%Z -> (0 <= y < 16)%Z -> hex_digit x = hex_digit y -> x = y.
Proof.
  intros Hx Hy. pose proof hex_digit_check as Hc. rewrite forallb_forall in Hc.
  specialize (Hc (x, y)). rewrite bool_decide_eq_true in Hc. apply Hc.
  apply list_elem_of_In, list_elem_of_bind. exists x. rewrite elem_of_seqZ.
  split; [|lia]. apply list_elem_of_fmap_2, elem_of_seqZ. lia.
Qed.

Lemma hex_encode_inj l1 l2 :
  Forall (fun b => 0 <= b < 256)%Z l1 -> Forall (fun b => 0 <= b < 256)%Z l2 ->
  hex_encode l1 = hex_encode l2 -> l1 = l2.
Proof.
  intros H1 H2 Heq%string_of_list_ascii_inj. revert l2 H2 Heq.
  induction H1 as [|x l1 Hx _ IH]; intros [|y l2] H2 Heq; simpl in Heq; [done..|].
  apply Forall_cons in H2 as [Hy H2]. injection Heq as Hd Hm Heq.
  assert (forall z, 0 <= z < 256 -> 0 <= z `div` 16 < 16)%Z as Hdiv.
  { intros z Hz. split; [apply Z.div_pos; lia|apply Z.div_lt_upper_bound; lia]. }
  apply hex_digit_inj in Hd, Hm; try (by apply Hdiv || by apply Z.mod_pos_bound).
  f_equal; [|by apply IH].
  rewrite (Z.div_mod x 16), (Z.div_mod y 16) by done. by rewrite Hd, Hm.
Qed.

(** Two different messages with the same SHA-256 digest. *)
Definition collide (m1 m2 : list Z) : Prop := m1 <> m2 /\ Sum256 m1 = Sum256 m2.

Lemma drawDigest_text e1 w1 t1 rows1 e2 w2 t2 rows2 :
  drawDigest e1 w1 t1 rows1 = drawDigest e2 w2 t2 rows2 ->
  seal_text e1 w1 t1 rows1 = seal_text e2 w2 t2 rows2 \/
  collide (bytes_of (seal_text e1 w1 t1 rows1)) (bytes_of (seal_text e2 w2 t2 rows2)).
Proof.
  intros Heq%hex_encode_inj; [|apply Forall_forall; apply Sum256_range..].
  destruct (decide (seal_text e1 w1 t1 rows1 = seal_text e2 w2 t2 rows2)) as [|Hne]; [auto|].
  right. split; [|exact Heq]. by intros ?%bytes_of_inj.
Qed.
