(* ===== verification/Database.v ===== *)
(** * The database

    The tables of [src/internal/db/migrations/001_init.sql] and
    [002_harden_audit.sql], with their keys, unique, check and foreign-key
    constraints, defaults, sequences and triggers, and the SQL statements of
    the services.  A statement is executed against the tables it sees (the
    committed rows plus the writes of its own transaction) and yields its
    answer and the rows it writes; a transaction is a list of such writes.
    Where [ORDER BY] leaves the order of rows open, every query of a list has
    its own ([moment], [order_by]).

    Also [src/internal/pgerr/pgerr.go]: how the services read error codes. *)

From S2P Require Import Prelude GoFmt GoString Models.

(** ** Driver errors and [pgerr] *)

Inductive pgerror :=
| ErrNoRows                    (* pgx.ErrNoRows *)
| PgError (Code : string)      (* an error response of the server *)
| ErrTxClosed                  (* pgx.ErrTxClosed *)
| ErrDriver.                   (* anything else: connection, encoding, context *)

#[export] Instance pgerror_eq_dec : EqDecision pgerror.
Proof. solve_decision. Defined.

Definition codeUniqueViolation : string := "23505".
Definition codeForeignKeyViolation : string := "23503".
Definition codeCheckViolation : string := "23514".
Definition codeNotNullViolation : string := "23502".
Definition codeSerializationError : string := "40001".
(** [ERRCODE = 'insufficient_privilege'], which the triggers raise. *)
Definition codeInsufficientPrivilege : string := "42501".
(** [OFFSET must not be negative] / [LIMIT must not be negative]. *)
Definition codeInvalidRowCount : string := "2201X".
(** [invalid byte sequence for encoding "UTF8"]. *)
Definition codeCharacterNotInRepertoire : string := "22021".

Definition code (err : pgerror) : string :=
  match err with PgError c => c | _ => "" end.

Definition IsUnique (err : pgerror) : bool := bool_decide (code err = codeUniqueViolation).
Definition IsForeignKey (err : pgerror) : bool := bool_decide (code err = codeForeignKeyViolation).
Definition IsCheck (err : pgerror) : bool := bool_decide (code err = codeCheckViolation).
Definition IsNotNull (err : pgerror) : bool := bool_decide (code err = codeNotNullViolation).
Definition IsSerialization (err : pgerror) : bool :=
  bool_decide (code err = codeSerializationError).

(** ** Rows and tables *)

(** A row of [events]. *)
Record event_row := mkEventRow {
  ev_id : Z;
  ev_title : string;
  ev_description : string;
  ev_capacity : Z;
  ev_winner_count : Z;
  ev_draw_at : Z;
  ev_status : EventStatus;
  ev_created_by : Z;
  ev_created_at : Z;
  ev_updated_at : Z
}.

(** A row of [lottery_draw_seals]. *)
Record seal_row := mkSealRow {
  seal_event_id : Z;
  seal_digest : string;
  seal_algorithm : string;
  seal_sealed_at : Z
}.

#[export] Instance event_row_eq_dec : EqDecision event_row.
Proof. solve_decision. Defined.
#[export] Instance seal_row_eq_dec : EqDecision seal_row.
Proof. solve_decision. Defined.

(** Tables with a key that is looked up are maps from that key; [bookings]
    and [lottery_draws] are lists in insertion order. *)
Record Tables := mkTables {
  t_users : gmap Z User;
  t_events : gmap Z event_row;
  t_bookings : list Booking;
  t_draws : list LotteryDraw;
  t_seals : gmap Z seal_row
}.

(** The [BIGSERIAL] sequences.  [nextval] is never undone, whatever happens to
    the transaction that called it. *)
Record Seqs := mkSeqs {
  next_user : Z;
  next_event : Z;
  next_booking : Z;
  next_draw : Z
}.

Definition empty_tables : Tables := mkTables ∅ ∅ [] [] ∅.
Definition initial_seqs : Seqs := mkSeqs 1 1 1 1.

(** [timestamptz] has microsecond precision; the driver drops the rest. *)
Definition pg_time (t : Z) : Z := (t `div` 1000 * 1000)%Z.

(** The driver refuses to encode a Go [int] that does not fit a column of type
    [INT]. *)
Definition fits_int4 (z : Z) : bool := bool_decide (-2147483648 <= z <= 2147483647)%Z.

(** A [TEXT] value is valid UTF-8 without the null character; the server
    refuses any other parameter. *)
Definition storable (s : string) : bool :=
  utf8_valid (chars s) && bool_decide (Ascii.zero ∉ chars s).

(** ** Writes *)

Inductive write :=
| WUser (u : User)
| WUserRole (id : Z) (role : string) (now : Z)
| WEvent (e : event_row)
| WEventStatus (id : Z) (st : EventStatus) (now : Z)
| WBooking (b : Booking)
| WDraw (d : LotteryDraw)
| WSeal (s : seal_row).

(** [UPDATE users SET role = ...]; the trigger [trg_users_updated_at] sets
    [updated_at]. *)
Definition set_role (role : string) (now : Z) (u : User) : User :=
  mkUser (user_ID u) (user_Email u) (user_FullName u) role (user_PasswordHash u)
    (user_CreatedAt u) now.

(** [UPDATE events SET status = ...]; the trigger [trg_events_updated_at] sets
    [updated_at]. *)
Definition set_status (st : EventStatus) (now : Z) (e : event_row) : event_row :=
  mkEventRow (ev_id e) (ev_title e) (ev_description e) (ev_capacity e)
    (ev_winner_count e) (ev_draw_at e) st (ev_created_by e) (ev_created_at e) now.

Definition apply_write (t : Tables) (w : write) : Tables :=
  match w with
  | WUser u => mkTables (<[user_ID u := u]> (t_users t)) (t_events t) (t_bookings t) (t_draws t) (t_seals t)
  | WUserRole id role now =>
      mkTables (alter (set_role role now) id (t_users t)) (t_events t) (t_bookings t) (t_draws t) (t_seals t)
  | WEvent e => mkTables (t_users t) (<[ev_id e := e]> (t_events t)) (t_bookings t) (t_draws t) (t_seals t)
  | WEventStatus id st now =>
      mkTables (t_users t) (alter (set_status st now) id (t_events t)) (t_bookings t) (t_draws t) (t_seals t)
  | WBooking b => mkTables (t_users t) (t_events t) (t_bookings t ++ [b]) (t_draws t) (t_seals t)
  | WDraw d => mkTables (t_users t) (t_events t) (t_bookings t) (t_draws t ++ [d]) (t_seals t)
  | WSeal s => mkTables (t_users t) (t_events t) (t_bookings t) (t_draws t)
                 (<[seal_event_id s := s]> (t_seals t))
  end.

(** What a transaction with writes [ws] sees over the committed tables [t]. *)
Definition apply_writes (t : Tables) (ws : list write) : Tables := foldl apply_write t ws.

(** ** Selections *)

Definition bookings_of (eid : Z) (t : Tables) : list Booking :=
  filter (fun b => booking_EventID b = eid) (t_bookings t).

Definition bookings_by (uid : Z) (t : Tables) : list Booking :=
  filter (fun b => booking_UserID b = uid) (t_bookings t).

Definition booking_exists (eid uid : Z) (t : Tables) : bool :=
  bool_decide (Exists (fun b => booking_EventID b = eid /\ booking_UserID b = uid) (t_bookings t)).

Definition draws_of (eid : Z) (t : Tables) : list LotteryDraw :=
  filter (fun d => draw_EventID d = eid) (t_draws t).

Definition user_by_email (email : string) (t : Tables) : option User :=
  snd <$> list_find (fun u => user_Email u = email) (snd <$> map_to_list (t_users t)) .

(** [ORDER BY key] where the key is unique, or where nothing depends on the
    order of equal keys. *)
Definition key_le {A} (key : A -> Z) (x y : A) : Prop := (key x <= key y)%Z.

#[export] Instance key_le_dec {A} (key : A -> Z) : RelDecision (key_le key).
Proof. intros x y. unfold key_le. apply _. Defined.
#[export] Instance key_le_total {A} (key : A -> Z) : Total (key_le key).
Proof. intros x y. unfold key_le. lia. Qed.
#[export] Instance key_le_trans {A} (key : A -> Z) : Transitive (key_le key).
Proof. intros x y z. unfold key_le. lia. Qed.

Definition order_asc {A} (key : A -> Z) : list A -> list A := merge_sort (key_le key).

(** [ORDER BY key] as SQL defines it: the order of rows with equal keys is
    left to the server, which may choose differently from one query to the
    next.  [tie] is the choice made for one query. *)
Definition lex_le {A} (key tie : A -> Z) (x y : A) : Prop :=
  (key x < key y \/ key x = key y /\ tie x <= tie y)%Z.

#[export] Instance lex_le_dec {A} (key tie : A -> Z) : RelDecision (lex_le key tie).
Proof. intros x y. unfold lex_le. apply _. Defined.
#[export] Instance lex_le_total {A} (key tie : A -> Z) : Total (lex_le key tie).
Proof. intros x y. unfold lex_le. lia. Qed.
#[export] Instance lex_le_trans {A} (key tie : A -> Z) : Transitive (lex_le key tie).
Proof. intros x y z. unfold lex_le. lia. Qed.

Definition order_by {A} (key tie : A -> Z) : list A -> list A := merge_sort (lex_le key tie).

Lemma order_by_Permutation {A} (key tie : A -> Z) l : order_by key tie l ≡ₚ l.
Proof. apply merge_sort_Permutation. Qed.

(** Whatever the choice, the keys come in ascending order. *)
Lemma order_by_sorted {A} (key tie : A -> Z) l : StronglySorted (key_le key) (order_by key tie l).
Proof.
  assert (StronglySorted (lex_le key tie) (order_by key tie l)) as H.
  { apply Sorted_StronglySorted; [apply _|]. apply Sorted_merge_sort, _. }
  induction H as [|x l' _ IH Hx]; constructor; [done|].
  eapply Forall_impl; [exact Hx|]. unfold lex_le, key_le. lia.
Qed.

Lemma order_by_keys {A} (key tie : A -> Z) l :
  key <$> order_by key tie l = key <$> order_asc key l.
Proof.
  assert (forall m, StronglySorted (key_le key) m -> StronglySorted Z.le (key <$> m)) as Hs.
  { intros m Hm. induction Hm as [|x m' _ IH Hx]; simpl; constructor; [done|].
    by apply Forall_fmap. }
  apply (StronglySorted_unique Z.le).
  - apply Hs, order_by_sorted.
  - apply Hs, Sorted_StronglySorted; [apply _|]. apply Sorted_merge_sort, _.
  - unfold order_by, order_asc. by rewrite !merge_sort_Permutation.
Qed.

(** When no two rows have the same key, there is nothing to choose. *)
Lemma order_by_unique {A} (key tie : A -> Z) l :
  NoDup (key <$> l) -> order_by key tie l = order_asc key l.
Proof.
  intros Hnd. apply (StronglySorted_unique_strong (key_le key)).
  - intros x y Hx Hy Hxy Hyx. rewrite order_by_Permutation in Hx.
    unfold order_asc in Hy. rewrite merge_sort_Permutation in Hy.
    apply list_elem_of_lookup in Hx as [i Hi], Hy as [j Hj].
    assert (i = j) as ->; [|congruence].
    eapply (NoDup_lookup (key <$> l)); [done|by rewrite list_lookup_fmap, Hi|].
    rewrite list_lookup_fmap, Hj. unfold key_le in *. simpl. f_equal. lia.
  - apply order_by_sorted.
  - apply Sorted_StronglySorted; [apply _|]. apply Sorted_merge_sort, _.
  - unfold order_by, order_asc. by rewrite !merge_sort_Permutation.
Qed.

(** What one statement gets from the server besides the tables: the
    transaction's start time ([NOW()]) and the choice among equal keys, by the
    rows' [id]. *)
Record moment := mkMoment { m_now :> Z; m_ties : Z -> Z }.

(** [e.*, COUNT(b.id)] of the join with [bookings], as the services scan it. *)
Definition event_with_count (t : Tables) (e : event_row) : Event :=
  mkEvent (ev_id e) (ev_title e) (ev_description e) (ev_capacity e) (ev_draw_at e)
    (ev_status e) (ev_winner_count e) (ev_created_by e)
    (Z.of_nat (length (bookings_of (ev_id e) t))) (ev_created_at e) (ev_updated_at e).

(** [WHERE e.status = $1]; the empty string stands for the query without the
    clause. *)
Definition events_in_status (status : string) (t : Tables) : list event_row :=
  filter (fun e => status = "" \/ status_string (ev_status e) = status)
         (snd <$> map_to_list (t_events t)).

(** ** Statements *)

(** One constructor per SQL statement of the services, indexed by what the
    code scans from its answer. *)
Inductive stmt : Type -> Type :=
(* internal/booking/service.go *)
| SelectStatusCapacityForUpdate (eid : Z) : stmt (EventStatus * Z)
| SelectBookingExists (eid uid : Z) : stmt bool
| SelectBookingCount (eid : Z) : stmt Z
| InsertBooking (eid uid : Z) : stmt unit
| SelectBookingsByEvent (eid : Z) : stmt (list Booking)
| SelectBookingsByUser (uid : Z) : stmt (list Booking)
(* internal/event/service.go *)
| InsertEvent (title description : string) (capacity draw_at winner_count created_by : Z)
  : stmt event_row
| SelectEventWithCount (eid : Z) : stmt Event
| SelectEvents (status : string) (limit offset : Z) : stmt (list Event)
| SelectEventCount (status : string) : stmt Z
| SelectStatusForUpdate (eid : Z) : stmt EventStatus
| UpdateEventStatus (eid : Z) (st : EventStatus) : stmt unit
(* internal/lottery/service.go *)
| SelectDrawEventForUpdate (eid : Z) : stmt (string * EventStatus * Z * bool)
| SelectParticipants (eid : Z) : stmt (list Z)
| InsertDraw (eid uid rank total : Z) (source : string) (drawn_at : Z) : stmt LotteryDraw
| InsertSeal (eid : Z) (digest algorithm : string) (sealed_at : Z) : stmt unit
| SelectDrawnEvent (eid : Z) : stmt (string * Z)
| SelectDraws (eid : Z) : stmt (list LotteryDraw)
| SelectSealDigest (eid : Z) : stmt string
(* internal/auth/service.go *)
| InsertUser (email hash full_name : string) : stmt User
| SelectUserByEmail (email : string) : stmt User
| SelectUserById (uid : Z) : stmt User
| PromoteUser (uid : Z) : stmt User
| UpsertAdmin (email hash full_name : string) : stmt unit.

(** The answer of a statement, its writes, and the sequences after it. *)
Definition outcome (X : Type) : Type := result pgerror X * list write * Seqs.

(** The columns [id, email, full_name, role, created_at, updated_at]: the
    password hash is not selected. *)
Definition without_hash (u : User) : User :=
  mkUser (user_ID u) (user_Email u) (user_FullName u) (user_Role u) ""
    (user_CreatedAt u) (user_UpdatedAt u).

Section Exec.
(** [now] is the transaction's start time ([NOW()]) with the choice of this
    query, [t] what the statement sees, [q] the sequences. *)
Variables (now : moment) (t : Tables) (q : Seqs).

Definition answer {X} (r : result pgerror X) : outcome X := (r, [], q).

(** A statement with text parameters from a request. *)
Definition with_text {X} (params : list string) (o : outcome X) : outcome X :=
  if forallb storable params then o
  else answer (Err (PgError codeCharacterNotInRepertoire)).

Definition one_row {A X} (o : option A) (f : A -> X) : outcome X :=
  answer (match o with Some a => Ok (f a) | None => Err ErrNoRows end).

(** [INSERT INTO bookings (event_id, user_id)]: the unique key is checked when
    the row is inserted, the foreign keys at the end of the statement. *)
Definition insert_booking (eid uid : Z) : outcome unit :=
  let q' := mkSeqs (next_user q) (next_event q) (next_booking q + 1) (next_draw q) in
  if booking_exists eid uid t then (Err (PgError codeUniqueViolation), [], q')
  else match t_events t !! eid, t_users t !! uid with
  | Some _, Some _ =>
      (Ok tt, [WBooking (mkBooking (next_booking q) eid uid (pg_time now))], q')
  | _, _ => (Err (PgError codeForeignKeyViolation), [], q')
  end.

(** [INSERT INTO events ... RETURNING ...]. *)
Definition insert_event (title description : string)
    (capacity draw_at winner_count created_by : Z) : outcome event_row :=
  if fits_int4 capacity && fits_int4 winner_count then
    let q' := mkSeqs (next_user q) (next_event q + 1) (next_booking q) (next_draw q) in
    if bool_decide (0 < capacity /\ 0 < winner_count /\ winner_count <= capacity)%Z then
      match t_users t !! created_by with
      | Some _ =>
          let row := mkEventRow (next_event q) title description capacity winner_count
                       (pg_time draw_at) EventStatusOpen created_by (pg_time now) (pg_time now) in
          (Ok row, [WEvent row], q')
      | None => (Err (PgError codeForeignKeyViolation), [], q')
      end
    else (Err (PgError codeCheckViolation), [], q')
  else answer (Err ErrDriver).

(** [UPDATE events SET status = ... WHERE id = ...] under the trigger
    [forbid_drawn_event_change]: a drawn event keeps its status. *)
Definition update_event_status (eid : Z) (st : EventStatus) : outcome unit :=
  match t_events t !! eid with
  | None => answer (Ok tt)
  | Some e =>
      if bool_decide (ev_status e = EventStatusDrawn /\ st <> EventStatusDrawn)
      then answer (Err (PgError codeInsufficientPrivilege))
      else (Ok tt, [WEventStatus eid st (pg_time now)], q)
  end.

(** [INSERT INTO lottery_draws ... RETURNING ...]. *)
Definition insert_draw (eid uid rank total : Z) (source : string) (drawn_at : Z)
  : outcome LotteryDraw :=
  if fits_int4 rank && fits_int4 total then
    let q' := mkSeqs (next_user q) (next_event q) (next_booking q) (next_draw q + 1) in
    if bool_decide (0 < rank)%Z then
      if bool_decide (Exists (fun d => draw_EventID d = eid /\ draw_DrawRank d = rank) (t_draws t))
      then (Err (PgError codeUniqueViolation), [], q')
      else match t_events t !! eid, t_users t !! uid with
      | Some _, Some _ =>
          let row := mkDraw (next_draw q) eid uid rank source total (pg_time drawn_at) in
          (Ok row, [WDraw row], q')
      | _, _ => (Err (PgError codeForeignKeyViolation), [], q')
      end
    else (Err (PgError codeCheckViolation), [], q')
  else answer (Err ErrDriver).

(** [INSERT INTO lottery_draw_seals ...]: [event_id] is the primary key. *)
Definition insert_seal (eid : Z) (digest algorithm : string) (sealed_at : Z) : outcome unit :=
  match t_seals t !! eid, t_events t !! eid with
  | Some _, _ => answer (Err (PgError codeUniqueViolation))
  | None, None => answer (Err (PgError codeForeignKeyViolation))
  | None, Some _ => (Ok tt, [WSeal (mkSealRow eid digest algorithm (pg_time sealed_at))], q)
  end.

(** [INSERT INTO users ...] with [role] [DEFAULT 'user']. *)
Definition insert_user (email hash full_name role : string) : outcome User :=
  let q' := mkSeqs (next_user q + 1) (next_event q) (next_booking q) (next_draw q) in
  match user_by_email email t with
  | Some _ => (Err (PgError codeUniqueViolation), [], q')
  | None =>
      let row := mkUser (next_user q) email full_name role hash (pg_time now) (pg_time now) in
      (Ok (without_hash row), [WUser row], q')
  end.

(** [INSERT INTO users ... ON CONFLICT (email) DO UPDATE SET role = 'admin']. *)
Definition upsert_admin (email hash full_name : string) : outcome unit :=
  match user_by_email email t with
  | Some u =>
      (Ok tt, [WUserRole (user_ID u) "admin" (pg_time now)],
       mkSeqs (next_user q + 1) (next_event q) (next_booking q) (next_draw q))
  | None =>
      match insert_user email hash full_name "admin" with
      | (r, ws, q') => ((fun _ => tt) <$> r, ws, q')
      end
  end.

Definition exec_stmt {X} (s : stmt X) : outcome X :=
  match s in stmt X return outcome X with
  | SelectStatusCapacityForUpdate eid =>
      one_row (t_events t !! eid) (fun e => (ev_status e, ev_capacity e))
  | SelectBookingExists eid uid => answer (Ok (booking_exists eid uid t))
  | SelectBookingCount eid => answer (Ok (Z.of_nat (length (bookings_of eid t))))
  | InsertBooking eid uid => insert_booking eid uid
  | SelectBookingsByEvent eid => 
      answer (Ok (order_by booking_BookedAt (fun b => m_ties now (booking_ID b)) (bookings_of eid t)))
  | SelectBookingsByUser uid =>
      answer (Ok (order_by (fun b => - booking_BookedAt b)%Z (fun b => m_ties now (booking_ID b))
                    (bookings_by uid t)))
  | InsertEvent title description capacity draw_at winner_count created_by =>
      with_text [title; description]
        (insert_event title description capacity draw_at winner_count created_by)
  | SelectEventWithCount eid => one_row (t_events t !! eid) (event_with_count t)
  | SelectEvents status limit offset =>
      with_text [status]
      (answer (if bool_decide (0 <= limit /\ 0 <= offset)%Z
              then Ok (event_with_count t <$>
                       take (Z.to_nat limit) (drop (Z.to_nat offset)
                         (order_by ev_draw_at (fun e => m_ties now (ev_id e))
                            (events_in_status status t))))
              else Err (PgError codeInvalidRowCount)))
  | SelectEventCount status =>
      with_text [status] (answer (Ok (Z.of_nat (length (events_in_status status t)))))
  | SelectStatusForUpdate eid => one_row (t_events t !! eid) ev_status
  | UpdateEventStatus eid st => update_event_status eid st
  | SelectDrawEventForUpdate eid =>
      one_row (t_events t !! eid) (fun e =>
        (ev_title e, ev_status e, ev_winner_count e,
         bool_decide (ev_draw_at e <= pg_time now)%Z))
  | SelectParticipants eid =>
      answer (Ok (booking_UserID <$> order_asc booking_BookedAt (bookings_of eid t)))
  | InsertDraw eid uid rank total source drawn_at =>
      insert_draw eid uid rank total source drawn_at
  | InsertSeal eid digest algorithm sealed_at => insert_seal eid digest algorithm sealed_at
  | SelectDrawnEvent eid =>
      one_row (e ← t_events t !! eid; guard (ev_status e = EventStatusDrawn);; Some e)
        (fun e => (ev_title e, ev_winner_count e))
  | SelectDraws eid => answer (Ok (order_asc draw_DrawRank (draws_of eid t)))
  | SelectSealDigest eid => one_row (t_seals t !! eid) seal_digest
  | InsertUser email hash full_name => 
      with_text [email; full_name] (insert_user email hash full_name "user")
  | SelectUserByEmail email => with_text [email] (one_row (user_by_email email t) id)
  | SelectUserById uid => one_row (t_users t !! uid) without_hash
  | PromoteUser uid =>
      match t_users t !! uid with
      | None => answer (Err ErrNoRows)
      | Some u => (Ok (without_hash (set_role "admin" (pg_time now) u)),
                   [WUserRole uid "admin" (pg_time now)], q)
      end
  | UpsertAdmin email hash full_name =>
      with_text [email; full_name] (upsert_admin email hash full_name)
  end.
End Exec.
