(* ===== verification/Effects.v ===== *)
(** * Effects: the commands of the services and their interpreter

    A service method is a program ([Prelude.prog]) over the commands below:
    the clock, the connection pool and its transactions, Redis, the
    in-process gates.  The interpreter runs one request against a world whose
    environment decides what the code cannot: which calls fail and how, what
    the clocks show, whether a wait times out.  Theorems quantify over the
    environment, so they hold for every pattern of failures. *)

From S2P Require Import Prelude Models Database.

(** ** Commands *)

Inductive cmd : Type -> Type :=
| TimeNow : cmd Z                                            (* time.Now() *)
| Begin : cmd (result pgerror unit)                          (* pool.Begin *)
| TxExec {X : Type} (s : stmt X) : cmd (result pgerror X)    (* tx.QueryRow / Query / Exec *)
| PoolExec {X : Type} (s : stmt X) : cmd (result pgerror X)  (* pool.QueryRow / Query / Exec *)
| Commit : cmd (result pgerror unit)                         (* tx.Commit *)
| Rollback : cmd unit                                        (* tx.Rollback *)
| GateEnter (eid : Z) : cmd bool                             (* gates.enter; false: ctx done *)
| GateLeave (eid : Z) : cmd unit                             (* the function enter returned *)
| RandRead : cmd (option (list Z))                           (* rand.Read of 16 bytes *)
| SetNX (key token : string) (ttl : Z) : cmd (option bool)   (* SET key token NX PX ttl *)
| ReleaseScript (key token : string) : cmd (option Z)        (* luaReleaseLock *)
| Int63n (n : Z) : cmd Z                                     (* math/rand.Int63n *)
| WithTimeout (d : Z) : cmd unit                             (* context.WithTimeout *)
| WaitTimer (d : Z) : cmd bool.                              (* true: waitCtx done first *)

Abbreviation program := (prog cmd).

Definition tx_exec {X} (s : stmt X) : program (result pgerror X) := perform (TxExec s).
Definition pool_exec {X} (s : stmt X) : program (result pgerror X) := perform (PoolExec s).

(** [tx, err := pool.Begin(ctx); ...; defer tx.Rollback(ctx); body]: the
    deferred rollback runs on every exit and does nothing once the
    transaction is closed. *)
Definition with_tx {E A} (on_begin : pgerror -> E) (body : program (result E A))
  : program (result E A) :=
  try _ := perform Begin catch e => on_begin e in
  (r ← body; perform Rollback;; mret r).

(** ** Worlds *)

(** How a call to a remote server goes wrong: it has no effect, or it takes
    effect and only its answer is lost. *)
Inductive fault := NoFault | FailBefore | FailAfter.

Record env := mkEnv {
  env_fault : nat -> fault;        (* the fate of the n-th command *)
  env_clock : nat -> Z;            (* time.Now() *)
  env_dbclock : nat -> Z;          (* the database server's clock *)
  env_redisclock : nat -> Z;       (* the Redis server's clock *)
  env_timeout : nat -> bool;       (* does the wait context end first? *)
  env_random : nat -> option (list Z);  (* crypto/rand *)
  env_int63 : nat -> Z;            (* math/rand *)
  env_ties : nat -> Z -> Z         (* how the database orders rows with equal keys *)
}.

(** An open transaction: when it started, what it wrote, and whether the
    server has aborted it. *)
Record tx := mkTx { tx_start : Z; tx_writes : list write; tx_aborted : bool }.

(** Redis: the string keys with their expiry times. *)
Abbreviation redis := (gmap string (string * Z)).

Record world := mkWorld {
  w_tables : Tables;               (* committed rows *)
  w_seqs : Seqs;
  w_tx : option tx;                (* this request's transaction *)
  w_redis : redis;
  w_gates : list Z;                (* gates this request is in *)
  w_budget : Z;                    (* the duration of the wait context *)
  w_waited : Z;                    (* time its timers have used up *)
  w_step : nat
}.

Definition world_of (t : Tables) (q : Seqs) : world := mkWorld t q None ∅ [] 0 0 0.

Definition set_tx (o : option tx) (w : world) : world :=
  mkWorld (w_tables w) (w_seqs w) o (w_redis w) (w_gates w) (w_budget w) (w_waited w) (w_step w).
Definition set_db (t : Tables) (q : Seqs) (w : world) : world :=
  mkWorld t q (w_tx w) (w_redis w) (w_gates w) (w_budget w) (w_waited w) (w_step w).
Definition set_redis (r : redis) (w : world) : world :=
  mkWorld (w_tables w) (w_seqs w) (w_tx w) r (w_gates w) (w_budget w) (w_waited w) (w_step w).
Definition set_gates (g : list Z) (w : world) : world :=
  mkWorld (w_tables w) (w_seqs w) (w_tx w) (w_redis w) g (w_budget w) (w_waited w) (w_step w).
Definition set_wait (budget waited : Z) (w : world) : world :=
  mkWorld (w_tables w) (w_seqs w) (w_tx w) (w_redis w) (w_gates w) budget waited (w_step w).
Definition tick (w : world) : world :=
  mkWorld (w_tables w) (w_seqs w) (w_tx w) (w_redis w) (w_gates w) (w_budget w) (w_waited w)
    (S (w_step w)).

(** ** Redis commands *)

(** The value of a key that has not expired at [now]. *)
Definition redis_get (r : redis) (now : Z) (key : string) : option string :=
  match r !! key with
  | Some (v, expiry) => if decide (now < expiry)%Z then Some v else None
  | None => None
  end.

Definition redis_setnx (r : redis) (now : Z) (key token : string) (ttl : Z) : bool * redis :=
  match redis_get r now key with
  | Some _ => (false, r)
  | None => (true, <[key := (token, now + ttl)%Z]> r)
  end.

(** [luaReleaseLock]: delete the key only if it holds our token. *)
Definition redis_release (r : redis) (now : Z) (key token : string) : Z * redis :=
  if decide (redis_get r now key = Some token) then (1%Z, delete key r) else (0%Z, r).

(** ** The interpreter *)

Section Run.
Variable E : env.

(** [25P02]: current transaction is aborted. *)
Definition codeInFailedTransaction : string := "25P02".

(** A statement of an open transaction.  It sees the committed rows and its
    own writes (READ COMMITTED); an error of the server or of the connection
    aborts the transaction, an empty answer does not. *)
Definition exec_in_tx {X} (s : stmt X) (w : world) : result pgerror X * world :=
  match w_tx w with
  | None => (Err ErrTxClosed, w)
  | Some t =>
    if tx_aborted t then (Err (PgError codeInFailedTransaction), w)
    else match env_fault E (w_step w) with
    | NoFault =>
      match exec_stmt (mkMoment (tx_start t) (env_ties E (w_step w))) (apply_writes (w_tables w) (tx_writes t)) (w_seqs w) s with
      | (Ok x, ws, q) =>
          (Ok x, set_tx (Some (mkTx (tx_start t) (tx_writes t ++ ws) false))
                   (set_db (w_tables w) q w))
      | (Err ErrNoRows, _, q) => (Err ErrNoRows, set_db (w_tables w) q w)
      | (Err e, _, q) =>
          (Err e, set_tx (Some (mkTx (tx_start t) (tx_writes t) true))
                    (set_db (w_tables w) q w))
      end
    | _ => (Err ErrDriver, set_tx (Some (mkTx (tx_start t) (tx_writes t) true)) w)
    end
  end.

(** A statement outside a transaction commits by itself. *)
Definition exec_in_pool {X} (s : stmt X) (w : world) : result pgerror X * world :=
  match env_fault E (w_step w) with
  | FailBefore => (Err ErrDriver, w)
  | f =>
    match exec_stmt (mkMoment (env_dbclock E (w_step w)) (env_ties E (w_step w))) (w_tables w) (w_seqs w) s with
    | (r, ws, q) =>
      let w' := set_db (apply_writes (w_tables w) ws) q w in
      (match f with NoFault => r | _ => Err ErrDriver end, w')
    end
  end.

Definition exec_commit (w : world) : result pgerror unit * world :=
  match w_tx w with
  | None => (Err ErrTxClosed, w)
  | Some t =>
    let w' := set_tx None w in
    if tx_aborted t then (Err (PgError codeInFailedTransaction), w')
    else
      let done := set_db (apply_writes (w_tables w) (tx_writes t)) (w_seqs w) w' in
      match env_fault E (w_step w) with
      | NoFault => (Ok tt, done)
      | FailBefore => (Err ErrDriver, w')
      | FailAfter => (Err ErrDriver, done)
      end
  end.

Definition exec_setnx (key token : string) (ttl : Z) (w : world) : option bool * world :=
  match env_fault E (w_step w) with
  | FailBefore => (None, w)
  | f =>
    let (b, r) := redis_setnx (w_redis w) (env_redisclock E (w_step w)) key token ttl in
    (match f with NoFault => Some b | _ => None end, set_redis r w)
  end.

Definition exec_release (key token : string) (w : world) : option Z * world :=
  match env_fault E (w_step w) with
  | FailBefore => (None, w)
  | f =>
    let (n, r) := redis_release (w_redis w) (env_redisclock E (w_step w)) key token in
    (match f with NoFault => Some n | _ => None end, set_redis r w)
  end.

(** [select { case <-waitCtx.Done(): ... case <-t.C: ... }] with a timer of
    [d]: once the budget is used up the context is done and the new timer has
    not fired; before that either may be first. *)
Definition exec_wait (d : Z) (w : world) : bool * world :=
  if decide (w_budget w <= w_waited w)%Z then (true, w)
  else if env_timeout E (w_step w) then (true, w)
  else (false, set_wait (w_budget w) (w_waited w + d) w).

Definition exec_cmd {X} (c : cmd X) (w : world) : X * world :=
  let n := w_step w in
  let (x, w') :=
    match c in cmd X return X * world with
    | TimeNow => (env_clock E n, w)
    | Begin => match env_fault E n with
               | NoFault => (Ok tt, set_tx (Some (mkTx (env_dbclock E n) [] false)) w)
               | _ => (Err ErrDriver, w)
               end
    | TxExec s => exec_in_tx s w
    | PoolExec s => exec_in_pool s w
    | Commit => exec_commit w
    | Rollback => (tt, set_tx None w)
    | GateEnter eid => if env_timeout E n then (false, w)
                       else (true, set_gates (eid :: w_gates w) w)
    | GateLeave eid => (tt, set_gates (tail (w_gates w)) w)
    | RandRead => (env_random E n, w)
    | SetNX key token ttl => exec_setnx key token ttl w
    | ReleaseScript key token => exec_release key token w
    | Int63n m => ((env_int63 E n) `mod` m, w)%Z
    | WithTimeout d => (tt, set_wait d 0 w)
    | WaitTimer d => exec_wait d w
    end in
  (x, tick w').

Fixpoint run {A} (p : program A) (w : world) : A * world :=
  match p with
  | Ret a => (a, w)
  | Act c k => let (x, w') := exec_cmd c w in run (k x) w'
  end.
End Run.

(** ** Reasoning about runs *)

(** [wp E p Q w]: running [p] from [w] ends in an answer and a world that
    satisfy [Q].  Programs are finite, so this is total correctness. *)
Definition wp {A} (E : env) (p : program A) (Q : A -> world -> Prop) (w : world) : Prop :=
  Q (run E p w).1 (run E p w).2.

(** Some call of the environment fails. *)
Definition faulty (E : env) : Prop := exists n, env_fault E n <> NoFault.

(** An environment in which nothing fails and every clock shows [now]. *)
Definition calm_env (now : Z) : env :=
  mkEnv (fun _ => NoFault) (fun _ => now) (fun _ => now) (fun _ => now)
    (fun _ => false) (fun n => Some (replicate 16 (Z.of_nat n `mod` 256)%Z)) (fun _ => 0%Z)
    (fun _ _ => 0%Z).

Lemma calm_not_faulty now : ~ faulty (calm_env now).
Proof. intros [n Hn]. by apply Hn. Qed.

Section Wp.
Context {E : env}.

Lemma faulty_at n : env_fault E n = FailBefore \/ env_fault E n = FailAfter -> faulty E.
Proof. intros [H|H]; exists n; by rewrite H. Qed.

Lemma wp_run {A} (p : program A) Q w a w' : run E p w = (a, w') -> wp E p Q w -> Q a w'.
Proof. unfold wp. by intros ->. Qed.

Lemma wp_ret {A} (a : A) (Q : A -> world -> Prop) w : Q a w -> wp E (Ret a) Q w.
Proof. done. Qed.

Lemma wp_mono {A} (p : program A) (Q Q' : A -> world -> Prop) w :
  wp E p Q w -> (forall a w', Q a w' -> Q' a w') -> wp E p Q' w.
Proof. unfold wp. auto. Qed.

Lemma run_bind {A B} (p : program A) (f : A -> program B) w :
  run E (p ≫= f) w = let (a, w') := run E p w in run E (f a) w'.
Proof.
  unfold mbind, prog_bind. revert w. induction p as [a|X c k IH]; intros w; simpl; [done|].
  destruct (exec_cmd E c w) as [x w']. apply IH.
Qed.

Lemma wp_bind {A B} (p : program A) (f : A -> program B) Q w :
  wp E p (fun a w' => wp E (f a) Q w') w -> wp E (p ≫= f) Q w.
Proof. unfold wp. rewrite run_bind. by destruct (run E p w). Qed.

Lemma wp_try {Er Er' A B} (p : program (result Er A)) (h : Er -> Er')
    (k : A -> program (result Er' B)) Q w :
  wp E p (fun r w' => match r with
                      | Ok x => wp E (k x) Q w'
                      | Err e => Q (Err (h e)) w'
                      end) w ->
  wp E (try_catch p h k) Q w.
Proof.
  intros Hp. apply wp_bind. eapply wp_mono; [exact Hp|]. intros [x|e] w' HQ; done.
Qed.

Lemma wp_perform {X} (c : cmd X) Q w :
  Q (exec_cmd E c w).1 (exec_cmd E c w).2 -> wp E (perform c) Q w.
Proof. unfold wp. simpl. by destruct (exec_cmd E c w). Qed.

Lemma wp_act {A X} (c : cmd X) (k : X -> program A) Q w :
  wp E (k (exec_cmd E c w).1) Q (exec_cmd E c w).2 -> wp E (Act c k) Q w.
Proof. unfold wp. simpl. by destruct (exec_cmd E c w). Qed.

(** Every call is a step of the request. *)
Lemma exec_cmd_step {X} (c : cmd X) w : w_step (exec_cmd E c w).2 = S (w_step w).
Proof.
  destruct c as [| |X s|X s| | | | | | | | | |];
    unfold exec_cmd, exec_in_tx, exec_in_pool, exec_commit, exec_setnx, exec_release, exec_wait;
    simpl; repeat (case_match || case_decide); simplify_eq/=; done.
Qed.

Lemma run_step_le {A} (p : program A) w : w_step w <= w_step (run E p w).2.
Proof.
  revert w. induction p as [a|X c k IH]; intros w; [done|]. simpl.
  pose proof (exec_cmd_step c w) as Hc. destruct (exec_cmd E c w) as [x w1]. simpl in Hc.
  specialize (IH x w1). lia.
Qed.

(** The request has an open transaction, started at [start] over the
    committed tables [T], with writes [L]. *)
Definition in_tx (w : world) (T : Tables) (start : Z) (L : list write) : Prop :=
  w_tables w = T /\ w_tx w = Some (mkTx start L false).

Lemma wp_begin Q w :
  (forall w', faulty E -> w_tables w' = w_tables w -> Q (Err ErrDriver) w') ->
  (forall w', in_tx w' (w_tables w) (env_dbclock E (w_step w)) [] -> w_seqs w' = w_seqs w ->
     Q (Ok tt) w') ->
  wp E (perform Begin) Q w.
Proof.
  intros Hf Hok. apply wp_perform. unfold exec_cmd.
  destruct (env_fault E (w_step w)) eqn:Hft; simpl; [by eapply Hok|..];
    apply Hf; eauto using faulty_at.
Qed.

(** A statement of a transaction answers what the database says, or the
    connection fails; either way nothing is committed. *)
Lemma wp_tx {X} (s : stmt X) Q w T start L :
  in_tx w T start L ->
  (forall w', faulty E -> w_tables w' = T -> Q (Err ErrDriver) w') ->
  (forall ties w', match exec_stmt (mkMoment start ties) (apply_writes T L) (w_seqs w) s with
         | (Ok x, ws, q) => in_tx w' T start (L ++ ws) -> w_seqs w' = q -> Q (Ok x) w'
         | (Err e, _, _) => w_tables w' = T -> Q (Err e) w'
         end) ->
  wp E (tx_exec s) Q w.
Proof.
  intros [HT Htx] Hf Hok. apply wp_perform. unfold exec_cmd, exec_in_tx.
  specialize (Hok (env_ties E (w_step w))). rewrite Htx. simpl.
  destruct (env_fault E (w_step w)) eqn:Hft; simpl; [|apply Hf; eauto using faulty_at..].
  rewrite HT. destruct (exec_stmt _ _ _ _) as [[[x|e] ws] q]; simpl.
  - by apply Hok.
  - destruct e; simpl; by apply Hok.
Qed.

Lemma wp_pool {X} (s : stmt X) Q w :
  (forall w', faulty E -> w_tables w' = w_tables w -> w_tx w' = w_tx w -> Q (Err ErrDriver) w') ->
  (forall now w',
     match exec_stmt now (w_tables w) (w_seqs w) s with
     | (r, ws, q) =>
       w_tables w' = apply_writes (w_tables w) ws -> w_seqs w' = q -> w_tx w' = w_tx w ->
       Q r w' /\ (faulty E -> Q (Err ErrDriver) w')
     end) ->
  wp E (pool_exec s) Q w.
Proof.
  intros Hf Hok. apply wp_perform. unfold exec_cmd, exec_in_pool.
  specialize (Hok (mkMoment (env_dbclock E (w_step w)) (env_ties E (w_step w)))).
  destruct (env_fault E (w_step w)) eqn:Hft; simpl; [|apply Hf; eauto using faulty_at|];
    destruct (exec_stmt _ _ _ _) as [[r ws] q]; simpl; apply Hok; eauto using faulty_at.
Qed.

(** The same when nothing fails: which answer, exactly. *)
Lemma wp_pool_calm {X} (s : stmt X) Q w :
  ~ faulty E ->
  (match exec_stmt (mkMoment (env_dbclock E (w_step w)) (env_ties E (w_step w)))
           (w_tables w) (w_seqs w) s with
   | (r, ws, q) => Q r (tick (set_db (apply_writes (w_tables w) ws) q w))
   end) ->
  wp E (pool_exec s) Q w.
Proof.
  intros Hnf HQ. apply wp_perform. unfold exec_cmd, exec_in_pool.
  destruct (env_fault E (w_step w)) eqn:Hft; [|by destruct Hnf; eauto using faulty_at..].
  by destruct (exec_stmt _ _ _ _) as [[r ws] q].
Qed.

(** A commit publishes the writes; if it reports an error the client cannot
    tell whether it did. *)
Lemma wp_commit Q w T start L :
  in_tx w T start L ->
  (forall w', faulty E -> w_tables w' = T -> w_tx w' = None -> Q (Err ErrDriver) w') ->
  (forall w', w_tables w' = apply_writes T L -> w_tx w' = None -> w_seqs w' = w_seqs w ->
     Q (Ok tt) w' /\ (faulty E -> Q (Err ErrDriver) w')) ->
  wp E (perform Commit) Q w.
Proof.
  intros [HT Htx] Hf Hok. apply wp_perform. unfold exec_cmd, exec_commit. rewrite Htx. simpl.
  destruct (env_fault E (w_step w)) eqn:Hft; simpl; [|apply Hf; eauto using faulty_at|];
    apply Hok; simpl; rewrite ?HT; eauto using faulty_at.
Qed.

Lemma wp_now Q w :
  (forall t w', w_tables w' = w_tables w -> w_tx w' = w_tx w -> w_seqs w' = w_seqs w -> Q t w') ->
  wp E (perform TimeNow) Q w.
Proof. intros HQ. apply wp_perform. by apply HQ. Qed.

(** The whole of [with_tx]: the body's postcondition only has to speak about
    the committed tables, because the deferred rollback drops the rest. *)
Lemma wp_with_tx {Er A} (on_begin : pgerror -> Er) (body : program (result Er A))
    (Q : result Er A -> Tables -> Prop) w :
  (faulty E -> Q (Err (on_begin ErrDriver)) (w_tables w)) ->
  (forall w', in_tx w' (w_tables w) (env_dbclock E (w_step w)) [] -> w_seqs w' = w_seqs w ->
     wp E body (fun r w'' => Q r (w_tables w'')) w') ->
  wp E (with_tx on_begin body) (fun r w' => Q r (w_tables w') /\ (is_ok r = true -> w_tx w' = None)) w.
Proof.
  intros Hb Hbody. apply wp_try, wp_begin.
  - intros w' Hf ->. split; [by apply Hb|done].
  - intros w' Hin Hq. apply wp_bind.
    eapply wp_mono; [by eapply Hbody|]. intros r w'' HQ. by apply wp_bind, wp_perform.
Qed.
End Wp.

(** ** Programs that only use the database *)

Definition db_cmd {X} (c : cmd X) : bool :=
  match c with
  | TimeNow | Begin | TxExec _ | PoolExec _ | Commit | Rollback => true
  | _ => false
  end.

Inductive db_only {A} : program A -> Prop :=
| db_only_ret a : db_only (Ret a)
| db_only_act {X} (c : cmd X) k : db_cmd c = true -> (forall x, db_only (k x)) -> db_only (Act c k).

(** What such programs leave alone. *)
Definition same_outside (w w' : world) : Prop :=
  w_redis w' = w_redis w /\ w_gates w' = w_gates w /\
  w_budget w' = w_budget w /\ w_waited w' = w_waited w.

Lemma exec_db_cmd E {X} (c : cmd X) w : db_cmd c = true -> same_outside w (exec_cmd E c w).2.
Proof.
  destruct c as [| |X s|X s| | | | | | | | | |]; intros Hc; try done;
    unfold exec_cmd, exec_in_tx, exec_in_pool, exec_commit; simpl;
    repeat (case_match || case_decide); simplify_eq/=; done.
Qed.

Lemma run_db_only {A} E (p : program A) w : db_only p -> same_outside w (run E p w).2.
Proof.
  intros Hp. revert w. induction Hp as [a|X c k Hc _ IH]; intros w; [done|]. simpl.
  pose proof (exec_db_cmd E c w Hc) as H1. destruct (exec_cmd E c w) as [x w1].
  specialize (IH x w1). simpl in *. unfold same_outside in *. intuition congruence.
Qed.

Lemma db_only_bind {A B} (p : program A) (f : A -> program B) :
  db_only p -> (forall a, db_only (f a)) -> db_only (p ≫= f).
Proof.
  unfold mbind, prog_bind. intros Hp Hf. induction Hp as [a|X c k Hc _ IH]; simpl; [done|].
  by constructor.
Qed.

Lemma db_only_try {Er Er' A B} (p : program (result Er A)) (h : Er -> Er')
    (k : A -> program (result Er' B)) :
  db_only p -> (forall x, db_only (k x)) -> db_only (try_catch p h k).
Proof. intros Hp Hk. apply db_only_bind; [done|]. intros [x|e]; [apply Hk|constructor]. Qed.

Lemma db_only_perform {X} (c : cmd X) : db_cmd c = true -> db_only (perform c).
Proof. intros Hc. constructor; [done|]. constructor. Qed.

Lemma db_only_with_tx {Er A} (h : pgerror -> Er) (body : program (result Er A)) :
  db_only body -> db_only (with_tx h body).
Proof.
  intros Hb. apply db_only_try; [by apply db_only_perform|]. intros _.
  apply db_only_bind; [done|]. intros r. apply db_only_bind; [by apply db_only_perform|].
  constructor.
Qed.

#[export] Hint Constructors db_only : lottery.
#[export] Hint Resolve db_only_bind db_only_try db_only_perform db_only_with_tx : lottery.

(** Prove [db_only] by following the program text. *)
Ltac db_only_tac :=
  repeat (intros; first
    [ apply db_only_with_tx | apply db_only_try | apply db_only_bind
    | (apply db_only_perform; reflexivity) | apply db_only_ret
    | progress (repeat case_match) ]).

#[export] Hint Rewrite @run_bind : lsimpl.

(** One statement of a transaction: [H : in_tx w T start L] becomes the
    state after it; the connection-failure case is left to [fl]. *)
Ltac tx_step H fl :=
  apply wp_try; eapply wp_tx; [exact H|intros ? Hfaulty Hfail; fl|];
  let w' := fresh "w" in intros ? w'; simpl.
