(* ===== verification/Invariant.v ===== *)
(** * The invariant of the stored data

    What holds of the committed tables after any sequence of requests: the
    schema's own constraints, and what only the services guarantee: no event
    is overbooked, and the audit trail of a drawn event is complete and
    sealed. *)

From S2P Require Import Prelude Models Seal Database Effects.

(** [entropySource] of [src/internal/lottery/service.go]. *)
Definition entropySource : string := "crypto/rand+fisher-yates".

(** The audit trail of a drawn event: one row per booking, ranks [1..n] in
    order, all of the same instant, and the seal over exactly these rows. *)
Record drawn_ok (t : Tables) (e : event_row) : Prop := {
  dk_users : draw_WinnerUserID <$> draws_of (ev_id e) t
             ≡ₚ booking_UserID <$> bookings_of (ev_id e) t;
  dk_ranks : draw_DrawRank <$> draws_of (ev_id e) t
             = seqZ 1 (Z.of_nat (length (draws_of (ev_id e) t)));
  dk_sealed : exists drawnAt,
    Forall (fun d => draw_EntropySource d = entropySource /\
                     draw_TotalEntrants d = Z.of_nat (length (draws_of (ev_id e) t)) /\
                     draw_DrawnAt d = drawnAt) (draws_of (ev_id e) t) /\
    t_seals t !! ev_id e =
      Some (mkSealRow (ev_id e)
              (drawDigest (ev_id e) (ev_winner_count e) drawnAt (draws_of (ev_id e) t))
              sealAlgorithm drawnAt)
}.

Record tables_inv (t : Tables) : Prop := {
  inv_user_key : forall id u, t_users t !! id = Some u -> user_ID u = id;
  inv_user_role : forall id u, t_users t !! id = Some u ->
    user_Role u = "user" \/ user_Role u = "admin";
  inv_user_email : forall id1 u1 id2 u2,
    t_users t !! id1 = Some u1 -> t_users t !! id2 = Some u2 ->
    user_Email u1 = user_Email u2 -> id1 = id2;
  inv_event_key : forall id e, t_events t !! id = Some e -> ev_id e = id;
  inv_event_counts : forall id e, t_events t !! id = Some e ->
    (0 < ev_winner_count e <= ev_capacity e /\ ev_capacity e <= 2147483647)%Z;
  inv_event_creator : forall id e, t_events t !! id = Some e ->
    is_Some (t_users t !! ev_created_by e);
  inv_booking_fk : forall b, b ∈ t_bookings t ->
    is_Some (t_events t !! booking_EventID b) /\ is_Some (t_users t !! booking_UserID b);
  inv_booking_unique :
    NoDup ((fun b => (booking_EventID b, booking_UserID b)) <$> t_bookings t);
  inv_capacity : forall id e, t_events t !! id = Some e ->
    (Z.of_nat (length (bookings_of id t)) <= ev_capacity e)%Z;
  inv_draw_fk : forall d, d ∈ t_draws t ->
    exists e, t_events t !! draw_EventID d = Some e /\ ev_status e = EventStatusDrawn;
  inv_seal_fk : forall id s, t_seals t !! id = Some s ->
    exists e, t_events t !! id = Some e /\ ev_status e = EventStatusDrawn;
  inv_drawn : forall id e, t_events t !! id = Some e ->
    ev_status e = EventStatusDrawn -> drawn_ok t e
}.

(** Every key in use is below the sequence that hands out keys. *)
Record seqs_inv (t : Tables) (q : Seqs) : Prop := {
  inv_next_user : forall id u, t_users t !! id = Some u -> (id < next_user q)%Z;
  inv_next_event : forall id e, t_events t !! id = Some e -> (id < next_event q)%Z
}.

Definition db_inv (w : world) : Prop :=
  tables_inv (w_tables w) /\ seqs_inv (w_tables w) (w_seqs w).

(** ** Selections after a write *)

Lemma bookings_of_app eid t b :
  bookings_of eid (apply_write t (WBooking b)) =
  bookings_of eid t ++ (if decide (booking_EventID b = eid) then [b] else []).
Proof. unfold bookings_of. simpl. by rewrite filter_app, filter_cons. Qed.

Lemma draws_of_app eid t d :
  draws_of eid (apply_write t (WDraw d)) =
  draws_of eid t ++ (if decide (draw_EventID d = eid) then [d] else []).
Proof. unfold draws_of. simpl. by rewrite filter_app, filter_cons. Qed.

Lemma booking_exists_spec eid uid t :
  booking_exists eid uid t = true <->
  exists b, b ∈ t_bookings t /\ booking_EventID b = eid /\ booking_UserID b = uid.
Proof. unfold booking_exists. rewrite bool_decide_eq_true, Exists_exists. naive_solver. Qed.

Lemma elem_of_bookings_of b eid t :
  b ∈ bookings_of eid t <-> booking_EventID b = eid /\ b ∈ t_bookings t.
Proof. unfold bookings_of, draws_of. by rewrite list_elem_of_filter. Qed.

Lemma elem_of_draws_of d eid t :
  d ∈ draws_of eid t <-> draw_EventID d = eid /\ d ∈ t_draws t.
Proof. unfold bookings_of, draws_of. by rewrite list_elem_of_filter. Qed.

(** An event that is not drawn has no audit rows and no seal. *)
Lemma undrawn_draws t id e :
  tables_inv t -> t_events t !! id = Some e -> ev_status e <> EventStatusDrawn ->
  draws_of id t = [] /\ t_seals t !! id = None.
Proof.
  intros Hinv He Hst. split.
  - apply elem_of_nil_inv. intros d [Hd Hin]%elem_of_draws_of.
    destruct (inv_draw_fk t Hinv d Hin) as (e' & He' & Hst'). rewrite Hd in He'. congruence.
  - destruct (t_seals t !! id) as [s|] eqn:Hs; [|done].
    destruct (inv_seal_fk t Hinv id s Hs) as (e' & He' & Hst'). congruence.
Qed.

(** The entrants of an event are distinct users. *)
Lemma entrants_NoDup t id :
  tables_inv t -> NoDup (booking_UserID <$> bookings_of id t).
Proof.
  intros Hinv. pose proof (inv_booking_unique t Hinv) as Hnd.
  unfold bookings_of. induction (t_bookings t) as [|b l IH]; [constructor|].
  rewrite fmap_cons in Hnd. apply NoDup_cons in Hnd as [Hb Hnd].
  rewrite filter_cons. case_decide as Hid; [|auto]. rewrite fmap_cons.
  apply NoDup_cons. split; [|auto].
  intros (b' & Heq & [Hid' Hin]%list_elem_of_filter)%list_elem_of_fmap.
  apply Hb, list_elem_of_fmap. exists b'. split; [|done]. congruence.
Qed.

Lemma empty_inv : tables_inv empty_tables.
Proof. by split; simpl; try (intros; simplify_map_eq); try constructor; try set_solver. Qed.

(** ** Changing an event's status *)

(** An event after a status write is an event before it, or the written one
    with its new status. *)
Lemma status_write_lookup t id st now i e' :
  t_events (apply_write t (WEventStatus id st now)) !! i = Some e' ->
  exists e, t_events t !! i = Some e /\
    ((i <> id /\ e' = e) \/ (i = id /\ e' = set_status st now e)).
Proof.
  simpl. destruct (decide (i = id)) as [->|Hi].
  - rewrite lookup_alter_eq, fmap_Some. intros (e & He & ->). eauto.
  - rewrite lookup_alter_ne by done. eauto.
Qed.

Lemma status_write_is_Some t id st now i :
  is_Some (t_events t !! i) -> is_Some (t_events (apply_write t (WEventStatus id st now)) !! i).
Proof.
  simpl. destruct (decide (i = id)) as [->|Hi].
  - rewrite lookup_alter_eq. intros [e ->]. by eexists.
  - by rewrite lookup_alter_ne.
Qed.

(** A drawn event is untouched by a status write to an event that is not
    drawn. *)
Lemma status_write_drawn t id st now i e0 e :
  t_events t !! id = Some e0 -> ev_status e0 <> EventStatusDrawn ->
  t_events t !! i = Some e -> ev_status e = EventStatusDrawn ->
  t_events (apply_write t (WEventStatus id st now)) !! i = Some e.
Proof.
  intros He0 Hst0 He Hst. simpl. rewrite lookup_alter_ne; [done|]. intros ->. congruence.
Qed.

(** Moving an event that is not drawn to a status other than drawn. *)
Lemma status_write_inv t id e0 st now :
  tables_inv t -> t_events t !! id = Some e0 -> ev_status e0 <> EventStatusDrawn ->
  st <> EventStatusDrawn ->
  tables_inv (apply_write t (WEventStatus id st now)).
Proof.
  intros Hinv He0 Hst0 Hst. set (t' := apply_write _ _).
  assert (forall i e', t_events t' !! i = Some e' ->
    exists e, t_events t !! i = Some e /\ (e' = e \/ e' = set_status st now e)) as Hlk.
  { intros i e' (e & He & [[_ ->]|[_ ->]])%status_write_lookup; eauto. }
  split; try apply Hinv.
  - intros i e' (e & He & [->| ->])%Hlk; apply (inv_event_key t Hinv i e He).
  - intros i e' (e & He & [->| ->])%Hlk; apply (inv_event_counts t Hinv i e He).
  - intros i e' (e & He & [->| ->])%Hlk; apply (inv_event_creator t Hinv i e He).
  - intros b Hb. destruct (inv_booking_fk t Hinv b Hb) as [He Hu].
    split; [by apply status_write_is_Some|done].
  - intros i e' (e & He & [->| ->])%Hlk; apply (inv_capacity t Hinv i e He).
  - intros d Hd. destruct (inv_draw_fk t Hinv d Hd) as (e & He & Hs).
    exists e. split; [|done]. by eapply status_write_drawn.
  - intros i s Hs. destruct (inv_seal_fk t Hinv i s Hs) as (e & He & Hse).
    exists e. split; [|done]. by eapply status_write_drawn.
  - intros i e' (e & He & [->| ->])%Hlk Hd; [|done].
    destruct (inv_drawn t Hinv i e He Hd) as [Hus Hrk Hsl]. by split.
Qed.

(** ** Adding users and events *)

Lemma insert_user_is_Some (m : gmap Z User) u i :
  is_Some (m !! i) -> is_Some (<[user_ID u := u]> m !! i).
Proof. intros H. apply lookup_insert_is_Some. destruct (decide (user_ID u = i)); auto. Qed.

Lemma user_insert_inv t u :
  tables_inv t -> t_users t !! user_ID u = None ->
  (user_Role u = "user" \/ user_Role u = "admin") ->
  (forall i u', t_users t !! i = Some u' -> user_Email u' <> user_Email u) ->
  tables_inv (apply_write t (WUser u)).
Proof.
  intros Hinv Hnew Hrole Hmail. split; try apply Hinv; simpl.
  - intros i u' [[<- <-]|[_ H]]%lookup_insert_Some; [done|]. by apply Hinv.
  - intros i u' [[<- <-]|[_ H]]%lookup_insert_Some; [done|]. by eapply Hinv.
  - intros i1 u1 i2 u2 [[<- <-]|[? H1]]%lookup_insert_Some [[<- <-]|[? H2]]%lookup_insert_Some Heq;
      [done| | |by eapply Hinv]; [by destruct (Hmail _ _ H2)|by destruct (Hmail _ _ H1)].
  - intros i e He. by apply insert_user_is_Some, (inv_event_creator t Hinv i e).
  - intros b Hb. destruct (inv_booking_fk t Hinv b Hb). auto using insert_user_is_Some.
  - intros i e He Hd. by destruct (inv_drawn t Hinv i e He Hd).
Qed.

Lemma role_write_inv t id role now :
  tables_inv t -> role = "user" \/ role = "admin" ->
  tables_inv (apply_write t (WUserRole id role now)).
Proof.
  intros Hinv Hrole.
  assert (forall i u', alter (set_role role now) id (t_users t) !! i = Some u' ->
    exists u, t_users t !! i = Some u /\ (u' = u \/ u' = set_role role now u)) as Hlk.
  { intros i u'. destruct (decide (i = id)) as [->|Hi].
    - rewrite lookup_alter_eq, fmap_Some. intros (u & Hu & ->). eauto.
    - rewrite lookup_alter_ne by done. eauto. }
  assert (forall i, is_Some (t_users t !! i) ->
    is_Some (alter (set_role role now) id (t_users t) !! i)) as Hs.
  { intros i. destruct (decide (i = id)) as [->|Hi].
    - rewrite lookup_alter_eq. intros [u ->]. by eexists.
    - by rewrite lookup_alter_ne. }
  split; try apply Hinv; simpl.
  - intros i u' (u & Hu & [->| ->])%Hlk; apply (inv_user_key t Hinv i u Hu).
  - intros i u' (u & Hu & [->| ->])%Hlk; [by apply (inv_user_role t Hinv i)|done].
  - intros i1 u1 i2 u2 (v1 & H1 & E1)%Hlk (v2 & H2 & E2)%Hlk Heq.
    eapply (inv_user_email t Hinv); [exact H1|exact H2|].
    by destruct E1 as [->| ->], E2 as [->| ->].
  - intros i e He. by apply Hs, (inv_event_creator t Hinv i e).
  - intros b Hb. destruct (inv_booking_fk t Hinv b Hb). auto.
  - intros i e He Hd. by destruct (inv_drawn t Hinv i e He Hd).
Qed.

(** A key no event has is not referred to. *)
Lemma fresh_event_bookings t id :
  tables_inv t -> t_events t !! id = None -> bookings_of id t = [].
Proof.
  intros Hinv Hnew. apply elem_of_nil_inv. intros b [Hid Hb]%elem_of_bookings_of.
  destruct (inv_booking_fk t Hinv b Hb) as [[e He] _]. congruence.
Qed.

Lemma event_insert_inv t e :
  tables_inv t -> t_events t !! ev_id e = None -> ev_status e <> EventStatusDrawn ->
  (0 < ev_winner_count e <= ev_capacity e)%Z -> (ev_capacity e <= 2147483647)%Z ->
  is_Some (t_users t !! ev_created_by e) ->
  tables_inv (apply_write t (WEvent e)).
Proof.
  intros Hinv Hnew Hst Hwc Hcap Hby.
  assert (forall i e', t_events t !! i = Some e' -> <[ev_id e := e]> (t_events t) !! i = Some e') as Hold.
  { intros i e' He'. rewrite lookup_insert_ne; [done|]. congruence. }
  split; try apply Hinv; simpl.
  - intros i e' [[<- <-]|[_ H]]%lookup_insert_Some; [done|]. by apply Hinv.
  - intros i e' [[<- <-]|[_ H]]%lookup_insert_Some; [done|]. by eapply Hinv.
  - intros i e' [[<- <-]|[_ H]]%lookup_insert_Some; [done|]. by eapply Hinv.
  - intros b Hb. destruct (inv_booking_fk t Hinv b Hb) as [[e' He'] Hu]. eauto.
  - intros i e' [[<- <-]|[_ H]]%lookup_insert_Some; [|by eapply Hinv].
    unfold bookings_of. simpl. fold (bookings_of (ev_id e) t).
    rewrite fresh_event_bookings by done. simpl. lia.
  - intros d Hd. destruct (inv_draw_fk t Hinv d Hd) as (e' & He' & Hs). eauto.
  - intros i s Hs. destruct (inv_seal_fk t Hinv i s Hs) as (e' & He' & Hs'). eauto.
  - intros i e' [[<- <-]|[_ H]]%lookup_insert_Some Hd; [done|].
    by destruct (inv_drawn t Hinv i e' H Hd).
Qed.

(** ** A small database *)

(** An administrator, three users and an open event with room for two
    bookings and one winner; nothing has been booked. *)
Definition sample_user (id : Z) (email role : string) : User :=
  mkUser id email "Name" role "$2a$" 0 0.

Definition sample_event : event_row :=
  mkEventRow 1 "Gala" "" 2 1 1000000 EventStatusOpen 1 0 0.

Definition sample_tables : Tables :=
  apply_writes empty_tables
    [WUser (sample_user 1 "root@x.et" "admin"); WUser (sample_user 2 "a@x.et" "user");
     WUser (sample_user 3 "b@x.et" "user"); WUser (sample_user 4 "c@x.et" "user");
     WEvent sample_event].

Definition sample_world : world := world_of sample_tables (mkSeqs 5 2 1 1).

Lemma map_forall_ok {A} (m : gmap Z A) (P : Z -> A -> Prop) `{!forall i x, Decision (P i x)} :
  bool_decide (Forall (fun p => P p.1 p.2) (map_to_list m)) = true ->
  forall i x, m !! i = Some x -> P i x.
Proof.
  intros Hd%bool_decide_eq_true i x Hx. rewrite Forall_forall in Hd.
  by apply (Hd (i, x)), elem_of_map_to_list.
Qed.

(** Prove a property of every row of a concrete table by evaluation. *)
Ltac by_rows P :=
  unshelve eapply (map_forall_ok _ P); try (intros; simpl; apply _); vm_compute; reflexivity.

Lemma sample_inv : db_inv sample_world.
Proof.
  split.
  - simpl. unfold sample_tables, apply_writes. cbn [foldl].
    apply event_insert_inv; [|done..|by eexists].
    apply user_insert_inv; [|done|by auto|by_rows (fun (_ : Z) u => user_Email u <> "c@x.et")].
    apply user_insert_inv; [|done|by auto|by_rows (fun (_ : Z) u => user_Email u <> "b@x.et")].
    apply user_insert_inv; [|done|by auto|by_rows (fun (_ : Z) u => user_Email u <> "a@x.et")].
    apply user_insert_inv; [|done|by auto|by_rows (fun (_ : Z) u => user_Email u <> "root@x.et")].
    apply empty_inv.
  - split; simpl.
    + by_rows (fun i (_ : User) => (i < 5)%Z).
    + by_rows (fun i (_ : event_row) => (i < 2)%Z).
Qed.
