(* ===== verification/Growth.v ===== *)
(** * What no statement can undo

    A relation between earlier and later tables: bookings, audit rows and
    seals are only ever added, accounts and events keep their identity, and a
    drawn event stays drawn.  And the discipline of the key sequences, which
    every program keeps whichever calls fail: keys are fresh. *)

From S2P Require Import Prelude Models Database Effects Invariant.

(** The fields of an event no operation changes. *)
Definition event_facts (e : event_row) : Z * string * string * Z * Z * Z * Z * Z :=
  (ev_id e, ev_title e, ev_description e, ev_capacity e, ev_winner_count e, ev_draw_at e,
   ev_created_by e, ev_created_at e).

(** The fields of an account no operation changes. *)
Definition user_facts (u : User) : Z * string * string * string * Z :=
  (user_ID u, user_Email u, user_FullName u, user_PasswordHash u, user_CreatedAt u).

(** The lifecycle of an event. *)
Inductive status_edge : EventStatus -> EventStatus -> Prop :=
| EdgeClose : status_edge EventStatusOpen EventStatusClosed
| EdgeCancelOpen : status_edge EventStatusOpen EventStatusCancelled
| EdgeCancelClosed : status_edge EventStatusClosed EventStatusCancelled
| EdgeDraw : status_edge EventStatusClosed EventStatusDrawn.

#[export] Hint Constructors status_edge : lottery.

Lemma drawn_final st : rtc status_edge EventStatusDrawn st -> st = EventStatusDrawn.
Proof. intros H. apply rtc_inv in H as [<-|(st' & H & _)]; [done|]. inversion H. Qed.

Lemma cancelled_final st : rtc status_edge EventStatusCancelled st -> st = EventStatusCancelled.
Proof. intros H. apply rtc_inv in H as [<-|(st' & H & _)]; [done|]. inversion H. Qed.

Record grows (t t' : Tables) : Prop := {
  g_users : forall id u, t_users t !! id = Some u ->
    exists u', t_users t' !! id = Some u' /\ user_facts u' = user_facts u;
  g_events : forall id e, t_events t !! id = Some e ->
    exists e', t_events t' !! id = Some e' /\ event_facts e' = event_facts e /\
      rtc status_edge (ev_status e) (ev_status e');
  g_bookings : t_bookings t `prefix_of` t_bookings t';
  g_draws : t_draws t `prefix_of` t_draws t';
  g_seals : t_seals t ⊆ t_seals t'
}.

#[export] Instance grows_preorder : PreOrder grows.
Proof.
  split.
  - intros t. split; eauto using rtc_refl.
  - intros t1 t2 t3 [U1 E1 B1 D1 S1] [U2 E2 B2 D2 S2]. split.
    + intros id u Hu. destruct (U1 id u Hu) as (u2 & Hu2 & F2).
      destruct (U2 id u2 Hu2) as (u3 & Hu3 & F3). exists u3. split; [done|congruence].
    + intros id e He. destruct (E1 id e He) as (e2 & He2 & F2 & S2').
      destruct (E2 id e2 He2) as (e3 & He3 & F3 & S3'). exists e3. split_and!; [done|congruence|by etrans].
    + by etrans.
    + by etrans.
    + by etrans.
Qed.

(** ** Sequences *)

Definition seqs_le (q q' : Seqs) : Prop :=
  (next_user q <= next_user q' /\ next_event q <= next_event q' /\
   next_booking q <= next_booking q' /\ next_draw q <= next_draw q')%Z.

#[export] Instance seqs_le_preorder : PreOrder seqs_le.
Proof. split; unfold seqs_le; [intros q; lia|intros q1 q2 q3; lia]. Qed.

Lemma seqs_inv_mono t q q' : seqs_inv t q -> seqs_le q q' -> seqs_inv t q'.
Proof.
  intros [Hu He] (H1 & H2 & _). split.
  - intros id u Hid. specialize (Hu id u Hid). lia.
  - intros id e Hid. specialize (He id e Hid). lia.
Qed.

(** ** One write *)

Lemma grows_new_user t u :
  t_users t !! user_ID u = None -> grows t (apply_write t (WUser u)).
Proof.
  intros Hnew. split; simpl; eauto using rtc_refl.
  intros id u' Hu'. exists u'. rewrite lookup_insert_ne by congruence. done.
Qed.

Lemma grows_role t id role now : grows t (apply_write t (WUserRole id role now)).
Proof.
  split; simpl; eauto using rtc_refl. intros i u Hu. destruct (decide (i = id)) as [->|Hi].
  - rewrite lookup_alter_eq, Hu. by eexists.
  - rewrite lookup_alter_ne by done. eauto.
Qed.

Lemma grows_new_event t e :
  t_events t !! ev_id e = None -> grows t (apply_write t (WEvent e)).
Proof.
  intros Hnew. split; simpl; eauto using rtc_refl.
  intros id e' He'. exists e'. rewrite lookup_insert_ne by congruence. done.
Qed.

Lemma grows_status t id st now :
  (forall e, t_events t !! id = Some e -> rtc status_edge (ev_status e) st) ->
  grows t (apply_write t (WEventStatus id st now)).
Proof.
  intros Hd. split; simpl; eauto using rtc_refl. intros i e He. destruct (decide (i = id)) as [->|Hi].
  - rewrite lookup_alter_eq, He. eexists. split_and!; [done..|]. simpl. eauto.
  - rewrite lookup_alter_ne by done. eauto using rtc_refl.
Qed.

Lemma grows_booking t b : grows t (apply_write t (WBooking b)).
Proof. split; simpl; eauto using rtc_refl, prefix_app_r. Qed.

Lemma grows_draw t d : grows t (apply_write t (WDraw d)).
Proof. split; simpl; eauto using rtc_refl, prefix_app_r. Qed.

Lemma grows_seal t s : t_seals t !! seal_event_id s = None -> grows t (apply_write t (WSeal s)).
Proof. intros Hn. split; simpl; eauto using rtc_refl. by apply insert_subseteq. Qed.

#[export] Hint Resolve grows_new_user grows_role grows_new_event grows_status grows_booking
  grows_draw grows_seal : lottery.

Lemma grows_draws t rows : grows t (apply_writes t (WDraw <$> rows)).
Proof.
  revert t. induction rows as [|d rows IH]; intros t; simpl; [done|].
  etrans; [apply grows_draw|apply IH].
Qed.

(** ** Fresh keys *)

Lemma fresh_user t q : seqs_inv t q -> t_users t !! next_user q = None.
Proof.
  intros [Hu _]. apply eq_None_not_Some. intros [u Hs]. specialize (Hu _ _ Hs). lia.
Qed.

Lemma fresh_event t q : seqs_inv t q -> t_events t !! next_event q = None.
Proof.
  intros [_ He]. apply eq_None_not_Some. intros [e Hs]. specialize (He _ _ Hs). lia.
Qed.

(** The key of a write is below the sequence that handed it out. *)
Definition write_ok (q : Seqs) (w : write) : Prop :=
  match w with
  | WUser u => (user_ID u < next_user q)%Z
  | WEvent e => (ev_id e < next_event q)%Z
  | _ => True
  end.

Lemma write_ok_mono q q' w : seqs_le q q' -> write_ok q w -> write_ok q' w.
Proof. intros (H1 & H2 & _). destruct w; simpl; lia. Qed.

Lemma alter_Some_inv {A} (f : A -> A) (m : gmap Z A) i j x :
  alter f i m !! j = Some x -> is_Some (m !! j).
Proof.
  destruct (decide (i = j)) as [->|]; [rewrite lookup_alter_eq|rewrite lookup_alter_ne by done].
  - intros (y & -> & _)%fmap_Some. by eexists.
  - by eexists.
Qed.

Lemma apply_write_seqs t q w : seqs_inv t q -> write_ok q w -> seqs_inv (apply_write t w) q.
Proof.
  intros [Hu He] Hw. split; destruct w; simpl in *; eauto.
  - intros id u' [[<- <-]|[_ Hid]]%lookup_insert_Some; eauto.
  - intros i u [u' Hid]%alter_Some_inv. eauto.
  - intros i e' [[<- <-]|[_ Hid]]%lookup_insert_Some; eauto.
  - intros i e [e' Hid]%alter_Some_inv. eauto.
Qed.

Lemma apply_writes_seqs t q ws :
  seqs_inv t q -> Forall (write_ok q) ws -> seqs_inv (apply_writes t ws) q.
Proof.
  intros Hi Hws. revert t Hi. induction Hws as [|w ws Hw _ IH]; intros t Hi; simpl; [done|].
  by apply IH, apply_write_seqs.
Qed.

(** Every statement takes its keys from the sequences. *)
Lemma exec_stmt_seqs {X} now t q (s : stmt X) r ws q' :
  exec_stmt now t q s = (r, ws, q') -> seqs_le q q' /\ Forall (write_ok q') ws.
Proof.
  assert (forall r' : result pgerror X, (r', [], q) = (r, ws, q') ->
    seqs_le q q' /\ Forall (write_ok q') ws) as Hread.
  { by intros r' [= _ <- <-]. }
  destruct s; simpl; unfold with_text, one_row, answer, insert_booking, insert_event,
    update_event_status, insert_draw, insert_seal, upsert_admin, insert_user, answer;
    try apply Hread; repeat case_match; try apply Hread; intros; simplify_eq/=;
    (split; [unfold seqs_le; simpl; lia|repeat constructor; simpl; lia]).
Qed.

(** ** Any program *)

(** The committed rows and the pending writes have keys the sequences have
    handed out. *)
Definition keys_ok (w : world) : Prop :=
  seqs_inv (w_tables w) (w_seqs w) /\
  match w_tx w with None => True | Some tx => Forall (write_ok (w_seqs w)) (tx_writes tx) end.

Lemma Forall_write_ok_mono q q' ws :
  seqs_le q q' -> Forall (write_ok q) ws -> Forall (write_ok q') ws.
Proof. intros Hle Hws. eapply Forall_impl; [exact Hws|]. intros w. by apply write_ok_mono. Qed.

Lemma exec_in_tx_keys E {X} (s : stmt X) w : keys_ok w -> keys_ok (exec_in_tx E s w).2.
Proof.
  intros Hw. unfold exec_in_tx. destruct (w_tx w) as [tx|] eqn:Htx; [|done].
  unfold keys_ok in Hw. rewrite Htx in Hw. destruct Hw as [Hi Hws].
  destruct (tx_aborted tx); [split; simpl; [done|by rewrite Htx]|].
  destruct (env_fault E (w_step w)); [|by split..].
  destruct (exec_stmt _ _ _ s) as [[r ws] q'] eqn:Hex.
  apply exec_stmt_seqs in Hex as [Hle Hnew].
  assert (seqs_inv (w_tables w) q') by (by eapply seqs_inv_mono).
  assert (Forall (write_ok q') (tx_writes tx)) by (by eapply Forall_write_ok_mono).
  destruct r as [x|e]; [split; simpl; [done|by apply Forall_app]|].
  destruct e; split; simpl; rewrite ?Htx; done.
Qed.

Lemma exec_in_pool_keys E {X} (s : stmt X) w : keys_ok w -> keys_ok (exec_in_pool E s w).2.
Proof.
  intros [Hi Hws]. unfold exec_in_pool.
  destruct (env_fault E (w_step w)); [|by split|];
    destruct (exec_stmt _ _ _ s) as [[r ws] q'] eqn:Hex;
    apply exec_stmt_seqs in Hex as [Hle Hnew];
    (split; simpl; [apply apply_writes_seqs; [by eapply seqs_inv_mono|done]|]);
    destruct (w_tx w); eauto using Forall_write_ok_mono.
Qed.

Lemma exec_cmd_keys E {X} (c : cmd X) w : keys_ok w -> keys_ok (exec_cmd E c w).2.
Proof.
  intros Hw. pose proof Hw as [Hi Hws].
  destruct c as [| |X s|X s| | | | | | | | | |]; unfold exec_cmd.
  - done.
  - destruct (env_fault E (w_step w)); split; simpl; auto.
  - pose proof (exec_in_tx_keys E s w Hw). by destruct (exec_in_tx E s w).
  - pose proof (exec_in_pool_keys E s w Hw). by destruct (exec_in_pool E s w).
  - unfold exec_commit. destruct (w_tx w) as [tx|] eqn:Htx; [|split; simpl; [done|by rewrite Htx]].
    destruct (tx_aborted tx); [|destruct (env_fault E (w_step w))]; split; simpl;
      auto using apply_writes_seqs.
  - by split.
  - destruct (env_timeout E (w_step w)); by split.
  - by split.
  - done.
  - unfold exec_setnx. destruct (env_fault E (w_step w)); [|done|];
      destruct (redis_setnx _ _ _ _ _); by split.
  - unfold exec_release. destruct (env_fault E (w_step w)); [|done|];
      destruct (redis_release _ _ _ _); by split.
  - done.
  - by split.
  - unfold exec_wait. case_decide; [done|]. destruct (env_timeout E (w_step w)); by split.
Qed.

(** Whatever program runs, keys stay below the sequences. *)
Lemma run_keys E {A} (p : program A) w : keys_ok w -> keys_ok (run E p w).2.
Proof.
  revert w. induction p as [a|X c k IH]; intros w Hw; [done|]. simpl.
  pose proof (exec_cmd_keys E c w Hw). destruct (exec_cmd E c w) as [x w1]. by apply IH.
Qed.
