(* ===== verification/Booking.v ===== *)
(** * Bookings

    [src/internal/booking/service.go]. *)

From S2P Require Import Prelude Models Database Effects Invariant.

(** ** Errors *)

(** The domain errors, with what [fmt.Errorf] adds to them; any other error is
    [Other] with the text that wraps it. *)
Inductive booking_error :=
| ErrEventBusy
| ErrEventNotFound
| ErrEventNotOpen (current : EventStatus)
| ErrEventFull (booked capacity : Z)
| ErrAlreadyBooked
| ErrInvalidInput
| Other (context : string).

#[export] Instance booking_error_eq_dec : EqDecision booking_error.
Proof. solve_decision. Defined.

(** ** The booking transaction *)

Definition createBooking (eventID userID : Z) : program (result booking_error unit) :=
  with_tx (fun _ => Other "beginning transaction") (
    try row := tx_exec (SelectStatusCapacityForUpdate eventID)
      catch err => if decide (err = ErrNoRows) then ErrEventNotFound
                   else Other "fetching event" in
    let (status, capacity) := (row : EventStatus * Z) in
    try already := tx_exec (SelectBookingExists eventID userID)
      catch _ => Other "checking existing booking" in
    if already : bool then mret (Err ErrAlreadyBooked)
    else if decide (status <> EventStatusOpen)
    then mret (Err (ErrEventNotOpen status))
    else
    try booked := tx_exec (SelectBookingCount eventID)
      catch _ => Other "counting bookings" in
    if decide (capacity <= booked)%Z then mret (Err (ErrEventFull booked capacity))
    else
    try _ := tx_exec (InsertBooking eventID userID)
      catch err => if IsUnique err then ErrAlreadyBooked
                   else if IsForeignKey err then ErrEventNotFound
                   else Other "inserting booking" in
    try _ := perform Commit catch _ => Other "commit" in
    mret (Ok tt)).

#[global] Arguments createBooking : simpl never.

(** ** Lists *)

Definition GetByEvent (eventID : Z) : program (result booking_error (list Booking)) :=
  try rows := pool_exec (SelectBookingsByEvent eventID)
    catch _ => Other "querying bookings" in
  mret (Ok rows).

Definition UserBookings (userID : Z) : program (result booking_error (list Booking)) :=
  try rows := pool_exec (SelectBookingsByUser userID)
    catch _ => Other "querying user bookings" in
  mret (Ok rows).

(** ** Specification *)

(** What a booking request must answer, in terms of the committed tables. *)
Definition book_spec (t : Tables) (eventID userID : Z) : result booking_error unit :=
  match t_events t !! eventID with
  | None => Err ErrEventNotFound
  | Some e =>
    if booking_exists eventID userID t then Err ErrAlreadyBooked
    else if decide (ev_status e <> EventStatusOpen) then Err (ErrEventNotOpen (ev_status e))
    else
      let booked := Z.of_nat (length (bookings_of eventID t)) in
      if decide (ev_capacity e <= booked)%Z then Err (ErrEventFull booked (ev_capacity e))
      else match t_users t !! userID with
      | None => Err ErrEventNotFound
      | Some _ => Ok tt
      end
  end.

Definition is_other (r : result booking_error unit) : Prop :=
  match r with Err (Other _) => True | _ => False end.

(** [t'] is [t] with one more booking of [userID] for [eventID]. *)
Definition booked_in (t t' : Tables) (eventID userID : Z) : Prop :=
  exists id at_, t' = apply_write t (WBooking (mkBooking id eventID userID at_)).

(** The answer and the committed tables after a booking transaction: the
    specified answer with its effect, or a failure of the connection, which
    commits nothing except when only the answer to the commit was lost. *)
Definition book_post (faults : Prop) (t : Tables) (eventID userID : Z)
    (r : result booking_error unit) (t' : Tables) : Prop :=
  (r = book_spec t eventID userID /\
     match r with
     | Ok _ => booked_in t t' eventID userID
     | Err _ => t' = t
     end) \/
  (faults /\ is_other r /\
     (t' = t \/
      book_spec t eventID userID = Ok tt /\ booked_in t t' eventID userID)).

Lemma createBooking_db_only eventID userID : db_only (createBooking eventID userID).
Proof. unfold createBooking. db_only_tac. Qed.

Lemma createBooking_wp E w eventID userID :
  wp E (createBooking eventID userID) (fun r w' =>
    book_post (faulty E) (w_tables w) eventID userID r (w_tables w')) w.
Proof.
  assert (forall c, faulty E ->
    book_post (faulty E) (w_tables w) eventID userID (Err (Other c)) (w_tables w)) as Hother.
  { intros c Hf. right. simpl. auto. }
  eapply wp_mono; [apply wp_with_tx; [apply Hother|]|by intros ??[]].
  intros w1 H1 _. set (t := w_tables w) in *.
  tx_step H1 ltac:(rewrite Hfail; case_decide; [done|by apply Hother]).
  destruct (t_events t !! eventID) as [e|] eqn:He; simpl.
  2: { intros ->. left. unfold book_spec. by rewrite He. }
  intros H2 _. tx_step H2 ltac:(rewrite Hfail; by apply Hother). intros H3 _.
  destruct (booking_exists eventID userID t) eqn:Hex.
  { apply wp_ret. destruct H3 as [-> _]. left. unfold book_spec. by rewrite He, Hex. }
  case_decide as Hst.
  { apply wp_ret. destruct H3 as [-> _]. left. unfold book_spec. rewrite He, Hex.
    by rewrite decide_True. }
  tx_step H3 ltac:(rewrite Hfail; by apply Hother). intros H4 _.
  case_decide as Hfull.
  { apply wp_ret. destruct H4 as [-> _]. left. unfold book_spec. rewrite He, Hex.
    rewrite decide_False by tauto. by rewrite decide_True. }
  tx_step H4 ltac:(rewrite Hfail; by apply Hother). unfold insert_booking. simpl. rewrite Hex, He.
  destruct (t_users t !! userID) as [u|] eqn:Hu; simpl.
  2: { intros ->. left. unfold book_spec. rewrite He, Hex.
       rewrite !decide_False by tauto. by rewrite Hu. }
  assert (book_spec t eventID userID = Ok tt) as Hspec.
  { unfold book_spec. rewrite He, Hex, !decide_False by tauto. by rewrite Hu. }
  intros H5 _. apply wp_try. eapply wp_commit; [exact H5|intros ? Hf -> _; by apply Hother|].
  intros w6 Ht6 _ _. simpl in Ht6. split.
  - apply wp_ret. left. split; [done|]. rewrite Ht6. eexists _, _. done.
  - intros Hf. right. split_and!; [done..|]. right. split; [done|]. rewrite Ht6. eexists _, _. done.
Qed.

(** ** The invariant *)

Lemma book_spec_ok t eventID userID :
  book_spec t eventID userID = Ok tt ->
  exists e, t_events t !! eventID = Some e /\ is_Some (t_users t !! userID) /\
    booking_exists eventID userID t = false /\ ev_status e = EventStatusOpen /\
    (Z.of_nat (length (bookings_of eventID t)) < ev_capacity e)%Z.
Proof.
  unfold book_spec. intros Hs.
  destruct (t_events t !! eventID) as [e|]; [|done]. exists e.
  destruct (booking_exists _ _ _); [done|]. case_decide as Hst; [done|].
  case_decide; [done|]. destruct (t_users t !! userID) eqn:Hu; [|done].
  split_and!; eauto. lia.
Qed.

(** Adding a booking the specification allows keeps the invariant. *)
Lemma booked_in_inv t t' eventID userID :
  tables_inv t -> book_spec t eventID userID = Ok tt ->
  booked_in t t' eventID userID -> tables_inv t'.
Proof.
  intros Hinv (e & He & Hu & Hnew & Hst & Hcap)%book_spec_ok (id & at_ & ->).
  split; try apply Hinv.
  - simpl. intros b [Hb| ->%list_elem_of_singleton]%elem_of_app; [by apply Hinv|].
    simpl. by rewrite He.
  - simpl. rewrite fmap_app. apply NoDup_app. split_and!; [apply Hinv| |apply NoDup_singleton].
    intros p Hp ->%list_elem_of_singleton.
    apply list_elem_of_fmap in Hp as (b & [= Hbe Hbu] & Hb).
    assert (booking_exists eventID userID t = true); [|congruence].
    apply booking_exists_spec. eauto.
  - intros id' e' He'. rewrite bookings_of_app, length_app. simpl in He'.
    pose proof (inv_capacity t Hinv id' e' He'). simpl.
    case_decide; simpl; [|lia]. subst. rewrite He in He'. injection He' as <-. lia.
  - intros id' e' He' Hd. change (t_events t !! id' = Some e') in He'.
    assert (id' <> eventID) by congruence.
    destruct (inv_drawn t Hinv id' e' He' Hd) as [Hus Hrk Hsl].
    rewrite (inv_event_key t Hinv id' e' He') in *.
    split; rewrite (inv_event_key t Hinv id' e' He'); try done.
    rewrite bookings_of_app, decide_False, app_nil_r; done.
Qed.

Lemma book_post_inv faults t eventID userID r t' :
  tables_inv t -> book_post faults t eventID userID r t' -> tables_inv t'.
Proof.
  intros Hinv [[-> Hr]|(_ & _ & [->|[Hs Hb]])]; eauto using booked_in_inv.
  destruct (book_spec t eventID userID) as [[]|] eqn:Hs; [|by subst].
  eauto using booked_in_inv.
Qed.
