(* ===== verification/Events.v ===== *)
(** * Events

    [src/internal/event/service.go]: creation, reads, and the status machine
    [open -> closed -> drawn], [open | closed -> cancelled].  The query of a
    page leaves the order of events with equal [draw_at] open. *)

From S2P Require Import Prelude GoFmt GoString GoTime Models Seal Database Effects Invariant.

(** ** Errors *)

Inductive event_error :=
| ErrInvalidInput (why : string)
| ErrEventNotFound
| ErrInvalidTransition (current : EventStatus)
| Other (context : string).

#[export] Instance event_error_eq_dec : EqDecision event_error.
Proof. solve_decision. Defined.

Definition maxTitleLen : Z := 200.
Definition maxDescriptionLen : Z := 4000.

(** ** Create *)

(** The struct [Create] fills from the returned row: no booking count. *)
Definition event_of_row (e : event_row) : Event :=
  mkEvent (ev_id e) (ev_title e) (ev_description e) (ev_capacity e) (ev_draw_at e)
    (ev_status e) (ev_winner_count e) (ev_created_by e) 0 (ev_created_at e) (ev_updated_at e).

Section Service.
(** [MAX_WINNERS]; [0] or less means no cap. *)
Variable maxWinners : Z.

(** The part of [Create] before the insert, with the clock read at [now]: the
    winner count to store, or the reason to refuse. *)
Definition validate_create (req : CreateEventRequest) (now : Z) : result event_error Z :=
  let title := TrimSpace (cer_Title req) in
  let description := TrimSpace (cer_Description req) in
  if decide (title = "") then Err (ErrInvalidInput "title is required")
  else if decide (maxTitleLen < len title)%Z then Err (ErrInvalidInput "title too long")
  else if decide (maxDescriptionLen < len description)%Z
  then Err (ErrInvalidInput "description too long")
  else if IsZero (cer_DrawAt req) then Err (ErrInvalidInput "draw_at is required")
  else if decide (cer_DrawAt req < now)%Z
  then Err (ErrInvalidInput "draw_at must be in the future")
  else if decide (cer_Capacity req < 1)%Z
  then Err (ErrInvalidInput "capacity must be at least 1")
  else
    let winnerCount := if decide (cer_WinnerCount req < 1)%Z then 1%Z else cer_WinnerCount req in
    if decide (cer_Capacity req < winnerCount)%Z
    then Err (ErrInvalidInput "winner_count cannot exceed capacity")
    else if decide (0 < maxWinners /\ maxWinners < winnerCount)%Z
    then Err (ErrInvalidInput ("winner_count cannot exceed " +:+ FormatInt maxWinners))
    else Ok winnerCount.

Definition Create (req : CreateEventRequest) (createdBy : Z)
  : program (result event_error Event) :=
  now ← perform TimeNow;
  match validate_create req now with
  | Err e => mret (Err e)
  | Ok winnerCount =>
    try row := pool_exec (InsertEvent (TrimSpace (cer_Title req))
                 (TrimSpace (cer_Description req)) (cer_Capacity req) (cer_DrawAt req)
                 winnerCount createdBy)
      catch _ => Other "inserting event" in
    mret (Ok (event_of_row row))
  end.
End Service.

(** ** Reads *)

Definition GetByID (id : Z) : program (result event_error Event) :=
  try event := pool_exec (SelectEventWithCount id)
    catch err => if decide (err = ErrNoRows) then ErrEventNotFound else Other "fetching event" in
  mret (Ok event).

(** The clamping of [page] and [limit], and the offset, in [int] arithmetic. *)
Definition clamp_page (page : Z) : Z := if decide (page < 1)%Z then 1%Z else page.
Definition clamp_limit (limit : Z) : Z :=
  if decide (limit < 1 \/ 100 < limit)%Z then 20%Z else limit.
Definition list_offset (page limit : Z) : Z := wrap64 (wrap64 (page - 1) * limit).

Definition List_ (status : string) (page limit : Z) : program (result event_error (list Event * Z)) :=
  let page := clamp_page page in
  let limit := clamp_limit limit in
  try events := pool_exec (SelectEvents status limit (list_offset page limit))
    catch _ => Other "querying events" in
  try total := pool_exec (SelectEventCount status) catch _ => Other "counting events" in
  mret (Ok (events, total)).

(** ** Transitions *)

Definition Close (eventID : Z) : program (result event_error Event) :=
  with_tx (fun _ => Other "begin tx") (
    try current := tx_exec (SelectStatusForUpdate eventID)
      catch err => if decide (err = ErrNoRows) then ErrEventNotFound
                   else Other "loading event" in
    try _ := match current with
             | EventStatusOpen =>
                 try _ := tx_exec (UpdateEventStatus eventID EventStatusClosed)
                   catch _ => Other "closing event" in
                 mret (Ok tt)
             | EventStatusClosed => mret (Ok tt)
             | _ => mret (Err (ErrInvalidTransition current))
             end
      catch e => e in
    try _ := perform Commit catch _ => Other "commit" in
    GetByID eventID).

Definition Cancel (eventID : Z) : program (result event_error Event) :=
  with_tx (fun _ => Other "begin tx") (
    try current := tx_exec (SelectStatusForUpdate eventID)
      catch err => if decide (err = ErrNoRows) then ErrEventNotFound
                   else Other "loading event" in
    try _ := match current with
             | EventStatusOpen | EventStatusClosed =>
                 try _ := tx_exec (UpdateEventStatus eventID EventStatusCancelled)
                   catch _ => Other "cancelling event" in
                 mret (Ok tt)
             | EventStatusCancelled => mret (Ok tt)
             | _ => mret (Err (ErrInvalidTransition current))
             end
      catch e => e in
    try _ := perform Commit catch _ => Other "commit" in
    GetByID eventID).

(** ** Specification of the transitions *)

(** What a transition request does to an event in a given status: refuse it,
    accept it without a change, or move the event to a new status. *)
Inductive move := Refuse | Keep | MoveTo (st : EventStatus).

Definition close_move (st : EventStatus) : move :=
  match st with
  | EventStatusOpen => MoveTo EventStatusClosed
  | EventStatusClosed => Keep
  | _ => Refuse
  end.

Definition cancel_move (st : EventStatus) : move :=
  match st with
  | EventStatusOpen | EventStatusClosed => MoveTo EventStatusCancelled
  | EventStatusCancelled => Keep
  | EventStatusDrawn => Refuse
  end.

(** The committed tables after an accepted move. *)
Definition moved (t t' : Tables) (id : Z) (m : move) : Prop :=
  match m with
  | Refuse => False
  | Keep => t' = t
  | MoveTo st => exists now, t' = apply_write t (WEventStatus id st now)
  end.

Definition read_event (t : Tables) (id : Z) : result event_error Event :=
  match t_events t !! id with
  | Some e => Ok (event_with_count t e)
  | None => Err ErrEventNotFound
  end.

(** The answer and the committed tables after [Close] or [Cancel]. *)
Definition move_post (mv : EventStatus -> move) (faults : Prop) (t : Tables) (id : Z)
    (r : result event_error Event) (t' : Tables) : Prop :=
  match t_events t !! id with
  | None => t' = t /\ (r = Err ErrEventNotFound \/ faults /\ exists c, r = Err (Other c))
  | Some e =>
      (r = Err (ErrInvalidTransition (ev_status e)) /\ mv (ev_status e) = Refuse /\ t' = t) \/
      (r = read_event t' id /\ moved t t' id (mv (ev_status e))) \/
      (faults /\ (exists c, r = Err (Other c)) /\
         (t' = t \/ moved t t' id (mv (ev_status e))))
  end.

Lemma wp_GetByID E id Q w :
  (forall w', w_tables w' = w_tables w -> Q (read_event (w_tables w) id) w') ->
  (forall w', faulty E -> w_tables w' = w_tables w -> Q (Err (Other "fetching event")) w') ->
  wp E (GetByID id) Q w.
Proof.
  intros Hok Hf. unfold read_event in Hok. apply wp_try, wp_pool.
  - intros w' Hfa Ht _. by apply Hf.
  - intros now w'. simpl. destruct (t_events (w_tables w) !! id) as [e|]; simpl;
      intros Ht _ _; (split; [|intros Hfa]); by (apply Hok || apply Hf || apply wp_ret, Hok).
Qed.

Lemma wp_commit_read E id mv e t start L w :
  in_tx w t start L -> t_events t !! id = Some e ->
  moved t (apply_writes t L) id (mv (ev_status e)) ->
  wp E (try _ := perform Commit catch _ => Other "commit" in GetByID id)
    (fun r w' => move_post mv (faulty E) t id r (w_tables w')) w.
Proof.
  intros Hin He Hm. unfold move_post. rewrite He.
  apply wp_try. eapply wp_commit; [exact Hin|intros wc Hf -> _; by eauto 10|].
  intros wc Htc _ _. split; [|intros Hf; rewrite Htc; eauto 7].
  apply wp_GetByID; rewrite Htc.
  - intros wr ->. auto.
  - intros wr Hf ->. eauto 7.
Qed.

Lemma Close_wp E w id :
  wp E (Close id) (fun r w' => move_post close_move (faulty E) (w_tables w) id r (w_tables w')) w.
Proof.
  eapply wp_mono; [apply wp_with_tx|by intros ??[]].
  { intros Hf. unfold move_post. case_match; eauto 7. }
  intros wb H1 _. set (t := w_tables w) in *.
  tx_step H1 ltac:(unfold move_post; rewrite Hfail; case_match; eauto 7).
  destruct (t_events t !! id) as [e|] eqn:He; simpl.
  2: { intros ->. unfold move_post. rewrite He. auto. }
  intros H2 _. apply wp_try.
  destruct (ev_status e) eqn:Hst.
  - tx_step H2 ltac:(unfold move_post; rewrite Hfail, He; eauto 7).
    unfold update_event_status. simpl. rewrite He, bool_decide_false by (rewrite Hst; naive_solver).
    simpl. intros H3 _. apply wp_ret. eapply wp_commit_read; [exact H3|done|].
    rewrite Hst. simpl. eauto.
  - apply wp_ret. eapply wp_commit_read; [exact H2|done|]. by rewrite Hst.
  - apply wp_ret. destruct H2 as [-> _]. unfold move_post. rewrite He, Hst. auto.
  - apply wp_ret. destruct H2 as [-> _]. unfold move_post. rewrite He, Hst. auto.
Qed.

Lemma Cancel_wp E w id :
  wp E (Cancel id) (fun r w' => move_post cancel_move (faulty E) (w_tables w) id r (w_tables w')) w.
Proof.
  eapply wp_mono; [apply wp_with_tx|by intros ??[]].
  { intros Hf. unfold move_post. case_match; eauto 7. }
  intros wb H1 _. set (t := w_tables w) in *.
  tx_step H1 ltac:(unfold move_post; rewrite Hfail; case_match; eauto 7).
  destruct (t_events t !! id) as [e|] eqn:He; simpl.
  2: { intros ->. unfold move_post. rewrite He. auto. }
  intros H2 _. apply wp_try.
  assert (cancel_move (ev_status e) = MoveTo EventStatusCancelled ->
    wp E (try _ := tx_exec (UpdateEventStatus id EventStatusCancelled)
            catch _ => Other "cancelling event" in mret (Ok tt))
      (fun r w' => match r with
        | Ok _ => wp E (try _ := perform Commit catch _ => Other "commit" in GetByID id)
            (fun r w' => move_post cancel_move (faulty E) t id r (w_tables w')) w'
        | Err er => move_post cancel_move (faulty E) t id (Err er) (w_tables w')
        end) w0) as Hmove.
  { intros Hm.
    tx_step H2 ltac:(unfold move_post; rewrite Hfail, He; eauto 7).
    unfold update_event_status. simpl.
    rewrite He, bool_decide_false by (intros [Hd _]; by rewrite Hd in Hm).
    simpl. intros H3 _. apply wp_ret. eapply wp_commit_read; [exact H3|done|].
    rewrite Hm. simpl. eauto. }
  destruct (ev_status e) eqn:Hst; [by apply Hmove..| |].
  - apply wp_ret. destruct H2 as [-> _]. unfold move_post. rewrite He, Hst. auto.
  - apply wp_ret. eapply wp_commit_read; [exact H2|done|]. by rewrite Hst.
Qed.

(** A move never leads to or from a drawn event. *)
Definition safe_move (mv : EventStatus -> move) : Prop :=
  forall st st', mv st = MoveTo st' -> st <> EventStatusDrawn /\ st' <> EventStatusDrawn.

Lemma close_move_safe : safe_move close_move.
Proof. by intros [] [] [=]. Qed.
Lemma cancel_move_safe : safe_move cancel_move.
Proof. by intros [] [] [=]. Qed.

Lemma moved_inv mv t t' id e :
  safe_move mv -> tables_inv t -> t_events t !! id = Some e ->
  moved t t' id (mv (ev_status e)) -> tables_inv t'.
Proof.
  intros Hsafe Hinv He Hm. destruct (mv (ev_status e)) as [| |st] eqn:Hmv; simpl in Hm.
  - done.
  - by subst.
  - destruct Hm as [now ->]. destruct (Hsafe _ _ Hmv). by eapply status_write_inv.
Qed.

Lemma move_post_inv mv faults t id r t' :
  safe_move mv -> tables_inv t -> move_post mv faults t id r t' -> tables_inv t'.
Proof.
  unfold move_post. intros Hsafe Hinv Hp.
  destruct (t_events t !! id) as [e|] eqn:He; [|by destruct Hp as [-> _]].
  destruct Hp as [(_ & _ & ->)|[(_ & Hm)|(_ & _ & [->|Hm])]]; eauto using moved_inv.
Qed.

(** ** Specification of [Create] *)

(** A request that passes the validation is within every bound the code
    documents. *)
Lemma validate_create_ok maxWinners req now wc :
  validate_create maxWinners req now = Ok wc ->
  (1 <= len (TrimSpace (cer_Title req)) <= maxTitleLen /\
   len (TrimSpace (cer_Description req)) <= maxDescriptionLen /\
   now <= cer_DrawAt req /\ cer_DrawAt req <> 0 /\
   1 <= wc <= cer_Capacity req /\ (0 < maxWinners -> wc <= maxWinners) /\
   wc = Z.max 1 (cer_WinnerCount req))%Z.
Proof.
  unfold validate_create, IsZero. intros H.
  repeat (case_decide; [discriminate H|]). case_match eqn:Hz; [done|].
  apply bool_decide_eq_false in Hz. repeat (case_decide; simplify_eq/=; try lia).
  all: assert (len (TrimSpace (cer_Title req)) <> 0)%Z
    by (unfold len; destruct (TrimSpace (cer_Title req)); simpl; [done|lia]).
  all: assert (0 <= len (TrimSpace (cer_Title req)))%Z by (unfold len; lia).
  all: split_and!; try lia; done.
Qed.

(** The database takes the row: the texts can be stored, the capacity fits
    its column and the creator exists. *)
Definition insertable (t : Tables) (req : CreateEventRequest) (createdBy : Z) : bool :=
  storable (TrimSpace (cer_Title req)) && storable (TrimSpace (cer_Description req)) &&
  fits_int4 (cer_Capacity req) && bool_decide (is_Some (t_users t !! createdBy)).

(** The row [Create] adds, with the key the sequence hands out. *)
Definition created_row (req : CreateEventRequest) (createdBy wc id now : Z) : event_row :=
  mkEventRow id (TrimSpace (cer_Title req)) (TrimSpace (cer_Description req))
    (cer_Capacity req) wc (pg_time (cer_DrawAt req)) EventStatusOpen createdBy
    (pg_time now) (pg_time now).

Definition create_post (faults : Prop) (valid : result event_error Z) (t : Tables) (id : Z)
    (req : CreateEventRequest) (createdBy : Z) (r : result event_error Event) (t' : Tables) : Prop :=
  match valid with
  | Err e => r = Err e /\ t' = t
  | Ok wc =>
      (exists now, let row := created_row req createdBy wc id now in
        insertable t req createdBy = true /\ t' = apply_write t (WEvent row) /\
        (r = Ok (event_of_row row) \/ faults /\ r = Err (Other "inserting event"))) \/
      (t' = t /\ r = Err (Other "inserting event") /\
        (faults \/ insertable t req createdBy = false))
  end.

Lemma insert_event_create now t q req createdBy wc :
  (1 <= wc <= cer_Capacity req)%Z ->
  match insert_event now t q (TrimSpace (cer_Title req)) (TrimSpace (cer_Description req))
          (cer_Capacity req) (cer_DrawAt req) wc createdBy with
  | (r, ws, _) =>
    if fits_int4 (cer_Capacity req) && bool_decide (is_Some (t_users t !! createdBy))
    then let row := created_row req createdBy wc (next_event q) now in
         r = Ok row /\ ws = [WEvent row]
    else is_ok r = false /\ ws = []
  end.
Proof.
  intros Hwc. unfold insert_event.
  destruct (fits_int4 (cer_Capacity req)) eqn:Hc; simpl; [|done].
  assert (fits_int4 wc = true) as ->.
  { unfold fits_int4 in *. apply bool_decide_eq_true in Hc. apply bool_decide_eq_true. lia. }
  rewrite bool_decide_true by lia. by destruct (t_users t !! createdBy) as [u|].
Qed.

Lemma Create_wp maxWinners E w req createdBy :
  wp E (Create maxWinners req createdBy) (fun r w' =>
    create_post (faulty E) (validate_create maxWinners req (env_clock E (w_step w)))
      (w_tables w) (next_event (w_seqs w)) req createdBy r (w_tables w')) w.
Proof.
  apply wp_bind, wp_perform. simpl.
  destruct (validate_create _ _ _) as [wc|e] eqn:Hv; [|by apply wp_ret].
  apply validate_create_ok in Hv. apply wp_try, wp_pool; simpl.
  { intros w' Hf -> _. auto. }
  intros now w'. pose proof (insert_event_create now (w_tables w) (w_seqs w) req createdBy wc) as Hins.
  unfold with_text, insertable. simpl.
  destruct (storable (TrimSpace (cer_Title req))), (storable (TrimSpace (cer_Description req)));
    simpl; try (intros Ht _ _; split; right; rewrite Ht; by auto).
  destruct (insert_event _ _ _ _ _ _ _ _ _) as [[r ws] q].
  specialize (Hins ltac:(lia)).
  destruct (fits_int4 (cer_Capacity req) && _) eqn:Hi; destruct Hins as [Hr ->].
  - subst r. intros Ht _ _. split; [apply wp_ret|intros Hf]; left; exists now; rewrite Ht; simpl; auto.
  - intros Ht _ _. destruct r; [done|]. split; right; rewrite Ht; auto.
Qed.

(** ** Specification of [List] *)

Definition page_slice (t : Tables) (ties : Z -> Z) (status : string) (offset limit : Z) : list Event :=
  event_with_count t <$>
    take (Z.to_nat limit) (drop (Z.to_nat offset)
      (order_by ev_draw_at (fun e => ties (ev_id e)) (events_in_status status t))).

(** The rows of a page, with the choice [ties] of its query among equal
    [draw_at]. *)
Definition list_page (t : Tables) (ties : Z -> Z) (status : string) (page limit : Z)
  : result event_error (list Event) :=
  let offset := list_offset (clamp_page page) (clamp_limit limit) in
  if storable status && bool_decide (0 <= offset)%Z
  then Ok (page_slice t ties status offset (clamp_limit limit))
  else Err (Other "querying events").

Definition list_total (t : Tables) (status : string) : Z :=
  Z.of_nat (length (events_in_status status t)).

Lemma clamp_limit_range limit : (1 <= clamp_limit limit <= 100)%Z.
Proof. unfold clamp_limit. case_decide; lia. Qed.

Lemma list_offset_id page limit :
  (1 <= page)%Z -> (1 <= limit <= 100)%Z -> ((page - 1) * limit < 2 ^ 63)%Z ->
  list_offset page limit = ((page - 1) * limit)%Z.
Proof.
  intros Hp Hl Ho. assert (page - 1 <= (page - 1) * limit)%Z by nia.
  unfold list_offset. rewrite (wrap64_id (page - 1)), wrap64_id;
    [done|unfold min_int64, max_int64; lia..].
Qed.

(** With the database reachable [List] answers the rows of the page, in the
    order its query chose, and the total; or fails when the text cannot be a
    parameter or the offset is negative. *)
Lemma List_answer E w status page limit :
  ~ faulty E ->
  (run E (List_ status page limit) w).1 =
  match list_page (w_tables w) (env_ties E (w_step w)) status page limit with
  | Ok events => Ok (events, list_total (w_tables w) status)
  | Err e => Err e
  end.
Proof.
  intros Hnf.
  change (wp E (List_ status page limit) (fun r _ => r =
    match list_page (w_tables w) (env_ties E (w_step w)) status page limit with
    | Ok events => Ok (events, list_total (w_tables w) status)
    | Err e => Err e
    end) w).
  pose proof (clamp_limit_range limit). unfold List_, list_page.
  apply wp_try, wp_pool_calm; [done|]. unfold exec_stmt, with_text. cbn [forallb].
  rewrite andb_true_r. destruct (storable status) eqn:Hs; [|done]. simpl.
  rewrite (bool_decide_ext _ (0 <= list_offset (clamp_page page) (clamp_limit limit))%Z) by lia.
  case_bool_decide; [|done].
  apply wp_try, wp_pool_calm; [done|]. unfold exec_stmt, with_text. cbn [forallb].
  by rewrite Hs.
Qed.

(** The pages of a list, one after the other, are the list. *)
Lemma pages_concat {A} (l : list A) (limit n : nat) :
  length l <= n * limit ->
  (p ← seq 0 n; take limit (drop (p * limit) l)) = l.
Proof.
  revert l. induction n as [|n IH]; intros l Hl.
  { by destruct l; simpl in *; [|lia]. }
  change (seq 0 (S n)) with (0 :: seq 1 n). rewrite bind_cons. simpl. rewrite drop_0.
  rewrite <- (fmap_S_seq 0 n). rewrite list_fmap_bind.
  transitivity (take limit l ++ drop limit l); [f_equal|apply take_drop].
  rewrite <- (IH (drop limit l)) at 1 by (rewrite length_drop; lia).
  apply list_bind_ext; [|done]. intros p. simpl. by rewrite drop_drop.
Qed.

Lemma fmap_bind_list {A B C} (g : B -> C) (f : A -> list B) (l : list A) :
  g <$> (l ≫= f) = l ≫= (fun x => g <$> f x).
Proof. induction l as [|x l IH]; [done|]. by rewrite !bind_cons, fmap_app, IH. Qed.

(** What a client collects by asking for the pages [1 .. n], each request in
    an environment of its own. *)
Definition all_pages (Es : nat -> env) (w : world) (status : string) (limit : Z) (n : nat)
  : list Event :=
  p ← seq 0 n;
  match (run (Es p) (List_ status (Z.of_nat p + 1) limit) w).1 with
  | Ok (events, _) => events
  | Err _ => []
  end.

Lemma all_pages_slices Es w status limit n :
  (forall p, ~ faulty (Es p)) -> storable status = true -> (1 <= limit <= 100)%Z ->
  (Z.of_nat n * limit < 2 ^ 63)%Z ->
  all_pages Es w status limit n =
  (p ← seq 0 n; event_with_count (w_tables w) <$> take (Z.to_nat limit) (drop (p * Z.to_nat limit)
     (order_by ev_draw_at (fun e => env_ties (Es p) (w_step w) (ev_id e))
        (events_in_status status (w_tables w))))).
Proof.
  intros Hnf Hs Hl Hn. unfold all_pages. apply Forall_bind_ext, Forall_forall.
  intros p Hp%elem_of_seq. rewrite List_answer by done. unfold list_page.
  unfold clamp_page, clamp_limit. rewrite !decide_False, list_offset_id, Hs by nia.
  rewrite bool_decide_true by nia. unfold page_slice. simpl. do 3 f_equal. nia.
Qed.

(** After an accepted move, asking for it again is accepted and changes
    nothing. *)
Definition settling (mv : EventStatus -> move) : Prop :=
  forall st st', mv st = MoveTo st' -> mv st' = Keep.

Lemma moved_settled mv t t' id e :
  settling mv -> t_events t !! id = Some e -> moved t t' id (mv (ev_status e)) ->
  exists e', t_events t' !! id = Some e' /\ mv (ev_status e') = Keep.
Proof.
  intros Hset He Hm. destruct (mv (ev_status e)) as [| |st] eqn:Hmv; simpl in Hm.
  - done.
  - subst. eauto.
  - destruct Hm as [now ->]. exists (set_status st now e). simpl.
    rewrite lookup_alter_eq, He. split; [done|]. simpl. by eapply Hset.
Qed.

Lemma move_post_again mv F1 F2 t id ev t1 r t2 :
  settling mv -> ~ F2 -> move_post mv F1 t id (Ok ev) t1 ->
  move_post mv F2 t1 id r t2 -> r = Ok ev /\ t2 = t1.
Proof.
  unfold move_post. intros Hset HF H1 H2.
  destruct (t_events t !! id) as [e|] eqn:He; [|naive_solver].
  destruct H1 as [(? & _)|[(Hr & Hm)|(_ & (? & ?) & _)]]; [done| |done].
  destruct (moved_settled mv t t1 id e Hset He Hm) as (e1 & He1 & Hk).
  rewrite He1, Hk in H2. simpl in H2. destruct H2 as [(_ & ? & _)|[(-> & ->)|(? & _)]]; done.
Qed.

(** ** Properties *)

(** C34: [Close] and [Cancel] implement the status machine.  On a missing event
    they answer [ErrEventNotFound]; on an event whose status forbids the move
    they answer [ErrInvalidTransition] and change nothing; otherwise they
    commit exactly the move (or nothing, when the event is already there) and
    return the event as it is now.  If a call to the database fails the answer
    is an error and either nothing or the allowed move was committed. *)
Theorem transitions_correct E w id :
  wp E (Close id) (fun r w' =>
    move_post close_move (faulty E) (w_tables w) id r (w_tables w')) w /\
  wp E (Cancel id) (fun r w' =>
    move_post cancel_move (faulty E) (w_tables w) id r (w_tables w')) w.
Proof. split; [apply Close_wp|apply Cancel_wp]. Qed.

(** [Close] and [Cancel] are idempotent: repeating a request that was
    accepted, with the database reachable, is accepted with the same answer
    and leaves every table as it was. *)
Theorem transitions_idempotent E1 E2 w id ev w1 (op : Z -> program (result event_error Event)) :
  op = Close \/ op = Cancel ->
  run E1 (op id) w = (Ok ev, w1) -> ~ faulty E2 ->
  (run E2 (op id) w1).1 = Ok ev /\ w_tables (run E2 (op id) w1).2 = w_tables w1.
Proof.
  intros [->| ->] H1 Hnf.
  - eapply (move_post_again close_move); [by intros [] [] [=]|exact Hnf| |apply Close_wp].
    exact (wp_run _ _ _ _ _ H1 (Close_wp E1 w id)).
  - eapply (move_post_again cancel_move); [by intros [] [] [=]|exact Hnf| |apply Cancel_wp].
    exact (wp_run _ _ _ _ _ H1 (Cancel_wp E1 w id)).
Qed.

Lemma transitions_idempotent_witness :
  exists ev w1, run (calm_env 5) (Close 1) sample_world = (Ok ev, w1) /\
    w_tables w1 <> sample_tables /\
    (run (calm_env 9) (Close 1) w1).1 = Ok ev.
Proof.
  eexists _, _. split; [vm_compute; reflexivity|]. split; [by vm_compute|].
  eapply (transitions_idempotent (calm_env 5) (calm_env 9) sample_world 1);
    [by left|vm_compute; reflexivity|apply calm_not_faulty].
Defined.

(** [Create] on every branch.  A request the validation refuses changes
    nothing and is answered with the validation's error; an accepted one
    commits exactly one new open event with the trimmed texts, the requested
    capacity and the winner count clamped from below to 1, under the next key,
    and returns it, unless the database cannot store it. *)
Theorem Create_correct maxWinners E w req createdBy :
  wp E (Create maxWinners req createdBy) (fun r w' =>
    create_post (faulty E) (validate_create maxWinners req (env_clock E (w_step w)))
      (w_tables w) (next_event (w_seqs w)) req createdBy r (w_tables w')) w.
Proof. apply Create_wp. Qed.

(** What [Create] lets through: an accepted request has a title of 1 to
    200 bytes and a description of at most 4000 after trimming, a draw time
    that is set and not in the past, and a stored winner count between 1 and
    the capacity, within the configured cap. *)
Theorem Create_validates maxWinners req now wc :
  validate_create maxWinners req now = Ok wc ->
  (1 <= len (TrimSpace (cer_Title req)) <= 200 /\
   len (TrimSpace (cer_Description req)) <= 4000 /\
   now <= cer_DrawAt req /\ cer_DrawAt req <> 0 /\
   1 <= wc <= cer_Capacity req /\ (0 < maxWinners -> wc <= maxWinners) /\
   wc = Z.max 1 (cer_WinnerCount req))%Z.
Proof. apply validate_create_ok. Qed.

Lemma Create_validates_witness :
  exists req, validate_create 10 req 100 = Ok 1%Z /\
    (1 <= len (TrimSpace (cer_Title req)) <= 200)%Z.
Proof.
  exists (mkCreateEventRequest " Gala " "" 5 200 0). split; [by vm_compute|].
  apply (Create_validates 10 _ 100 1). by vm_compute.
Defined.

(** C35: paging is complete up to ties.  Ask for the pages [1 .. n] of a list
    that fits them (and whose offsets stay in [int64]), with the database
    reachable, each page by a request of its own, whose query orders events
    with equal [draw_at] as it likes.  The [draw_at] of the answers, one page
    after the other, are those of the events in the status, in ascending order
    and with the right multiplicities; and if no two of these events have the
    same [draw_at], the answers are exactly these events, each once.  (With
    equal [draw_at] an event can be repeated and another one missed:
    [List_pages_tied].) *)
Theorem List_pages_complete Es w status limit n :
  (forall p, ~ faulty (Es p)) -> storable status = true -> (1 <= limit <= 100)%Z ->
  (Z.of_nat n * limit < 2 ^ 63)%Z ->
  length (events_in_status status (w_tables w)) <= n * Z.to_nat limit ->
  event_DrawAt <$> all_pages Es w status limit n =
    ev_draw_at <$> order_asc ev_draw_at (events_in_status status (w_tables w)) /\
  (NoDup (ev_draw_at <$> events_in_status status (w_tables w)) ->
   all_pages Es w status limit n =
   event_with_count (w_tables w) <$> order_asc ev_draw_at (events_in_status status (w_tables w))).
Proof.
  intros Hnf Hs Hl Hn Hlen. rewrite all_pages_slices by done.
  set (rows := events_in_status status (w_tables w)) in *.
  assert (length (order_asc ev_draw_at rows) <= n * Z.to_nat limit) as Hlen'.
  { unfold order_asc. by rewrite (merge_sort_Permutation (key_le ev_draw_at)). }
  split.
  - rewrite fmap_bind_list, <- (pages_concat (ev_draw_at <$> order_asc ev_draw_at rows) (Z.to_nat limit) n)
      by (by rewrite length_fmap).
    apply list_bind_ext; [|done]. intros p.
    rewrite <- (order_by_keys ev_draw_at (fun e => env_ties (Es p) (w_step w) (ev_id e))).
    rewrite <- fmap_drop, <- fmap_take, <- list_fmap_compose. by apply list_fmap_ext.
  - intros Hnd. rewrite <- (pages_concat (order_asc ev_draw_at rows) (Z.to_nat limit) n), fmap_bind_list
      by done.
    apply list_bind_ext; [|done]. intros p. by rewrite order_by_unique.
Qed.

Lemma List_pages_complete_witness :
  all_pages (fun _ => calm_env 5) sample_world "open" 1 2 = [event_with_count sample_tables sample_event].
Proof.
  rewrite (proj2 (List_pages_complete (fun _ => calm_env 5) sample_world "open" 1 2
    (fun _ => calm_not_faulty 5) eq_refl ltac:(lia) ltac:(lia) ltac:(vm_compute; lia)));
    [by vm_compute|]. change (NoDup [1000000%Z]). apply NoDup_singleton.
Defined.

(** Two open events with the same [draw_at], and the environments of two
    requests whose queries order them differently. *)
Definition tied_world : world :=
  world_of (mkTables (t_users sample_tables)
    {[ 1%Z := sample_event;
       2%Z := mkEventRow 2 "Twin" "" (ev_capacity sample_event) (ev_winner_count sample_event)
                (ev_draw_at sample_event) EventStatusOpen (ev_created_by sample_event)
                (ev_created_at sample_event) (ev_updated_at sample_event) ]} [] [] ∅)
    (mkSeqs 5 3 1 1).

Definition flipping_env (p : nat) : env :=
  mkEnv (fun _ => NoFault) (fun _ => 5%Z) (fun _ => 5%Z) (fun _ => 5%Z) (fun _ => false)
    (fun _ => None) (fun _ => 0%Z) (fun _ id => if decide (p = 0) then id else (- id)%Z).

(** Ties are not broken across pages.  The query orders by [draw_at] alone:
    a client that asks for the two pages of two events with the same
    [draw_at] can be given one of them twice and the other one not at all. *)
Theorem List_pages_tied :
  (forall p, ~ faulty (flipping_env p)) /\
  event_ID <$> all_pages flipping_env tied_world "open" 1 2 = [1; 1]%Z /\
  ev_id <$> order_asc ev_id (events_in_status "open" (w_tables tied_world)) = [1; 2]%Z.
Proof. split; [by intros p [n []]|]. by split; vm_compute. Qed.

(** The offset of a page is computed in wrapping [int64] arithmetic: there
    are pages far beyond the end for which [List] answers the first page of
    the events, and pages for which it fails. *)
Theorem List_offset_wraps w status :
  storable status = true ->
  (run (calm_env 0) (List_ status (2 ^ 58 + 1) 64) w).1 =
  (run (calm_env 0) (List_ status 1 64) w).1 /\
  (run (calm_env 0) (List_ status (2 ^ 57 + 1) 64) w).1 = Err (Other "querying events").
Proof.
  intros Hs. split; rewrite !List_answer by apply calm_not_faulty; unfold list_page; by rewrite Hs.
Qed.

Lemma List_offset_wraps_witness :
  (run (calm_env 0) (List_ "open" (2 ^ 57 + 1) 64) sample_world).1 = Err (Other "querying events").
Proof. by apply (List_offset_wraps sample_world "open"). Defined.
