(* ===== verification/Codec.v ===== *)
(** * Reading request bodies

    [DecodeJSON] of [src/internal/httpx/respond.go] on the bytes of a body:
    the decoder of [GoJson] with the struct tags of
    [src/internal/models/models.go].  Only the wording of the decoder's error
    messages is left open. *)

From S2P Require Import Prelude GoFmt GoString GoTime GoJson Models.
From Stdlib Require Import Ascii.

(** ** The requests *)

Definition decode_time : decoder Z := fun j old =>
  match j with
  | JNull => Some old
  | JString raw => ParseRFC3339 raw
  | _ => None
  end.

Definition RegisterRequest_fields : list (field RegisterRequest) :=
  [("email", fun j r => v ← decode_string j (reg_Email r);
                        Some (mkRegisterRequest v (reg_Password r) (reg_FullName r)));
   ("password", fun j r => v ← decode_string j (reg_Password r);
                           Some (mkRegisterRequest (reg_Email r) v (reg_FullName r)));
   ("full_name", fun j r => v ← decode_string j (reg_FullName r);
                            Some (mkRegisterRequest (reg_Email r) (reg_Password r) v))].

Definition LoginRequest_fields : list (field LoginRequest) :=
  [("email", fun j r => v ← decode_string j (login_Email r); Some (mkLoginRequest v (login_Password r)));
   ("password", fun j r => v ← decode_string j (login_Password r); Some (mkLoginRequest (login_Email r) v))].

Definition CreateEventRequest_fields : list (field CreateEventRequest) :=
  [("title", fun j r => v ← decode_string j (cer_Title r);
      Some (mkCreateEventRequest v (cer_Description r) (cer_Capacity r) (cer_DrawAt r) (cer_WinnerCount r)));
   ("description", fun j r => v ← decode_string j (cer_Description r);
      Some (mkCreateEventRequest (cer_Title r) v (cer_Capacity r) (cer_DrawAt r) (cer_WinnerCount r)));
   ("capacity", fun j r => v ← decode_int j (cer_Capacity r);
      Some (mkCreateEventRequest (cer_Title r) (cer_Description r) v (cer_DrawAt r) (cer_WinnerCount r)));
   ("draw_at", fun j r => v ← decode_time j (cer_DrawAt r);
      Some (mkCreateEventRequest (cer_Title r) (cer_Description r) (cer_Capacity r) v (cer_WinnerCount r)));
   ("winner_count", fun j r => v ← decode_int j (cer_WinnerCount r);
      Some (mkCreateEventRequest (cer_Title r) (cer_Description r) (cer_Capacity r) (cer_DrawAt r) v))].

(** ** The decoder *)

Inductive json_error := JsonEOF | JsonError (text : string).

(** What the errors of the decoder say about a body. *)
Class JSONErrors := json_error_text : string -> string.

(** [json.NewDecoder(body).Decode]: the value and the input that was not
    consumed; [io.EOF] if there is nothing but white space. *)
Definition Decode `{JSONErrors} {A} (d : decoder A) (zero : A) (body : string) : result json_error (A * string) :=
  match skip_spaces (chars body) with
  | [] => Err JsonEOF
  | _ =>
    match '(j, rest) ← parse (chars body); v ← d j zero; Some (v, rest) with
    | Some (v, rest) => Ok (v, String.string_of_list_ascii rest)
    | None => Err (JsonError (json_error_text body))
    end
  end.

(** The types [DecodeJSON] is called with: the decoder that
    [DisallowUnknownFields] makes strict. *)
Class JSONDecode (A : Type) := json_Decode : string -> result json_error (A * string).

#[export] Instance decode_register `{JSONErrors} : JSONDecode RegisterRequest :=
  Decode (decode_struct true RegisterRequest_fields) (mkRegisterRequest "" "" "").
#[export] Instance decode_login `{JSONErrors} : JSONDecode LoginRequest :=
  Decode (decode_struct true LoginRequest_fields) (mkLoginRequest "" "").
#[export] Instance decode_create `{JSONErrors} : JSONDecode CreateEventRequest :=
  Decode (decode_struct true CreateEventRequest_fields) (mkCreateEventRequest "" "" 0 0 0).

(** [dec.More()]: is there a further byte, and is it not a closing bracket? *)
Definition More (rest : string) : bool :=
  match skip_spaces (chars rest) with
  | [] => false
  | c :: _ => bool_decide (c <> "]"%char /\ c <> "}"%char)
  end.

Definition DecodeJSON {A} `{JSONDecode A} (body : string) : result string A :=
  match json_Decode body with
  | Err JsonEOF => Err "request body is empty"
  | Err (JsonError text) => Err text
  | Ok (v, rest) =>
      if More rest then Err "request body must contain a single JSON object" else Ok v
  end.

(** [json.Unmarshal] into a struct with the one field [email]. *)
Definition unmarshal_email (text : string) : option string :=
  Unmarshal (decode_struct false [("email", decode_string)]) "" text.

(** ** Lemmas: reading what was printed *)

Section Printed.
Context `{JSONErrors}.

Lemma Decode_print {A} (d : decoder A) zero j v :
  written j -> (height j <= maxNestingDepth)%Z -> d j zero = Some v ->
  Decode d zero (String.string_of_list_ascii (print j)) = Ok (v, "").
Proof.
  intros Hw Hh Hd. unfold Decode. rewrite String.list_ascii_of_string_of_list_ascii.
  pose proof (skip_print j [] Hw) as Hs. pose proof (parse_print j [] Hw Hh I) as Hp.
  rewrite app_nil_r in Hs, Hp. rewrite Hs, Hp. destruct (print_head j Hw) as (c & t & -> & _).
  cbn [mbind option_bind]. by rewrite Hd.
Qed.

Lemma written_map (m : list (string * string)) :
  let j := JObject ((fun kv => (quote_text (chars kv.1), json_string kv.2)) <$> m) in
  written j /\ (height j <= maxNestingDepth)%Z.
Proof.
  split.
  - constructor. apply Forall_fmap, Forall_forall. intros kv _. split; [by eexists|constructor].
  - cbn [height]. rewrite <- list_fmap_compose.
    assert (foldr Z.max 0 (((fun m => height m.2) ∘ (fun kv : string * string =>
      (quote_text (chars kv.1), json_string kv.2))) <$> m) <= 0)%Z as Hm; [|unfold maxNestingDepth; lia].
    induction m as [|kv m IH]; [done|]. rewrite fmap_cons. cbn [foldr]. cbn. lia.
Qed.

(** The email a login request gives the handler is the one the key function
    of the login limiter reads, unless something follows the object, in which
    case that reads none. *)
Lemma email_members ms r r' :
  decode_members true LoginRequest_fields ms r = Some r' ->
  decode_members false [("email", decode_string)] ms (login_Email r) = Some (login_Email r').
Proof.
  revert r. induction ms as [|[raw v] ms IH]; intros r; cbn [decode_members]; [by intros [= <-]|].
  destruct (unquote raw) as [key|]; [|done]. cbn [mbind option_bind find_field LoginRequest_fields].
  case_decide as He.
  - cbn. destruct (decode_string v (login_Email r)) as [e|]; [|done]. cbn.
    apply (IH (mkLoginRequest e (login_Password r))).
  - case_decide; [|done]. cbn. destruct (decode_string v (login_Password r)) as [x|]; [|done]. cbn.
    apply (IH (mkLoginRequest (login_Email r) x)).
Qed.

Lemma login_email_agrees text req :
  DecodeJSON (A := LoginRequest) text = Ok req ->
  exists j rest, parse (chars text) = Some (j, rest) /\
    unmarshal_email text = match skip_spaces rest with [] => Some (login_Email req) | _ => None end.
Proof.
  unfold DecodeJSON, json_Decode, decode_login, Decode, unmarshal_email, Unmarshal.
  destruct (skip_spaces (chars text)); [done|].
  destruct (parse (chars text)) as [[j rest]|]; [|done]. cbn [mbind option_bind].
  destruct (decode_struct true LoginRequest_fields j _) as [v|] eqn:Hv; [|done]. cbn [mbind option_bind].
  destruct (More _); [done|]. intros [= <-]. exists j, rest. split; [done|].
  case_decide as Hr; [rewrite Hr|by destruct (skip_spaces rest)].
  destruct j; cbn [decode_struct] in *; try done; [by injection Hv as <-|by eapply email_members in Hv].
Qed.

(** The server reads the login a client marshals. *)
Lemma login_body email password :
  DecodeJSON (A := LoginRequest) (Marshal_map [("email", email); ("password", password)])
  = Ok (mkLoginRequest (coerced email) (coerced password)).
Proof.
  unfold DecodeJSON, json_Decode, decode_login, Marshal_map.
  destruct (written_map [("email", email); ("password", password)]) as [Hw Hh].
  erewrite Decode_print; [reflexivity|exact Hw|exact Hh|].
  cbn [decode_struct fmap list_fmap decode_members fst snd].
  rewrite !unquote_quote_text. cbn [mbind option_bind].
  change (coerce (chars "email")) with (chars "email"). change (coerce (chars "password")) with (chars "password").
  lookup_fields. repeat (rewrite decode_string_json; cbn [mbind option_bind]). reflexivity.
Qed.

(** The server reads the registration a client marshals. *)
Lemma register_body email password name :
  DecodeJSON (A := RegisterRequest)
    (Marshal_map [("email", email); ("full_name", name); ("password", password)])
  = Ok (mkRegisterRequest (coerced email) (coerced password) (coerced name)).
Proof.
  unfold DecodeJSON, json_Decode, decode_register, Marshal_map.
  destruct (written_map [("email", email); ("full_name", name); ("password", password)]) as [Hw Hh].
  erewrite Decode_print; [reflexivity|exact Hw|exact Hh|].
  cbn [decode_struct fmap list_fmap decode_members fst snd].
  rewrite !unquote_quote_text. cbn [mbind option_bind].
  change (coerce (chars "email")) with (chars "email"). change (coerce (chars "password")) with (chars "password").
  change (coerce (chars "full_name")) with (chars "full_name").
  lookup_fields. repeat (rewrite decode_string_json; cbn [mbind option_bind]). reflexivity.
Qed.
End Printed.

(** Some wording, for concrete requests. *)
Module Wording.
#[export] Instance wording : JSONErrors := fun _ => "invalid JSON".
End Wording.
