(* ===== verification/Scenario.v ===== *)
(** * A scenario

    A concrete history on the small database of [Invariant]: two users book
    the event, then it is closed.  The theorems about later stages are
    instantiated on it. *)

From S2P Require Import Prelude Models Database Effects Invariant Booking Events.

(** Run a program for its effect on the world. *)
Definition after {A} (E : env) (p : program A) (w : world) : world := (run E p w).2.

Definition booked_world : world :=
  after (calm_env 7000) (createBooking 1 3) (after (calm_env 5000) (createBooking 1 2) sample_world).

Definition closed_world : world := after (calm_env 9000) (Close 1) booked_world.

Lemma after_booking_inv E eid uid w :
  tables_inv (w_tables w) -> tables_inv (w_tables (after E (createBooking eid uid) w)).
Proof. intros Hinv. by eapply book_post_inv; [|apply createBooking_wp]. Qed.

Lemma after_close_inv E id w :
  tables_inv (w_tables w) -> tables_inv (w_tables (after E (Close id) w)).
Proof. intros Hinv. eapply move_post_inv; [apply close_move_safe|done|apply Close_wp]. Qed.

Lemma booked_world_inv : tables_inv (w_tables booked_world).
Proof. apply after_booking_inv, after_booking_inv, sample_inv. Qed.

Lemma closed_world_inv : tables_inv (w_tables closed_world).
Proof. apply after_close_inv, booked_world_inv. Qed.

(** The committed tables of the scenario, evaluated. *)
Example closed_world_bookings :
  t_bookings (w_tables closed_world) = [mkBooking 1 1 2 5000; mkBooking 2 1 3 7000].
Proof. vm_compute. reflexivity. Qed.
