(* ===== verification/Draw.v ===== *)
(** * The draw

    [src/internal/lottery/service.go]: [RunDraw], one transaction that draws a
    closed event, records every rank in the audit log, seals the record and
    marks the event as drawn; and [GetResults], which reads the record back
    and checks it against its seal. *)

From Stdlib Require Import Factorial.
From S2P Require Import Prelude GoFmt GoTime Models Sha256 Seal Shuffle Database Effects Invariant Scenario.

(** ** Errors *)

Inductive draw_error :=
| ErrEventNotFound
| ErrEventNotClosed (current : EventStatus)
| ErrEventAlreadyDrawn
| ErrEventCancelled
| ErrNoParticipants
| ErrDrawNotDue
| ErrResultsUnavailable
| Other (context : string).

#[export] Instance draw_error_eq_dec : EqDecision draw_error.
Proof. solve_decision. Defined.

(** ** RunDraw *)

Section RunDraw.
Context {R : Type} `{RandSource R}.

(** The two loops over [insert]: the users of a slice get consecutive ranks
    from [rank] on; the records are appended to [acc]. *)
Fixpoint insert_loop (context : string) (eventID total drawnAt rank : Z) (users : list Z)
    (acc : list LotteryDraw) : program (result draw_error (list LotteryDraw)) :=
  match users with
  | [] => mret (Ok acc)
  | uid :: users' =>
    try d := tx_exec (InsertDraw eventID uid rank total entropySource drawnAt)
      catch _ => Other context in
    insert_loop context eventID total drawnAt (rank + 1) users' (acc ++ [d])
  end.

(** The end of the transaction: seal the records, mark the event, commit. *)
Definition seal_draw (eventID : Z) (title : string) (winnerCount totalEntrants drawnAt : Z)
    (winnerRecords waitlistRecords : list LotteryDraw) : program (result draw_error DrawResult) :=
  let digest := drawDigest eventID winnerCount drawnAt (winnerRecords ++ waitlistRecords) in
  try _ := tx_exec (InsertSeal eventID digest sealAlgorithm drawnAt)
    catch _ => Other "sealing draw" in
  try _ := tx_exec (UpdateEventStatus eventID EventStatusDrawn)
    catch _ => Other "marking event as drawn" in
  try _ := perform Commit catch _ => Other "commit draw tx" in
  mret (Ok (mkDrawResult eventID title totalEntrants winnerRecords waitlistRecords
              drawnAt digest IntegrityVerified)).

(** Step 5: the audit rows of the winners and of the waitlist, then the end. *)
Definition record_draw (eventID : Z) (title : string) (winnerCount totalEntrants : Z)
    (winners waitlist : list Z) : program (result draw_error DrawResult) :=
  now ← perform TimeNow;
  let drawnAt := Truncate now Microsecond in
  try winnerRecords :=
    insert_loop "inserting winner" eventID totalEntrants drawnAt 1 winners []
    catch e => e in
  try waitlistRecords :=
    insert_loop "inserting waitlist" eventID totalEntrants drawnAt
      (Z.of_nat (length winners) + 1) waitlist []
    catch e => e in
  seal_draw eventID title winnerCount totalEntrants drawnAt winnerRecords waitlistRecords.

(** [rand] is the state of [crypto/rand.Reader] when the selection starts. *)
Definition RunDraw (rand : R) (eventID : Z) : program (result draw_error DrawResult) :=
  with_tx (fun _ => Other "begin draw tx") (
    try row := tx_exec (SelectDrawEventForUpdate eventID)
      catch err => if decide (err = ErrNoRows) then ErrEventNotFound else Other "locking event" in
    let '(title, status, winnerCount, due) := (row : string * EventStatus * Z * bool) in
    match status with
    | EventStatusDrawn => mret (Err ErrEventAlreadyDrawn)
    | EventStatusCancelled => mret (Err ErrEventCancelled)
    | EventStatusOpen => mret (Err (ErrEventNotClosed status))
    | EventStatusClosed =>
      if negb due then mret (Err ErrDrawNotDue)
      else
      try participants := tx_exec (SelectParticipants eventID)
        catch _ => Other "fetching participants" in
      if decide (length participants = 0) then mret (Err ErrNoParticipants)
      else match SelectWinners participants winnerCount rand with
      | Err _ => mret (Err (Other "lottery selection"))
      | Ok (winners, waitlist, _) =>
          record_draw eventID title winnerCount (Z.of_nat (length participants)) winners waitlist
      end
    end).
End RunDraw.

(** ** GetResults *)

(** One iteration of the loop over the rows. *)
Definition add_row (winnerCount : Z) (result : DrawResult) (d : LotteryDraw) : DrawResult :=
  let '(drawnAt, total) :=
    if IsZero (dr_DrawnAt result) then (draw_DrawnAt d, draw_TotalEntrants d)
    else (dr_DrawnAt result, dr_TotalEntrants result) in
  if decide (draw_DrawRank d <= winnerCount)%Z
  then mkDrawResult (dr_EventID result) (dr_EventTitle result) total
         (dr_Winners result ++ [d]) (dr_Waitlist result) drawnAt
         (dr_Digest result) (dr_Integrity result)
  else mkDrawResult (dr_EventID result) (dr_EventTitle result) total
         (dr_Winners result) (dr_Waitlist result ++ [d]) drawnAt
         (dr_Digest result) (dr_Integrity result).

Definition collect (eventID : Z) (title : string) (winnerCount : Z) (rows : list LotteryDraw)
  : DrawResult :=
  foldl (add_row winnerCount) (mkDrawResult eventID title 0 [] [] 0 "" "") rows.

(** [result.Digest = ...; result.Integrity = ...]. *)
Definition with_integrity (result : DrawResult) (digest integrity : string) : DrawResult :=
  mkDrawResult (dr_EventID result) (dr_EventTitle result) (dr_TotalEntrants result)
    (dr_Winners result) (dr_Waitlist result) (dr_DrawnAt result) digest integrity.

(** The comparison with the stored seal. *)
Definition check_seal (eventID winnerCount : Z) (result : DrawResult) (sealed : string)
  : DrawResult :=
  if decide (drawDigest eventID winnerCount (dr_DrawnAt result)
               (dr_Winners result ++ dr_Waitlist result) = sealed)
  then with_integrity result sealed IntegrityVerified
  else with_integrity result sealed IntegrityMismatch.

(** Load the seal and compare. *)
Definition verify_results (eventID winnerCount : Z) (result : DrawResult)
  : program (Prelude.result draw_error DrawResult) :=
  sealed ← pool_exec (SelectSealDigest eventID);
  match sealed with
  | Err err => if decide (err = ErrNoRows)
               then mret (Ok (with_integrity result (dr_Digest result) IntegrityUnsealed))
               else mret (Err (Other "fetching draw seal"))
  | Ok sealed => mret (Ok (check_seal eventID winnerCount result sealed))
  end.

Definition GetResults (eventID : Z) : program (result draw_error DrawResult) :=
  try row := pool_exec (SelectDrawnEvent eventID)
    catch err => if decide (err = ErrNoRows) then ErrResultsUnavailable
                 else Other "fetching event" in
  let (title, winnerCount) := (row : string * Z) in
  try rows := pool_exec (SelectDraws eventID) catch _ => Other "fetching draw results" in
  verify_results eventID winnerCount (collect eventID title winnerCount rows).

(** ** Specification *)

(** Why a draw of an event is refused at the database time [now]. *)
Definition draw_refusal (t : Tables) (id now : Z) : option draw_error :=
  match t_events t !! id with
  | None => Some ErrEventNotFound
  | Some e =>
    match ev_status e with
    | EventStatusDrawn => Some ErrEventAlreadyDrawn
    | EventStatusCancelled => Some ErrEventCancelled
    | EventStatusOpen => Some (ErrEventNotClosed EventStatusOpen)
    | EventStatusClosed =>
      if decide (pg_time now < ev_draw_at e)%Z then Some ErrDrawNotDue
      else if decide (bookings_of id t = []) then Some ErrNoParticipants
      else None
    end
  end.

(** The pool, in the order the query returns it. *)
Definition participants_of (t : Tables) (id : Z) : list Z :=
  booking_UserID <$> order_asc booking_BookedAt (bookings_of id t).

(** The audit rows of [users], with keys from [k] and ranks from [rank]. *)
Definition audit_rows (id total drawnAt k rank : Z) (users : list Z) : list LotteryDraw :=
  imap (fun i uid => mkDraw (k + Z.of_nat i) id uid (rank + Z.of_nat i)
                       entropySource total drawnAt) users.

(** [rows] records the draw of [users] with ranks from [rank] on, whatever
    keys the sequence gave the rows. *)
Record audit_of (id total drawnAt rank : Z) (users : list Z) (rows : list LotteryDraw) : Prop := {
  ao_users : draw_WinnerUserID <$> rows = users;
  ao_ranks : draw_DrawRank <$> rows = seqZ rank (Z.of_nat (length users));
  ao_fields : Forall (fun d => draw_EventID d = id /\ draw_EntropySource d = entropySource /\
                               draw_TotalEntrants d = total /\ draw_DrawnAt d = drawnAt) rows
}.

(** The tables after a draw with the given audit rows. *)
Definition drawn_tables (t : Tables) (id wc drawnAt now : Z) (rows : list LotteryDraw) : Tables :=
  apply_writes t ((WDraw <$> rows) ++
    [WSeal (mkSealRow id (drawDigest id wc drawnAt rows) sealAlgorithm drawnAt);
     WEventStatus id EventStatusDrawn now]).

(** The answer to a successful draw. *)
Definition drawn_result (e : event_row) (id drawnAt : Z) (nwin : nat) (rows : list LotteryDraw)
  : DrawResult :=
  mkDrawResult id (ev_title e) (Z.of_nat (length rows)) (take nwin rows) (drop nwin rows)
    drawnAt (drawDigest id (ev_winner_count e) drawnAt rows) IntegrityVerified.

Definition is_other (r : result draw_error DrawResult) : Prop :=
  match r with Err (Other _) => True | _ => False end.

(** The answer [r] and the committed tables [t'] after a draw from [t]: a
    refusal, a failed random source or a failed call commits nothing; a
    successful draw commits the rows, the seal and the status together. *)
Definition draw_post {R} `{RandSource R} (faults : Prop) (rand : R) (t : Tables) (k id now : Z)
    (r : result draw_error DrawResult) (t' : Tables) : Prop :=
  (faults /\ is_other r /\ t' = t) \/
  match draw_refusal t id now with
  | Some err => r = Err err /\ t' = t
  | None =>
    exists e, t_events t !! id = Some e /\
    match SelectWinners (participants_of t id) (ev_winner_count e) rand with
    | Err _ => r = Err (Other "lottery selection") /\ t' = t
    | Ok (winners, waitlist, _) =>
      exists clock, let drawnAt := Truncate clock Microsecond in
      let rows := audit_rows id (Z.of_nat (length (participants_of t id))) drawnAt k 1
                    (winners ++ waitlist) in
      t' = drawn_tables t id (ev_winner_count e) drawnAt (pg_time now) rows /\
      (r = Ok (drawn_result e id drawnAt (length winners) rows) \/
       faults /\ r = Err (Other "commit draw tx"))
    end
  end.

(** ** Lemmas *)

Lemma audit_rows_cons id total drawnAt k rank u us :
  audit_rows id total drawnAt k rank (u :: us) =
  mkDraw k id u rank entropySource total drawnAt
  :: audit_rows id total drawnAt (k + 1) (rank + 1) us.
Proof.
  unfold audit_rows. rewrite imap_cons. f_equal; [f_equal; lia|].
  apply imap_ext. intros i x _. simpl. f_equal; lia.
Qed.

Lemma audit_rows_app id total drawnAt k rank us vs :
  audit_rows id total drawnAt k rank (us ++ vs) =
  audit_rows id total drawnAt k rank us ++
  audit_rows id total drawnAt (k + Z.of_nat (length us)) (rank + Z.of_nat (length us)) vs.
Proof.
  unfold audit_rows. rewrite imap_app. f_equal. apply imap_ext. intros i x _. simpl. f_equal; lia.
Qed.

Lemma length_audit_rows id total drawnAt k rank us :
  length (audit_rows id total drawnAt k rank us) = length us.
Proof. apply length_imap. Qed.

Lemma audit_rows_users id total drawnAt k rank us :
  draw_WinnerUserID <$> audit_rows id total drawnAt k rank us = us.
Proof.
  revert k rank. induction us as [|u us IH]; intros k rank; [done|].
  rewrite audit_rows_cons. simpl. by rewrite IH.
Qed.

Lemma audit_rows_ranks id total drawnAt k rank us :
  draw_DrawRank <$> audit_rows id total drawnAt k rank us = seqZ rank (Z.of_nat (length us)).
Proof.
  revert k rank. induction us as [|u us IH]; intros k rank; [done|].
  rewrite audit_rows_cons. simpl length. rewrite Nat2Z.inj_succ, seqZ_cons by lia.
  simpl. rewrite IH. do 2 f_equal; lia.
Qed.

Lemma audit_rows_fields id total drawnAt k rank us :
  Forall (fun d => draw_EventID d = id /\ draw_EntropySource d = entropySource /\
                   draw_TotalEntrants d = total /\ draw_DrawnAt d = drawnAt)
    (audit_rows id total drawnAt k rank us).
Proof.
  revert k rank. induction us as [|u us IH]; intros k rank; [constructor|].
  rewrite audit_rows_cons. by constructor.
Qed.

Lemma audit_rows_of id total drawnAt k rank us :
  audit_of id total drawnAt rank us (audit_rows id total drawnAt k rank us).
Proof. split; [apply audit_rows_users|apply audit_rows_ranks|apply audit_rows_fields]. Qed.

Lemma audit_of_length id total drawnAt rank us rows :
  audit_of id total drawnAt rank us rows -> length rows = length us.
Proof. intros [<- _ _]. by rewrite length_fmap. Qed.

Lemma audit_of_ids id total drawnAt rank us rows :
  audit_of id total drawnAt rank us rows -> Forall (fun d => draw_EventID d = id) rows.
Proof. intros [_ _ Hf]. eapply Forall_impl; [exact Hf|]. by intros d [? _]. Qed.

Lemma pg_time_truncate t : pg_time (Truncate t Microsecond) = Truncate t Microsecond.
Proof.
  unfold pg_time, Truncate, Microsecond. rewrite Z.mul_comm. symmetry.
  apply Z.div_exact; [done|]. rewrite Zminus_mod_idemp_r, Z.sub_diag. done.
Qed.

Lemma apply_writes_app t ws1 ws2 :
  apply_writes t (ws1 ++ ws2) = apply_writes (apply_writes t ws1) ws2.
Proof. apply foldl_app. Qed.

Lemma apply_draws t rows :
  apply_writes t (WDraw <$> rows) =
  mkTables (t_users t) (t_events t) (t_bookings t) (t_draws t ++ rows) (t_seals t).
Proof.
  revert t. induction rows as [|d rows IH]; intros t; simpl.
  - rewrite app_nil_r. by destruct t.
  - rewrite IH. simpl. by rewrite <- app_assoc.
Qed.

(** The audit rows of [us] can be inserted into [t]. *)
Record insertable_ranks (t : Tables) (id total drawnAt rank : Z) (us : list Z) : Prop := {
  ir_event : is_Some (t_events t !! id);
  ir_users : Forall (fun u => is_Some (t_users t !! u)) us;
  ir_free : Forall (fun d => draw_EventID d = id -> draw_DrawRank d < rank)%Z (t_draws t);
  ir_rank : (0 < rank)%Z;
  ir_total : (rank + Z.of_nat (length us) - 1 <= total <= 2147483647)%Z;
  ir_time : pg_time drawnAt = drawnAt
}.

Lemma insert_draw_ok t q id total drawnAt rank u us :
  insertable_ranks t id total drawnAt rank (u :: us) ->
  let d := mkDraw (next_draw q) id u rank entropySource total drawnAt in
  insert_draw t q id u rank total entropySource drawnAt =
    (Ok d, [WDraw d], mkSeqs (next_user q) (next_event q) (next_booking q) (next_draw q + 1)) /\
  insertable_ranks (apply_write t (WDraw d)) id total drawnAt (rank + 1) us.
Proof.
  intros [[e He] [[v Hv] Hus]%Forall_cons Hfree Hrank Htotal Htime] d. simpl length in Htotal.
  rewrite Nat2Z.inj_succ in Htotal. split.
  - unfold insert_draw, fits_int4. rewrite !bool_decide_true by lia. simpl.
    rewrite bool_decide_false.
    + by rewrite He, Hv, Htime.
    + intros (d' & Hd' & Hid & Hrk)%Exists_exists. rewrite Forall_forall in Hfree.
      specialize (Hfree d' Hd' Hid). lia.
  - split; simpl; [by eexists|done| |lia|lia|done].
    apply Forall_app. split; [|apply Forall_singleton; simpl; lia].
    eapply Forall_impl; [exact Hfree|]. simpl. intros d' Hd' Hid. specialize (Hd' Hid). lia.
Qed.

Lemma wp_insert_loop E context id total drawnAt start T us rank acc L w
    (Q : result draw_error (list LotteryDraw) -> world -> Prop) :
  in_tx w T start L ->
  insertable_ranks (apply_writes T L) id total drawnAt rank us ->
  (forall w', faulty E -> w_tables w' = T -> Q (Err (Other context)) w') ->
  (forall w', let rows := audit_rows id total drawnAt (next_draw (w_seqs w)) rank us in
     in_tx w' T start (L ++ (WDraw <$> rows)) ->
     next_draw (w_seqs w') = (next_draw (w_seqs w) + Z.of_nat (length us))%Z ->
     Q (Ok (acc ++ rows)) w') ->
  wp E (insert_loop context id total drawnAt rank us acc) Q w.
Proof.
  intros Hin Hir Hf. revert rank acc L w Hin Hir.
  induction us as [|u us IH]; intros rank acc L w Hin Hir Hok.
  { apply wp_ret. specialize (Hok w). simpl in Hok.
    rewrite !app_nil_r in Hok. apply Hok; [done|lia]. }
  eapply (insert_draw_ok _ (w_seqs w)) in Hir as [Hex Hir].
  simpl. tx_step Hin ltac:(by apply Hf). rewrite Hex. intros Hin' Hq.
  apply (IH _ _ (L ++ [WDraw (mkDraw (next_draw (w_seqs w)) id u rank entropySource total drawnAt)]));
    [done|by rewrite apply_writes_app|].
  intros w' rows Hin'' Hq'. rewrite Hq in Hq'. simpl in Hq'.
  rewrite <- app_assoc. simpl. specialize (Hok w'). rewrite audit_rows_cons in Hok.
  subst rows. rewrite Hq in *. simpl in *. apply Hok.
  - by rewrite <- app_assoc in Hin''.
  - lia.
Qed.

(** The insertions of a draw are possible under the invariant. *)
Lemma draw_insertable t id e users clock :
  tables_inv t -> t_events t !! id = Some e -> ev_status e = EventStatusClosed ->
  users ≡ₚ participants_of t id ->
  insertable_ranks t id (Z.of_nat (length (participants_of t id)))
    (Truncate clock Microsecond) 1 users.
Proof.
  intros Hinv He Hst Hperm.
  assert (participants_of t id ≡ₚ booking_UserID <$> bookings_of id t) as Hpart.
  { unfold participants_of. f_equiv. apply merge_sort_Permutation. }
  pose proof (Permutation_length Hperm) as Hl. pose proof (Permutation_length Hpart) as Hl'.
  rewrite length_fmap in Hl'.
  split; [by eexists| | |lia| |apply pg_time_truncate].
  - rewrite Hperm, Hpart. apply Forall_fmap, Forall_forall.
    intros b [_ Hb]%elem_of_bookings_of. by apply (inv_booking_fk t Hinv).
  - apply Forall_forall. intros d Hd Hid.
    destruct (inv_draw_fk t Hinv d Hd) as (e' & He' & Hst'). congruence.
  - pose proof (inv_capacity t Hinv id e He). pose proof (inv_event_counts t Hinv id e He). lia.
Qed.

Lemma length_participants t id : length (participants_of t id) = length (bookings_of id t).
Proof.
  unfold participants_of, order_asc. by rewrite length_fmap, (merge_sort_Permutation _ _).
Qed.

(** What a transaction that has inserted [rows] still does. *)
Lemma seal_draw_wp E w t start id e drawnAt rows nwin (Q : result draw_error DrawResult -> Tables -> Prop) :
  in_tx w t start (WDraw <$> rows) ->
  t_events t !! id = Some e -> ev_status e = EventStatusClosed -> t_seals t !! id = None ->
  pg_time drawnAt = drawnAt ->
  (faulty E -> forall c, Q (Err (Other c)) t) ->
  (let t' := drawn_tables t id (ev_winner_count e) drawnAt (pg_time start) rows in
   Q (Ok (drawn_result e id drawnAt nwin rows)) t' /\
   (faulty E -> Q (Err (Other "commit draw tx")) t')) ->
  wp E (seal_draw id (ev_title e) (ev_winner_count e) (Z.of_nat (length rows)) drawnAt
          (take nwin rows) (drop nwin rows)) (fun r w' => Q r (w_tables w')) w.
Proof.
  intros Hin He Hst Hns Htime Hf Hok. unfold seal_draw. rewrite take_drop. cbn zeta.
  tx_step Hin ltac:(rewrite Hfail; by apply Hf). rewrite apply_draws.
  unfold insert_seal. simpl. rewrite Hns, He. simpl. rewrite Htime. intros H2 _.
  tx_step H2 ltac:(rewrite Hfail; by apply Hf). rewrite apply_writes_app, apply_draws.
  unfold update_event_status. simpl. rewrite He, bool_decide_false by naive_solver.
  simpl. intros H3 _. rewrite <- app_assoc in H3.
  apply wp_try. eapply wp_commit; [exact H3|intros ? Hfa -> _; by apply Hf|].
  intros w' Ht' _ _. split; [apply wp_ret|]; rewrite Ht'; apply Hok.
Qed.

Lemma record_draw_wp E w t start id e winners waitlist
    (Q : result draw_error DrawResult -> Tables -> Prop) :
  in_tx w t start [] -> tables_inv t ->
  t_events t !! id = Some e -> ev_status e = EventStatusClosed ->
  winners ++ waitlist ≡ₚ participants_of t id ->
  (faulty E -> forall c, Q (Err (Other c)) t) ->
  (forall clock, let drawnAt := Truncate clock Microsecond in
   let rows := audit_rows id (Z.of_nat (length (participants_of t id))) drawnAt
                 (next_draw (w_seqs w)) 1 (winners ++ waitlist) in
   let t' := drawn_tables t id (ev_winner_count e) drawnAt (pg_time start) rows in
   Q (Ok (drawn_result e id drawnAt (length winners) rows)) t' /\
   (faulty E -> Q (Err (Other "commit draw tx")) t')) ->
  wp E (record_draw id (ev_title e) (ev_winner_count e)
          (Z.of_nat (length (participants_of t id))) winners waitlist)
    (fun r w' => Q r (w_tables w')) w.
Proof.
  intros Hin Hinv He Hst Hperm Hf Hok.
  apply wp_bind, wp_now. intros clock w1 Ht1 Htx1 Hq1. specialize (Hok clock). revert Hok.
  assert (in_tx w1 t start []) as Hin1 by (destruct Hin; split; congruence).
  pose proof (draw_insertable t id e _ clock Hinv He Hst Hperm) as Hir.
  pose proof (Permutation_length Hperm) as Hlen.
  set (drawnAt := Truncate clock Microsecond) in *.
  set (total := Z.of_nat (length (participants_of t id))) in *. cbn zeta. intros Hok.
  assert (Forall (fun u => is_Some (t_users t !! u)) winners /\
          Forall (fun u => is_Some (t_users t !! u)) waitlist) as [Hw Hwl]
    by apply Forall_app, (ir_users _ _ _ _ _ _ Hir).
  pose proof (ir_total _ _ _ _ _ _ Hir) as Htot. rewrite length_app in Htot.
  apply wp_try. eapply wp_insert_loop; [exact Hin1| |intros ? Hfa ->; by apply Hf|].
  { destruct Hir. split; try done. lia. }
  rewrite Hq1. intros w2 rows1 Hin2 Hq2. simpl in Hin2.
  apply wp_try. eapply wp_insert_loop; [exact Hin2| |intros ? Hfa ->; by apply Hf|].
  { rewrite apply_draws. destruct Hir. split; simpl; try done; try lia.
    apply Forall_app. split; [eapply Forall_impl; [exact ir_free0|]; simpl; lia|].
    apply Forall_forall. intros d Hd _.
    assert (draw_DrawRank d ∈ seqZ 1 (Z.of_nat (length winners))) as Hr%elem_of_seqZ; [|lia].
    rewrite <- (audit_rows_ranks id total drawnAt (next_draw (w_seqs w))).
    by apply list_elem_of_fmap_2. }
  rewrite Hq2. intros w3 rows2 Hin3 _. simpl in Hin3. rewrite <- fmap_app in Hin3.
  set (rows := audit_rows id total drawnAt (next_draw (w_seqs w)) 1 (winners ++ waitlist)) in *.
  assert (rows1 ++ rows2 = rows) as Hrows.
  { unfold rows. rewrite audit_rows_app. subst rows1 rows2. do 2 f_equal. lia. }
  rewrite Hrows in Hin3.
  assert (length winners = length rows1) as Hl1 by (symmetry; apply length_audit_rows).
  rewrite !app_nil_l, Hl1 in *.
  replace rows1 with (take (length rows1) rows) at 1 by (rewrite <- Hrows; apply take_app_length).
  replace rows2 with (drop (length rows1) rows) by (rewrite <- Hrows; apply drop_app_length).
  replace total with (Z.of_nat (length rows)) by (unfold rows; rewrite length_audit_rows; lia).
  eapply seal_draw_wp; eauto.
  - apply (undrawn_draws t id e); [done..|congruence].
  - apply pg_time_truncate.
Qed.

Lemma RunDraw_wp {R} `{RandSource R} E (rand : R) w id :
  tables_inv (w_tables w) ->
  wp E (RunDraw rand id) (fun r w' =>
    draw_post (faulty E) rand (w_tables w) (next_draw (w_seqs w)) id
      (env_dbclock E (w_step w)) r (w_tables w')) w.
Proof.
  intros Hinv. set (k := next_draw (w_seqs w)). set (now := env_dbclock E (w_step w)).
  assert (faulty E -> forall c, draw_post (faulty E) rand (w_tables w) k id now
    (Err (Other c)) (w_tables w)) as Hoth by (intros Hf c; left; by simpl).
  eapply wp_mono; [apply wp_with_tx; [intros Hf; by apply Hoth|]|by intros ??[]].
  intros w1 H1 Hq1. fold now in H1. set (t := w_tables w) in *.
  tx_step H1 ltac:(rewrite Hfail; case_decide; [done|by apply Hoth]).
  assert (forall w' err, w_tables w' = t -> draw_refusal t id now = Some err ->
    draw_post (faulty E) rand t k id now (Err err) (w_tables w')) as Hrefuse.
  { intros w' err -> Hr. right. by rewrite Hr. }
  destruct (t_events t !! id) as [e|] eqn:He; simpl.
  2: { intros Ht. apply Hrefuse; [done|]. unfold draw_refusal. by rewrite He. }
  intros H2 Hq2. assert (w_tables w0 = t) as Ht2 by apply H2.
  assert (draw_refusal t id now = draw_refusal t id now) as Href by done.
  unfold draw_refusal in Href at 2. rewrite He in Href.
  destruct (ev_status e) eqn:Hst; try (apply wp_ret; by apply Hrefuse).
  case_bool_decide as Hdue; simpl.
  2: { apply wp_ret, Hrefuse; [done|]. rewrite Href. by rewrite decide_True by lia. }
  rewrite decide_False in Href by lia.
  tx_step H2 ltac:(rewrite Hfail; by apply Hoth). fold (participants_of t id). intros H3 Hq3.
  destruct (decide (length (participants_of t id) = 0)) as [Hempty|Hempty].
  { apply wp_ret, Hrefuse; [apply H3|]. rewrite Href. rewrite decide_True; [done|].
    apply nil_length_inv. by rewrite <- length_participants. }
  rewrite decide_False in Href
    by (intros Hb; apply Hempty; by rewrite length_participants, Hb).
  destruct (SelectWinners _ _ rand) as [[[winners waitlist] rand']|er] eqn:Hsel.
  2: { apply wp_ret. destruct H3 as [-> _]. right. rewrite Href. exists e. by rewrite Hsel. }
  pose proof (SelectWinners_ok _ _ _ _ _ _ Hsel) as (_ & _ & Hperm & _).
  eapply record_draw_wp; [exact H3|done..|].
  intros clock. replace (next_draw (w_seqs w2)) with k by (subst k; congruence).
  cbn zeta. split; [|intros Hf]; right; rewrite Href; exists e; rewrite Hsel;
    (split; [done|]); exists clock; auto.
Qed.

(** ** The invariant *)

Lemma drawn_tables_eq t id wc drawnAt now rows :
  drawn_tables t id wc drawnAt now rows =
  mkTables (t_users t) (alter (set_status EventStatusDrawn now) id (t_events t)) (t_bookings t)
    (t_draws t ++ rows)
    (<[id := mkSealRow id (drawDigest id wc drawnAt rows) sealAlgorithm drawnAt]> (t_seals t)).
Proof. unfold drawn_tables. by rewrite apply_writes_app, apply_draws. Qed.

Lemma draws_of_drawn t id wc drawnAt now rows i :
  Forall (fun d => draw_EventID d = id) rows ->
  draws_of i (drawn_tables t id wc drawnAt now rows) =
  draws_of i t ++ (if decide (i = id) then rows else []).
Proof.
  intros Hrows. rewrite drawn_tables_eq. unfold draws_of. simpl. rewrite filter_app. f_equal.
  induction Hrows as [|d rows Hd _ IH]; [by case_decide|].
  rewrite filter_cons, IH. repeat case_decide; congruence.
Qed.

Lemma participants_Permutation t id :
  participants_of t id ≡ₚ booking_UserID <$> bookings_of id t.
Proof. unfold participants_of. f_equiv. apply merge_sort_Permutation. Qed.

(** The event just drawn has a complete, sealed audit trail. *)
Lemma drawn_ok_new t id e drawnAt now users rows :
  tables_inv t -> t_events t !! id = Some e -> ev_status e = EventStatusClosed ->
  users ≡ₚ participants_of t id ->
  audit_of id (Z.of_nat (length (participants_of t id))) drawnAt 1 users rows ->
  drawn_ok (drawn_tables t id (ev_winner_count e) drawnAt now rows)
    (set_status EventStatusDrawn now e).
Proof.
  intros Hinv He Hst Hperm Hao. pose proof (audit_of_length _ _ _ _ _ _ Hao) as Hl.
  pose proof (audit_of_ids _ _ _ _ _ _ Hao) as Hids. destruct Hao as [Hus Hrk Hfields].
  destruct (undrawn_draws t id e Hinv He) as [Hnil _]; [congruence|].
  assert (ev_id (set_status EventStatusDrawn now e) = id) as Hid by apply (inv_event_key t Hinv id e He).
  assert (draws_of id (drawn_tables t id (ev_winner_count e) drawnAt now rows) = rows) as Hrows.
  { by rewrite draws_of_drawn, Hnil, decide_True. }
  split; rewrite Hid, ?Hrows.
  - rewrite Hus, Hperm, participants_Permutation, drawn_tables_eq. done.
  - by rewrite Hrk, Hl.
  - exists drawnAt. split.
    + eapply Forall_impl; [exact Hfields|]. intros d (_ & ? & ? & ?).
      by rewrite Hl, (Permutation_length Hperm).
    + rewrite drawn_tables_eq. simpl. by rewrite lookup_insert_eq.
Qed.

(** The audit trails of other events are not touched. *)
Lemma drawn_ok_old t id wc drawnAt now rows e0 :
  Forall (fun d => draw_EventID d = id) rows -> ev_id e0 <> id ->
  drawn_ok t e0 -> drawn_ok (drawn_tables t id wc drawnAt now rows) e0.
Proof.
  intros Hids Hne [Hus Hrk Hsl].
  assert (draws_of (ev_id e0) (drawn_tables t id wc drawnAt now rows) = draws_of (ev_id e0) t) as Hd.
  { by rewrite draws_of_drawn, decide_False, app_nil_r. }
  split; rewrite ?Hd; [by rewrite drawn_tables_eq|done|].
  rewrite drawn_tables_eq. simpl. by rewrite lookup_insert_ne.
Qed.

(** A draw of a closed event keeps the invariant. *)
Lemma drawn_tables_inv t id e drawnAt now users rows :
  tables_inv t -> t_events t !! id = Some e -> ev_status e = EventStatusClosed ->
  users ≡ₚ participants_of t id ->
  audit_of id (Z.of_nat (length (participants_of t id))) drawnAt 1 users rows ->
  tables_inv (drawn_tables t id (ev_winner_count e) drawnAt now rows).
Proof.
  intros Hinv He Hst Hperm Hao. pose proof (audit_of_ids _ _ _ _ _ _ Hao) as Hids.
  pose proof (fun i => draws_of_drawn t id (ev_winner_count e) drawnAt now rows i Hids) as Hdraws.
  assert (is_Some (t_events t !! id)) as Hsome by eauto.
  rewrite drawn_tables_eq in *.
  pose proof (status_write_lookup t id EventStatusDrawn now) as Hlk. simpl in Hlk.
  pose proof (status_write_is_Some t id EventStatusDrawn now) as Hmono. simpl in Hmono.
  assert (forall i e', t_events t !! i = Some e' -> ev_status e' = EventStatusDrawn ->
    alter (set_status EventStatusDrawn now) id (t_events t) !! i = Some e') as Hold.
  { intros i e' He' Hd. rewrite lookup_alter_ne; [done|]. intros ->. congruence. }
  assert (exists e', alter (set_status EventStatusDrawn now) id (t_events t) !! id = Some e' /\
    ev_status e' = EventStatusDrawn) as Hnew.
  { rewrite lookup_alter_eq, He. simpl. eauto. }
  split; try apply Hinv; cbn [t_users t_events t_bookings t_draws t_seals].
  - intros i e' (e0 & He0 & [[_ ->]|[_ ->]])%Hlk; apply (inv_event_key t Hinv i e0 He0).
  - intros i e' (e0 & He0 & [[_ ->]|[_ ->]])%Hlk; apply (inv_event_counts t Hinv i e0 He0).
  - intros i e' (e0 & He0 & [[_ ->]|[_ ->]])%Hlk; apply (inv_event_creator t Hinv i e0 He0).
  - intros b Hb. destruct (inv_booking_fk t Hinv b Hb). auto.
  - intros i e' (e0 & He0 & [[_ ->]|[_ ->]])%Hlk; apply (inv_capacity t Hinv i e0 He0).
  - intros d [Hd|Hd]%elem_of_app.
    + destruct (inv_draw_fk t Hinv d Hd) as (e' & He' & Hs). eauto.
    + rewrite Forall_forall in Hids. by rewrite (Hids d Hd).
  - intros i s [[<- <-]|[_ Hs]]%lookup_insert_Some; [done|].
    destruct (inv_seal_fk t Hinv i s Hs) as (e' & He' & Hs'). eauto.
  - rewrite <- drawn_tables_eq.
    intros i e' (e0 & He0 & [[Hi ->]|[-> ->]])%Hlk Hd.
    + apply drawn_ok_old; [done| |by apply (inv_drawn t Hinv i e0)].
      by rewrite (inv_event_key t Hinv i e0 He0).
    + rewrite He in He0. injection He0 as <-. by eapply drawn_ok_new.
Qed.

Lemma draw_refusal_None t id now :
  draw_refusal t id now = None ->
  exists e, t_events t !! id = Some e /\ ev_status e = EventStatusClosed /\
    (ev_draw_at e <= pg_time now)%Z /\ bookings_of id t <> [].
Proof.
  unfold draw_refusal. intros H. destruct (t_events t !! id) as [e|]; [|done]. exists e.
  destruct (ev_status e) eqn:Hst; try done. repeat case_decide; try done.
  split_and!; try done. lia.
Qed.

Lemma draw_post_inv {R} `{RandSource R} faults (rand : R) t k id now r t' :
  tables_inv t -> draw_post faults rand t k id now r t' -> tables_inv t'.
Proof.
  intros Hinv [(_ & _ & ->)|Hp]; [done|].
  destruct (draw_refusal t id now) as [err|] eqn:Href; [by destruct Hp as [_ ->]|].
  destruct Hp as (e & He & Hp). apply draw_refusal_None in Href as (e' & He' & Hst & _).
  rewrite He in He'. injection He' as <-.
  destruct (SelectWinners _ _ rand) as [[[winners waitlist] rand']|er] eqn:Hsel;
    [|by destruct Hp as [_ ->]].
  destruct Hp as (clock & -> & _). apply SelectWinners_ok in Hsel as (_ & _ & Hperm & _).
  eapply drawn_tables_inv; eauto using audit_rows_of.
Qed.

(** ** Reading the results back *)

(** The comparison with what is stored as the seal. *)
Definition verified_against (t : Tables) (id wc : Z) (res : DrawResult) : DrawResult :=
  match t_seals t !! id with
  | Some s => check_seal id wc res (seal_digest s)
  | None => with_integrity res (dr_Digest res) IntegrityUnsealed
  end.

(** What [GetResults] answers when the database is reachable. *)
Definition results_of (t : Tables) (id : Z) : result draw_error DrawResult :=
  match t_events t !! id with
  | Some e =>
    if decide (ev_status e = EventStatusDrawn)
    then Ok (verified_against t id (ev_winner_count e)
               (collect id (ev_title e) (ev_winner_count e)
                  (order_asc draw_DrawRank (draws_of id t))))
    else Err ErrResultsUnavailable
  | None => Err ErrResultsUnavailable
  end.

Lemma verify_results_wp E w id wc res :
  wp E (verify_results id wc res) (fun r w' => w_tables w' = w_tables w /\
    (r = Ok (verified_against (w_tables w) id wc res) \/ faulty E /\ is_other r)) w.
Proof.
  apply wp_bind, wp_pool; simpl.
  { intros w1 Hf Ht _. apply wp_ret. rewrite Ht. simpl. auto. }
  intros now w1. unfold verified_against.
  destruct (t_seals (w_tables w) !! id) as [s|]; simpl; intros Ht1 _ _;
    (split; [|intros Hf]); apply wp_ret; rewrite Ht1; simpl; auto.
Qed.

Lemma GetResults_wp E w id :
  wp E (GetResults id) (fun r w' => w_tables w' = w_tables w /\
    (r = results_of (w_tables w) id \/ faulty E /\ is_other r)) w.
Proof.
  apply wp_try, wp_pool; [by simpl; auto|]. intros now w1. unfold results_of. cbn [exec_stmt].
  destruct (t_events (w_tables w) !! id) as [e|]; simpl.
  2: { intros -> _ _. simpl. split; auto. }
  case_guard as Hst; simpl; intros Ht1 _ _.
  2: { rewrite Ht1. split; auto. }
  split; [|rewrite Ht1; by auto].
  apply wp_try, wp_pool; rewrite Ht1; [by simpl; auto|]. intros now2 w2. simpl. intros Ht2 _ _.
  split; [|rewrite Ht2; by simpl; auto].
  eapply wp_mono; [apply verify_results_wp|]. simpl. rewrite Ht2. auto.
Qed.

(** [collect] splits the rows by rank. *)
Lemma foldl_add_row wc rows res :
  let res' := foldl (add_row wc) res rows in
  dr_EventID res' = dr_EventID res /\ dr_EventTitle res' = dr_EventTitle res /\
  dr_Digest res' = dr_Digest res /\ dr_Integrity res' = dr_Integrity res /\
  dr_Winners res' = dr_Winners res ++ filter (fun d => draw_DrawRank d <= wc)%Z rows /\
  dr_Waitlist res' = dr_Waitlist res ++ filter (fun d => ~ (draw_DrawRank d <= wc)%Z) rows.
Proof.
  revert res. induction rows as [|d rows IH]; intros res; simpl.
  { by rewrite !app_nil_r. }
  destruct (IH (add_row wc res d)) as (-> & -> & -> & -> & -> & ->).
  rewrite !filter_cons. unfold add_row.
  destruct (IsZero (dr_DrawnAt res)); case_decide; simpl;
    rewrite ?decide_True, ?decide_False, <- ?app_assoc by tauto; done.
Qed.

Lemma foldl_add_row_stamp wc rows res drawnAt total :
  Forall (fun d => draw_DrawnAt d = drawnAt /\ draw_TotalEntrants d = total) rows ->
  rows <> [] \/ dr_TotalEntrants res = total /\ dr_DrawnAt res = drawnAt ->
  dr_DrawnAt res = 0%Z \/ dr_TotalEntrants res = total /\ dr_DrawnAt res = drawnAt ->
  dr_DrawnAt (foldl (add_row wc) res rows) = drawnAt /\
  dr_TotalEntrants (foldl (add_row wc) res rows) = total.
Proof.
  intros Hrows. revert res. induction Hrows as [|d rows [Hd1 Hd2] _ IH]; intros res Hne Hz; simpl.
  { destruct Hne as [?|[-> ->]]; done. }
  assert (dr_TotalEntrants (add_row wc res d) = total /\
          dr_DrawnAt (add_row wc res d) = drawnAt) as Hs; [|by apply IH; auto].
  unfold add_row, IsZero. case_bool_decide; case_decide; simpl;
    destruct Hz as [?|[? ?]]; auto; congruence.
Qed.

(** Rows with consecutive ranks are cut at the winner count. *)
Lemma filter_ranks (rows : list LotteryDraw) start wc :
  draw_DrawRank <$> rows = seqZ start (Z.of_nat (length rows)) ->
  filter (fun d => draw_DrawRank d <= wc)%Z rows = take (Z.to_nat (wc - start + 1)) rows /\
  filter (fun d => ~ (draw_DrawRank d <= wc)%Z) rows = drop (Z.to_nat (wc - start + 1)) rows.
Proof.
  revert start. induction rows as [|d rows IH]; intros start Hr.
  { by rewrite take_nil, drop_nil. }
  simpl length in Hr. rewrite Nat2Z.inj_succ, seqZ_cons in Hr by lia.
  rewrite fmap_cons in Hr. injection Hr as Hd Hr.
  rewrite Z.pred_succ in Hr.
  apply IH in Hr as [IH1 IH2]. rewrite !filter_cons, Hd, IH1, IH2.
  destruct (decide (start <= wc)%Z).
  - rewrite decide_False by tauto.
    replace (Z.to_nat (wc - start + 1)) with (S (Z.to_nat (wc - Z.succ start + 1))) by lia. done.
  - rewrite decide_True by tauto.
    replace (Z.to_nat (wc - start + 1)) with 0 by lia.
    replace (Z.to_nat (wc - Z.succ start + 1)) with 0 by lia. done.
Qed.

Lemma seqZ_lookup_lt (rows : list LotteryDraw) start i j x y :
  draw_DrawRank <$> rows = seqZ start (Z.of_nat (length rows)) ->
  rows !! i = Some x -> rows !! j = Some y ->
  (draw_DrawRank x = start + Z.of_nat i)%Z /\ (draw_DrawRank y = start + Z.of_nat j)%Z.
Proof.
  intros Hr Hx Hy. split.
  - assert ((draw_DrawRank <$> rows) !! i = Some (draw_DrawRank x)) as H
      by (by rewrite list_lookup_fmap, Hx).
    rewrite Hr in H. apply lookup_seqZ in H as [-> _]. done.
  - assert ((draw_DrawRank <$> rows) !! j = Some (draw_DrawRank y)) as H
      by (by rewrite list_lookup_fmap, Hy).
    rewrite Hr in H. apply lookup_seqZ in H as [-> _]. done.
Qed.

(** Sorting by rank leaves such rows as they are. *)
Lemma order_ranks (rows : list LotteryDraw) :
  draw_DrawRank <$> rows = seqZ 1 (Z.of_nat (length rows)) ->
  order_asc draw_DrawRank rows = rows.
Proof.
  intros Hr. apply (StronglySorted_unique_strong (key_le draw_DrawRank)).
  - intros x y Hx Hy Hxy Hyx. unfold order_asc in Hx. rewrite merge_sort_Permutation in Hx.
    apply list_elem_of_lookup in Hx as [i Hi], Hy as [j Hj].
    destruct (seqZ_lookup_lt rows 1 i j x y Hr Hi Hj) as [E1 E2].
    unfold key_le in *. assert (i = j) as -> by lia. congruence.
  - apply StronglySorted_merge_sort; apply _.
  - revert Hr. generalize 1%Z as s. induction rows as [|d rows IH]; intros s Hr; constructor.
    + simpl length in Hr. rewrite Nat2Z.inj_succ, seqZ_cons in Hr by lia.
      rewrite Z.pred_succ in Hr. injection Hr as Hd Hr. by apply (IH (Z.succ s)).
    + apply Forall_forall. intros y [j Hj]%list_elem_of_lookup.
      destruct (seqZ_lookup_lt (d :: rows) s 0 (S j) d y Hr eq_refl Hj).
      unfold key_le. lia.
  - apply merge_sort_Permutation.
Qed.

(** The results of a drawn event under the invariant: the first
    [winner_count] ranks won, the rest wait, and the record is verified. *)
Lemma results_of_drawn t id e :
  tables_inv t -> t_events t !! id = Some e -> ev_status e = EventStatusDrawn ->
  draws_of id t <> [] ->
  exists drawnAt,
    Forall (fun d => draw_DrawnAt d = drawnAt) (draws_of id t) /\
    results_of t id = Ok (drawn_result e id drawnAt (Z.to_nat (ev_winner_count e)) (draws_of id t)).
Proof.
  intros Hinv He Hst Hne. destruct (inv_drawn t Hinv id e He Hst) as [_ Hrk (drawnAt & Hf & Hseal)].
  rewrite (inv_event_key t Hinv id e He) in *. exists drawnAt.
  split; [eapply Forall_impl; [exact Hf|]; by intros d (_ & _ & ?)|].
  unfold results_of, verified_against. rewrite He, decide_True, Hseal, order_ranks by done.
  destruct (foldl_add_row_stamp (ev_winner_count e) (draws_of id t)
    (mkDrawResult id (ev_title e) 0 [] [] 0 "" "") drawnAt (Z.of_nat (length (draws_of id t))))
    as [Hat Htot]; [|by auto..|].
  { eapply Forall_impl; [exact Hf|]. naive_solver. }
  destruct (foldl_add_row (ev_winner_count e) (draws_of id t)
    (mkDrawResult id (ev_title e) 0 [] [] 0 "" "")) as (H1 & H2 & H3 & H4 & H5 & H6).
  destruct (filter_ranks (draws_of id t) 1 (ev_winner_count e) Hrk) as [Hw Hl].
  rewrite Hw in H5. rewrite Hl in H6. replace (ev_winner_count e - 1 + 1)%Z with (ev_winner_count e) in * by lia.
  unfold check_seal, collect. rewrite H5, H6, Hat. simpl. rewrite take_drop, decide_True by done.
  unfold with_integrity, drawn_result. by rewrite H1, H2, Htot, H5, H6, Hat.
Qed.

(** The answer to a successful draw names exactly the selected users. *)
Lemma drawn_result_users e id total drawnAt k winners waitlist :
  let res := drawn_result e id drawnAt (length winners)
               (audit_rows id total drawnAt k 1 (winners ++ waitlist)) in
  draw_WinnerUserID <$> dr_Winners res = winners /\
  draw_WinnerUserID <$> dr_Waitlist res = waitlist.
Proof.
  simpl. rewrite fmap_take, fmap_drop, audit_rows_users.
  by rewrite take_app_length, drop_app_length.
Qed.

(** A draw that succeeds, taken apart. *)
Lemma RunDraw_ok {R} `{RandSource R} E (rand : R) w id res w' :
  tables_inv (w_tables w) -> run E (RunDraw rand id) w = (Ok res, w') ->
  exists e winners waitlist rand' clock,
    let t := w_tables w in let drawnAt := Truncate clock Microsecond in
    let rows := audit_rows id (Z.of_nat (length (participants_of t id))) drawnAt
                  (next_draw (w_seqs w)) 1 (winners ++ waitlist) in
    t_events t !! id = Some e /\ ev_status e = EventStatusClosed /\
    (ev_draw_at e <= pg_time (env_dbclock E (w_step w)))%Z /\ bookings_of id t <> [] /\
    SelectWinners (participants_of t id) (ev_winner_count e) rand = Ok (winners, waitlist, rand') /\
    res = drawn_result e id drawnAt (length winners) rows /\
    w_tables w' = drawn_tables t id (ev_winner_count e) drawnAt
                    (pg_time (env_dbclock E (w_step w))) rows.
Proof.
  intros Hinv Hrun.
  destruct (wp_run _ _ _ _ _ Hrun (RunDraw_wp E rand w id Hinv)) as [(_ & [] & _)|Hp].
  destruct (draw_refusal _ _ _) as [err|] eqn:Href; [by destruct Hp|].
  destruct Hp as (e & He & Hp). apply draw_refusal_None in Href as (e' & He' & Hst & Hdue & Hne).
  rewrite He in He'. injection He' as <-.
  destruct (SelectWinners _ _ rand) as [[[winners waitlist] rand']|er] eqn:Hsel; [|by destruct Hp].
  destruct Hp as (clock & Ht & [[= ->]|[_ ?]]); [|done].
  exists e, winners, waitlist, rand', clock. done.
Qed.

(** The answer to a draw when nothing fails and nothing refuses it. *)
Lemma RunDraw_runs {R} `{RandSource R} E (rand : R) w id e :
  tables_inv (w_tables w) -> ~ faulty E ->
  draw_refusal (w_tables w) id (env_dbclock E (w_step w)) = None ->
  t_events (w_tables w) !! id = Some e ->
  match SelectWinners (participants_of (w_tables w) id) (ev_winner_count e) rand with
  | Err _ => (run E (RunDraw rand id) w).1 = Err (Other "lottery selection")
  | Ok (winners, waitlist, _) => exists res,
      (run E (RunDraw rand id) w).1 = Ok res /\
      draw_WinnerUserID <$> dr_Winners res = winners /\
      draw_WinnerUserID <$> dr_Waitlist res = waitlist
  end.
Proof.
  intros Hinv Hnf Href He. destruct (RunDraw_wp E rand w id Hinv) as [[? _]|Hp]; [done|].
  rewrite Href in Hp. destruct Hp as (e' & He' & Hp). rewrite He in He'. injection He' as <-.
  destruct (SelectWinners _ _ rand) as [[[winners waitlist] rand']|er]; [|by destruct Hp].
  destruct Hp as (clock & _ & [Hr|[? _]]); [|done]. eexists. split; [exact Hr|].
  apply drawn_result_users.
Qed.

(** Does the answer to a draw make [p] a winner? *)
Definition wins (p : Z) (r : result draw_error DrawResult) : Prop :=
  match r with
  | Ok res => p ∈ (draw_WinnerUserID <$> dr_Winners res)
  | Err _ => False
  end.

#[export] Instance wins_dec p r : Decision (wins p r).
Proof. destruct r; simpl; apply _. Defined.

(** The results read back from the tables a draw left behind. *)
Lemma RunDraw_results {R} `{RandSource R} E (rand : R) w id res w' :
  tables_inv (w_tables w) -> run E (RunDraw rand id) w = (Ok res, w') ->
  results_of (w_tables w') id = Ok res.
Proof.
  intros Hinv Hrun.
  assert (tables_inv (w_tables w')) as Hinv'.
  { eapply draw_post_inv; [exact Hinv|].
    exact (wp_run _ _ _ _ _ Hrun (RunDraw_wp E rand w id Hinv)). }
  destruct (RunDraw_ok E rand w id res w' Hinv Hrun)
    as (e & winners & waitlist & rand' & clock & He & Hst & _ & Hne & Hsel & -> & Ht').
  set (drawnAt := Truncate clock Microsecond) in *. set (rows := audit_rows _ _ _ _ _ _) in *.
  apply SelectWinners_ok in Hsel as (_ & _ & Hperm & Hlen).
  pose proof (Permutation_length Hperm) as Hn. rewrite length_participants in Hlen, Hn.
  assert (length rows = length (bookings_of id (w_tables w))) as Hlr
    by (unfold rows; by rewrite length_audit_rows).
  pose proof (audit_rows_fields id (Z.of_nat (length (participants_of (w_tables w) id))) drawnAt
    (next_draw (w_seqs w)) 1 (winners ++ waitlist)) as Hfields. fold rows in Hfields.
  assert (draws_of id (w_tables w') = rows) as Hrows.
  { rewrite Ht', draws_of_drawn, decide_True by
      (done || (eapply Forall_impl; [exact Hfields|]; by intros d [? _])).
    destruct (undrawn_draws (w_tables w) id e Hinv He) as [-> _]; [congruence|done]. }
  assert (rows <> []) as Hrne.
  { intros Hr. rewrite Hr in Hlr. by destruct (bookings_of id (w_tables w)). }
  destruct (results_of_drawn (w_tables w') id (set_status EventStatusDrawn
    (pg_time (env_dbclock E (w_step w))) e) Hinv') as (drawnAt' & Hat & ->); [|done|by rewrite Hrows|].
  { rewrite Ht', drawn_tables_eq. simpl. by rewrite lookup_alter_eq, He. }
  rewrite Hrows in Hat |- *. assert (drawnAt' = drawnAt) as ->.
  { destruct rows as [|d rows']; [done|].
    apply Forall_cons in Hat as [<- _]. apply Forall_cons in Hfields as [(_ & _ & _ & ?) _]. done. }
  f_equal. unfold drawn_result. simpl.
  destruct (decide (ev_winner_count e <= Z.of_nat (length rows))%Z).
  - by replace (Z.to_nat (ev_winner_count e)) with (length winners) by lia.
  - rewrite !take_ge, !drop_ge by lia. done.
Qed.

(** A verified answer, taken apart. *)
Lemma GetResults_verified E w id res w' s :
  run E (GetResults id) w = (Ok res, w') -> dr_Integrity res = IntegrityVerified ->
  t_seals (w_tables w) !! id = Some s ->
  exists e, t_events (w_tables w) !! id = Some e /\ ev_status e = EventStatusDrawn /\
    dr_Winners res ++ dr_Waitlist res ≡ₚ draws_of id (w_tables w) /\
    drawDigest id (ev_winner_count e) (dr_DrawnAt res) (dr_Winners res ++ dr_Waitlist res)
      = seal_digest s.
Proof.
  intros Hrun Hint Hs.
  destruct (wp_run _ _ _ _ _ Hrun (GetResults_wp E w id)) as (_ & [Hr|[_ []]]).
  revert Hr. unfold results_of, verified_against. rewrite Hs.
  destruct (t_events (w_tables w) !! id) as [e|]; [|done]. case_decide as Hst; [|done].
  intros [= ->]. exists e. split_and!; [done..| |].
  - destruct (foldl_add_row (ev_winner_count e) (order_asc draw_DrawRank (draws_of id (w_tables w)))
      (mkDrawResult id (ev_title e) 0 [] [] 0 "" "")) as (_ & _ & _ & _ & H5 & H6).
    fold (collect id (ev_title e) (ev_winner_count e)
      (order_asc draw_DrawRank (draws_of id (w_tables w)))) in H5, H6.
    unfold check_seal. transitivity (order_asc draw_DrawRank (draws_of id (w_tables w)));
      [|apply merge_sort_Permutation].
    case_decide; simpl; rewrite H5, H6; simpl; apply filter_partition.
  - revert Hint. unfold check_seal. case_decide; simpl; [done|]. done.
Qed.

(** ** Properties *)

(** C2: [RunDraw] on every branch and under every failure of the database.
    The draw is refused with the error its status, time or empty pool calls
    for, or by a failed random source, and then nothing is committed; a
    failed call commits nothing; otherwise the audit rows, the seal and the
    new status are committed together, and the answer describes exactly what
    was committed (only the answer to the commit itself can be lost). *)
Theorem RunDraw_correct {R} `{RandSource R} E (rand : R) w id :
  tables_inv (w_tables w) ->
  wp E (RunDraw rand id) (fun r w' =>
    draw_post (faulty E) rand (w_tables w) (next_draw (w_seqs w)) id
      (env_dbclock E (w_step w)) r (w_tables w')) w.
Proof. apply RunDraw_wp. Qed.

Lemma RunDraw_correct_witness :
  wp (calm_env 2000000) (RunDraw [0] 1) (fun r w' =>
    draw_post (faulty (calm_env 2000000)) [0] (w_tables closed_world)
      (next_draw (w_seqs closed_world)) 1 2000000 r (w_tables w')) closed_world.
Proof. apply (RunDraw_correct (calm_env 2000000) [0] closed_world 1), closed_world_inv. Defined.

(** What a draw that succeeds establishes.  The event was closed, due and
    had entrants; the winners and the waitlist are what the selection
    returned, [min(winner_count, n)] winners, and together every booked user
    exactly once; the committed event is drawn and its audit trail is complete,
    ranked [1..n] and sealed. *)
Theorem RunDraw_outcome {R} `{RandSource R} E (rand : R) w id res w' :
  tables_inv (w_tables w) -> run E (RunDraw rand id) w = (Ok res, w') ->
  exists e e', t_events (w_tables w) !! id = Some e /\ ev_status e = EventStatusClosed /\
    (ev_draw_at e <= pg_time (env_dbclock E (w_step w)))%Z /\
    (draw_WinnerUserID <$> dr_Winners res ++ dr_Waitlist res)
      ≡ₚ (booking_UserID <$> bookings_of id (w_tables w)) /\
    NoDup (draw_WinnerUserID <$> dr_Winners res ++ dr_Waitlist res) /\
    Z.of_nat (length (dr_Winners res)) =
      Z.min (ev_winner_count e) (Z.of_nat (length (bookings_of id (w_tables w)))) /\
    draws_of id (w_tables w') = dr_Winners res ++ dr_Waitlist res /\
    t_events (w_tables w') !! id = Some e' /\ ev_status e' = EventStatusDrawn /\
    drawn_ok (w_tables w') e'.
Proof.
  intros Hinv Hrun.
  destruct (RunDraw_ok E rand w id res w' Hinv Hrun)
    as (e & winners & waitlist & rand' & clock & He & Hst & Hdue & _ & Hsel & -> & Ht').
  apply SelectWinners_ok in Hsel as (_ & _ & Hperm & Hlen).
  set (now := pg_time _) in *. exists e, (set_status EventStatusDrawn now e).
  assert (draw_WinnerUserID <$> audit_rows id (Z.of_nat (length (participants_of (w_tables w) id)))
    (Truncate clock Microsecond) (next_draw (w_seqs w)) 1 (winners ++ waitlist)
    ≡ₚ booking_UserID <$> bookings_of id (w_tables w)) as Hus.
  { by rewrite audit_rows_users, Hperm, participants_Permutation. }
  rewrite Ht'. simpl. rewrite take_drop. split_and!; try done.
  - rewrite Hus. by apply entrants_NoDup.
  - rewrite length_take, length_audit_rows, length_app.
    rewrite length_participants in Hlen. lia.
  - rewrite draws_of_drawn, decide_True by
      (done || (eapply Forall_impl; [apply audit_rows_fields|]; by intros d [? _])).
    destruct (undrawn_draws (w_tables w) id e Hinv He) as [-> _]; [congruence|done].
  - rewrite drawn_tables_eq. simpl. by rewrite lookup_alter_eq, He.
  - eapply drawn_ok_new; eauto using audit_rows_of.
Qed.

Lemma RunDraw_outcome_witness :
  exists res w', run (calm_env 2000000) (RunDraw [0] 1) closed_world = (Ok res, w') /\
    draw_WinnerUserID <$> dr_Winners res ++ dr_Waitlist res ≡ₚ [2; 3]%Z.
Proof.
  destruct (run (calm_env 2000000) (RunDraw [0] 1) closed_world) as [[res|] w'] eqn:Hrun;
    [|exfalso; by vm_compute in Hrun].
  exists res, w'. split; [done|].
  destruct (RunDraw_outcome (calm_env 2000000) [0] closed_world 1 res w')
    as (e & e' & _ & _ & _ & Hp & _); [apply closed_world_inv|done|].
  rewrite Hp. by vm_compute.
Defined.

(** C21: the whole draw is fair.  For a closed, due event with [n] entrants and
    [count <= n] winners, of the [n!] equally likely answer sequences of the
    random source exactly [count * (n-1)!] make [RunDraw] report a given
    entrant as a winner. *)
Theorem RunDraw_fair E w id e p :
  tables_inv (w_tables w) -> ~ faulty E ->
  draw_refusal (w_tables w) id (env_dbclock E (w_step w)) = None ->
  t_events (w_tables w) !! id = Some e ->
  p ∈ (booking_UserID <$> bookings_of id (w_tables w)) ->
  let n := length (bookings_of id (w_tables w)) in
  (ev_winner_count e <= Z.of_nat n)%Z ->
  length (filter (fun tape => wins p (run E (RunDraw tape id) w).1) (choice_tapes (n - 1)))
  = Z.to_nat (ev_winner_count e) * fact (n - 1).
Proof.
  intros Hinv Hnf Href He Hp n Hwc. subst n. rewrite <- length_participants in *.
  rewrite <- (count_winning_tapes (participants_of (w_tables w) id) (ev_winner_count e) p).
  - apply length_filter_ext. intros tape Ht. unfold winners_by.
    pose proof (RunDraw_runs E tape w id e Hinv Hnf Href He) as Hr.
    destruct (SelectWinners _ _ tape) as [[[winners waitlist] rest]|er].
    + destruct Hr as (res & -> & Hw & _). simpl. by rewrite Hw.
    + rewrite Hr. simpl. by rewrite elem_of_nil.
  - rewrite participants_Permutation. by apply entrants_NoDup.
  - by rewrite participants_Permutation.
  - pose proof (inv_event_counts _ Hinv id e He). lia.
Qed.

Lemma RunDraw_fair_witness :
  length (filter (fun tape => wins 3 (run (calm_env 2000000) (RunDraw tape 1) closed_world).1)
            (choice_tapes 1)) = 1.
Proof.
  refine (RunDraw_fair (calm_env 2000000) closed_world 1
            (mkEventRow 1 "Gala" "" 2 1 1000000 EventStatusClosed 1 0 9000) 3 _ _ _ _ _ _).
  - apply closed_world_inv.
  - apply calm_not_faulty.
  - by vm_compute.
  - by vm_compute.
  - apply (bool_decide_unpack _). vm_compute. exact I.
  - by vm_compute.
Defined.

(** C10: reading the results gives back the draw.  After a successful
    [RunDraw], [GetResults] on the committed tables (with the database
    reachable) returns the very same result: winners, waitlist, time, digest
    and the verdict that the record is verified. *)
Theorem RunDraw_GetResults {R} `{RandSource R} E E' (rand : R) w id res w' :
  tables_inv (w_tables w) -> run E (RunDraw rand id) w = (Ok res, w') -> ~ faulty E' ->
  (run E' (GetResults id) w').1 = Ok res /\ dr_Integrity res = IntegrityVerified.
Proof.
  intros Hinv Hrun Hnf. split.
  - destruct (GetResults_wp E' w' id) as (_ & [->|[? _]]); [|done]. by eapply RunDraw_results.
  - destruct (RunDraw_ok E rand w id res w' Hinv Hrun) as (? & ? & ? & ? & ? & H'). naive_solver.
Qed.

Lemma RunDraw_GetResults_witness :
  exists res w', run (calm_env 2000000) (RunDraw [0] 1) closed_world = (Ok res, w') /\
    (run (calm_env 3000000) (GetResults 1) w').1 = Ok res.
Proof.
  destruct (run (calm_env 2000000) (RunDraw [0] 1) closed_world) as [[res|] w'] eqn:Hrun;
    [|exfalso; by vm_compute in Hrun].
  exists res, w'. split; [done|].
  apply (RunDraw_GetResults (calm_env 2000000) (calm_env 3000000) [0] closed_world 1 res w');
    [apply closed_world_inv|done|apply calm_not_faulty].
Defined.

(** C7: the seal makes tampering evident.  Suppose the stored seal is the
    digest of a draw of event [id] with winner count [wc], time [drawnAt] and
    rows [rows], and the tables were changed in any way since.  If [GetResults]
    still reports [verified], then the winner count, the time and, row by row
    in rank order, the rank, the winner, the entropy source and the number of
    entrants are those of the draw, or two specific different texts have the
    same SHA-256 digest. *)
Theorem GetResults_tamper_evident E w id res w' s wc drawnAt rows :
  run E (GetResults id) w = (Ok res, w') -> dr_Integrity res = IntegrityVerified ->
  t_seals (w_tables w) !! id = Some s ->
  seal_digest s = drawDigest id wc drawnAt rows ->
  (0 <= drawnAt)%Z -> (0 <= dr_DrawnAt res)%Z -> Forall one_line rows ->
  exists e, t_events (w_tables w) !! id = Some e /\
    dr_Winners res ++ dr_Waitlist res ≡ₚ draws_of id (w_tables w) /\
    ((ev_winner_count e = wc /\ dr_DrawnAt res = drawnAt /\
      line_fields <$> dr_Winners res ++ dr_Waitlist res = line_fields <$> rows) \/
     collide (bytes_of (seal_text id wc drawnAt rows))
       (bytes_of (seal_text id (ev_winner_count e) (dr_DrawnAt res)
                    (dr_Winners res ++ dr_Waitlist res)))).
Proof.
  intros Hrun Hint Hs Hd Ht Ht' Hone.
  destruct (GetResults_verified E w id res w' s Hrun Hint Hs) as (e & He & _ & Hperm & Hdig).
  exists e. split_and!; [done..|]. rewrite Hd in Hdig. symmetry in Hdig.
  apply drawDigest_text in Hdig as [Htext|Hcol]; [left|by right].
  apply seal_text_inj in Htext; [|done..]. naive_solver.
Qed.

Definition drawn_world : world := after (calm_env 2000000) (RunDraw [0] 1) closed_world.

Lemma GetResults_tamper_evident_witness :
  exists res w' e, run (calm_env 3000000) (GetResults 1) drawn_world = (Ok res, w') /\
    t_events (w_tables drawn_world) !! 1%Z = Some e /\
    dr_Winners res ++ dr_Waitlist res ≡ₚ draws_of 1 (w_tables drawn_world).
Proof.
  destruct (run (calm_env 3000000) (GetResults 1) drawn_world) as [[res|] w'] eqn:Hrun;
    [|exfalso; by vm_compute in Hrun].
  assert (results_of (w_tables drawn_world) 1 = Ok res) as Hres.
  { destruct (wp_run _ _ _ _ _ Hrun (GetResults_wp (calm_env 3000000) drawn_world 1))
      as (_ & [Hr|[Hf _]]); [done|by destruct (calm_not_faulty 3000000)]. }
  vm_compute in Hres. injection Hres as Hres.
  destruct (GetResults_tamper_evident (calm_env 3000000) drawn_world 1 res w'
    (mkSealRow 1 (drawDigest 1 1 2000000 (draws_of 1 (w_tables drawn_world))) sealAlgorithm 2000000)
    1 2000000 (draws_of 1 (w_tables drawn_world))) as (e & He & Hp & _).
  - exact Hrun.
  - by rewrite <- Hres.
  - vm_compute. reflexivity.
  - reflexivity.
  - done.
  - rewrite <- Hres. done.
  - apply (bool_decide_unpack _). vm_compute. exact I.
  - exists res, w', e. auto.
Defined.
