(* ===== verification/AuditTrail.v ===== *)
(** * The audit trail under arbitrary statements

    The schema of [src/internal/db/migrations] as a guard: the services send
    the statements of [Database], but anybody with a connection can send
    others.  Here a statement is any [INSERT], [UPDATE], [DELETE] or
    [TRUNCATE] on one of the five tables, sent by the runtime role
    [lottery_app] or by the owner; it runs under the privileges, granted as
    [002_harden_audit.sql] writes them, the triggers of that file and the
    constraints of [001_init.sql].

    Two results: the runtime role's privileges cover every statement of the
    services (with its reads, row locks and sequences), and whatever statements are sent, a draw that [GetResults] still
    reports as verified is the draw that was sealed. *)

From stdpp Require Import sorting.
From S2P Require Import Prelude GoFmt GoTime Models Sha256 Seal Shuffle Database Effects Invariant Growth Scenario Draw.

(** ** Statements *)

(** The four kinds of data change.  [Update f] changes every row on which [f]
    is defined (the [WHERE] clause) to the row [f] gives; [Delete p] removes
    the rows that satisfy [p]. *)
Inductive change (Row : Type) :=
| Insert (rows : list Row)
| Update (f : Row -> option Row)
| Delete (p : Row -> bool)
| Truncate (cascade : bool).
Arguments Insert {Row} rows.
Arguments Update {Row} f.
Arguments Delete {Row} p.
Arguments Truncate {Row} cascade.

Inductive dml :=
| OnUsers (c : change User)
| OnEvents (c : change event_row)
| OnBookings (c : change Booking)
| OnDraws (c : change LotteryDraw)
| OnSeals (c : change seal_row).

Inductive role := lottery_app | owner.

(** ** Privileges *)

Inductive privilege := USAGE | SELECT | INSERT | UPDATE | DELETE | TRUNCATE.

Inductive table :=
| users | events | bookings | lottery_draws | lottery_draw_seals | schema_migrations.

(** What privileges are granted on: the schema [public], its tables, and the
    sequence of the [BIGSERIAL] key of a table. *)
Inductive object := SchemaPublic | Table (tb : table) | Sequence (tb : table).

#[export] Instance privilege_eq_dec : EqDecision privilege.
Proof. solve_decision. Defined.
#[export] Instance table_eq_dec : EqDecision table.
Proof. solve_decision. Defined.
#[export] Instance object_eq_dec : EqDecision object.
Proof. solve_decision. Defined.

(** The sequences of the schema: [lottery_draw_seals] and [schema_migrations]
    have no serial key. *)
Definition all_sequences : list object :=
  [Sequence users; Sequence events; Sequence bookings; Sequence lottery_draws].

(** The [GRANT] statements, in their order, to a role all of whose privileges
    have just been revoked (on a database that has this role). *)
Definition grants : list (list privilege * list object) :=
  [([USAGE], [SchemaPublic]);
   ([SELECT; INSERT; UPDATE], [Table users; Table events]);
   ([SELECT; INSERT], [Table bookings; Table lottery_draws; Table lottery_draw_seals]);
   ([SELECT], [Table schema_migrations]);
   ([USAGE; SELECT], all_sequences)].

(** The owner of the tables has every privilege on them. *)
Definition granted (r : role) (p : privilege) (o : object) : bool :=
  match r with
  | owner => true
  | lottery_app => existsb (fun g => bool_decide (p ∈ g.1 /\ o ∈ g.2)) grants
  end.

Definition all_granted (r : role) (ps : list (privilege * object)) : bool :=
  forallb (fun po => granted r po.1 po.2) ps.

(** What a statement needs at the least: to find the table, and to change it. *)
Definition change_needs {Row} (tb : table) (c : change Row) : list (privilege * object) :=
  [(USAGE, SchemaPublic);
   (match c with
    | Insert _ => INSERT
    | Update _ => UPDATE
    | Delete _ => DELETE
    | Truncate _ => TRUNCATE
    end, Table tb)].

Definition dml_needs (d : dml) : list (privilege * object) :=
  match d with
  | OnUsers c => change_needs users c
  | OnEvents c => change_needs events c
  | OnBookings c => change_needs bookings c
  | OnDraws c => change_needs lottery_draws c
  | OnSeals c => change_needs lottery_draw_seals c
  end.

(** What the statements of the services need.  Naming a table takes [USAGE]
    on its schema.  A query takes [SELECT] on the tables it reads, and
    [FOR UPDATE] takes [UPDATE] on the table it locks.  An [INSERT] takes
    [INSERT]; its [RETURNING] and the target of its [ON CONFLICT] take
    [SELECT], its [DO UPDATE] takes [UPDATE], and the default of a serial key,
    [nextval], takes [USAGE] on the sequence.  An [UPDATE] takes [UPDATE], and
    its [WHERE] and [RETURNING] take [SELECT].  (Foreign keys are checked with
    the rights of the tables' owner.) *)
Definition stmt_needs {X} (s : stmt X) : list (privilege * object) :=
  (USAGE, SchemaPublic) ::
  match s with
  | SelectStatusCapacityForUpdate _ | SelectStatusForUpdate _ | SelectDrawEventForUpdate _ =>
      [(SELECT, Table events); (UPDATE, Table events)]
  | SelectBookingExists _ _ | SelectBookingCount _ | SelectBookingsByEvent _
  | SelectBookingsByUser _ | SelectParticipants _ => [(SELECT, Table bookings)]
  | InsertBooking _ _ => [(INSERT, Table bookings); (USAGE, Sequence bookings)]
  | InsertEvent _ _ _ _ _ _ =>
      [(INSERT, Table events); (SELECT, Table events); (USAGE, Sequence events)]
  | SelectEventWithCount _ | SelectEvents _ _ _ =>
      [(SELECT, Table events); (SELECT, Table bookings)]
  | SelectEventCount _ | SelectDrawnEvent _ => [(SELECT, Table events)]
  | UpdateEventStatus _ _ => [(UPDATE, Table events); (SELECT, Table events)]
  | InsertDraw _ _ _ _ _ _ =>
      [(INSERT, Table lottery_draws); (SELECT, Table lottery_draws); (USAGE, Sequence lottery_draws)]
  | InsertSeal _ _ _ _ => [(INSERT, Table lottery_draw_seals)]
  | SelectDraws _ => [(SELECT, Table lottery_draws)]
  | SelectSealDigest _ => [(SELECT, Table lottery_draw_seals)]
  | InsertUser _ _ _ => [(INSERT, Table users); (SELECT, Table users); (USAGE, Sequence users)]
  | SelectUserByEmail _ | SelectUserById _ => [(SELECT, Table users)]
  | PromoteUser _ => [(UPDATE, Table users); (SELECT, Table users)]
  | UpsertAdmin _ _ _ =>
      [(INSERT, Table users); (SELECT, Table users); (UPDATE, Table users); (USAGE, Sequence users)]
  end.

(** A statement of the services, sent by role [r]: without the privileges it
    is refused and no row is touched. *)
Definition exec_stmt_as {X} (r : role) (now : moment) (t : Tables) (q : Seqs) (s : stmt X) : outcome X :=
  if all_granted r (stmt_needs s) then exec_stmt now t q s
  else (Err (PgError codeInsufficientPrivilege), [], q).

Lemma stmt_needs_granted {X} (s : stmt X) : all_granted lottery_app (stmt_needs s) = true.
Proof. by destruct s. Qed.

(** ** Triggers *)

(** A row trigger sees [OLD] and [NEW] ([None] for a deletion) and may raise. *)
Definition row_trigger (Row : Type) : Type := Row -> option Row -> option pgerror.

Definition no_trigger {Row} : row_trigger Row := fun _ _ => None.

Definition forbid_audit_mutation {Row} : row_trigger Row :=
  fun _ _ => Some (PgError codeInsufficientPrivilege).

(** The columns a draw depends on. *)
Definition draw_shape (e : event_row) : EventStatus * Z * Z :=
  (ev_status e, ev_winner_count e, ev_capacity e).

Definition forbid_drawn_event_change : row_trigger event_row :=
  fun OLD NEW =>
    match NEW with
    | None => if decide (ev_status OLD = EventStatusDrawn)
              then Some (PgError codeInsufficientPrivilege) else None
    | Some NEW => if decide (ev_status OLD = EventStatusDrawn /\ draw_shape NEW <> draw_shape OLD)
                  then Some (PgError codeInsufficientPrivilege) else None
    end.

(** [set_updated_at] on the two tables that have the column. *)
Definition stamp_user (now : Z) (u : User) : User :=
  mkUser (user_ID u) (user_Email u) (user_FullName u) (user_Role u) (user_PasswordHash u)
    (user_CreatedAt u) now.

Definition stamp_event (now : Z) (e : event_row) : event_row := set_status (ev_status e) now e.

(** ** Rows *)

Section Rows.
Context {Row : Type}.
Variables (trigger : row_trigger Row) (stamp : Row -> Row).

Fixpoint update_rows (f : Row -> option Row) (rows : list Row) : result pgerror (list Row) :=
  match rows with
  | [] => Ok []
  | r :: rows' =>
    match f r with
    | None => match update_rows f rows' with Ok l => Ok (r :: l) | Err e => Err e end
    | Some r' =>
      match trigger r (Some r') with
      | Some err => Err err
      | None => match update_rows f rows' with Ok l => Ok (stamp r' :: l) | Err e => Err e end
      end
    end
  end.

Fixpoint delete_rows (p : Row -> bool) (rows : list Row) : result pgerror (list Row) :=
  match rows with
  | [] => Ok []
  | r :: rows' =>
    if p r then
      match trigger r None with Some err => Err err | None => delete_rows p rows' end
    else match delete_rows p rows' with Ok l => Ok (r :: l) | Err e => Err e end
  end.

(** [truncated] is the table's answer to [TRUNCATE]. *)
Definition change_rows (truncated : bool -> result pgerror (list Row)) (c : change Row)
    (rows : list Row) : result pgerror (list Row) :=
  match c with
  | Insert new => Ok (rows ++ new)
  | Update f => update_rows f rows
  | Delete p => delete_rows p rows
  | Truncate cascade => truncated cascade
  end.

Definition rows_of (m : gmap Z Row) : list Row := (map_to_list m).*2.

(** A table with a primary key: two rows with the same key are refused. *)
Definition store (key : Row -> Z) (rows : list Row) : result pgerror (gmap Z Row) :=
  if decide (NoDup (key <$> rows))
  then Ok (list_to_map ((fun r => (key r, r)) <$> rows))
  else Err (PgError codeUniqueViolation).

Definition change_table (key : Row -> Z) (truncated : bool -> result pgerror (list Row))
    (c : change Row) (m : gmap Z Row) : result pgerror (gmap Z Row) :=
  match change_rows truncated c (rows_of m) with
  | Ok rows => store key rows
  | Err e => Err e
  end.
End Rows.

(** [TRUNCATE] of a table other tables refer to is refused; with [CASCADE] it
    reaches [lottery_draws], whose trigger refuses it. *)
Definition truncate_referenced {Row} (cascade : bool) : result pgerror (list Row) :=
  Err (PgError (if cascade then codeInsufficientPrivilege else "0A000")).

(** [trg_lottery_draws_no_truncate], [trg_lottery_draw_seals_no_truncate]. *)
Definition truncate_forbidden {Row} (_ : bool) : result pgerror (list Row) :=
  Err (PgError codeInsufficientPrivilege).

Definition truncate_all {Row} (_ : bool) : result pgerror (list Row) := Ok [].

(** ** Constraints *)

(** Columns of type [INT]. *)
Definition in_range (t : Tables) : Prop :=
  map_Forall (fun _ e => fits_int4 (ev_capacity e) && fits_int4 (ev_winner_count e)) (t_events t) /\
  Forall (fun d => fits_int4 (draw_DrawRank d) && fits_int4 (draw_TotalEntrants d)) (t_draws t).

Definition checks (t : Tables) : Prop :=
  map_Forall (fun _ u => user_Role u = "user" \/ user_Role u = "admin") (t_users t) /\
  map_Forall (fun _ e => 0 < ev_capacity e /\ 0 < ev_winner_count e /\
                         ev_winner_count e <= ev_capacity e)%Z (t_events t) /\
  Forall (fun d => 0 < draw_DrawRank d)%Z (t_draws t).

Definition uniques (t : Tables) : Prop :=
  NoDup (user_Email <$> rows_of (t_users t)) /\
  NoDup (booking_ID <$> t_bookings t) /\
  NoDup ((fun b => (booking_EventID b, booking_UserID b)) <$> t_bookings t) /\
  NoDup (draw_ID <$> t_draws t) /\
  NoDup ((fun d => (draw_EventID d, draw_DrawRank d)) <$> t_draws t).

Definition references (t : Tables) : Prop :=
  map_Forall (fun _ e => is_Some (t_users t !! ev_created_by e)) (t_events t) /\
  Forall (fun b => is_Some (t_events t !! booking_EventID b) /\
                   is_Some (t_users t !! booking_UserID b)) (t_bookings t) /\
  Forall (fun d => is_Some (t_events t !! draw_EventID d) /\
                   is_Some (t_users t !! draw_WinnerUserID d)) (t_draws t) /\
  map_Forall (fun eid _ => is_Some (t_events t !! eid)) (t_seals t).

#[export] Instance in_range_dec t : Decision (in_range t).
Proof. unfold in_range. apply _. Defined.
#[export] Instance checks_dec t : Decision (checks t).
Proof. unfold checks. apply _. Defined.
#[export] Instance uniques_dec t : Decision (uniques t).
Proof. unfold uniques. apply _. Defined.
#[export] Instance references_dec t : Decision (references t).
Proof. unfold references. apply _. Defined.

(** The constraint a statement with result [t] violates.  The server checks
    keys row by row; checking them once the statement is done accepts every
    statement it accepts, in whatever order it visits the rows. *)
Definition violation (t : Tables) : option string :=
  if decide (in_range t) then
    if decide (checks t) then
      if decide (uniques t) then
        if decide (references t) then None else Some codeForeignKeyViolation
      else Some codeUniqueViolation
    else Some codeCheckViolation
  else Some "22003".

(** ** Execution *)

(** The events a statement deletes; [bookings.event_id] is [ON DELETE CASCADE]. *)
Definition cascade_bookings (c : change event_row) (m : gmap Z event_row) (l : list Booking)
  : list Booking :=
  match c with
  | Delete p => filter (fun b => from_option p false (m !! booking_EventID b) = false) l
  | _ => l
  end.

Definition change_tables (now : Z) (t : Tables) (d : dml) : result pgerror Tables :=
  match d with
  | OnUsers c =>
    match change_table no_trigger (stamp_user now) user_ID truncate_referenced c (t_users t) with
    | Ok m => Ok (mkTables m (t_events t) (t_bookings t) (t_draws t) (t_seals t))
    | Err e => Err e
    end
  | OnEvents c =>
    match change_table forbid_drawn_event_change (stamp_event now) ev_id truncate_referenced c
            (t_events t) with
    | Ok m => Ok (mkTables (t_users t) m (cascade_bookings c (t_events t) (t_bookings t))
                    (t_draws t) (t_seals t))
    | Err e => Err e
    end
  | OnBookings c =>
    match change_rows no_trigger id truncate_all c (t_bookings t) with
    | Ok l => Ok (mkTables (t_users t) (t_events t) l (t_draws t) (t_seals t))
    | Err e => Err e
    end
  | OnDraws c =>
    match change_rows forbid_audit_mutation id truncate_forbidden c (t_draws t) with
    | Ok l => Ok (mkTables (t_users t) (t_events t) (t_bookings t) l (t_seals t))
    | Err e => Err e
    end
  | OnSeals c =>
    match change_table forbid_audit_mutation id seal_event_id truncate_forbidden c (t_seals t) with
    | Ok m => Ok (mkTables (t_users t) (t_events t) (t_bookings t) (t_draws t) m)
    | Err e => Err e
    end
  end.

Definition exec_dml (r : role) (now : Z) (t : Tables) (d : dml) : result pgerror Tables :=
  if all_granted r (dml_needs d) then
    match change_tables now t d with
    | Ok t' => match violation t' with
               | Some c => Err (PgError c)
               | None => Ok t'
               end
    | Err e => Err e
    end
  else Err (PgError codeInsufficientPrivilege).

(** A statement that role [r] got through, and any number of statements of
    any roles. *)
Inductive changed (r : role) : Tables -> Tables -> Prop :=
| changed_by now t d t' : exec_dml r now t d = Ok t' -> changed r t t'.

Definition changes : Tables -> Tables -> Prop := rtc (fun t t' => exists r, changed r t t').

(** Every row of a keyed table is stored under its key. *)
Record keyed (t : Tables) : Prop := {
  key_users : forall k u, t_users t !! k = Some u -> user_ID u = k;
  key_events : forall k e, t_events t !! k = Some e -> ev_id e = k;
  key_seals : forall k s, t_seals t !! k = Some s -> seal_event_id s = k
}.

(** The tables are a state of this schema. *)
Record wf (t : Tables) : Prop := {
  wf_keyed : keyed t;
  wf_violation : violation t = None
}.

(** ** Lemmas *)

Lemma violation_None t :
  violation t = None <-> in_range t /\ checks t /\ uniques t /\ references t.
Proof. unfold violation. repeat case_decide; intuition congruence. Qed.

Lemma exec_dml_Ok r now t d t' :
  exec_dml r now t d = Ok t' <->
  all_granted r (dml_needs d) = true /\ change_tables now t d = Ok t' /\ violation t' = None.
Proof.
  unfold exec_dml. destruct (all_granted r (dml_needs d)); [|naive_solver].
  destruct (change_tables now t d) as [t1|]; [|naive_solver].
  destruct (violation t1) eqn:Hv; naive_solver.
Qed.

Section RowLemmas.
Context {Row : Type} (key : Row -> Z).

Lemma elem_of_rows_of (m : gmap Z Row) r : r ∈ rows_of m <-> exists k, m !! k = Some r.
Proof.
  unfold rows_of. rewrite list_elem_of_fmap. split.
  - intros ([k r'] & -> & Hm%elem_of_map_to_list). eauto.
  - intros [k Hk%elem_of_map_to_list]. by exists (k, r).
Qed.

Lemma store_lookup rows m k r :
  store key rows = Ok m -> m !! k = Some r <-> r ∈ rows /\ key r = k.
Proof.
  unfold store. case_decide as Hnd; [|done]. intros [= <-].
  rewrite <- elem_of_list_to_map.
  - rewrite list_elem_of_fmap. naive_solver.
  - by rewrite <- list_fmap_compose.
Qed.

Lemma store_keyed rows m k r : store key rows = Ok m -> m !! k = Some r -> key r = k.
Proof. intros Hs [_ ?]%(store_lookup _ _ _ _ Hs). done. Qed.

(** Storing is determined by the rows. *)
Lemma store_spec rows m :
  NoDup (key <$> rows) -> (forall k r, m !! k = Some r <-> r ∈ rows /\ key r = k) ->
  store key rows = Ok m.
Proof.
  intros Hnd Hm.
  destruct (store key rows) as [m'|] eqn:Hs; [|by unfold store in Hs; case_decide].
  f_equal. apply map_eq. intros k. apply option_eq. intros r.
  by rewrite (store_lookup _ _ _ _ Hs), Hm.
Qed.

Lemma NoDup_keys (m : gmap Z Row) :
  (forall k r, m !! k = Some r -> key r = k) -> NoDup (key <$> rows_of m).
Proof.
  intros Hk. unfold rows_of. rewrite <- list_fmap_compose.
  assert ((key ∘ snd) <$> map_to_list m = (map_to_list m).*1) as ->; [|apply NoDup_fst_map_to_list].
  apply list_fmap_ext. intros i [k r] Hi. simpl. apply Hk, elem_of_map_to_list.
  by eapply list_elem_of_lookup_2.
Qed.

(** An [INSERT] of one row with a fresh key. *)
Lemma store_insert (m : gmap Z Row) r :
  (forall k r, m !! k = Some r -> key r = k) -> m !! key r = None ->
  store key (rows_of m ++ [r]) = Ok (<[key r := r]> m).
Proof.
  intros Hk Hfresh. apply store_spec.
  - rewrite fmap_app. apply NoDup_app. split_and!; [by apply NoDup_keys| |apply NoDup_singleton].
    intros k' (r' & -> & [k Hr']%elem_of_rows_of)%list_elem_of_fmap Hin%list_elem_of_singleton.
    apply Hk in Hr' as Hk'. congruence.
  - intros k r'. rewrite lookup_insert_Some, elem_of_app, elem_of_rows_of, list_elem_of_singleton.
    split.
    + intros [[Hkr Hr]|[Hne Hm]]; [by subst; auto|]. split; [eauto|by apply Hk].
    + intros [[(k' & Hm)|Heq] Hkr]; subst; [|by auto]. right. pose proof (Hk _ _ Hm) as Hk'. subst.
      split; [|done]. intros Heq. rewrite <- Heq in Hm. congruence.
Qed.

Variables (trigger : row_trigger Row) (stamp : Row -> Row).

(** An [UPDATE] of the row with key [k]. *)
Lemma update_rows_key (g : Row -> Row) k rows :
  (forall r, r ∈ rows -> key r = k -> trigger r (Some (g r)) = None) ->
  update_rows trigger stamp (fun r => if decide (key r = k) then Some (g r) else None) rows
  = Ok ((fun r => if decide (key r = k) then stamp (g r) else r) <$> rows).
Proof.
  induction rows as [|r rows IH]; intros Ht; [done|]. simpl.
  rewrite IH by (intros r' Hr'; apply Ht; by constructor).
  case_decide; [|done]. by rewrite Ht by (done || constructor).
Qed.

Lemma store_alter (m : gmap Z Row) (g : Row -> Row) k :
  (forall k r, m !! k = Some r -> key r = k) -> (forall r, key (g r) = key r) ->
  store key ((fun r => if decide (key r = k) then g r else r) <$> rows_of m) = Ok (alter g k m).
Proof.
  intros Hk Hg. apply store_spec.
  - rewrite <- list_fmap_compose.
    rewrite (list_fmap_ext _ key (rows_of m)); [by apply NoDup_keys|].
    intros i r _. simpl. case_decide; [apply Hg|done].
  - intros i r. rewrite list_elem_of_fmap. setoid_rewrite elem_of_rows_of. split.
    + intros Hi. destruct (decide (i = k)) as [->|Hne].
      * rewrite lookup_alter_eq in Hi. apply fmap_Some in Hi as (r' & Hr' & ->).
        pose proof (Hk _ _ Hr') as Hkey. split; [|by rewrite Hg].
        exists r'. rewrite decide_True by done. eauto.
      * rewrite lookup_alter_ne in Hi by done. pose proof (Hk _ _ Hi) as Hkey. split; [|done].
        exists r. rewrite decide_False by congruence. eauto.
    + intros [(r' & -> & j & Hj) <-]. pose proof (Hk _ _ Hj) as Hkey. case_decide as Hd.
      * rewrite Hg, Hd, lookup_alter_eq, <- Hd, Hkey, Hj. done.
      * by rewrite lookup_alter_ne, Hkey by congruence.
Qed.
End RowLemmas.

(** Nothing but an [INSERT] gets through on an append-only table. *)
Lemma append_only_rows {Row} (stamp : Row -> Row) c rows rows' :
  change_rows forbid_audit_mutation stamp truncate_forbidden c rows = Ok rows' ->
  rows `prefix_of` rows'.
Proof.
  destruct c as [new|f|p|cascade]; simpl; [| | |done].
  - intros [= <-]. by apply prefix_app_r.
  - intros Hu. assert (rows' = rows) as ->; [|done].
    revert rows' Hu. induction rows as [|r rows IH]; simpl; [by intros ? [= <-]|].
    destruct (f r); [done|]. intros rows'. destruct (update_rows _ _ f rows); [|done].
    intros [= <-]. f_equal. by apply IH.
  - intros Hd. assert (rows' = rows) as ->; [|done].
    revert rows' Hd. induction rows as [|r rows IH]; simpl; [by intros ? [= <-]|].
    destruct (p r); [done|]. intros rows'. destruct (delete_rows _ p rows); [|done].
    intros [= <-]. f_equal. by apply IH.
Qed.

Lemma append_only_table {Row} (key : Row -> Z) (stamp : Row -> Row) c m m' :
  (forall k r, m !! k = Some r -> key r = k) ->
  change_table forbid_audit_mutation stamp key truncate_forbidden c m = Ok m' -> m ⊆ m'.
Proof.
  intros Hk. unfold change_table.
  destruct (change_rows _ _ _ _ _) as [rows'|] eqn:Hc; [|done]. intros Hs.
  apply append_only_rows in Hc as [new ->]. apply map_subseteq_spec. intros k r Hr.
  apply (store_lookup _ _ _ _ _ Hs). split; [|by apply Hk].
  apply elem_of_app. left. apply elem_of_rows_of. eauto.
Qed.

Lemma change_table_keyed {Row} (trigger : row_trigger Row) key stamp trunc c m m' k r :
  change_table trigger stamp key trunc c m = Ok m' -> m' !! k = Some r -> key r = k.
Proof. unfold change_table. destruct (change_rows _ _ _ _ _); [|done]. apply store_keyed. Qed.

(** What a statement leaves of the audit trail. *)
Lemma exec_dml_audit r now t d t' :
  wf t -> exec_dml r now t d = Ok t' ->
  wf t' /\ t_draws t `prefix_of` t_draws t' /\ t_seals t ⊆ t_seals t'.
Proof.
  intros [[Hu He Hs] _] (_ & Hc & Hv)%exec_dml_Ok.
  assert (keyed t' /\ t_draws t `prefix_of` t_draws t' /\ t_seals t ⊆ t_seals t') as [??];
    [|done]. clear Hv.
  destruct d as [c|c|c|c|c]; simpl in Hc; revert Hc.
  1,2,5: destruct (change_table _ _ _ _ _ _) as [m|] eqn:Hm; [|done].
  4,5: destruct (change_rows _ _ _ _ _) as [l|] eqn:Hl; [|done].
  all: intros [= <-]; (split; [split; simpl; eauto using change_table_keyed|]);
    split; simpl; eauto using append_only_rows, append_only_table.
Qed.

Lemma changes_audit t t' :
  changes t t' -> wf t ->
  wf t' /\ t_draws t `prefix_of` t_draws t' /\ t_seals t ⊆ t_seals t'.
Proof.
  induction 1 as [t|t t1 t2 [r [now t0 d t0' Hex]] _ IH]; intros Hwf; [done|].
  destruct (exec_dml_audit r now t0 d t0' Hwf Hex) as (Hwf1 & Hd1 & Hs1).
  destruct (IH Hwf1) as (Hwf2 & Hd2 & Hs2). split_and!; [done|by etrans|by etrans].
Qed.

(** ** Reading a trail that was appended to *)

(** Rows ranked [1..n] stay in front of whatever is appended to them. *)
Lemma order_prefix rows extra :
  draw_DrawRank <$> rows = seqZ 1 (Z.of_nat (length rows)) ->
  NoDup (draw_DrawRank <$> rows ++ extra) -> Forall (fun d => 0 < draw_DrawRank d)%Z extra ->
  order_asc draw_DrawRank (rows ++ extra) = rows ++ order_asc draw_DrawRank extra.
Proof.
  intros Hr Hnd Hpos.
  assert (forall x y, x ∈ rows -> y ∈ extra -> key_le draw_DrawRank x y) as Hcross.
  { intros x y Hx Hy. rewrite fmap_app in Hnd. apply NoDup_app in Hnd as (_ & Hdis & _).
    assert (draw_DrawRank y ∉ draw_DrawRank <$> rows) as Hny.
    { intros Hin. by apply (Hdis _ Hin), list_elem_of_fmap_2. }
    assert (draw_DrawRank x ∈ draw_DrawRank <$> rows) as Hix by (by apply list_elem_of_fmap_2).
    rewrite Hr in Hny, Hix. rewrite elem_of_seqZ in Hny, Hix. rewrite Forall_forall in Hpos.
    specialize (Hpos y Hy). unfold key_le. lia. }
  apply (StronglySorted_unique_strong (key_le draw_DrawRank)).
  - intros x y Hx Hy Hxy Hyx. unfold order_asc in Hx, Hy.
    rewrite merge_sort_Permutation in Hx. rewrite (merge_sort_Permutation _ extra) in Hy.
    apply list_elem_of_lookup in Hx as [i Hi], Hy as [j Hj]. unfold key_le in *.
    assert (i = j) as ->; [|congruence].
    apply (NoDup_lookup _ _ _ (draw_DrawRank x) Hnd); rewrite list_lookup_fmap.
    + by rewrite Hi.
    + rewrite Hj. simpl. f_equal. lia.
  - apply StronglySorted_merge_sort; apply _.
  - apply StronglySorted_app. split_and!.
    + intros x y Hx Hy. apply Hcross; [done|]. revert Hy. unfold order_asc.
      by rewrite merge_sort_Permutation.
    + rewrite <- (order_ranks rows Hr). apply StronglySorted_merge_sort; apply _.
    + apply StronglySorted_merge_sort; apply _.
  - unfold order_asc. by rewrite !merge_sort_Permutation.
Qed.

(** Rows after the first stamped one do not change the time or the total. *)
Lemma foldl_add_row_keeps wc rows res :
  dr_DrawnAt res <> 0%Z ->
  dr_DrawnAt (foldl (add_row wc) res rows) = dr_DrawnAt res /\
  dr_TotalEntrants (foldl (add_row wc) res rows) = dr_TotalEntrants res.
Proof.
  revert res. induction rows as [|d rows IH]; intros res Hne; simpl; [done|].
  assert (dr_DrawnAt (add_row wc res d) = dr_DrawnAt res /\
          dr_TotalEntrants (add_row wc res d) = dr_TotalEntrants res) as [Ha Ht].
  { unfold add_row, IsZero. rewrite bool_decide_false by done. by case_decide. }
  destruct (IH (add_row wc res d)) as [-> ->]; [congruence|done].
Qed.

(** What is read after statements got through: the sealed rows first, then
    whatever was appended, under the digest of the draw. *)
Lemma appended_draws t t' id :
  wf t' -> t_draws t `prefix_of` t_draws t' ->
  draw_DrawRank <$> draws_of id t = seqZ 1 (Z.of_nat (length (draws_of id t))) ->
  exists extra, draws_of id t' = draws_of id t ++ extra /\
    order_asc draw_DrawRank (draws_of id t') = draws_of id t ++ order_asc draw_DrawRank extra.
Proof.
  intros [_ Hv] [new Hnew] Hr. apply violation_None in Hv as (_ & (_ & _ & Hpos) & Hun & _).
  destruct Hun as (_ & _ & _ & _ & Hnd).
  exists (filter (fun d => draw_EventID d = id) new).
  assert (draws_of id t' = draws_of id t ++ filter (fun d => draw_EventID d = id) new) as Hd.
  { unfold draws_of. by rewrite Hnew, filter_app. }
  split; [done|]. rewrite Hd. apply order_prefix; [done| |].
  - rewrite <- Hd. unfold draws_of. revert Hnd. clear.
    induction (t_draws t') as [|d l IH]; intros Hnd; [constructor|].
    rewrite fmap_cons in Hnd. apply NoDup_cons in Hnd as [Hd Hnd].
    rewrite filter_cons. case_decide as Hid; [|auto]. rewrite fmap_cons.
    apply NoDup_cons. split; [|auto].
    intros (d' & Heq & [Hid' Hin]%list_elem_of_filter)%list_elem_of_fmap.
    apply Hd, list_elem_of_fmap. exists d'. split; [congruence|done].
  - rewrite Hnew in Hpos. apply Forall_app in Hpos as [_ Hpos]. rewrite Forall_forall in Hpos.
    apply Forall_forall. intros d [_ Hd']%list_elem_of_filter. auto.
Qed.

(** The rows sealed with event [e]. *)
Definition sealed_text (e : event_row) (drawnAt : Z) (rows : list LotteryDraw) : list Z :=
  bytes_of (seal_text (ev_id e) (ev_winner_count e) drawnAt rows).

(** [collect] on the sealed rows followed by others. *)
Lemma collect_appended id title wc rows more drawnAt total :
  Forall (fun d => draw_DrawnAt d = drawnAt /\ draw_TotalEntrants d = total) rows ->
  rows <> [] -> drawnAt <> 0%Z ->
  let res := collect id title wc (rows ++ more) in
  dr_DrawnAt res = drawnAt /\ dr_TotalEntrants res = total /\
  dr_Winners res ++ dr_Waitlist res ≡ₚ rows ++ more.
Proof.
  intros Hf Hne Hz res. subst res. unfold collect. rewrite foldl_app.
  destruct (foldl_add_row_stamp wc rows (mkDrawResult id title 0 [] [] 0 "" "") drawnAt total)
    as [Ha Ht]; [done|by auto..|].
  destruct (foldl_add_row_keeps wc more (foldl (add_row wc) (mkDrawResult id title 0 [] [] 0 "" "") rows))
    as [Ha' Ht']; [by rewrite Ha|]. rewrite Ha', Ht', Ha, Ht. split_and!; [done..|].
  rewrite <- foldl_app.
  destruct (foldl_add_row wc (rows ++ more) (mkDrawResult id title 0 [] [] 0 "" ""))
    as (_ & _ & _ & _ & -> & ->). simpl. apply filter_partition.
Qed.

Lemma results_after_changes t t' id e res res' :
  tables_inv t -> wf t -> changes t t' -> draws_of id t <> [] ->
  t_events t !! id = Some e -> ev_status e = EventStatusDrawn ->
  results_of t id = Ok res -> (0 < dr_DrawnAt res)%Z -> results_of t' id = Ok res' ->
  exists e', t_events t' !! id = Some e' /\ dr_Digest res' = dr_Digest res /\
    (dr_Integrity res' = IntegrityMismatch \/
     dr_Integrity res' = IntegrityVerified /\
     ((dr_Winners res', dr_Waitlist res', dr_DrawnAt res', dr_TotalEntrants res') =
      (dr_Winners res, dr_Waitlist res, dr_DrawnAt res, dr_TotalEntrants res) \/
      collide (sealed_text e (dr_DrawnAt res) (dr_Winners res ++ dr_Waitlist res))
              (sealed_text e' (dr_DrawnAt res') (dr_Winners res' ++ dr_Waitlist res')))).
Proof.
  intros Hinv Hwf Hch Hne He Hst Hres Hpos Hres'.
  destruct (changes_audit t t' Hch Hwf) as (Hwf' & Hpre & Hsub).
  destruct (inv_drawn t Hinv id e He Hst) as [_ Hrk (drawnAt & Hf & Hseal)].
  destruct (results_of_drawn t id e Hinv He Hst Hne) as (at' & Hat & Hres0).
  rewrite (inv_event_key t Hinv id e He) in *. rewrite Hres in Hres0. injection Hres0 as ->.
  assert (at' = drawnAt) as ->.
  { destruct (draws_of id t); [done|]. apply Forall_cons in Hat as [<- _].
    by apply Forall_cons in Hf as [(_ & _ & ?) _]. }
  simpl in Hpos |- *. rewrite take_drop.
  destruct (appended_draws t t' id Hwf' Hpre Hrk) as (extra & Hd & Ho).
  assert (t_seals t' !! id = Some _) as Hseal' by (eapply lookup_weaken; [exact Hseal|done]).
  revert Hres'. unfold results_of, verified_against. rewrite Hseal', Ho.
  destruct (t_events t' !! id) as [e'|] eqn:He'; [|done].
  case_decide as Hst'; [|done]. intros [= <-]. exists e'. split; [done|].
  assert (ev_id e' = id) as Hid' by (by eapply key_events; [apply Hwf'|]).
  destruct (collect_appended id (ev_title e') (ev_winner_count e') (draws_of id t)
    (order_asc draw_DrawRank extra) drawnAt (Z.of_nat (length (draws_of id t)))) as (Ha & Ht & Hp);
    [|done|lia|].
  { eapply Forall_impl; [exact Hf|]. naive_solver. }
  unfold check_seal. rewrite Ha. case_decide as Hdig; (split; [exact eq_refl|]);
    cbn [with_integrity dr_Integrity dr_Winners dr_Waitlist dr_DrawnAt dr_TotalEntrants];
    [right|left; exact eq_refl].
  split; [exact eq_refl|]. symmetry in Hdig. apply drawDigest_text in Hdig as [Htext|Hcol].
  2: { right. unfold sealed_text. rewrite Ha, Hid', (inv_event_key t Hinv id e He). done. }
  left. apply seal_text_inj in Htext as (_ & Hwc & _ & Hlines); [|lia..|].
  2: { eapply Forall_impl; [exact Hf|]. unfold one_line. intros d (-> & _).
       apply (bool_decide_unpack _). vm_compute. exact I. }
  assert (extra = []) as ->.
  { apply (f_equal length) in Hlines. rewrite !length_fmap, Hp, length_app in Hlines.
    unfold order_asc in Hlines. rewrite merge_sort_Permutation in Hlines.
    destruct extra; [done|]. simpl in Hlines. lia. }
  rewrite Ha, Ht. unfold order_asc. simpl. rewrite app_nil_r.
  destruct (foldl_add_row (ev_winner_count e') (draws_of id t)
    (mkDrawResult id (ev_title e') 0 [] [] 0 "" "")) as (_ & _ & _ & _ & H5 & H6).
  destruct (filter_ranks (draws_of id t) 1 (ev_winner_count e') Hrk) as [Hw Hl].
  unfold collect. rewrite H5, H6, Hw, Hl, <- Hwc. simpl.
  by replace (ev_winner_count e - 1 + 1)%Z with (ev_winner_count e) by lia.
Qed.

(** ** The statements of the services *)

(** Every key in use was handed out by its sequence. *)
Record below (t : Tables) (q : Seqs) : Prop := {
  bl_maps : seqs_inv t q;
  bl_bookings : Forall (fun b => booking_ID b < next_booking q)%Z (t_bookings t);
  bl_draws : Forall (fun d => draw_ID d < next_draw q)%Z (t_draws t)
}.

Lemma below_mono t q q' : below t q -> seqs_le q q' -> below t q'.
Proof.
  intros [Hm Hb Hd] Hle. pose proof Hle as (_ & _ & H3 & H4). split.
  - by eapply seqs_inv_mono.
  - eapply Forall_impl; [exact Hb|]. simpl. lia.
  - eapply Forall_impl; [exact Hd|]. simpl. lia.
Qed.

Lemma NoDup_rows {Row A} (f : Row -> A) (m : gmap Z Row) :
  NoDup (f <$> rows_of m) <->
  (forall k1 k2 r1 r2, m !! k1 = Some r1 -> m !! k2 = Some r2 -> f r1 = f r2 -> k1 = k2).
Proof.
  unfold rows_of. rewrite <- list_fmap_compose. split.
  - intros Hnd k1 k2 r1 r2 H1%elem_of_map_to_list H2%elem_of_map_to_list Hf.
    apply list_elem_of_lookup in H1 as [i Hi], H2 as [j Hj].
    assert (i = j) as ->; [|congruence].
    eapply (NoDup_lookup _ _ _ (f r1) Hnd); rewrite list_lookup_fmap.
    + by rewrite Hi.
    + rewrite Hj. simpl. by rewrite Hf.
  - intros Hinj. apply NoDup_alt. intros i j x.
    rewrite !list_lookup_fmap, !fmap_Some. intros ([k1 r1] & Hi & ->) ([k2 r2] & Hj & Hf).
    assert (k1 = k2) as <-.
    { apply (Hinj k1 k2 r1 r2); [..|done]; apply elem_of_map_to_list; by eapply list_elem_of_lookup_2. }
    eapply (NoDup_lookup _ _ _ k1 (NoDup_fst_map_to_list m)); rewrite list_lookup_fmap.
    + by rewrite Hi.
    + by rewrite Hj.
Qed.

(** Rows of a table one of whose rows was changed in place. *)
Lemma alter_lookup_inv {A} (g : A -> A) (m : gmap Z A) k i x :
  alter g k m !! i = Some x -> exists y, m !! i = Some y /\ (x = y \/ x = g y).
Proof.
  destruct (decide (k = i)) as [->|]; [rewrite lookup_alter_eq|rewrite lookup_alter_ne by done].
  - intros (y & -> & ->)%fmap_Some. eauto.
  - eauto.
Qed.

Lemma alter_is_Some {A} (g : A -> A) (m : gmap Z A) k i :
  is_Some (m !! i) -> is_Some (alter g k m !! i).
Proof.
  intros [x Hx]. destruct (decide (k = i)) as [->|].
  - rewrite lookup_alter_eq, Hx. by eexists.
  - rewrite lookup_alter_ne, Hx by done. by eexists.
Qed.

Lemma insert_is_Some_mono {A} (m : gmap Z A) k x i :
  is_Some (m !! i) -> is_Some (<[k := x]> m !! i).
Proof. intros. rewrite lookup_insert_is_Some'. auto. Qed.

#[local] Hint Resolve alter_is_Some insert_is_Some_mono : core.

(** References stay valid when users and events are added or changed. *)
Lemma references_grow t us es :
  references t ->
  (forall k, is_Some (t_users t !! k) -> is_Some (us !! k)) ->
  (forall k, is_Some (t_events t !! k) -> is_Some (es !! k)) ->
  map_Forall (fun _ e => is_Some (us !! ev_created_by e)) es ->
  references (mkTables us es (t_bookings t) (t_draws t) (t_seals t)).
Proof.
  intros (_ & Hb & Hd & Hs) Hu He Hc. unfold references. simpl. split_and!; [done|..].
  - eapply Forall_impl; [exact Hb|]. simpl. naive_solver.
  - eapply Forall_impl; [exact Hd|]. simpl. naive_solver.
  - intros k s Hk. by eapply He, Hs.
Qed.

Lemma NoDup_snoc {A} (l : list A) x : NoDup l -> x ∉ l -> NoDup (l ++ [x]).
Proof.
  intros Hl Hx. apply NoDup_app. split_and!; [done| |apply NoDup_singleton].
  by intros y Hy ->%list_elem_of_singleton.
Qed.

Lemma NoDup_snoc_key {A B} (f : A -> B) (l : list A) x :
  NoDup (f <$> l) -> (forall y, y ∈ l -> f y <> f x) -> NoDup (f <$> l ++ [x]).
Proof.
  intros Hl Hx. rewrite fmap_app. apply NoDup_snoc; [done|].
  intros (y & Hy & Hin)%list_elem_of_fmap. by apply (Hx y).
Qed.

(** The write [w] is a statement of the runtime role. *)
Definition allowed (now : Z) (t : Tables) (w : write) : Prop :=
  exists d, exec_dml lottery_app (pg_time now) t d = Ok (apply_write t w).

Section Allowed.
Variables (now : Z) (t : Tables) (q : Seqs).
Hypothesis (Hwf : wf t) (Hbelow : below t q).

Lemma wf_parts : in_range t /\ checks t /\ uniques t /\ references t.
Proof. apply violation_None, Hwf. Qed.

Lemma allowed_user u :
  user_ID u = next_user q -> user_Role u = "user" \/ user_Role u = "admin" ->
  user_by_email (user_Email u) t = None -> allowed now t (WUser u).
Proof.
  intros Hid Hrole Hmail. destruct wf_parts as (Hr & (Hc1 & Hc2 & Hc3) & Hu & Href).
  pose proof (fresh_user t q (bl_maps t q Hbelow)) as Hfresh. rewrite <- Hid in Hfresh.
  exists (OnUsers (Insert [u])). apply exec_dml_Ok. split_and!; [done| |].
  - simpl. unfold change_table. simpl.
    by rewrite (store_insert user_ID (t_users t) u (key_users t (wf_keyed t Hwf)) Hfresh).
  - apply violation_None. split_and!; [done| | |].
    + split_and!; [by apply map_Forall_insert_2|done..].
    + destruct Hu as [Hu Hrest]. split; [|done]. simpl. rewrite NoDup_rows in Hu |- *.
      assert (forall k v, t_users t !! k = Some v -> user_Email v <> user_Email u) as Hno.
      { intros k v Hk Heq. revert Hmail. unfold user_by_email.
        rewrite fmap_None, list_find_None, Forall_forall. intros Hall.
        apply (Hall v); [|done]. apply elem_of_rows_of. eauto. }
      intros k1 k2 r1 r2 [[<- <-]|[_ H1]]%lookup_insert_Some [[<- <-]|[_ H2]]%lookup_insert_Some Heq;
        [done| | |by eapply Hu].
      * by destruct (Hno _ _ H2).
      * by destruct (Hno _ _ H1).
    + apply references_grow; [done|by auto..|]. destruct Href as (Href & _).
      eapply map_Forall_impl; [exact Href|]. simpl. auto.
Qed.

Lemma allowed_role id : allowed now t (WUserRole id "admin" (pg_time now)).
Proof.
  destruct wf_parts as (Hr & (Hc1 & Hc2 & Hc3) & [Hu Hrest] & Href).
  exists (OnUsers (Update (fun u => if decide (user_ID u = id)
                                    then Some (set_role "admin" (user_UpdatedAt u) u) else None))).
  apply exec_dml_Ok. split_and!; [done| |].
  - simpl. unfold change_table. simpl. rewrite update_rows_key by done.
    by rewrite (store_alter user_ID (t_users t)
      (fun u => stamp_user (pg_time now) (set_role "admin" (user_UpdatedAt u) u)) id
      (key_users t (wf_keyed t Hwf))).
  - apply violation_None. split_and!; [done| | |].
    + split_and!; [|done..]. intros k u (v & Hv & [->| ->])%alter_lookup_inv; [by eapply Hc1|by right].
    + split; [|done]. simpl. rewrite NoDup_rows in Hu |- *.
      intros k1 k2 r1 r2 (v1 & H1 & E1)%alter_lookup_inv (v2 & H2 & E2)%alter_lookup_inv Heq.
      apply (Hu k1 k2 v1 v2 H1 H2). by destruct E1 as [->| ->], E2 as [->| ->].
    + apply references_grow; [done|by auto..|]. destruct Href as (Href & _).
      eapply map_Forall_impl; [exact Href|]. simpl. auto.
Qed.

Lemma allowed_event e :
  ev_id e = next_event q -> is_Some (t_users t !! ev_created_by e) ->
  fits_int4 (ev_capacity e) && fits_int4 (ev_winner_count e) = true ->
  (0 < ev_capacity e /\ 0 < ev_winner_count e /\ ev_winner_count e <= ev_capacity e)%Z ->
  allowed now t (WEvent e).
Proof.
  intros Hid Hby Hfit Hcheck. destruct wf_parts as ((Hr1 & Hr2) & (Hc1 & Hc2 & Hc3) & Hu & Href).
  pose proof (fresh_event t q (bl_maps t q Hbelow)) as Hfresh. rewrite <- Hid in Hfresh.
  exists (OnEvents (Insert [e])). apply exec_dml_Ok. split_and!; [done| |].
  - simpl. unfold change_table. simpl.
    by rewrite (store_insert ev_id (t_events t) e (key_events t (wf_keyed t Hwf)) Hfresh).
  - apply violation_None. split_and!; [| |done|].
    + split; [|done]. apply map_Forall_insert_2; [by rewrite Hfit|done].
    + split_and!; [done| |done]. by apply map_Forall_insert_2.
    + apply references_grow; [done|by auto..|].
      destruct Href as (Href & _). by apply map_Forall_insert_2.
Qed.

Lemma allowed_status id st :
  (forall e, t_events t !! id = Some e -> ev_status e = EventStatusDrawn -> st = EventStatusDrawn) ->
  allowed now t (WEventStatus id st (pg_time now)).
Proof.
  intros Hst. destruct wf_parts as ((Hr1 & Hr2) & (Hc1 & Hc2 & Hc3) & Hu & Href).
  exists (OnEvents (Update (fun e => if decide (ev_id e = id)
                                     then Some (set_status st (ev_updated_at e) e) else None))).
  apply exec_dml_Ok. split_and!; [done| |].
  - simpl. unfold change_table. simpl. rewrite update_rows_key.
    + by rewrite (store_alter ev_id (t_events t)
        (fun e => stamp_event (pg_time now) (set_status st (ev_updated_at e) e)) id
        (key_events t (wf_keyed t Hwf))).
    + intros e [k Hk]%elem_of_rows_of Hid. simpl.
      pose proof (key_events t (wf_keyed t Hwf) k e Hk) as Hke.
      rewrite decide_False; [done|]. intros [Hd Hne]. apply Hne. unfold draw_shape. simpl.
      rewrite (Hst e); [by rewrite Hd|congruence|done].
  - apply violation_None. split_and!; [| |done|].
    + split; [|done]. intros k u (v & Hv & [->| ->])%alter_lookup_inv; by apply (Hr1 k v).
    + split_and!; [done| |done]. intros k u (v & Hv & [->| ->])%alter_lookup_inv; by apply (Hc2 k v).
    + apply references_grow; [done|by auto..|]. destruct Href as (Href & _).
      intros k u (v & Hv & [->| ->])%alter_lookup_inv; by apply (Href k v).
Qed.

Lemma allowed_booking b :
  booking_ID b = next_booking q -> is_Some (t_events t !! booking_EventID b) ->
  is_Some (t_users t !! booking_UserID b) ->
  booking_exists (booking_EventID b) (booking_UserID b) t = false -> allowed now t (WBooking b).
Proof.
  intros Hid He Hu Hno.
  destruct wf_parts as (Hr & Hc & (Hq1 & Hq2 & Hq3 & Hq45) & (Hf1 & Hf2 & Hf34)).
  exists (OnBookings (Insert [b])). apply exec_dml_Ok. split_and!; [done..|].
  apply violation_None. split_and!; [done..| |].
  - split_and!; [done| | |by apply Hq45..].
    + apply NoDup_snoc_key; [done|]. intros y Hy.
      pose proof (bl_bookings t q Hbelow) as Hb. rewrite Forall_forall in Hb.
      specialize (Hb y Hy). simpl in Hb. lia.
    + apply NoDup_snoc_key; [done|]. intros y Hy [= E1 E2].
      apply not_true_iff_false in Hno. apply Hno, booking_exists_spec. eauto.
  - split_and!; [done| |by apply Hf34..]. simpl. apply Forall_app. by rewrite Forall_singleton.
Qed.

Lemma allowed_draw d :
  draw_ID d = next_draw q -> is_Some (t_events t !! draw_EventID d) ->
  is_Some (t_users t !! draw_WinnerUserID d) ->
  fits_int4 (draw_DrawRank d) && fits_int4 (draw_TotalEntrants d) = true -> (0 < draw_DrawRank d)%Z ->
  ~ Exists (fun d' => draw_EventID d' = draw_EventID d /\ draw_DrawRank d' = draw_DrawRank d)
      (t_draws t) ->
  allowed now t (WDraw d).
Proof.
  intros Hid He Hu Hfit Hpos Hno.
  destruct wf_parts as ((Hr1 & Hr2) & (Hc1 & Hc2 & Hc3) & (Hq1 & Hq2 & Hq3 & Hq4 & Hq5)
    & (Hf1 & Hf2 & Hf3 & Hf4)).
  exists (OnDraws (Insert [d])). apply exec_dml_Ok. split_and!; [done..|].
  apply violation_None. split_and!.
  - split; [done|]. apply Forall_app. by rewrite Forall_singleton, Hfit.
  - split_and!; [done..|]. apply Forall_app. by rewrite Forall_singleton.
  - split_and!; [done..| |].
    + apply NoDup_snoc_key; [done|]. intros y Hy.
      pose proof (bl_draws t q Hbelow) as Hb. rewrite Forall_forall in Hb.
      specialize (Hb y Hy). simpl in Hb. lia.
    + apply NoDup_snoc_key; [done|]. intros y Hy [= E1 E2]. apply Hno, Exists_exists. eauto.
  - split_and!; [done..| |done]. apply Forall_app. by rewrite Forall_singleton.
Qed.

Lemma allowed_seal s :
  t_seals t !! seal_event_id s = None -> is_Some (t_events t !! seal_event_id s) ->
  allowed now t (WSeal s).
Proof.
  intros Hfresh He. destruct wf_parts as (Hr & Hc & Hu & (Hf1 & Hf2 & Hf3 & Hf4)).
  exists (OnSeals (Insert [s])). apply exec_dml_Ok. split_and!; [done| |].
  - simpl. unfold change_table. simpl.
    by rewrite (store_insert seal_event_id (t_seals t) s (key_seals t (wf_keyed t Hwf)) Hfresh).
  - apply violation_None. split_and!; [done..|]. split_and!; [done..|].
    by apply map_Forall_insert_2.
Qed.
End Allowed.

(** The key a write takes was handed out. *)
Definition handed_out (q : Seqs) (w : write) : Prop :=
  write_ok q w /\
  match w with
  | WBooking b => (booking_ID b < next_booking q)%Z
  | WDraw d => (draw_ID d < next_draw q)%Z
  | _ => True
  end.

Lemma apply_write_below t q w : below t q -> handed_out q w -> below (apply_write t w) q.
Proof.
  intros [Hm Hb Hd] [Hw Hk]. split; [by apply apply_write_seqs|..]; destruct w; simpl; try done;
    apply Forall_app; by rewrite Forall_singleton.
Qed.

(** A statement writes nothing, or one row, as the runtime role may. *)
Lemma exec_stmt_allowed {X} now t q (s : stmt X) r ws q' :
  wf t -> below t q -> exec_stmt now t q s = (r, ws, q') ->
  ws = [] \/ exists w, ws = [w] /\ allowed now t w /\ handed_out q' w.
Proof.
  intros Hwf Hb.
  assert (forall r' : result pgerror X, (r', [], q) = (r, ws, q') ->
    ws = [] \/ exists w, ws = [w] /\ allowed now t w /\ handed_out q' w) as Hread.
  { intros r' [= _ <- _]. by left. }
  destruct s; simpl; unfold with_text, one_row, answer; try apply Hread.
  - unfold insert_booking. destruct (booking_exists eid uid t) eqn:Hno; [intros [= _ <- _]; auto|].
    destruct (t_events t !! eid) eqn:He, (t_users t !! uid) eqn:Hu; intros [= _ <- <-]; auto.
    right. eexists. split_and!; [done| |split; simpl; [done|lia]].
    apply (allowed_booking now t q Hwf Hb); simpl; rewrite ?He, ?Hu; by eauto.
  - case_match; [|by apply Hread]. unfold insert_event, answer.
    destruct (fits_int4 capacity && fits_int4 winner_count) eqn:Hfit; [|by apply Hread].
    case_bool_decide as Hck; [|intros [= _ <- _]; auto].
    destruct (t_users t !! created_by) eqn:Hu; intros [= _ <- <-]; auto.
    right. eexists. split_and!; [done| |split; simpl; [lia|done]].
    apply (allowed_event now t q Hwf Hb); simpl; rewrite ?Hu; by eauto.
  - case_match; [|by apply Hread]. by apply Hread.
  - case_match; [|by apply Hread]. by apply Hread.
  - unfold update_event_status, answer. destruct (t_events t !! eid) as [e|] eqn:He; [|by apply Hread].
    case_bool_decide as Hst; [by apply Hread|]. intros [= _ <- <-]. right. eexists.
    split_and!; [done| |done]. apply (allowed_status now t Hwf). rewrite He. intros e' [= <-] Hd.
    destruct (decide (st = EventStatusDrawn)); [done|]. by destruct Hst.
  - unfold insert_draw, answer.
    destruct (fits_int4 rank && fits_int4 total) eqn:Hfit; [|by apply Hread].
    case_bool_decide as Hpos; [|intros [= _ <- _]; auto].
    case_bool_decide as Hno; [intros [= _ <- _]; auto|].
    destruct (t_events t !! eid) eqn:He, (t_users t !! uid) eqn:Hu; intros [= _ <- <-]; auto.
    right. eexists. split_and!; [done| |split; simpl; [done|lia]].
    apply (allowed_draw now t q Hwf Hb); simpl; rewrite ?He, ?Hu; by eauto.
  - unfold insert_seal, answer.
    destruct (t_seals t !! eid) eqn:Hs, (t_events t !! eid) eqn:He; try apply Hread.
    intros [= _ <- <-]. right. eexists. split_and!; [done| |done].
    apply (allowed_seal now t Hwf); simpl; rewrite ?He; by eauto.
  - case_match; [|by apply Hread]. unfold insert_user.
    destruct (user_by_email email t) eqn:Hm; intros [= _ <- <-]; auto.
    right. eexists. split_and!; [done| |split; simpl; [lia|done]].
    apply (allowed_user now t q Hwf Hb); simpl; by auto.
  - case_match; [|by apply Hread]. by apply Hread.
  - destruct (t_users t !! uid); [|by apply Hread]. intros [= _ <- <-]. right. eexists.
    split_and!; [done|by apply allowed_role|done].
  - case_match; [|by apply Hread]. unfold upsert_admin, insert_user.
    destruct (user_by_email email t) eqn:Hm; intros [= _ <- <-]; right; eexists;
      (split_and!; [done| |split; simpl; [first [done|lia]|done]]); [by apply allowed_role|].
    apply (allowed_user now t q Hwf Hb); simpl; by auto.
Qed.

(** The privileges a row change takes by itself; a new row's serial key takes
    a number of its sequence. *)
Definition write_needs (w : write) : list (privilege * object) :=
  match w with
  | WUser _ => [(INSERT, Table users); (USAGE, Sequence users)]
  | WUserRole _ _ _ => [(UPDATE, Table users)]
  | WEvent _ => [(INSERT, Table events); (USAGE, Sequence events)]
  | WEventStatus _ _ _ => [(UPDATE, Table events)]
  | WBooking _ => [(INSERT, Table bookings); (USAGE, Sequence bookings)]
  | WDraw _ => [(INSERT, Table lottery_draws); (USAGE, Sequence lottery_draws)]
  | WSeal _ => [(INSERT, Table lottery_draw_seals)]
  end.

(** The list of a statement's privileges covers what it writes. *)
Lemma stmt_needs_writes {X} now t q (s : stmt X) r ws q' :
  exec_stmt now t q s = (r, ws, q') -> Forall (fun w => write_needs w ⊆ stmt_needs s) ws.
Proof.
  destruct s; simpl; unfold with_text, one_row, answer, insert_booking, insert_event,
    update_event_status, insert_draw, insert_seal, upsert_admin, insert_user, answer;
    repeat case_match; intros; simplify_eq/=;
    first [apply Forall_nil_2|apply Forall_singleton; set_solver].
Qed.

(** The event after a successful draw. *)
Lemma RunDraw_drawn {R} `{RandSource R} E (rand : R) w id res w' :
  tables_inv (w_tables w) -> run E (RunDraw rand id) w = (Ok res, w') ->
  exists e, t_events (w_tables w') !! id = Some e /\ ev_status e = EventStatusDrawn /\
    draws_of id (w_tables w') <> [].
Proof.
  intros Hinv Hrun. destruct (RunDraw_ok E rand w id res w' Hinv Hrun)
    as (e & winners & waitlist & rand' & clock & He & Hst & _ & Hne & Hsel & _ & ->).
  exists (set_status EventStatusDrawn (pg_time (env_dbclock E (w_step w))) e).
  split_and!; [|done|].
  - rewrite drawn_tables_eq. simpl. by rewrite lookup_alter_eq, He.
  - rewrite draws_of_drawn, decide_True by (done || apply (audit_of_ids _ _ _ _ _ _ (audit_rows_of _ _ _ _ _ _))).
    intros [_ Hr]%app_eq_nil. apply (f_equal length) in Hr. rewrite length_audit_rows in Hr.
    apply SelectWinners_ok in Hsel as (_ & _ & Hperm & _). rewrite Hperm, length_participants in Hr.
    by destruct (bookings_of id (w_tables w)).
Qed.

(** ** Properties *)

(** C8: a verified draw is the draw that was made.  After a successful
    [RunDraw], let the runtime role and the owner send any data-changing
    statements at all; those the privileges, triggers and constraints let
    through never remove or change an audit row or a seal.  When [GetResults]
    then answers, its digest is that of the draw, and it reports either a
    mismatch (never that the draw is unsealed) or a verified result, and then
    the winners, the waitlist, the time and the number of entrants are exactly
    those of the draw, unless two specific different texts have the same
    SHA-256 digest. *)
Theorem audit_tamper_proof {R} `{RandSource R} E E' (rand : R) w id res w1 w2 res' w3 :
  tables_inv (w_tables w) -> run E (RunDraw rand id) w = (Ok res, w1) ->
  (0 < dr_DrawnAt res)%Z -> wf (w_tables w1) ->
  changes (w_tables w1) (w_tables w2) -> run E' (GetResults id) w2 = (Ok res', w3) ->
  t_draws (w_tables w1) `prefix_of` t_draws (w_tables w2) /\
  t_seals (w_tables w1) ⊆ t_seals (w_tables w2) /\
  dr_Digest res' = dr_Digest res /\
  (dr_Integrity res' = IntegrityMismatch \/
   dr_Integrity res' = IntegrityVerified /\
   ((dr_Winners res', dr_Waitlist res', dr_DrawnAt res', dr_TotalEntrants res') =
    (dr_Winners res, dr_Waitlist res, dr_DrawnAt res, dr_TotalEntrants res) \/
    exists e e', t_events (w_tables w1) !! id = Some e /\ t_events (w_tables w2) !! id = Some e' /\
      collide (sealed_text e (dr_DrawnAt res) (dr_Winners res ++ dr_Waitlist res))
              (sealed_text e' (dr_DrawnAt res') (dr_Winners res' ++ dr_Waitlist res')))).
Proof.
  intros Hinv Hrun Hpos Hwf Hch Hget.
  pose proof (draw_post_inv _ _ _ _ _ _ _ _ Hinv
    (wp_run _ _ _ _ _ Hrun (RunDraw_wp E rand w id Hinv))) as Hinv1.
  pose proof (RunDraw_results E rand w id res w1 Hinv Hrun) as Hres.
  destruct (RunDraw_drawn E rand w id res w1 Hinv Hrun) as (e & He & Hst & Hne).
  destruct (changes_audit _ _ Hch Hwf) as (_ & Hpre & Hsub).
  destruct (wp_run _ _ _ _ _ Hget (GetResults_wp E' w2 id)) as (_ & [Hres'|[_ []]]).
  destruct (results_after_changes _ _ id e res res' Hinv1 Hwf Hch Hne He Hst Hres Hpos)
    as (e' & He' & Hdig & Hcase); [done|].
  split_and!; [done..|]. destruct Hcase as [?|[? [?|?]]]; eauto 10.
Qed.

(** The owner renames a drawn event: nothing about the draw changes. *)
Definition rename_event (id : Z) (title : string) : dml :=
  OnEvents (Update (fun e => if decide (ev_id e = id)
    then Some (mkEventRow (ev_id e) title (ev_description e) (ev_capacity e) (ev_winner_count e)
                 (ev_draw_at e) (ev_status e) (ev_created_by e) (ev_created_at e) (ev_updated_at e))
    else None)).

Definition statement_on (r : role) (now : Z) (d : dml) (w : world) : world :=
  match exec_dml r now (w_tables w) d with
  | Ok t => set_db t (w_seqs w) w
  | Err _ => w
  end.

Definition renamed_world : world :=
  statement_on owner 4000000 (rename_event 1 "Ball") drawn_world.

(** A concrete table holds its rows under their keys. *)
Lemma keyed_ok {Row} (key : Row -> Z) (m : gmap Z Row) :
  bool_decide (Forall (fun p => key p.2 = p.1) (map_to_list m)) = true ->
  forall k r, m !! k = Some r -> key r = k.
Proof.
  intros Hd%bool_decide_eq_true k r Hr. rewrite Forall_forall in Hd.
  by apply (Hd (k, r)), elem_of_map_to_list.
Qed.

Lemma drawn_world_wf : wf (w_tables drawn_world).
Proof.
  split; [|vm_compute; reflexivity].
  split; [apply (keyed_ok user_ID (t_users (w_tables drawn_world)))
         |apply (keyed_ok ev_id (t_events (w_tables drawn_world)))
         |apply (keyed_ok seal_event_id (t_seals (w_tables drawn_world)))]; vm_compute; reflexivity.
Qed.

Lemma statement_changes r now d w :
  changes (w_tables w) (w_tables (statement_on r now d w)).
Proof.
  unfold statement_on. destruct (exec_dml r now (w_tables w) d) eqn:Hex; [|done].
  apply rtc_once. exists r. by econstructor.
Qed.

Lemma audit_tamper_proof_witness :
  exists res w1 res' w3, run (calm_env 2000000) (RunDraw [0] 1) closed_world = (Ok res, w1) /\
    run (calm_env 5000000) (GetResults 1) renamed_world = (Ok res', w3) /\
    dr_EventTitle res = "Gala" /\ dr_EventTitle res' = "Ball" /\ dr_Digest res' = dr_Digest res.
Proof.
  destruct (run (calm_env 2000000) (RunDraw [0] 1) closed_world) as [[res|] w1] eqn:Hrun;
    [|exfalso; by vm_compute in Hrun].
  destruct (run (calm_env 5000000) (GetResults 1) renamed_world) as [[res'|] w3] eqn:Hget;
    [|exfalso; by vm_compute in Hget].
  assert (w1 = drawn_world) as -> by (unfold drawn_world, after; by rewrite Hrun).
  exists res, drawn_world, res', w3.
  destruct (audit_tamper_proof (calm_env 2000000) (calm_env 5000000) [0] closed_world 1 res
    drawn_world renamed_world res' w3) as (_ & _ & Hdig & _).
  - apply closed_world_inv.
  - exact Hrun.
  - vm_compute in Hrun. injection Hrun as <-. vm_compute. reflexivity.
  - exact drawn_world_wf.
  - exact (statement_changes owner 4000000 (rename_event 1 "Ball") drawn_world).
  - exact Hget.
  - split; [exact eq_refl|]. split; [exact eq_refl|]. split; [|split; [|exact Hdig]].
    + vm_compute in Hrun. injection Hrun as <-. reflexivity.
    + vm_compute in Hget. injection Hget as <- _. reflexivity.
Defined.

(** C20: the runtime role can do everything the services do.  The privileges
    granted to [lottery_app] cover every statement of the services, its reads,
    its [FOR UPDATE], its [RETURNING] and the sequence of its key included: it
    runs as it would without the check.  In a state of the schema whose keys
    came from the sequences, its writes are data changes that the privileges,
    the triggers and the constraints let through, and they lead to such a
    state again. *)
Theorem services_within_grants {X} now t q (s : stmt X) r ws q' :
  wf t -> below t q -> exec_stmt now t q s = (r, ws, q') ->
  exec_stmt_as lottery_app now t q s = (r, ws, q') /\
  Forall (fun w => write_needs w ⊆ stmt_needs s) ws /\
  rtc (changed lottery_app) t (apply_writes t ws) /\
  wf (apply_writes t ws) /\ below (apply_writes t ws) q'.
Proof.
  intros Hwf Hb Hex. pose proof (exec_stmt_seqs now t q s r ws q' Hex) as [Hle _].
  split; [unfold exec_stmt_as; by rewrite stmt_needs_granted|].
  split; [by eapply stmt_needs_writes|].
  destruct (exec_stmt_allowed now t q s r ws q' Hwf Hb Hex) as [->|(w & -> & [d Hd] & Hk)]; simpl.
  - split_and!; [done..|by eapply below_mono].
  - split_and!; [eapply rtc_once, changed_by, Hd|by apply (exec_dml_audit _ _ _ _ _ Hwf Hd)|].
    apply apply_write_below; [by eapply below_mono|done].
Qed.

Lemma services_within_grants_witness :
  exec_stmt_as lottery_app (mkMoment 5000 id) sample_tables (mkSeqs 5 2 1 1) (InsertBooking 1 2)
    = (Ok tt, [WBooking (mkBooking 1 1 2 5000)], mkSeqs 5 2 2 1) /\
  rtc (changed lottery_app) sample_tables
    (apply_writes sample_tables [WBooking (mkBooking 1 1 2 5000)]).
Proof.
  destruct (services_within_grants (mkMoment 5000 id) sample_tables (mkSeqs 5 2 1 1) (InsertBooking 1 2)
    (Ok tt) [WBooking (mkBooking 1 1 2 5000)] (mkSeqs 5 2 2 1)) as (Has & _ & Hrtc & _).
  - split; [|vm_compute; reflexivity].
    split; [apply (keyed_ok user_ID (t_users sample_tables))
           |apply (keyed_ok ev_id (t_events sample_tables))
           |apply (keyed_ok seal_event_id (t_seals sample_tables))]; vm_compute; reflexivity.
  - split; [exact (proj2 sample_inv)|constructor..].
  - vm_compute. reflexivity.
  - split; [exact Has|exact Hrtc].
Defined.

(** ** What the triggers leave open *)

(** A second event, not drawn. *)
Definition raffle : event_row :=
  mkEventRow 2 "Raffle" "" 5 1 9000000 EventStatusOpen 1 2500000 2500000.

(** [UPDATE events SET id = CASE id WHEN 1 THEN 100 ELSE 1 END WHERE id IN (1, 2)]. *)
Definition move_events : dml :=
  OnEvents (Update (fun e =>
    let moved id := Some (mkEventRow id (ev_title e) (ev_description e) (ev_capacity e)
                       (ev_winner_count e) (ev_draw_at e) (ev_status e) (ev_created_by e)
                       (ev_created_at e) (ev_updated_at e)) in
    if decide (ev_id e = 1%Z) then moved 100%Z
    else if decide (ev_id e = 2%Z) then moved 1%Z else None)).

(** [forbid_drawn_event_change] does not look at [id]: the runtime role can
    move a drawn event to another id and put an open event under the old one,
    and the results of the draw can no longer be read. *)
Lemma drawn_event_can_be_moved :
  (fun t => (results_of t 1, ev_status <$> t_events t !! 1%Z, length (draws_of 1 t))) <$>
    exec_dml lottery_app 3000000 (apply_write (w_tables drawn_world) (WEvent raffle)) move_events
  = Ok (Err ErrResultsUnavailable, Some EventStatusOpen, 2).
Proof. vm_compute. reflexivity. Qed.

(** The attempts of [src/loadtest/sql/l6_tamper.sql], sections A and B. *)
Definition touch_draws : dml := OnDraws (Update (fun d => Some d)).
Definition delete_draws : dml := OnDraws (Delete (fun _ => true)).
Definition truncate_draws : dml := OnDraws (Truncate false).
Definition delete_seals : dml := OnSeals (Delete (fun _ => true)).
Definition forge_seals : dml :=
  OnSeals (Update (fun s => Some (mkSealRow (seal_event_id s) "forged" (seal_algorithm s)
                                    (seal_sealed_at s)))).
Definition change_drawn (g : event_row -> event_row) : dml :=
  OnEvents (Update (fun e => if decide (ev_status e = EventStatusDrawn) then Some (g e) else None)).
Definition reopen : event_row -> event_row :=
  fun e => set_status EventStatusClosed (ev_updated_at e) e.
Definition one_more_winner : event_row -> event_row :=
  fun e => mkEventRow (ev_id e) (ev_title e) (ev_description e) (ev_capacity e)
             (ev_winner_count e + 1) (ev_draw_at e) (ev_status e) (ev_created_by e)
             (ev_created_at e) (ev_updated_at e).

(** All of them fail with [insufficient_privilege], for both roles. *)
Example l6_tamper :
  Forall (fun rd => exec_dml rd.1 3000000 (w_tables drawn_world) rd.2
                    = Err (PgError codeInsufficientPrivilege))
    (r ← [lottery_app; owner];
     pair r <$> [touch_draws; delete_draws; truncate_draws; delete_seals; forge_seals;
                 change_drawn reopen; change_drawn one_more_winner]).
Proof. repeat constructor. Qed.
