(* ===== verification/Lock.v ===== *)
(** * Booking under the locks

    [src/internal/booking/service.go]: [BookWithLock] takes the event's gate
    and the Redis lock, runs the booking transaction and gives both back;
    [acquireRedisLock] is the retry loop with jittered exponential backoff. *)

From S2P Require Import Prelude GoFmt GoTime Models Database Effects Invariant Booking Scenario.

Section Service.
(** The two durations [NewService] is given. *)
Variables lockTTL lockWait : Z.

(** [NewService]: a duration that is not positive is replaced. *)
Definition service_lockTTL : Z := if decide (lockTTL <= 0)%Z then (5 * Second)%Z else lockTTL.
Definition service_lockWait : Z := if decide (lockWait <= 0)%Z then (10 * Second)%Z else lockWait.

(** The answer of the model when the loop bound is used up; it never is, see
    [acquire_loop_wp]. *)
Definition loop_bound_exceeded : booking_error := Other "loop bound exceeded".

(** The loop of [acquireRedisLock] with the current [backoff]. *)
Fixpoint acquire_loop (fuel : nat) (key token : string) (backoff : Z)
  : program (result booking_error unit) :=
  match fuel with
  | O => mret (Err loop_bound_exceeded)
  | S fuel' =>
    acquired ← perform (SetNX key token service_lockTTL);
    match acquired with
    | None => mret (Err (Other "redis lock acquisition failed"))
    | Some true => mret (Ok tt)
    | Some false =>
      jitter ← perform (Int63n backoff);
      ctx_done ← perform (WaitTimer (backoff `quot` 2 + jitter));
      if ctx_done : bool then mret (Err ErrEventBusy)
      else acquire_loop fuel' key token
             (if decide (backoff < 50 * Millisecond)%Z then backoff * 2 else backoff)%Z
    end
  end.

(** Every completed wait takes at least a millisecond of the budget. *)
Definition acquire_fuel : nat := Z.to_nat (service_lockWait `div` Millisecond) + 2.

Definition acquireRedisLock (key token : string) : program (result booking_error unit) :=
  acquire_loop acquire_fuel key token (2 * Millisecond).

Definition lock_key (eventID : Z) : string := "lock:booking:event:" +:+ FormatInt eventID.

Definition newToken : program (option string) :=
  b ← perform RandRead;
  match b with
  | None => mret None
  | Some bytes => mret (Some (hex_encode bytes))
  end.

(** The part of [BookWithLock] inside the gate: the token, the Redis lock, the
    transaction, and the deferred release, whose own failure is only logged. *)
Definition book_in_gate (eventID userID : Z) : program (result booking_error unit) :=
  let lockKey := lock_key eventID in
  token ← newToken;
  match token with
  | None => mret (Err (Other "generating lock token"))
  | Some token =>
    try _ := acquireRedisLock lockKey token catch e => e in
    (r ← createBooking eventID userID; perform (ReleaseScript lockKey token);; mret r)
  end.

Definition BookWithLock (eventID userID : Z) : program (result booking_error unit) :=
  if decide (eventID <= 0 \/ userID <= 0)%Z then mret (Err ErrInvalidInput)
  else
  perform (WithTimeout service_lockWait);;
  entered ← perform (GateEnter eventID);
  if negb entered then mret (Err ErrEventBusy)
  else (r ← book_in_gate eventID userID; perform (GateLeave eventID);; mret r).
End Service.

(** ** The retry loop *)

(** [w'] differs from [w] only in Redis and in the time waited. *)
Definition only_redis (w w' : world) : Prop :=
  w_tables w' = w_tables w /\ w_seqs w' = w_seqs w /\ w_tx w' = w_tx w /\
  w_gates w' = w_gates w /\ w_budget w' = w_budget w.

#[export] Instance only_redis_preorder : PreOrder only_redis.
Proof. split; unfold only_redis; [done|]. intros ???; intuition congruence. Qed.

(** The lock was free by the Redis clock at a step of the request, and is ours
    from then on. *)
Definition lock_taken (E : env) (ttl : Z) (w w' : world) (key token : string) (n : nat) : Prop :=
  w_step w <= n < w_step w' /\ redis_get (w_redis w) (env_redisclock E n) key = None /\
  w_redis w' = <[key := (token, env_redisclock E n + ttl)%Z]> (w_redis w).

(** The answers of the loop: the lock is ours; the wait ended and Redis is
    unchanged; or Redis failed, in which case the [SET] may have happened. *)
Definition acquire_post (E : env) (ttl : Z) (w : world) (key token : string)
    (r : result booking_error unit) (w' : world) : Prop :=
  only_redis w w' /\
  ((r = Ok tt /\ exists n, lock_taken E ttl w w' key token n) \/
   (r = Err ErrEventBusy /\ w_redis w' = w_redis w) \/
   (faulty E /\ r = Err (Other "redis lock acquisition failed") /\
      (w_redis w' = w_redis w \/
       exists n, lock_taken E ttl w w' key token n /\ env_fault E n <> NoFault /\ w_step w' = S n))).

(** A later start of the same loop, over the same keys. *)
Lemma acquire_post_later E ttl w1 w2 key token r w' :
  only_redis w1 w2 -> w_redis w2 = w_redis w1 -> w_step w1 <= w_step w2 ->
  acquire_post E ttl w2 key token r w' -> acquire_post E ttl w1 key token r w'.
Proof.
  intros Ho Hr Hs [Ho' Hpost]. split; [by etrans|]. unfold lock_taken in *. rewrite Hr in Hpost.
  destruct Hpost as [[-> (n & ? & ?)]|[?|(? & -> & [?|(n & (? & ?) & ?)])]]; [left|right; by left|do 2 right..].
  - split; [done|]. exists n. split; [lia|done].
  - by auto.
  - split_and!; [done..|]. right. exists n. split; [|done]. split; [lia|done].
Qed.

Lemma acquire_loop_wp lockTTL E fuel key token backoff w :
  (2 * Millisecond <= backoff)%Z ->
  (w_budget w < w_waited w + (Z.of_nat fuel - 1) * Millisecond)%Z ->
  0 < fuel ->
  wp E (acquire_loop lockTTL fuel key token backoff)
    (acquire_post E (service_lockTTL lockTTL) w key token) w.
Proof.
  revert backoff w. induction fuel as [|fuel IH]; intros backoff w Hb Hfuel Hpos; [lia|].
  simpl. apply wp_act. unfold exec_cmd, exec_setnx.
  destruct (redis_setnx _ _ _ _ _) as [b r] eqn:Hset.
  assert ((b = true /\ lock_taken E (service_lockTTL lockTTL) w (tick (set_redis r w)) key token (w_step w)) \/
          (b = false /\ r = w_redis w)) as Hr.
  { unfold redis_setnx in Hset. destruct (redis_get _ _ _) eqn:Hget; simplify_eq; [by auto|].
    left. split; [done|]. split; [simpl; lia|done]. }
  destruct (env_fault E (w_step w)) eqn:Hft; simpl.
  2: { apply wp_ret. split; [done|]. do 2 right. split_and!; [by exists (w_step w); rewrite Hft|done|].
       by left. }
  2: { apply wp_ret. split; [done|]. do 2 right. split_and!; [by exists (w_step w); rewrite Hft|done|].
       destruct Hr as [[_ Hr]|[_ ->]]; [right; exists (w_step w)|by left]. by rewrite Hft. }
  destruct Hr as [[-> Hr]|[-> ->]].
  { apply wp_ret. split; [done|]. left. by eauto. }
  apply wp_act, wp_act. unfold exec_cmd, exec_wait. simpl.
  case_decide as Hbud; [|destruct (env_timeout E _)]; simpl.
  - apply wp_ret. split; [done|]. right. by left.
  - apply wp_ret. split; [done|]. right. by left.
  - set (d := (backoff `quot` 2 + _)%Z).
    assert (Millisecond <= d)%Z as Hd.
    { subst d. unfold Millisecond in *.
      pose proof (Z.mod_pos_bound (env_int63 E (S (w_step w))) backoff).
      assert (1000000 <= backoff `quot` 2)%Z; [|lia]. apply Z.quot_le_lower_bound; lia. }
    eapply wp_mono; [apply IH; simpl|].
    + case_decide; lia.
    + unfold Millisecond in *. simpl in Hbud. lia.
    + unfold Millisecond in *. lia.
    + intros r w' Hpost. eapply acquire_post_later, Hpost; [done|done|simpl; lia].
Qed.

Lemma acquire_fuel_enough lockWait :
  (service_lockWait lockWait < 0 + (Z.of_nat (acquire_fuel lockWait) - 1) * Millisecond)%Z.
Proof.
  unfold acquire_fuel.
  assert (0 < service_lockWait lockWait)%Z as Hpos.
  { unfold service_lockWait, Second. case_decide; lia. }
  pose proof (Z.div_mod (service_lockWait lockWait) Millisecond ltac:(done)) as Hdm.
  pose proof (Z.mod_pos_bound (service_lockWait lockWait) Millisecond ltac:(done)).
  assert (0 <= service_lockWait lockWait `div` Millisecond)%Z
    by (apply Z.div_pos; unfold Millisecond; lia).
  unfold Millisecond in *. lia.
Qed.

Lemma acquireRedisLock_wp lockTTL lockWait E key token w :
  w_budget w = service_lockWait lockWait -> w_waited w = 0%Z ->
  wp E (acquireRedisLock lockTTL lockWait key token)
    (acquire_post E (service_lockTTL lockTTL) w key token) w.
Proof.
  intros Hb Hw. apply acquire_loop_wp; [done| |unfold acquire_fuel; lia].
  rewrite Hb, Hw. apply acquire_fuel_enough.
Qed.

(** ** The whole request *)

(** The answer and the committed tables after [BookWithLock]. *)
Definition locked_post (faults : Prop) (t : Tables) (eventID userID : Z)
    (r : result booking_error unit) (t' : Tables) : Prop :=
  if decide (eventID <= 0 \/ userID <= 0)%Z then r = Err ErrInvalidInput /\ t' = t
  else (t' = t /\ (r = Err ErrEventBusy \/ r = Err (Other "generating lock token") \/
                   faults /\ r = Err (Other "redis lock acquisition failed"))) \/
       book_post faults t eventID userID r t'.

(** Redis after the request: only the event's lock key may differ.  It is as
    before the request, or gone.  The only other possibility is an entry this
    request set itself, at its step [n], and then its last call to Redis, the
    step [n'] just before it leaves the gate, failed or came after the entry's
    expiry: a live entry is never left behind unless Redis failed to answer
    the call that would have removed it. *)
Definition lock_returned (E : env) (ttl : Z) (w w' : world) (eventID : Z) : Prop :=
  (forall key, key <> lock_key eventID -> w_redis w' !! key = w_redis w !! key) /\
  (w_redis w' !! lock_key eventID = w_redis w !! lock_key eventID \/
   w_redis w' !! lock_key eventID = None \/
   exists token n n',
     w_step w <= n <= n' /\ w_step w' = S (S n') /\
     redis_get (w_redis w) (env_redisclock E n) (lock_key eventID) = None /\
     w_redis w' !! lock_key eventID = Some (token, env_redisclock E n + ttl)%Z /\
     (env_fault E n' <> NoFault \/ (env_redisclock E n + ttl <= env_redisclock E n')%Z)).

Lemma lock_returned_same E ttl w w' eventID :
  w_redis w' = w_redis w -> lock_returned E ttl w w' eventID.
Proof. intros Hr. split; rewrite Hr; auto. Qed.

(** The same request seen from an earlier and a later step. *)
Lemma lock_returned_extend E ttl w0 w w' w1 eventID :
  w_redis w0 = w_redis w -> w_redis w1 = w_redis w' ->
  w_step w0 <= w_step w -> w_step w1 = w_step w' ->
  lock_returned E ttl w w' eventID -> lock_returned E ttl w0 w1 eventID.
Proof.
  intros H0 H1 Hs0 Hs1 [Hk Hl]. unfold lock_returned. rewrite H0, H1. split; [done|].
  destruct Hl as [Hl|[Hl|(tk & n & n' & ? & ? & ?)]]; [by auto..|].
  do 2 right. exists tk, n, n'. split_and!; [lia|lia|lia|naive_solver..].
Qed.

Lemma release_returned E eventID token ttl n w0 w :
  lock_taken E ttl w0 w (lock_key eventID) token n ->
  lock_returned E ttl w0 (tick (tick (exec_release E (lock_key eventID) token w).2)) eventID.
Proof.
  intros (Hn & Hfree & Hr). unfold exec_release, lock_returned.
  destruct (redis_release _ _ _ _) as [z r] eqn:Hrel. unfold redis_release in Hrel.
  assert (w_redis w !! lock_key eventID = Some (token, env_redisclock E n + ttl)%Z) as Hown
    by (by rewrite Hr, lookup_insert_eq).
  destruct (env_fault E (w_step w)) eqn:Hft; simpl.
  2: { split; [intros key Hk; by rewrite Hr, lookup_insert_ne|]. do 2 right.
       exists token, n, (w_step w). rewrite Hft. split_and!; [lia..|done|done|by left]. }
  all: case_decide as Hget; simplify_eq; simpl.
  1,3: split; [intros key Hk; by rewrite lookup_delete_ne, Hr, lookup_insert_ne|];
       right; left; by rewrite lookup_delete_eq.
  all: split; [intros key Hk; by rewrite Hr, lookup_insert_ne|]; do 2 right;
       exists token, n, (w_step w); split_and!; [lia..|done|done|right];
       unfold redis_get in Hget; rewrite Hown in Hget; case_decide; [done|lia].
Qed.

Lemma book_in_gate_wp lockTTL lockWait E eventID userID w :
  w_budget w = service_lockWait lockWait -> w_waited w = 0%Z ->
  wp E (book_in_gate lockTTL lockWait eventID userID) (fun r w' =>
    w_gates w' = w_gates w /\ lock_returned E (service_lockTTL lockTTL) w (tick w') eventID /\
    ((w_tables w' = w_tables w /\
        (r = Err ErrEventBusy \/ r = Err (Other "generating lock token") \/
         faulty E /\ r = Err (Other "redis lock acquisition failed"))) \/
     book_post (faulty E) (w_tables w) eventID userID r (w_tables w'))) w.
Proof.
  intros Hb Hw. apply wp_bind, wp_bind, wp_perform. cbn [exec_cmd fst snd].
  destruct (env_random E (w_step w)) as [bytes|]; apply wp_ret; [set (token := hex_encode bytes)|].
  2: { apply wp_ret. simpl. split_and!; [done|by apply lock_returned_same|auto]. }
  apply wp_try. eapply wp_mono; [by apply acquireRedisLock_wp|].
  intros r1 w1 [(Ht & _ & _ & Hg & _) Hpost]. simpl in Ht, Hg.
  destruct Hpost as [[-> [n Htaken]]|[[-> Hr]|(Hf & -> & Hr)]].
  - apply wp_bind. pose proof (run_db_only E _ w1 (createBooking_db_only eventID userID))
      as (Hred & Hgates & _). pose proof (createBooking_wp E w1 eventID userID) as Hbook.
    pose proof (run_step_le (E := E) (createBooking eventID userID) w1) as Hstep.
    unfold wp in *. destruct (run E (createBooking eventID userID) w1) as [r2 w2].
    simpl in *. rewrite Ht in Hbook.
    assert (lock_taken E (service_lockTTL lockTTL) w w2 (lock_key eventID) token n) as Htaken2.
    { destruct Htaken as (Hn & Hfree & Hw1). simpl in Hn. split; [lia|]. by rewrite Hred. }
    apply release_returned in Htaken2.
    unfold exec_cmd. simpl. destruct (exec_release E (lock_key eventID) token w2) as [z w3] eqn:Hex.
    simpl in *. assert (w_tables w3 = w_tables w2 /\ w_gates w3 = w_gates w2) as [E1 E2].
    { unfold exec_release in Hex. repeat case_match; simplify_eq; done. }
    rewrite E1, E2. split_and!; [congruence|exact Htaken2|by right].
  - split_and!; [done|by apply lock_returned_same|left; auto].
  - split_and!; [done| |left; auto].
    destruct Hr as [Hr|(n & (Hn & Hfree & Hr) & Hft & Hs)]; [by apply lock_returned_same|].
    split; simpl; rewrite Hr; [intros key Hk; by rewrite lookup_insert_ne|]. do 2 right.
    exists token, n, n. rewrite lookup_insert_eq. simpl in Hn.
    split_and!; [lia..|done|done|by left].
Qed.

Lemma BookWithLock_wp lockTTL lockWait E eventID userID w :
  wp E (BookWithLock lockTTL lockWait eventID userID) (fun r w' =>
    w_gates w' = w_gates w /\ lock_returned E (service_lockTTL lockTTL) w w' eventID /\
    locked_post (faulty E) (w_tables w) eventID userID r (w_tables w')) w.
Proof.
  unfold BookWithLock, locked_post. case_decide as Hbad.
  { apply wp_ret. split_and!; [done|by apply lock_returned_same|done..]. }
  apply wp_bind, wp_perform. cbn [exec_cmd fst snd].
  apply wp_bind, wp_perform. unfold exec_cmd.
  destruct (env_timeout E _); cbn [fst snd negb].
  { apply wp_ret. split_and!; [done|by apply lock_returned_same|]. left. split; [done|]. by left. }
  apply wp_bind. eapply wp_mono; [by apply book_in_gate_wp|].
  intros r w1 (Hg & Hret & Hpost). apply wp_bind, wp_perform. cbn [exec_cmd fst snd].
  apply wp_ret. split_and!; [simpl; by rewrite Hg| |exact Hpost].
  eapply lock_returned_extend, Hret; simpl; [done|done|lia|done].
Qed.

(** ** Several holders of one lock *)

(** What the requests of all replicas do to one key, at the time of the Redis
    clock: take it with a token, or run the release script. *)
Inductive lock_op := OpSetNX (token : string) | OpRelease (token : string).

Definition apply_lock_op (ttl : Z) (key : string) (r : redis) (o : Z * lock_op) : redis * bool :=
  match o with
  | (now, OpSetNX token) => let (b, r') := redis_setnx r now key token ttl in (r', b)
  | (now, OpRelease token) => let (n, r') := redis_release r now key token in (r', bool_decide (n = 1%Z))
  end.

(** The answers of a sequence of operations and the keys after it. *)
Fixpoint apply_lock_ops (ttl : Z) (key : string) (r : redis) (ops : list (Z * lock_op))
  : redis * list bool :=
  match ops with
  | [] => (r, [])
  | o :: ops' =>
      let (r1, b) := apply_lock_op ttl key r o in
      let (r2, bs) := apply_lock_ops ttl key r1 ops' in (r2, b :: bs)
  end.

Definition op_token (o : lock_op) : string :=
  match o with OpSetNX t => t | OpRelease t => t end.

(** While a holder's entry is alive, nothing the others do succeeds or
    changes it. *)
Lemma held_lock_stable ttl key r token expiry ops :
  r !! key = Some (token, expiry) ->
  Forall (fun o => o.1 < expiry /\ op_token o.2 <> token)%Z ops ->
  apply_lock_ops ttl key r ops = (r, replicate (length ops) false).
Proof.
  intros Hr Hops. induction Hops as [|[now o] ops [Hnow Hne] _ IH]; [done|]. simpl in *.
  assert (redis_get r now key = Some token) as Hget.
  { unfold redis_get. by rewrite Hr, decide_True. }
  destruct o as [t|t]; simpl in *.
  - unfold redis_setnx. rewrite Hget. by rewrite IH.
  - unfold redis_release. rewrite Hget, decide_False by congruence. by rewrite IH.
Qed.

(** ** Properties *)

(** C6: a booking request, from the identifiers to the answer, under every
    failure of Redis, the database and the clocks.  Invalid identifiers are
    refused; a request that does not get its turn answers [ErrEventBusy] and
    books nothing; otherwise the answer is that of the booking transaction on
    the committed tables, and it books exactly one place exactly when the
    specification says so.  Every exit leaves the gate.  The Redis lock is
    given back: when the request ends, the event's key is as it was before or
    deleted, unless the entry is the request's own and the request's last
    call to Redis failed or came after the entry's expiry ([lock_returned]). *)
Theorem BookWithLock_correct lockTTL lockWait E eventID userID w :
  wp E (BookWithLock lockTTL lockWait eventID userID) (fun r w' =>
    w_gates w' = w_gates w /\ lock_returned E (service_lockTTL lockTTL) w w' eventID /\
    locked_post (faulty E) (w_tables w) eventID userID r (w_tables w')) w.
Proof. apply BookWithLock_wp. Qed.

(** C32: the retry loop of the Redis lock ends.  Within the wait budget it
    makes at most [budget/1ms + 2] attempts (every completed wait takes at
    least a millisecond), so the model's loop bound is never reached: the
    answer is the lock, [ErrEventBusy] with Redis unchanged, or a Redis
    failure. *)
Theorem acquireRedisLock_terminates lockTTL lockWait E key token w :
  w_budget w = service_lockWait lockWait -> w_waited w = 0%Z ->
  wp E (acquireRedisLock lockTTL lockWait key token) (fun r w' =>
    r <> Err loop_bound_exceeded /\
    acquire_post E (service_lockTTL lockTTL) w key token r w') w.
Proof.
  intros Hb Hw. eapply wp_mono; [by apply acquireRedisLock_wp|].
  intros r w' Hp. split; [|done].
  destruct Hp as (_ & [[-> _]|[[-> _]|(_ & -> & _)]]); done.
Qed.

(** A Redis in which another replica holds the lock of event 1 for long. *)
Definition contended_world : world :=
  set_wait (3 * Millisecond) 0
    (set_redis {[ lock_key 1 := ("theirs", 1000 * Second)%Z ]} sample_world).

Lemma acquireRedisLock_terminates_witness :
  (run (calm_env 5) (acquireRedisLock 0 (3 * Millisecond) (lock_key 1) "ours") contended_world).1
    = Err ErrEventBusy /\
  (run (calm_env 5) (acquireRedisLock 0 (3 * Millisecond) (lock_key 1) "ours") contended_world).1
    <> Err loop_bound_exceeded.
Proof.
  split; [by vm_compute|].
  by apply (acquireRedisLock_terminates 0 (3 * Millisecond) (calm_env 5) (lock_key 1) "ours"
              contended_world).
Defined.

(** The Redis lock excludes.  After a successful [SET NX] at time [now],
    and until its expiry at [now + ttl], whatever other token holders do, in
    any number and order, every attempt to take the lock fails, no release
    script deletes it, and the holder can still release it itself. *)
Theorem redis_lock_exclusive ttl key token r now r' ops now' :
  redis_setnx r now key token ttl = (true, r') ->
  Forall (fun o => o.1 < now + ttl /\ op_token o.2 <> token)%Z ops -> (now' < now + ttl)%Z ->
  apply_lock_ops ttl key r' ops = (r', replicate (length ops) false) /\
  redis_release r' now' key token = (1%Z, delete key r').
Proof.
  intros Hset Hops Hnow'.
  assert (r' !! key = Some (token, now + ttl)%Z) as Hr.
  { unfold redis_setnx in Hset. destruct (redis_get r now key); simplify_eq.
    by rewrite lookup_insert_eq. }
  split; [by eapply held_lock_stable|].
  assert (redis_get r' now' key = Some token) as Hget.
  { unfold redis_get. by rewrite Hr, decide_True. }
  unfold redis_release. by rewrite decide_True.
Qed.

Lemma redis_lock_exclusive_witness :
  apply_lock_ops 100 "k" {[ "k" := ("a", 110%Z) ]}
    [(20%Z, OpSetNX "b"); (30%Z, OpRelease "b"); (109%Z, OpSetNX "c")] =
  ({[ "k" := ("a", 110%Z) ]}, [false; false; false]).
Proof.
  apply (redis_lock_exclusive 100 "k" "a" ∅ 10 {[ "k" := ("a", 110%Z) ]}
    [(20%Z, OpSetNX "b"); (30%Z, OpRelease "b"); (109%Z, OpSetNX "c")] 50);
    [by vm_compute| |done].
  repeat constructor; done.
Defined.

(** The specified answer is given.  When nothing fails, the gate and the
    wait do not time out, a token can be generated and the lock is free, a
    booking request with valid identifiers is answered exactly as the
    specification says, and a place is booked if it says so. *)
Theorem BookWithLock_progress lockTTL lockWait E eventID userID w :
  ~ faulty E -> (forall n, env_timeout E n = false) -> (forall n, is_Some (env_random E n)) ->
  (0 < eventID)%Z -> (0 < userID)%Z -> w_redis w !! lock_key eventID = None ->
  (run E (BookWithLock lockTTL lockWait eventID userID) w).1 =
  book_spec (w_tables w) eventID userID.
Proof.
  intros Hnf Hto Htok He Hu Hfree.
  enough (wp E (BookWithLock lockTTL lockWait eventID userID)
    (fun r _ => r = book_spec (w_tables w) eventID userID) w) as Hwp by exact Hwp.
  unfold BookWithLock. rewrite decide_False by lia.
  apply wp_bind, wp_perform. cbn [exec_cmd fst snd].
  apply wp_bind, wp_perform. unfold exec_cmd. rewrite Hto. cbn [fst snd negb].
  apply wp_bind. unfold book_in_gate. apply wp_bind, wp_bind, wp_perform. cbn [exec_cmd fst snd].
  destruct (Htok (w_step (tick (set_gates (eventID ::
    w_gates (tick (set_wait (service_lockWait lockWait) 0 w)))
    (tick (set_wait (service_lockWait lockWait) 0 w)))))) as [bytes ->].
  apply wp_ret, wp_try. unfold acquireRedisLock, acquire_fuel. rewrite Nat.add_comm. cbn [Nat.add acquire_loop].
  apply wp_bind, wp_perform. unfold exec_cmd, exec_setnx.
  destruct (env_fault E _) eqn:Hft; [|by destruct Hnf; eexists; rewrite Hft..].
  unfold redis_setnx, redis_get. simpl w_redis. rewrite Hfree. cbn [fst snd].
  apply wp_ret, wp_bind. eapply wp_mono; [apply createBooking_wp|].
  intros r w1 [[Hr _]|[? _]]; [|done]. by apply wp_bind, wp_perform, wp_ret, wp_bind, wp_perform, wp_ret.
Qed.

Lemma BookWithLock_progress_witness :
  (run (calm_env 5) (BookWithLock 0 0 1 2) sample_world).1 = book_spec sample_tables 1 2 /\
  book_spec sample_tables 1 2 = Ok tt.
Proof.
  split; [|by vm_compute].
  apply (BookWithLock_progress 0 0 (calm_env 5) 1 2 sample_world);
    [apply calm_not_faulty|done|by eexists|done|done|by vm_compute].
Defined.
