(* ===== verification/Concurrent.v ===== *)
(** * Concurrent transactions

    Requests do not run one after another: their statements interleave, over
    several server processes, and the in-process gate and the Redis lock only
    make contention cheaper (the Redis lock can expire under its holder).
    What keeps concurrent requests apart is the [FOR UPDATE] row lock on the
    event at the start of every transaction of
    [src/internal/{booking,event,lottery}/service.go].

    This file models sessions that interleave statement by statement under
    the row locks of the database, and a program logic for one session among
    others: [lwp], in which every command may find that the others have
    changed the tables, except for what the session has locked.  Its
    postconditions name the one step at which the request took effect. *)

From S2P Require Import Prelude Models Database Effects Invariant Growth.

(** ** Row locks *)

(** The lock modes the statements take on a row of [events]: [SELECT ... FOR
    UPDATE], an [UPDATE] of other columns than the key, and the check of a
    foreign key. *)
Inductive lock_mode := ForUpdate | NoKeyUpdate | KeyShare.

#[export] Instance lock_mode_eq_dec : EqDecision lock_mode.
Proof. solve_decision. Defined.

(** The conflict table of the database's row locks. *)
Definition conflict (m m' : lock_mode) : bool :=
  match m, m' with
  | KeyShare, KeyShare | KeyShare, NoKeyUpdate | NoKeyUpdate, KeyShare => false
  | _, _ => true
  end.

(** The event row a statement locks.  (No statement of a transaction locks a
    row of another table in a mode that conflicts with a foreign-key check.) *)
Definition stmt_lock {X} (s : stmt X) : option (Z * lock_mode) :=
  match s with
  | SelectStatusCapacityForUpdate eid | SelectStatusForUpdate eid
  | SelectDrawEventForUpdate eid => Some (eid, ForUpdate)
  | UpdateEventStatus eid _ => Some (eid, NoKeyUpdate)
  | InsertBooking eid _ | InsertDraw eid _ _ _ _ _ | InsertSeal eid _ _ _ => Some (eid, KeyShare)
  | _ => None
  end.

Definition cmd_lock {X} (c : cmd X) : option (Z * lock_mode) :=
  match c with TxExec s => stmt_lock s | PoolExec s => stmt_lock s | _ => None end.

Definition in_transaction {X} (c : cmd X) : bool :=
  match c with TxExec _ => true | _ => false end.

Definition locks : Type := list (Z * lock_mode).

(** The transaction is open and not aborted; the server frees the row locks
    of a transaction as soon as it ends or fails. *)
Definition live (w : world) : bool :=
  match w_tx w with Some t => negb (tx_aborted t) | None => false end.

(** The locks held after a command: a lock needs a row to be on. *)
Definition locks_after {X} (c : cmd X) (T : Tables) (held : locks) (w' : world) : locks :=
  if live w' then
    match cmd_lock c with
    | Some (eid, m) =>
        if in_transaction c && bool_decide (is_Some (t_events T !! eid))
        then (eid, m) :: held else held
    | None => held
    end
  else [].

(** ** What others may change *)

(** The rows of one event: its own, its bookings, its audit rows, its seal. *)
Record slice_eq (eid : Z) (T T' : Tables) : Prop := {
  sl_event : t_events T' !! eid = t_events T !! eid;
  sl_bookings : bookings_of eid T' = bookings_of eid T;
  sl_draws : draws_of eid T' = draws_of eid T;
  sl_seal : t_seals T' !! eid = t_seals T !! eid
}.

#[export] Instance slice_eq_equiv eid : Equivalence (slice_eq eid).
Proof.
  split.
  - by intros T.
  - by intros T T' [E1 E2 E3 E4].
  - intros T1 T2 T3 [A1 A2 A3 A4] [B1 B2 B3 B4]. split; congruence.
Qed.

(** From [T] to [T'] while a session holds [held]: the record grows, and the
    events it has locked for update are untouched. *)
Definition rely (held : locks) (T T' : Tables) : Prop :=
  grows T T' /\ forall eid, (eid, ForUpdate) ∈ held -> slice_eq eid T T'.

#[export] Instance rely_preorder held : PreOrder (rely held).
Proof.
  split.
  - intros T. by split.
  - intros T1 T2 T3 [G1 S1] [G2 S2]. split; [by etrans|]. intros eid Hin.
    etrans; [by apply S1|by apply S2].
Qed.

(** What a step of a session itself does to the events it has not locked:
    nothing. *)
Definition frame (held : locks) (T T' : Tables) : Prop :=
  grows T T' /\ forall eid, is_Some (t_events T !! eid) -> (eid, ForUpdate) ∉ held -> slice_eq eid T T'.

Lemma frame_refl held T : frame held T T.
Proof. by split. Qed.
#[export] Hint Resolve frame_refl : lottery.

(** ** One session among others *)

(** The step at which a session took effect, from tables to tables, and the
    tables it found at its later steps. *)
Abbreviation effect := (Tables * Tables * list Tables)%type.

Definition after (e : effect) (T : Tables) : effect := (e.1, e.2 ++ [T]).

Definition ext (o : option effect) (T : Tables) : option effect :=
  match o with Some e => Some (after e T) | None => None end.

(** The state of a session: its private part of the world, the locks it
    holds, the tables after its last command, and its effect, if it has taken
    effect. *)
Record local := mkLocal {
  l_world : world;
  l_held : locks;
  l_last : Tables;
  l_effect : option effect
}.

(** A session takes effect in one step; its other steps change nothing. *)
Inductive effect_step : option effect -> Tables -> Tables -> option effect -> Prop :=
| EffectNone T : effect_step None T T None
| EffectNow T T' : effect_step None T T' (Some (T, T', []))
| EffectAfter e T : effect_step (Some e) T T (Some (after e T)).

Lemma effect_ext o T : effect_step o T T (ext o T).
Proof. destruct o; constructor. Qed.

(** The answer [r] fits the effect [e]: [post] holds of the tables around the
    step and of some of the tables found later. *)
Definition took {A} (post : A -> Tables -> Tables -> list Tables -> Prop) (r : A) (e : effect) : Prop :=
  exists seen, seen ⊆ e.2 /\ post r e.1.1 e.1.2 seen.

Lemma took_now {A} (post : A -> Tables -> Tables -> list Tables -> Prop) r T T' late :
  post r T T' [] -> took post r (T, T', late).
Proof. intros H. exists []. split; [apply list_subseteq_nil|done]. Qed.

Lemma took_after {A} (post : A -> Tables -> Tables -> list Tables -> Prop) r e T :
  took post r e -> took post r (after e T).
Proof. intros (seen & Hs & Hp). exists seen. split; [|done]. simpl. set_solver. Qed.

(** Two-phase locking of one row: a session asks for a lock only when it has
    none, or has locked that row for update before. *)
Definition lock_order {X} (held : locks) (c : cmd X) : Prop :=
  match cmd_lock c with
  | Some (eid, _) => held = [] \/ (eid, ForUpdate) ∈ held
  | None => True
  end.

(** The world in which a command runs: the shared tables and sequences, and
    whatever Redis holds at that moment. *)
Definition refresh (T : Tables) (q : Seqs) (r : redis) (w : world) : world :=
  set_redis r (set_db T q w).

Section Logic.
Variable E : env.

(** [lwp p l Q]: whatever the other sessions do between the commands of [p],
    each command keeps the invariant and touches only what is locked, and [p]
    ends in a state that satisfies [Q]. *)
Fixpoint lwp {A} (p : program A) (l : local) (Q : A -> local -> Prop) : Prop :=
  match p with
  | Ret a => Q a l
  | Act c k =>
    lock_order (l_held l) c /\
    forall T q r, tables_inv T -> seqs_inv T q -> rely (l_held l) (l_last l) T ->
      let out := exec_cmd E c (refresh T q r (l_world l)) in
      let T' := w_tables out.2 in
      tables_inv T' /\ frame (l_held l) T T' /\
      exists o, effect_step (l_effect l) T T' o /\
        lwp (k out.1) (mkLocal out.2 (locks_after c T (l_held l) out.2) T' o) Q
  end.

Lemma lwp_ret {A} (a : A) l (Q : A -> local -> Prop) : Q a l -> lwp (Ret a) l Q.
Proof. done. Qed.

Lemma lwp_mono {A} (p : program A) l (Q Q' : A -> local -> Prop) :
  lwp p l Q -> (forall a l', Q a l' -> Q' a l') -> lwp p l Q'.
Proof.
  intros Hp HQ. revert l Hp. induction p as [a|X c k IH]; intros l; simpl; [by apply HQ|].
  intros [Hl Hc]. split; [done|]. intros T q r HT Hq Hr.
  destruct (Hc T q r HT Hq Hr) as (Hi & Hf & o & Ho & Hk). eauto 10.
Qed.

Lemma lwp_bind {A B} (p : program A) (f : A -> program B) l Q :
  lwp p l (fun a l' => lwp (f a) l' Q) -> lwp (p ≫= f) l Q.
Proof.
  unfold mbind, prog_bind. revert l. induction p as [a|X c k IH]; intros l; simpl; [done|].
  intros [Hl Hc]. split; [done|]. intros T q r HT Hq Hr.
  destruct (Hc T q r HT Hq Hr) as (Hi & Hf & o & Ho & Hk). eauto 10.
Qed.

Lemma lwp_try {Er Er' A B} (p : program (result Er A)) (h : Er -> Er')
    (k : A -> program (result Er' B)) l Q :
  lwp p l (fun r l' => match r with Ok x => lwp (k x) l' Q | Err e => Q (Err (h e)) l' end) ->
  lwp (try_catch p h k) l Q.
Proof. intros Hp. apply lwp_bind. eapply lwp_mono; [exact Hp|]. intros [x|e] l' HQ; done. Qed.

(** Outside a transaction, having taken effect at [o]. *)
Definition outside (l : local) (o : option effect) : Prop :=
  w_tx (l_world l) = None /\ l_held l = [] /\ l_effect l = o.

(** In a transaction that has not executed a statement. *)
Definition opened (l : local) (start : Z) : Prop :=
  w_tx (l_world l) = Some (mkTx start [] false) /\ l_held l = [] /\ l_effect l = None.

(** In a transaction that has locked the event [eid] when the tables were
    [Tl], and has written [L]. *)
Record holds (l : local) (eid start : Z) (L : list write) (Tl : Tables) : Prop := {
  h_tx : w_tx (l_world l) = Some (mkTx start L false);
  h_lock : (eid, ForUpdate) ∈ l_held l;
  h_grows : grows Tl (l_last l);
  h_slice : slice_eq eid Tl (l_last l);
  h_effect : l_effect l = None
}.

Lemma holds_rely l eid start L Tl T :
  holds l eid start L Tl -> rely (l_held l) (l_last l) T -> grows Tl T /\ slice_eq eid Tl T.
Proof.
  intros [_ Hin Hg Hs _] [Hg' Hs']. split; [by etrans|]. etrans; [done|]. by apply Hs'.
Qed.

(** *** Commands that do not reach the database *)

Lemma lwp_quiet {X} (c : cmd X) l o Q :
  db_cmd c = false -> outside l o ->
  (forall T q r, let out := exec_cmd E c (refresh T q r (l_world l)) in
     forall l', l_world l' = out.2 -> outside l' (ext o T) -> Q out.1 l') ->
  lwp (perform c) l Q.
Proof.
  intros Hc (Htx & Hh & Ho) HQ. split; [by destruct c|]. intros T q r HT _ Hr.
  specialize (HQ T q r). cbn zeta in *.
  assert (w_tables (exec_cmd E c (refresh T q r (l_world l))).2 = T /\
          w_tx (exec_cmd E c (refresh T q r (l_world l))).2 = None) as [Ht Htx'].
  { destruct c; try done; unfold exec_cmd, exec_setnx, exec_release, exec_wait; simpl;
      repeat (case_match || case_decide); simplify_eq/=; done. }
  rewrite Ht. split_and!; [done|apply frame_refl|]. exists (ext (l_effect l) T).
  split; [apply effect_ext|]. simpl. apply HQ; [done|]. rewrite Ho. split_and!; simpl; [done| |done].
  unfold locks_after, live. by rewrite Htx'.
Qed.

(** The clock inside a transaction. *)
Lemma lwp_now l eid start L Tl Q :
  holds l eid start L Tl ->
  (forall l', holds l' eid start L Tl -> Q (env_clock E (w_step (l_world l))) l') ->
  lwp (perform TimeNow) l Q.
Proof.
  intros Hh HQ. split; [done|]. intros T q r HT _ Hr. simpl.
  destruct (holds_rely _ _ _ _ _ _ Hh Hr) as [Hg Hs]. destruct Hh.
  split_and!; [done|apply frame_refl|]. exists None. rewrite h_effect0. split; [constructor|].
  apply HQ. split; simpl; try done. unfold locks_after, live. simpl. by rewrite h_tx0.
Qed.

(** *** Transactions *)

Lemma lwp_begin l Q :
  outside l None ->
  (forall T l', faulty E -> outside l' (Some (T, T, [])) -> Q (Err ErrDriver) l') ->
  (forall l', opened l' (env_dbclock E (w_step (l_world l))) -> Q (Ok tt) l') ->
  lwp (perform Begin) l Q.
Proof.
  intros (Htx & Hh & Ho) Hf Hok. split; [done|]. intros T q r HT _ Hr. unfold exec_cmd.
  cbn [w_step refresh set_redis set_db].
  destruct (env_fault E (w_step (l_world l))) eqn:Hft; simpl;
    (split_and!; [done|apply frame_refl|]).
  - exists None. rewrite Ho. split; [constructor|]. eapply Hok. split_and!; simpl; [done| |done].
    unfold locks_after. by rewrite Hh.
  - exists (Some (T, T, [])). rewrite Ho. split; [constructor|]. eapply Hf; [eauto using faulty_at|].
    split_and!; simpl; [done| |done]. unfold locks_after, live. simpl. by rewrite Htx.
  - exists (Some (T, T, [])). rewrite Ho. split; [constructor|]. eapply Hf; [eauto using faulty_at|].
    split_and!; simpl; [done| |done]. unfold locks_after, live. simpl. by rewrite Htx.
Qed.

(** A statement of an open transaction.  If it fails the transaction is over
    and the request takes effect, as a failure, here. *)
Lemma lwp_tx {X} (s : stmt X) l start L Q :
  w_tx (l_world l) = Some (mkTx start L false) -> l_effect l = None ->
  lock_order (l_held l) (TxExec s) ->
  (forall T l', faulty E -> l_effect l' = Some (T, T, []) -> Q (Err ErrDriver) l') ->
  (forall ties T q, tables_inv T -> rely (l_held l) (l_last l) T ->
     match exec_stmt (mkMoment start ties) (apply_writes T L) q s with
     | (Ok x, ws, _) => forall w', w_tx w' = Some (mkTx start (L ++ ws) false) ->
         Q (Ok x) (mkLocal w' (locks_after (TxExec s) T (l_held l) w') T None)
     | (Err e, _, _) => forall l', l_effect l' = Some (T, T, []) -> Q (Err e) l'
     end) ->
  lwp (tx_exec s) l Q.
Proof.
  intros Htx Ho Hlo Hf Hok. split; [done|]. intros T q r HT _ Hr.
  specialize (Hok (env_ties E (w_step (l_world l))) T q HT Hr). unfold exec_cmd, exec_in_tx.
  cbn [w_tx refresh set_redis set_db w_step w_tables w_seqs]. rewrite Htx.
  cbn [tx_aborted tx_start tx_writes]. rewrite Ho.
  destruct (env_fault E (w_step (l_world l))) eqn:Hft; simpl.
  2, 3: split_and!; [done|apply frame_refl|]; exists (Some (T, T, [])); split; [constructor|];
        eapply Hf; [eauto using faulty_at|done].
  destruct (exec_stmt _ _ _ _) as [[[x|e] ws] q'].
  - simpl. split_and!; [done|apply frame_refl|]. exists None. split; [constructor|]. by apply Hok.
  - destruct e; simpl; (split_and!; [done|apply frame_refl|]; exists (Some (T, T, []));
      split; [constructor|by apply Hok]).
Qed.

(** The first statement of a transaction, which locks the event. *)
Lemma lwp_lock {X} (s : stmt X) l eid start Q :
  opened l start -> stmt_lock s = Some (eid, ForUpdate) ->
  (forall T l', faulty E -> l_effect l' = Some (T, T, []) -> Q (Err ErrDriver) l') ->
  (forall ties T q, tables_inv T ->
     match exec_stmt (mkMoment start ties) T q s with
     | (Ok x, ws, _) => ws = [] /\ is_Some (t_events T !! eid) /\
         forall l', holds l' eid start [] T -> Q (Ok x) l'
     | (Err e, _, _) => forall l', l_effect l' = Some (T, T, []) -> Q (Err e) l'
     end) ->
  lwp (tx_exec s) l Q.
Proof.
  intros (Htx & Hh & Ho) Hs Hf Hok. eapply lwp_tx; eauto.
  { unfold lock_order. simpl. rewrite Hs. by left. }
  intros ties T q HT Hr. specialize (Hok ties T q HT). simpl in *.
  destruct (exec_stmt (mkMoment start ties) T q s) as [[[x|e] ws] q']; [|done].
  destruct Hok as (-> & Hsome & HQ). intros w' Hw'. apply HQ. split; simpl; try done.
  unfold locks_after, live. rewrite Hw'. simpl. rewrite Hs, bool_decide_true by done.
  by apply list_elem_of_here.
Qed.

(** A later statement, on the locked event. *)
Lemma lwp_stmt {X} (s : stmt X) l eid start L Tl Q :
  holds l eid start L Tl ->
  match stmt_lock s with Some (e, _) => e = eid | None => True end ->
  (forall T l', faulty E -> l_effect l' = Some (T, T, []) -> Q (Err ErrDriver) l') ->
  (forall ties T q, tables_inv T -> grows Tl T -> slice_eq eid Tl T ->
     match exec_stmt (mkMoment start ties) (apply_writes T L) q s with
     | (Ok x, ws, _) => forall l', holds l' eid start (L ++ ws) Tl ->
         holds l' eid start (L ++ ws) T -> Q (Ok x) l'
     | (Err e, _, _) => forall l', l_effect l' = Some (T, T, []) -> Q (Err e) l'
     end) ->
  lwp (tx_exec s) l Q.
Proof.
  intros Hh Hs Hf Hok. pose proof Hh as [Htx Hl _ _ Ho]. eapply lwp_tx; eauto.
  { unfold lock_order. simpl. destruct (stmt_lock s) as [[e m]|]; subst; auto. }
  intros ties T q HT Hr. destruct (holds_rely _ _ _ _ _ _ Hh Hr) as [Hg Hsl].
  specialize (Hok ties T q HT Hg Hsl).
  destruct (exec_stmt (mkMoment start ties) _ q s) as [[[x|e] ws] q']; [|done].
  intros w' Hw'.
  assert ((eid, ForUpdate) ∈ locks_after (TxExec s) T (l_held l) w') as Hin.
  { unfold locks_after, live. rewrite Hw'. simpl.
    repeat case_match; try done; by apply list_elem_of_further. }
  by apply Hok.
Qed.

(** The commit: the writes, over the tables as they are now, must keep the
    invariant and stay within the locked event. *)
Lemma lwp_commit l eid start L Tl Q :
  holds l eid start L Tl ->
  (forall T, tables_inv T -> grows Tl T -> slice_eq eid Tl T ->
     let T' := apply_writes T L in
     tables_inv T' /\ frame [(eid, ForUpdate)] T T' /\
     (forall l', outside l' (Some (T, T', [])) -> l_last l' = T' ->
        Q (Ok tt) l' /\ (faulty E -> Q (Err ErrDriver) l')) /\
     (forall l', faulty E -> outside l' (Some (T, T, [])) -> Q (Err ErrDriver) l')) ->
  lwp (perform Commit) l Q.
Proof.
  intros Hh Hok. pose proof Hh as [Htx Hl _ _ Ho]. split; [done|]. intros T q r HT _ Hr.
  destruct (holds_rely _ _ _ _ _ _ Hh Hr) as [Hg Hsl].
  destruct (Hok T HT Hg Hsl) as (Hi & [Hg' Hfr] & Hdone & Hf). clear Hok.
  assert (frame (l_held l) T (apply_writes T L)) as Hframe.
  { split; [done|]. intros e He Hn. apply Hfr; [done|]. set_solver. }
  unfold exec_cmd, exec_commit. cbn [w_tx refresh set_redis set_db w_step w_tables w_seqs].
  rewrite Htx, Ho. cbn [tx_aborted tx_writes].
  destruct (env_fault E (w_step (l_world l))) eqn:Hft; simpl.
  - split_and!; [done..|]. eexists. split; [constructor|]. by apply Hdone.
  - split_and!; [done|apply frame_refl|]. exists (Some (T, T, [])). split; [constructor|].
    apply Hf; [eauto using faulty_at|done].
  - split_and!; [done..|]. eexists. split; [constructor|]. apply Hdone; [done|done|].
    eauto using faulty_at.
Qed.

(** The deferred rollback: a request that has not taken effect does so here,
    while its locks still hold. *)
Lemma lwp_rollback l Q :
  (forall T l', tables_inv T -> rely (l_held l) (l_last l) T ->
     outside l' (Some (match l_effect l with Some e => after e T | None => (T, T, []) end)) ->
     Q tt l') ->
  lwp (perform Rollback) l Q.
Proof.
  intros HQ. split; [done|]. intros T q r HT _ Hr. simpl. split_and!; [done|apply frame_refl|].
  eexists. split; [|by eapply HQ]. destruct (l_effect l); constructor.
Qed.

(** The answer [r] fits the step at which the request took effect; a request
    that has not taken effect yet could do so under its locks. *)
Definition settles {A} (post : A -> Tables -> Tables -> list Tables -> Prop) (r : A) (l : local) : Prop :=
  match l_effect l with
  | Some e => took post r e
  | None => forall T, tables_inv T -> rely (l_held l) (l_last l) T -> post r T T []
  end.

Lemma settles_now {A} (post : A -> Tables -> Tables -> list Tables -> Prop) r l T T' late :
  l_effect l = Some (T, T', late) -> post r T T' [] -> settles post r l.
Proof. intros Ho Hp. unfold settles. rewrite Ho. by apply took_now. Qed.

(** The request is over: it took effect as [post] says, or answered without
    looking at the tables. *)
Definition concluded {A} (post : A -> Tables -> Tables -> list Tables -> Prop) (r : A) (l : local) : Prop :=
  exists o, outside l o /\
  match o with Some e => took post r e | None => forall T, post r T T [] end.

Lemma concluded_ext {A} (post : A -> Tables -> Tables -> list Tables -> Prop) (r : A) o T l :
  outside l (ext o T) ->
  match o with Some e => took post r e | None => forall T, post r T T [] end ->
  concluded post r l.
Proof. intros Hl Ho. exists (ext o T). split; [done|]. destruct o; [by apply took_after|done]. Qed.

Lemma lwp_with_tx {Er A} (on_begin : pgerror -> Er) (body : program (result Er A)) l
    (post : result Er A -> Tables -> Tables -> list Tables -> Prop) :
  outside l None ->
  (forall T, faulty E -> post (Err (on_begin ErrDriver)) T T []) ->
  (forall n l', opened l' (env_dbclock E n) -> lwp body l' (settles post)) ->
  lwp (with_tx on_begin body) l (fun r l' => exists e, outside l' (Some e) /\ took post r e).
Proof.
  intros Hl Hb Hbody. apply lwp_try, lwp_begin; [done| |].
  { intros T l' Hf Hl'. eexists. split; [exact Hl'|]. by apply took_now, Hb. }
  intros l1 H1. apply lwp_bind. eapply lwp_mono; [by eapply Hbody|].
  intros r l2 Hs. apply lwp_bind, lwp_rollback. intros T l3 HT Hr Hl3. simpl.
  unfold settles in Hs. eexists. split; [exact Hl3|].
  destruct (l_effect l2); [by apply took_after|by apply took_now, Hs].
Qed.

(** *** Statements outside a transaction *)

Lemma lwp_pool {X} (s : stmt X) l o Q :
  outside l o -> stmt_lock s = None ->
  (forall T q r, tables_inv T -> seqs_inv T q -> grows (l_last l) T ->
     let out := exec_cmd E (PoolExec s) (refresh T q r (l_world l)) in
     let T' := w_tables out.2 in
     tables_inv T' /\ frame [] T T' /\ exists o', effect_step o T T' o' /\
     forall l', l_world l' = out.2 -> l_last l' = T' -> outside l' o' -> Q out.1 l') ->
  lwp (pool_exec s) l Q.
Proof.
  intros (Htx & Hh & Ho) Hs HQ. split; [by unfold lock_order; simpl; rewrite Hs|].
  intros T q r HT Hq Hr. rewrite Hh in *. destruct Hr as [Hg _].
  destruct (HQ T q r HT Hq Hg) as (Hi & Hf & o' & Hst & Hk). cbn zeta in *.
  assert (w_tx (exec_cmd E (PoolExec s) (refresh T q r (l_world l))).2 = None) as Htx'.
  { unfold exec_cmd, exec_in_pool. simpl. repeat case_match; simplify_eq/=; done. }
  split_and!; [done..|]. exists o'. rewrite Ho. split; [done|]. apply Hk; [done..|].
  split_and!; simpl; [done| |done]. unfold locks_after, live. by rewrite Htx'.
Qed.
End Logic.

#[global] Arguments lwp : simpl never.

(** ** Many sessions *)

(** The sequences only move forward. *)
Lemma exec_cmd_seqs E {X} (c : cmd X) w : seqs_le (w_seqs w) (w_seqs (exec_cmd E c w).2).
Proof.
  assert (forall Y (s : stmt Y) now t q r ws q', exec_stmt now t q s = (r, ws, q') -> seqs_le q q')
    as Hs by (intros; eapply exec_stmt_seqs; eauto).
  destruct c as [| |X s|X s| | | | | | | | | |]; unfold exec_cmd, exec_in_tx, exec_in_pool,
    exec_commit, exec_setnx, exec_release, exec_wait;
    repeat (case_match || case_decide); simplify_eq/=; eauto; done.
Qed.

Section Sessions.
Context {Req Ans : Type} (program_of : Req -> program Ans).

(** A request that is being served: what is left of its program, its private
    world, its locks, and the tables before and after each of its steps. *)
Record session := mkSession {
  s_env : env;
  s_req : Req;
  s_prog : program Ans;
  s_world : world;
  s_held : locks;
  s_log : list (Tables * Tables)
}.

Record cstate := mkCState {
  c_tables : Tables;
  c_seqs : Seqs;
  c_sessions : gmap nat session
}.

(** The lock a command asks for is free: no other session holds one that
    conflicts. *)
Definition granted {X} (ss : gmap nat session) (i : nat) (c : cmd X) : bool :=
  match cmd_lock c with
  | None => true
  | Some (eid, m) =>
      forallb (fun js : nat * session => (js.1 =? i) ||
        forallb (fun em : Z * lock_mode => negb (bool_decide (em.1 = eid) && conflict m em.2))
          (s_held js.2)) (map_to_list ss)
  end.

(** What can happen next: a request arrives, or a session executes its next
    command, finding some state of Redis. *)
Inductive action :=
| Arrive (i : nat) (E : env) (rq : Req) (w : world)
| Execute (i : nat) (r : redis).

Definition execute (i : nat) (r : redis) (st : cstate) : option cstate :=
  s ← c_sessions st !! i;
  match s_prog s with
  | Ret _ => None
  | Act c k =>
    if granted (c_sessions st) i c then
      let T := c_tables st in
      let (x, w') := exec_cmd (s_env s) c (refresh T (c_seqs st) r (s_world s)) in
      Some (mkCState (w_tables w') (w_seqs w')
        (<[i := mkSession (s_env s) (s_req s) (k x) w' (locks_after c T (s_held s) w')
                  (s_log s ++ [(T, w_tables w')])]> (c_sessions st)))
    else None
  end.

Definition next (a : action) (st : cstate) : option cstate :=
  match a with
  | Arrive i E rq w =>
      match c_sessions st !! i with
      | Some _ => None
      | None => Some (mkCState (c_tables st) (c_seqs st)
          (<[i := mkSession E rq (program_of rq) (set_tx None w) [] []]> (c_sessions st)))
      end
  | Execute i r => execute i r st
  end.

Definition cstep (st st' : cstate) : Prop := exists a, next a st = Some st'.

(** A schedule, executed; an action that is not possible is skipped. *)
Definition play (l : list action) (st : cstate) : cstate :=
  foldl (fun st a => default st (next a st)) st l.

Lemma play_steps l st : rtc cstep st (play l st).
Proof.
  revert st. induction l as [|a l IH]; intros st; [constructor|]. unfold play. simpl.
  destruct (next a st) as [st1|] eqn:Ha; [|apply IH]. eapply rtc_l; [by exists a|apply IH].
Qed.

(** *** The invariant *)

Context (post : env -> Req -> Ans -> Tables -> Tables -> list Tables -> Prop).

Definition final (E : env) (rq : Req) : Ans -> local -> Prop := concluded (post E rq).

Definition stutters (l : list (Tables * Tables)) : Prop := Forall (fun p => p.2 = p.1) l.

Definition log_ok (log : list (Tables * Tables)) (o : option effect) : Prop :=
  match o with
  | None => stutters log
  | Some (p, late) => exists l1 l2, log = l1 ++ p :: l2 /\ stutters l1 /\ stutters l2 /\ late = l2.*1
  end.

Record session_ok (T : Tables) (q : Seqs) (s : session) : Prop := {
  so_keys : match w_tx (s_world s) with
            | None => True | Some tx => Forall (write_ok q) (tx_writes tx) end;
  so_rows : forall eid m, (eid, m) ∈ s_held s -> is_Some (t_events T !! eid);
  so_logic : exists last o, rely (s_held s) last T /\ log_ok (s_log s) o /\
    lwp (s_env s) (s_prog s) (mkLocal (s_world s) (s_held s) last o) (final (s_env s) (s_req s))
}.

Record cinv (st : cstate) : Prop := {
  ci_tables : tables_inv (c_tables st);
  ci_seqs : seqs_inv (c_tables st) (c_seqs st);
  ci_sessions : forall i s, c_sessions st !! i = Some s -> session_ok (c_tables st) (c_seqs st) s;
  ci_locks : forall i j s s' eid m m', i <> j ->
    c_sessions st !! i = Some s -> c_sessions st !! j = Some s' ->
    (eid, m) ∈ s_held s -> (eid, m') ∈ s_held s' -> conflict m m' = false
}.

Lemma granted_spec {X} ss i (c : cmd X) eid m :
  granted ss i c = true -> cmd_lock c = Some (eid, m) ->
  forall j s m', j <> i -> ss !! j = Some s -> (eid, m') ∈ s_held s -> conflict m m' = false.
Proof.
  unfold granted. intros Hg Hc j s m' Hj Hs Hin. rewrite Hc in Hg.
  rewrite forallb_forall in Hg. specialize (Hg (j, s)). simpl in Hg.
  rewrite <- list_elem_of_In, elem_of_map_to_list in Hg. specialize (Hg Hs).
  apply orb_true_iff in Hg as [Hg%Nat.eqb_eq|Hg]; [done|].
  rewrite forallb_forall in Hg. specialize (Hg (eid, m')). rewrite <- list_elem_of_In in Hg.
  specialize (Hg Hin). simpl in Hg. rewrite bool_decide_true in Hg by done. simpl in Hg.
  by apply negb_true_iff.
Qed.

Lemma granted_intro {X} ss i (c : cmd X) :
  (forall eid m j s m', cmd_lock c = Some (eid, m) -> j <> i -> ss !! j = Some s ->
     (eid, m') ∈ s_held s -> conflict m m' = false) -> granted ss i c = true.
Proof.
  intros H. unfold granted. destruct (cmd_lock c) as [[eid m]|]; [|done].
  apply forallb_forall. intros [j s] Hjs. rewrite <- list_elem_of_In, elem_of_map_to_list in Hjs.
  simpl. destruct (Nat.eqb_spec j i) as [|Hj]; [done|]. simpl.
  apply forallb_forall. intros [e m'] Hem. simpl. case_bool_decide as He; [subst|done]. simpl.
  rewrite <- list_elem_of_In in Hem. by rewrite (H _ _ j s m' eq_refl Hj Hjs Hem).
Qed.

Lemma locks_after_spec {X} (c : cmd X) T held w' eid m :
  (eid, m) ∈ locks_after c T held w' ->
  (eid, m) ∈ held \/ cmd_lock c = Some (eid, m) /\ is_Some (t_events T !! eid).
Proof.
  unfold locks_after. destruct (live w'); [|by intros ?%elem_of_nil].
  destruct (cmd_lock c) as [[e m0]|]; [|by left].
  destruct (in_transaction c); simpl; [|by left].
  case_bool_decide; [|by left]. intros [[= -> ->]|]%elem_of_cons; [by right|by left].
Qed.

Lemma grows_rows T T' eid : grows T T' -> is_Some (t_events T !! eid) -> is_Some (t_events T' !! eid).
Proof. intros Hg [e He]. destruct (g_events T T' Hg eid e He) as (e' & He' & _). by eexists. Qed.

Lemma log_ok_step log o T T' o' :
  log_ok log o -> effect_step o T T' o' -> log_ok (log ++ [(T, T')]) o'.
Proof.
  intros Hlog Hst. destruct Hst as [T|T T'|[p late] T]; simpl in *.
  - apply Forall_app. split; [done|]. by apply Forall_singleton.
  - exists log, []. split_and!; [done..|constructor|done].
  - destruct Hlog as (l1 & l2 & -> & H1 & H2 & ->). exists l1, (l2 ++ [(T, T)]).
    rewrite <- app_assoc. split_and!; [done..| |by rewrite fmap_app].
    apply Forall_app. split; [done|]. by apply Forall_singleton.
Qed.

(** A session whose locks exclude the one that moved is not disturbed. *)
Lemma session_ok_others T q T' q' held s :
  session_ok T q s -> frame held T T' -> seqs_le q q' ->
  (forall eid, (eid, ForUpdate) ∈ s_held s -> (eid, ForUpdate) ∉ held) ->
  session_ok T' q' s.
Proof.
  intros [Hk Hr (last & o & Hrely & Hlog & Hp)] [Hg Hf] Hq Hex. split.
  - destruct (w_tx (s_world s)); [|done]. by eapply Forall_write_ok_mono.
  - intros eid m Hin. eapply grows_rows; eauto.
  - exists last, o. split_and!; [|done..]. etrans; [exact Hrely|]. split; [done|].
    intros eid Hin. apply Hf; eauto.
Qed.

Hypothesis program_ok : forall E rq w T,
  w_tx w = None -> lwp E (program_of rq) (mkLocal w [] T None) (final E rq).

Lemma execute_inv i r st st' : cinv st -> execute i r st = Some st' -> cinv st'.
Proof.
  intros [HT Hq Hss Hlk] Hex. unfold execute in Hex.
  destruct (c_sessions st !! i) as [s|] eqn:Hi; [|done]. simpl in Hex.
  destruct (Hss i s Hi) as [Hkeys Hrows (last & o & Hrely & Hlog & Hp)].
  destruct (s_prog s) as [a|X c k] eqn:Hprog; [done|].
  destruct (granted (c_sessions st) i c) eqn:Hgr; [|done].
  destruct Hp as [Hlo Hp]. specialize (Hp _ _ r HT Hq Hrely). simpl in Hp.
  set (w0 := refresh (c_tables st) (c_seqs st) r (s_world s)) in *.
  assert (keys_ok (exec_cmd (s_env s) c w0).2) as [Hq' Hkeys'].
  { apply exec_cmd_keys. split; [done|]. exact Hkeys. }
  pose proof (exec_cmd_seqs (s_env s) c w0) as Hle.
  destruct (exec_cmd (s_env s) c w0) as [x w']. injection Hex as <-. simpl in *.
  destruct Hp as (HT' & Hfr & o' & Hst & Hp).
  assert (forall j s', j <> i -> c_sessions st !! j = Some s' -> forall eid m m',
    (eid, m) ∈ s_held s' -> (eid, m') ∈ locks_after c (c_tables st) (s_held s) w' ->
    conflict m' m = false) as Hsep.
  { intros j s' Hj Hs' eid m m' Hin [Hin'|[Hc _]]%locks_after_spec.
    - eapply (Hlk i j); eauto.
    - eapply granted_spec; eauto. }
  assert (forall m m', conflict m m' = conflict m' m) as Hsym by by intros [] [].
  split; simpl; [done|done| |].
  - intros j s' [[<- <-]|[Hj Hs']]%lookup_insert_Some.
    + split; simpl; [done| |].
      * intros eid m Hin%locks_after_spec. eapply grows_rows; [apply Hfr|].
        destruct Hin as [Hin|[_ Hin]]; eauto.
      * exists (w_tables w'), o'. split_and!; [done|by eapply log_ok_step|done].
    + eapply session_ok_others; [by apply (Hss j)|exact Hfr|exact Hle|].
      intros eid Hin Hin'. by pose proof (Hlk j i s' s eid ForUpdate ForUpdate ltac:(done) Hs' Hi Hin Hin').
  - intros i1 i2 s1 s2 eid m m' Hne [[<- <-]|[Hi1 Hs1]]%lookup_insert_Some
      [[<- <-]|[Hi2 Hs2]]%lookup_insert_Some H1 H2; simpl in *.
    + done.
    + eapply Hsep; eauto.
    + rewrite Hsym. eapply Hsep; eauto.
    + eapply (Hlk i1 i2); eauto.
Qed.

Lemma next_inv a st st' : cinv st -> next a st = Some st' -> cinv st'.
Proof.
  intros Hinv Hn. destruct a as [i E rq w|i r]; [|by eapply execute_inv]. simpl in Hn.
  destruct (c_sessions st !! i) eqn:Hi; [done|]. injection Hn as <-.
  destruct Hinv as [HT Hq Hss Hlk]. split; simpl; [done..| |].
  - intros j s [[<- <-]|[Hj Hs]]%lookup_insert_Some; [|by eapply Hss].
    split; simpl; [done|by intros ?? ?%elem_of_nil|].
    exists (c_tables st), None. split_and!; [done|constructor|by apply program_ok].
  - intros i1 i2 s1 s2 eid m m' Hne [[<- <-]|[Hi1 Hs1]]%lookup_insert_Some
      [[<- <-]|[Hi2 Hs2]]%lookup_insert_Some H1 H2; simpl in *;
      try (by apply elem_of_nil in H1 || by apply elem_of_nil in H2).
    eapply (Hlk i1 i2); eauto.
Qed.

Lemma csteps_inv st st' : rtc cstep st st' -> cinv st -> cinv st'.
Proof. induction 1 as [|st st1 st2 [a Ha] _ IH]; intros Hi; eauto using next_inv. Qed.

(** Every step only adds to the record. *)
Lemma next_grows a st st' : cinv st -> next a st = Some st' -> grows (c_tables st) (c_tables st').
Proof.
  intros Hinv Hn. destruct a as [i E rq w|i r]; simpl in Hn.
  { destruct (c_sessions st !! i); [done|]. by injection Hn as <-. }
  unfold execute in Hn. destruct (c_sessions st !! i) as [s|] eqn:Hi; [|done]. simpl in Hn.
  destruct (ci_sessions st Hinv i s Hi) as [_ _ (last & o & Hrely & _ & Hp)].
  destruct (s_prog s) as [a|X c k]; [done|]. destruct (granted _ _ _); [|done].
  destruct Hp as [_ Hp]. specialize (Hp _ _ r (ci_tables st Hinv) (ci_seqs st Hinv) Hrely).
  simpl in Hp. destruct (exec_cmd _ _ _) as [x w']. injection Hn as <-. simpl in *.
  destruct Hp as (_ & [Hg _] & _). done.
Qed.

Lemma steps_grow st st' : rtc cstep st st' -> cinv st -> grows (c_tables st) (c_tables st').
Proof.
  induction 1 as [|st st1 st2 [a Ha] _ IH]; intros Hi; [done|].
  etrans; [by eapply next_grows|]. eauto using next_inv.
Qed.

(** A finished request took effect at one of its own steps. *)
Lemma finished_took_effect st i s a :
  cinv st -> c_sessions st !! i = Some s -> s_prog s = Ret a ->
  s_held s = [] /\
  ((stutters (s_log s) /\ forall T, post (s_env s) (s_req s) a T T []) \/
   exists l1 T T' l2 late, s_log s = l1 ++ (T, T') :: l2 /\ stutters l1 /\ stutters l2 /\
     late ⊆ l2.*1 /\ post (s_env s) (s_req s) a T T' late).
Proof.
  intros Hinv Hs Hr. destruct (ci_sessions st Hinv i s Hs) as [_ _ (last & o & _ & Hlog & Hp)].
  rewrite Hr in Hp. destruct Hp as (o' & (_ & Hh & Ho) & Hp). simpl in *. subst o'. split; [done|].
  destruct o as [[[T T'] late]|]; [right|left; done].
  destruct Hlog as (l1 & l2 & Hl & H1 & H2 & ->), Hp as (seen & Hs' & Hp).
  exists l1, T, T', l2, seen. done.
Qed.

(** *** No deadlock *)

(** A command that is granted executes, and only its session changes. *)
Lemma granted_execute st i s {X} (c : cmd X) k :
  c_sessions st !! i = Some s -> s_prog s = Act c k -> granted (c_sessions st) i c = true ->
  exists x s' st', cstep st st' /\ c_sessions st' = <[i := s']> (c_sessions st) /\ s_prog s' = k x.
Proof.
  intros Hi Hp Hg. assert (exists st', execute i ∅ st = Some st' /\ exists x s',
    c_sessions st' = <[i := s']> (c_sessions st) /\ s_prog s' = k x) as (st' & Hst & x & s' & Hs & Hk).
  { unfold execute. rewrite Hi. simpl. rewrite Hp, Hg. destruct (exec_cmd _ _ _) as [x w'].
    eexists. split; [done|]. simpl. eexists _, _. done. }
  exists x, s', st'. split_and!; [|done..]. by exists (Execute i ∅).
Qed.

(** A session that holds a lock can run until it holds none: it asks only for
    locks on the row it has locked for update. *)
Lemma holder_releases st i s :
  cinv st -> c_sessions st !! i = Some s ->
  exists st' s', rtc cstep st st' /\ c_sessions st' = <[i := s']> (c_sessions st) /\ s_held s' = [].
Proof.
  intros Hinv Hi. remember (s_prog s) as p eqn:Hp. revert st s Hinv Hi Hp.
  induction p as [a|X c k IH]; intros st s Hinv Hi Hp;
    destruct (ci_sessions st Hinv i s Hi) as [_ _ (last & o & _ & _ & Hl)]; rewrite <- Hp in Hl.
  { destruct Hl as (o' & (_ & Hh & _) & _). exists st, s. by rewrite insert_id. }
  destruct (decide (s_held s = [])) as [Hh|Hh].
  { exists st, s. by rewrite insert_id. }
  destruct Hl as [Hlo _]. destruct (granted_execute st i s c k) as (x & s1 & st1 & Hst & Hs1 & Hk);
    [done|done| |].
  { apply granted_intro. intros eid m j s' m' Hc Hj Hs' Hin. unfold lock_order in Hlo.
    rewrite Hc in Hlo. destruct Hlo as [?|Hfu]; [done|]. simpl in Hfu.
    by pose proof (ci_locks st Hinv i j s s' eid ForUpdate m' ltac:(done) Hi Hs' Hfu Hin). }
  destruct (IH x st1 s1) as (st2 & s2 & Hst2 & Hs2 & Hh2); [|by rewrite Hs1, lookup_insert_eq|done|].
  { destruct Hst as [a Ha]. by eapply next_inv. }
  exists st2, s2. split_and!; [by eapply rtc_l| |done]. by rewrite Hs2, Hs1, insert_insert_eq.
Qed.

(** So all locks can be released, *)
Lemma all_release st (keys : list nat) :
  cinv st -> exists st', rtc cstep st st' /\ cinv st' /\
    (forall j, is_Some (c_sessions st' !! j) <-> is_Some (c_sessions st !! j)) /\
    (forall j s, j ∈ keys -> c_sessions st' !! j = Some s -> s_held s = []).
Proof.
  intros Hinv. induction keys as [|i keys (st1 & Hst1 & Hinv1 & Hdom & Hrel)].
  { exists st. split_and!; [done..|]. by intros j s ?%elem_of_nil. }
  destruct (c_sessions st1 !! i) as [s|] eqn:Hi.
  2: { exists st1. split_and!; [done..|]. intros j s [->|Hj]%elem_of_cons; [congruence|eauto]. }
  destruct (holder_releases st1 i s Hinv1 Hi) as (st2 & s2 & Hst2 & Hs2 & Hh2).
  exists st2. split_and!; [by etrans|by eapply csteps_inv| |].
  - intros j. rewrite <- Hdom, Hs2. destruct (decide (i = j)) as [->|]; [|by rewrite lookup_insert_ne].
    rewrite lookup_insert_eq, Hi. split; by eexists.
  - intros j s' Hj Hs'. rewrite Hs2 in Hs'. apply lookup_insert_Some in Hs' as [[<- <-]|[Hne Hs']]; [done|].
    apply elem_of_cons in Hj as [->|Hj]; [done|eauto].
Qed.

(** and then any session can run to its end. *)
Lemma alone_finishes st i s :
  cinv st -> c_sessions st !! i = Some s ->
  (forall j s', j <> i -> c_sessions st !! j = Some s' -> s_held s' = []) ->
  exists st' s' a, rtc cstep st st' /\ c_sessions st' !! i = Some s' /\ s_prog s' = Ret a.
Proof.
  intros Hinv Hi Hfree. remember (s_prog s) as p eqn:Hp. revert st s Hinv Hi Hfree Hp.
  induction p as [a|X c k IH]; intros st s Hinv Hi Hfree Hp; [by exists st, s, a|].
  destruct (granted_execute st i s c k) as (x & s1 & st1 & Hst & Hs1 & Hk); [done|done| |].
  { apply granted_intro. intros eid m j s' m' _ Hj Hs' Hin. rewrite (Hfree j s' Hj Hs') in Hin.
    by apply elem_of_nil in Hin. }
  destruct (IH x st1 s1) as (st2 & s2 & a & Hst2 & Hs2 & Ha); [| | |done|].
  - destruct Hst as [a Ha]. by eapply next_inv.
  - by rewrite Hs1, lookup_insert_eq.
  - intros j s' Hj. rewrite Hs1, lookup_insert_ne by done. eauto.
  - exists st2, s2, a. split_and!; [by eapply rtc_l|done..].
Qed.

Lemma can_finish st i s :
  cinv st -> c_sessions st !! i = Some s ->
  exists st' s' a, rtc cstep st st' /\ c_sessions st' !! i = Some s' /\ s_prog s' = Ret a.
Proof.
  intros Hinv Hi.
  destruct (all_release st (fst <$> map_to_list (c_sessions st)) Hinv) as (st1 & Hst1 & Hinv1 & Hdom & Hrel).
  destruct (proj2 (Hdom i)) as [s1 Hs1]; [by eexists|].
  destruct (alone_finishes st1 i s1) as (st2 & s2 & a & Hst2 & Hs2 & Ha); [done|done| |].
  - intros j s' _ Hj. apply (Hrel j); [|done]. destruct (proj1 (Hdom j)) as [s0 Hs0]; [by eexists|].
    apply list_elem_of_fmap. exists (j, s0). by rewrite elem_of_map_to_list.
  - exists st2, s2, a. split_and!; [by etrans|done..].
Qed.
End Sessions.
