(* ===== verification/Auth.v ===== *)
(** * Accounts

    [src/internal/auth/service.go], and [GenerateToken] of
    [src/internal/middleware/auth.go]: registration, login, the current user,
    promotion and the bootstrap administrator.  The password hash
    ([golang.org/x/crypto/bcrypt]), the token signature ([golang-jwt]) and the
    address parser ([net/mail]) are interfaces. *)

From S2P Require Import Prelude GoFmt GoString GoTime Models Database Effects Invariant.
From Stdlib Require Import Ascii.

(** ** Interfaces *)

(** [bcrypt.GenerateFromPassword] with the cost of this program (for one
    choice of the salt) and [bcrypt.CompareHashAndPassword]. *)
Class Bcrypt := {
  GenerateFromPassword : string -> option string;
  CompareHashAndPassword : string -> string -> bool
}.

(** A generated hash matches the password it was generated from. *)
Class BcryptLaws `{Bcrypt} : Prop :=
  bcrypt_roundtrip pw h : GenerateFromPassword pw = Some h -> CompareHashAndPassword h pw = true.

(** [mail.ParseAddress(s)] returns no error. *)
Class Mail := ParseAddress : string -> bool.

(** [Claims]. *)
Record Claims := mkClaims {
  cl_UserID : Z;
  cl_Role : string;
  cl_ExpiresAt : Z;
  cl_IssuedAt : Z;
  cl_NotBefore : Z;
  cl_Issuer : string;
  cl_Subject : string
}.

(** [jwt.NewWithClaims(HS256, claims).SignedString(secret)]. *)
Class Signer := SignedString : Claims -> string -> option string.

(** ** Errors and constants *)

Inductive auth_error :=
| ErrInvalidInput (why : string)
| ErrInvalidCredentials
| ErrEmailTaken
| ErrUserNotFound
| Other (context : string).

#[export] Instance auth_error_eq_dec : EqDecision auth_error.
Proof. solve_decision. Defined.

Definition minPasswordLen : Z := 8.
Definition maxPasswordLen : Z := 128.

(** ** Operations *)

Section Service.
Context `{UnicodeLower, Bcrypt, Mail, Signer}.
Variables (jwtSecret : string) (jwtExpiry : Z).

Definition normalize_email (email : string) : string := TrimSpace (ToLower email).

Definition validateRegistration (req : RegisterRequest) : result auth_error (string * string) :=
  let email := normalize_email (reg_Email req) in
  let fullName := TrimSpace (reg_FullName req) in
  if decide (email = "") then Err (ErrInvalidInput "email is required")
  else if negb (ParseAddress email) then Err (ErrInvalidInput "email is not a valid address")
  else if decide (fullName = "") then Err (ErrInvalidInput "full_name is required")
  else if decide (200 < len fullName)%Z then Err (ErrInvalidInput "full_name too long")
  else if decide (len (reg_Password req) < minPasswordLen)%Z
  then Err (ErrInvalidInput ("password must be at least " +:+ FormatInt minPasswordLen +:+ " characters"))
  else if decide (maxPasswordLen < len (reg_Password req))%Z
  then Err (ErrInvalidInput "password too long")
  else Ok (email, fullName).

Definition Register (req : RegisterRequest) : program (result auth_error User) :=
  match validateRegistration req with
  | Err e => mret (Err e)
  | Ok (email, fullName) =>
    match GenerateFromPassword (reg_Password req) with
    | None => mret (Err (Other "hashing password"))
    | Some hash =>
      try user := pool_exec (InsertUser email hash fullName)
        catch err => if IsUnique err then ErrEmailTaken else Other "creating user" in
      mret (Ok user)
    end
  end.

Definition subjectFromUserID (id : Z) : string := "user:" +:+ FormatInt id.

Definition token_claims (userID : Z) (role : string) (expiry now : Z) : Claims :=
  mkClaims userID role (now + expiry) now now "lottery-system" (subjectFromUserID userID).

Definition GenerateToken (userID : Z) (role secret : string) (expiry : Z)
  : program (option string) :=
  now ← perform TimeNow;
  mret (SignedString (token_claims userID role expiry now) secret).

Definition Login (req : LoginRequest) : program (result auth_error LoginResponse) :=
  let email := normalize_email (login_Email req) in
  if decide (email = "" \/ login_Password req = "") then mret (Err ErrInvalidCredentials)
  else
  try user := pool_exec (SelectUserByEmail email)
    catch err => if decide (err = ErrNoRows) then ErrInvalidCredentials
                 else Other "fetching user" in
  if negb (CompareHashAndPassword (user_PasswordHash user) (login_Password req))
  then mret (Err ErrInvalidCredentials)
  else
  token ← GenerateToken (user_ID user) (user_Role user) jwtSecret jwtExpiry;
  match token with
  | None => mret (Err (Other "generating token"))
  | Some token => mret (Ok (mkLoginResponse token (without_hash user)))
  end.

Definition Me (userID : Z) : program (result auth_error User) :=
  try u := pool_exec (SelectUserById userID)
    catch err => if decide (err = ErrNoRows) then ErrUserNotFound else Other "fetching user" in
  mret (Ok u).

Definition PromoteToAdmin (userID : Z) : program (result auth_error User) :=
  try u := pool_exec (PromoteUser userID)
    catch err => if decide (err = ErrNoRows) then ErrUserNotFound else Other "promoting user" in
  mret (Ok u).

Definition BootstrapAdmin (email password fullName : string) : program (result auth_error unit) :=
  let email := normalize_email email in
  if decide (email = "" \/ password = "") then mret (Err (ErrInvalidInput ""))
  else if negb (ParseAddress email) then mret (Err (Other "invalid admin email"))
  else if decide (len password < minPasswordLen)%Z
  then mret (Err (Other "admin password must be at least 8 characters"))
  else
  match GenerateFromPassword password with
  | None => mret (Err (Other "hashing password"))
  | Some hash =>
    try _ := pool_exec (UpsertAdmin email hash fullName) catch _ => Other "bootstrapping admin" in
    mret (Ok tt)
  end.
End Service.

(** ** Looking users up by email *)

Lemma user_by_email_Some t email u :
  user_by_email email t = Some u ->
  user_Email u = email /\ exists id, t_users t !! id = Some u.
Proof.
  unfold user_by_email. intros H. apply fmap_Some in H as ([i u'] & Hf & ->).
  apply list_find_Some in Hf as (Hl & Hm & _). split; [done|].
  apply list_elem_of_lookup_2, list_elem_of_fmap in Hl as ([id u''] & -> & Hin).
  exists id. by apply elem_of_map_to_list in Hin.
Qed.

Lemma user_by_email_None t email id u :
  user_by_email email t = None -> t_users t !! id = Some u -> user_Email u <> email.
Proof.
  unfold user_by_email. intros H Hu. apply fmap_None, list_find_None in H.
  rewrite Forall_forall in H. apply H, list_elem_of_fmap. exists (id, u).
  by rewrite elem_of_map_to_list.
Qed.

(** Under the invariant the lookup finds the one account of an email. *)
Lemma user_by_email_iff t email u :
  tables_inv t ->
  user_by_email email t = Some u <-> t_users t !! user_ID u = Some u /\ user_Email u = email.
Proof.
  intros Hinv. split.
  - intros (Hm & id & Hid)%user_by_email_Some. by rewrite (inv_user_key t Hinv id u Hid).
  - intros [Hid Hm]. destruct (user_by_email email t) as [u'|] eqn:Hf.
    + apply user_by_email_Some in Hf as (Hm' & id' & Hid').
      assert (id' = user_ID u) as -> by (eapply (inv_user_email t Hinv); eauto; congruence).
      congruence.
    + by destruct (user_by_email_None _ _ _ _ Hf Hid).
Qed.

(** ** Specifications *)

Section Spec.
Context `{UnicodeLower, Bcrypt, Mail, Signer}.

(** The row a registration adds. *)
Definition registered_row (id : Z) (email fullName hash : string) (now : Z) : User :=
  mkUser id email fullName "user" hash (pg_time now) (pg_time now).

(** The answer of [Register] and the row it adds, when the database is
    reachable. *)
Definition register_spec (t : Tables) (id : Z) (req : RegisterRequest) (now : Z)
  : result auth_error User :=
  match validateRegistration req with
  | Err e => Err e
  | Ok (email, fullName) =>
    match GenerateFromPassword (reg_Password req) with
    | None => Err (Other "hashing password")
    | Some hash =>
      if storable email && storable fullName then
        match user_by_email email t with
        | Some _ => Err ErrEmailTaken
        | None => Ok (registered_row id email fullName hash now)
        end
      else Err (Other "creating user")
    end
  end.

Definition register_post (faults : Prop) (t : Tables) (id : Z) (req : RegisterRequest)
    (r : result auth_error User) (t' : Tables) : Prop :=
  (faults /\ r = Err (Other "creating user") /\ t' = t) \/
  exists now,
  match register_spec t id req now with
  | Err e => r = Err e /\ t' = t
  | Ok row => t' = apply_write t (WUser row) /\
      (r = Ok (without_hash row) \/ faults /\ r = Err (Other "creating user"))
  end.

Lemma Register_wp E w req :
  wp E (Register req) (fun r w' =>
    register_post (faulty E) (w_tables w) (next_user (w_seqs w)) req r (w_tables w')) w.
Proof.
  unfold Register, register_post, register_spec.
  destruct (validateRegistration req) as [[email fullName]|e].
  2: { apply wp_ret. right. by exists 0%Z. }
  destruct (GenerateFromPassword (reg_Password req)) as [hash|].
  2: { apply wp_ret. right. by exists 0%Z. }
  apply wp_try, wp_pool; [by intros w' Hf -> _; left|].
  intros now w'. unfold exec_stmt, with_text, insert_user. cbn [forallb].
  rewrite andb_true_r.
  destruct (storable email && storable fullName) eqn:Hst; simpl.
  2: { intros Ht _ _. rewrite Ht. split; [|by auto]. right. by exists now. }
  destruct (user_by_email email (w_tables w)) eqn:Hm; simpl; intros Ht _ _; rewrite Ht.
  - split; [|by auto]. right. by exists now.
  - split.
    + apply wp_ret. rewrite Ht. right. exists now. split; [done|]. by left.
    + intros Hf. right. exists now. split; [done|]. by right.
Qed.

(** The answer of [Login] when the database is reachable and the clock shows
    [now]. *)
Definition login_spec (secret : string) (expiry : Z) (t : Tables) (req : LoginRequest) (now : Z)
  : result auth_error LoginResponse :=
  let email := normalize_email (login_Email req) in
  if decide (email = "" \/ login_Password req = "") then Err ErrInvalidCredentials
  else if storable email then
    match user_by_email email t with
    | None => Err ErrInvalidCredentials
    | Some u =>
      if CompareHashAndPassword (user_PasswordHash u) (login_Password req) then
        match SignedString (token_claims (user_ID u) (user_Role u) expiry now) secret with
        | None => Err (Other "generating token")
        | Some token => Ok (mkLoginResponse token (without_hash u))
        end
      else Err ErrInvalidCredentials
    end
  else Err (Other "fetching user").

Lemma Login_wp E w secret expiry req :
  wp E (Login secret expiry req) (fun r w' => w_tables w' = w_tables w /\
    ((exists n, r = login_spec secret expiry (w_tables w) req (env_clock E n)) \/
     faulty E /\ r = Err (Other "fetching user"))) w.
Proof.
  unfold Login, login_spec. set (email := normalize_email (login_Email req)).
  case_decide as Hempty; [apply wp_ret; split; [done|]; left; by exists 0|].
  apply wp_try, wp_pool; [by intros w' Hf -> _; simpl; auto|].
  intros now w'. unfold exec_stmt, with_text, one_row. cbn [forallb]. rewrite andb_true_r.
  destruct (storable email); simpl.
  2: { intros -> _ _. simpl. split; [|by auto]. split; [done|]. left. by exists 0. }
  destruct (user_by_email email (w_tables w)) as [u|]; simpl; intros Ht _ _; rewrite Ht;
    (split; [|by auto]).
  2: { split; [done|]. left. by exists 0. }
  destruct (CompareHashAndPassword _ _); simpl.
  2: { apply wp_ret. split; [done|]. left. by exists 0. }
  apply wp_act. cbn [exec_cmd fst snd].
  destruct (SignedString _ secret) eqn:Hsig; apply wp_ret; simpl; rewrite Ht;
    (split; [done|]); left; eexists; by rewrite Hsig.
Qed.

Definition me_spec (t : Tables) (id : Z) : result auth_error User :=
  match t_users t !! id with
  | Some u => Ok (without_hash u)
  | None => Err ErrUserNotFound
  end.

Lemma Me_wp E w id :
  wp E (Me id) (fun r w' => w_tables w' = w_tables w /\
    (r = me_spec (w_tables w) id \/ faulty E /\ r = Err (Other "fetching user"))) w.
Proof.
  apply wp_try, wp_pool; [by intros w' Hf -> _; simpl; auto|]. intros now w'. unfold me_spec. simpl.
  destruct (t_users (w_tables w) !! id) as [u|]; simpl; intros Ht _ _; rewrite Ht;
    (split; [|by auto]); [apply wp_ret; rewrite Ht|]; auto.
Qed.

(** [PromoteToAdmin]: the user's role becomes [admin], nothing else changes. *)
Definition promote_post (faults : Prop) (t : Tables) (id : Z) (r : result auth_error User)
    (t' : Tables) : Prop :=
  (faults /\ r = Err (Other "promoting user") /\ t' = t) \/
  match t_users t !! id with
  | None => r = Err ErrUserNotFound /\ t' = t
  | Some u => exists now, t' = apply_write t (WUserRole id "admin" now) /\
      (r = Ok (without_hash (set_role "admin" now u)) \/
       faults /\ r = Err (Other "promoting user"))
  end.

Lemma PromoteToAdmin_wp E w id :
  wp E (PromoteToAdmin id) (fun r w' =>
    promote_post (faulty E) (w_tables w) id r (w_tables w')) w.
Proof.
  unfold promote_post. apply wp_try, wp_pool; [by intros w' Hf -> _; simpl; auto|].
  intros now w'. simpl.
  destruct (t_users (w_tables w) !! id) as [u|]; simpl; intros Ht _ _; rewrite Ht.
  - split; [apply wp_ret; rewrite Ht|intros Hf]; right; eexists; (split; [done|]); auto.
  - split; [by right|by auto].
Qed.

(** Why [BootstrapAdmin] refuses its arguments. *)
Definition bootstrap_refusal (email password fullName : string) : option auth_error :=
  let email := normalize_email email in
  if decide (email = "" \/ password = "") then Some (ErrInvalidInput "")
  else if negb (ParseAddress email) then Some (Other "invalid admin email")
  else if decide (len password < minPasswordLen)%Z
  then Some (Other "admin password must be at least 8 characters")
  else match GenerateFromPassword password with
  | None => Some (Other "hashing password")
  | Some _ => if storable email && storable fullName then None
              else Some (Other "bootstrapping admin")
  end.

(** [BootstrapAdmin]: the account of the email is an administrator
    afterwards; an existing account keeps its password. *)
Definition bootstrap_post (faults : Prop) (t : Tables) (id : Z) (email password fullName : string)
    (r : result auth_error unit) (t' : Tables) : Prop :=
  let norm := normalize_email email in
  match bootstrap_refusal email password fullName with
  | Some err => r = Err err /\ t' = t
  | None =>
    (faults /\ r = Err (Other "bootstrapping admin") /\ t' = t) \/
    ((r = Ok tt \/ faults /\ r = Err (Other "bootstrapping admin")) /\
     match user_by_email norm t with
     | Some u => exists now, t' = apply_write t (WUserRole (user_ID u) "admin" now)
     | None => exists now hash, GenerateFromPassword password = Some hash /\
         t' = apply_write t (WUser (mkUser id norm fullName "admin" hash now now))
     end)
  end.

(** Either nothing happened, or the account is there. *)
Lemma bootstrap_post_cases faults t id email password fullName r t' :
  bootstrap_post faults t id email password fullName r t' ->
  (t' = t /\ is_ok r = false) \/
  ((r = Ok tt \/ faults /\ r = Err (Other "bootstrapping admin")) /\
   match user_by_email (normalize_email email) t with
   | Some u => exists now, t' = apply_write t (WUserRole (user_ID u) "admin" now)
   | None => exists now hash, GenerateFromPassword password = Some hash /\
       t' = apply_write t (WUser (mkUser id (normalize_email email) fullName "admin" hash now now))
   end).
Proof.
  unfold bootstrap_post. destruct (bootstrap_refusal _ _ _).
  - intros [-> ->]. by left.
  - intros [(_ & -> & ->)|Hp]; [by left|by right].
Qed.

Lemma BootstrapAdmin_wp E w email password fullName :
  wp E (BootstrapAdmin email password fullName) (fun r w' =>
    bootstrap_post (faulty E) (w_tables w) (next_user (w_seqs w)) email password fullName
      r (w_tables w')) w.
Proof.
  unfold BootstrapAdmin, bootstrap_post, bootstrap_refusal. set (em := normalize_email email).
  cbn zeta. case_decide; [by apply wp_ret|].
  destruct (ParseAddress em); simpl; [|by apply wp_ret].
  case_decide; [by apply wp_ret|].
  destruct (GenerateFromPassword password) as [hash|] eqn:Hgen; [|by apply wp_ret].
  destruct (storable em && storable fullName) eqn:Hst; apply wp_try, wp_pool;
    try (intros w' Hf -> _; by auto);
    intros now w'; unfold exec_stmt, with_text, upsert_admin, insert_user; cbn [forallb];
    rewrite andb_true_r, Hst; simpl.
  2: { by intros -> _ _. }
  destruct (user_by_email em (w_tables w)) as [u|]; simpl; intros Ht _ _.
  all: split; [apply wp_ret|intros Hf]; rewrite Ht; right; (split; [by auto|]); by repeat eexists.
Qed.

(** ** The invariant *)

Lemma register_spec_Ok t id req now row :
  register_spec t id req now = Ok row ->
  exists email fullName hash,
    validateRegistration req = Ok (email, fullName) /\
    GenerateFromPassword (reg_Password req) = Some hash /\
    user_by_email email t = None /\ row = registered_row id email fullName hash now.
Proof.
  unfold register_spec. intros Hs.
  destruct (validateRegistration req) as [[email fullName]|]; [|done].
  destruct (GenerateFromPassword _) as [hash|]; [|done].
  destruct (_ && _); [|done]. destruct (user_by_email email t) eqn:Hm; [done|].
  injection Hs as <-. eauto 10.
Qed.

Lemma register_post_inv faults t id req r t' :
  tables_inv t -> t_users t !! id = None -> register_post faults t id req r t' -> tables_inv t'.
Proof.
  intros Hinv Hnew [(_ & _ & ->)|[now Hp]]; [done|].
  destruct (register_spec t id req now) as [row|e] eqn:Hs; [|by destruct Hp as [_ ->]].
  destruct Hp as [-> _]. apply register_spec_Ok in Hs as (em & nm & h & _ & _ & Hm & ->).
  apply user_insert_inv; [done|done|by left|].
  intros i u Hu. simpl. by eapply user_by_email_None.
Qed.

Lemma promote_post_inv faults t id r t' :
  tables_inv t -> promote_post faults t id r t' -> tables_inv t'.
Proof.
  intros Hinv [(_ & _ & ->)|Hp]; [done|].
  destruct (t_users t !! id); [|by destruct Hp as [_ ->]].
  destruct Hp as (now & -> & _). by apply role_write_inv; [|right].
Qed.

Lemma bootstrap_post_inv faults t id email password fullName r t' :
  tables_inv t -> t_users t !! id = None ->
  bootstrap_post faults t id email password fullName r t' -> tables_inv t'.
Proof.
  intros Hinv Hnew [[-> _]|[_ Hp]]%bootstrap_post_cases; [done|].
  destruct (user_by_email _ t) as [u|] eqn:Hm.
  - destruct Hp as [now ->]. by apply role_write_inv; [|right].
  - destruct Hp as (now & hash & _ & ->). apply user_insert_inv; [done|done|by right|].
    intros i u Hu. simpl. by eapply user_by_email_None.
Qed.

(** A login that succeeds, taken apart. *)
Lemma Login_facts E w secret expiry req resp w' :
  tables_inv (w_tables w) -> run E (Login secret expiry req) w = (Ok resp, w') ->
  w_tables w' = w_tables w /\
  exists id u now, t_users (w_tables w) !! id = Some u /\ user_ID u = id /\
    user_Email u = normalize_email (login_Email req) /\
    CompareHashAndPassword (user_PasswordHash u) (login_Password req) = true /\
    SignedString (token_claims id (user_Role u) expiry now) secret = Some (lresp_Token resp) /\
    lresp_User resp = without_hash u /\ user_PasswordHash (lresp_User resp) = "".
Proof.
  intros Hinv Hrun.
  destruct (wp_run _ _ _ _ _ Hrun (Login_wp E w secret expiry req)) as (Ht & [[now Hs]|[_ ?]]); [|done].
  split; [done|]. revert Hs. unfold login_spec. case_decide; [done|].
  destruct (storable _); [|done]. destruct (user_by_email _ _) as [u|] eqn:Hu; [|done].
  destruct (CompareHashAndPassword _ _) eqn:Hc; [|done].
  destruct (SignedString _ secret) as [token|] eqn:Hsig; [|done]. intros [= ->].
  apply (user_by_email_iff _ _ _ Hinv) in Hu as [Hu Hm].
  exists (user_ID u), u, (env_clock E now). done.
Qed.

(** ** Properties *)

(** [Register] on every branch: a request the validation refuses, a failed
    hash or a taken email (under any spelling that normalises to it) adds
    nothing; otherwise exactly one account is added, with role [user], the
    normalised email and the password's hash, and the answer does not carry
    the hash. *)
Theorem Register_correct E w req :
  wp E (Register req) (fun r w' =>
    register_post (faulty E) (w_tables w) (next_user (w_seqs w)) req r (w_tables w')) w.
Proof. apply Register_wp. Qed.

(** C36: a login that succeeds is justified: there is an account with the
    normalised email, its stored hash matches the password, the token is
    signed for its key and role with the configured expiry, and the answer
    does not carry the hash.  A login changes nothing. *)
Theorem Login_sound E w secret expiry req resp w' :
  tables_inv (w_tables w) -> run E (Login secret expiry req) w = (Ok resp, w') ->
  w_tables w' = w_tables w /\
  exists id u now, t_users (w_tables w) !! id = Some u /\ user_ID u = id /\
    user_Email u = normalize_email (login_Email req) /\
    CompareHashAndPassword (user_PasswordHash u) (login_Password req) = true /\
    SignedString (token_claims id (user_Role u) expiry now) secret = Some (lresp_Token resp) /\
    lresp_User resp = without_hash u /\ user_PasswordHash (lresp_User resp) = "".
Proof. apply Login_facts. Qed.

(** Login does not tell accounts apart.  When the database is reachable
    and the tables can hold the email, an unknown email and a wrong password
    get the same answer. *)
Theorem Login_no_enumeration E w secret expiry req :
  ~ faulty E -> storable (normalize_email (login_Email req)) = true ->
  (forall u, user_by_email (normalize_email (login_Email req)) (w_tables w) = Some u ->
     CompareHashAndPassword (user_PasswordHash u) (login_Password req) = false) ->
  (run E (Login secret expiry req) w).1 = Err ErrInvalidCredentials.
Proof.
  intros Hnf Hst Hbad. destruct (Login_wp E w secret expiry req) as (_ & [[now ->]|[? _]]); [|done].
  unfold login_spec. case_decide; [done|]. rewrite Hst.
  destruct (user_by_email _ _) as [u|]; [|done]. by rewrite (Hbad u).
Qed.

(** C37: register, then log in.  An account registered with a password can log
    in with that password and any spelling of the email that normalises to
    the registered one, provided the token can be signed. *)
Theorem Register_Login `{!BcryptLaws} E1 E2 w secret expiry req user w1 email' :
  tables_inv (w_tables w) -> t_users (w_tables w) !! next_user (w_seqs w) = None ->
  run E1 (Register req) w = (Ok user, w1) -> ~ faulty E2 ->
  normalize_email email' = normalize_email (reg_Email req) ->
  (forall c, is_Some (SignedString c secret)) ->
  exists token,
    (run E2 (Login secret expiry (mkLoginRequest email' (reg_Password req))) w1).1 =
    Ok (mkLoginResponse token user).
Proof.
  intros Hinv Hnew Hrun Hnf Hem Hsig.
  pose proof (wp_run _ _ _ _ _ Hrun (Register_wp E1 w req)) as Hpost.
  assert (tables_inv (w_tables w1)) as Hinv1
    by exact (register_post_inv _ _ _ _ _ _ Hinv Hnew Hpost).
  destruct Hpost as [(_ & ? & _)|[now Hp]]; [done|].
  destruct (register_spec _ _ _ _) as [row|e] eqn:Hs; [|by destruct Hp].
  destruct Hp as (Ht & [[= ->]|[_ ?]]); [|done].
  assert (storable (normalize_email (reg_Email req)) = true /\
          normalize_email (reg_Email req) <> "" /\ reg_Password req <> "" /\
          user_Email row = normalize_email (reg_Email req) /\
          CompareHashAndPassword (user_PasswordHash row) (reg_Password req) = true /\
          user_ID row = next_user (w_seqs w)) as (Hst & Hne & Hpw & Hmail & Hcmp & Hid).
  { revert Hs. unfold register_spec, validateRegistration, minPasswordLen.
    repeat (case_decide; [done|]). destruct (ParseAddress _); [|done]. simpl.
    repeat (case_decide; [done|]).
    destruct (GenerateFromPassword _) as [hash|] eqn:Hg; [|done].
    destruct (storable (normalize_email _)); [|done]. destruct (storable _); [|done]. simpl.
    destruct (user_by_email _ _); [done|]. intros [= <-]. simpl.
    split_and!; try done; [|by apply bcrypt_roundtrip].
    intros Hpw. rewrite Hpw in *. done. }
  destruct (Login_wp E2 w1 secret expiry (mkLoginRequest email' (reg_Password req)))
    as (_ & [[now' ->]|[? _]]); [|done].
  unfold login_spec. simpl. rewrite Hem, decide_False, Hst by tauto.
  assert (user_by_email (normalize_email (reg_Email req)) (w_tables w1) = Some row) as ->.
  { apply user_by_email_iff; [done|]. rewrite Ht. simpl. by rewrite lookup_insert_eq. }
  rewrite Hcmp. destruct (Hsig (token_claims (user_ID row) (user_Role row) expiry (env_clock E2 now'))) as [tok ->].
  by exists tok.
Qed.

(** What a successful bootstrap leaves. *)
Lemma bootstrap_post_admin faults t id0 email password fullName t' :
  tables_inv t -> t_users t !! id0 = None -> bootstrap_post faults t id0 email password fullName (Ok tt) t' ->
  exists id u', t_users t' !! id = Some u' /\
    user_Email u' = normalize_email email /\ user_Role u' = "admin" /\
    (forall u, t_users t !! id = Some u -> user_PasswordHash u' = user_PasswordHash u) /\
    (forall i, i <> id -> t_users t' !! i = t_users t !! i).
Proof.
  intros Hinv Hnew [[_ ?]|[_ Hp]]%bootstrap_post_cases; [done|].
  destruct (user_by_email _ _) as [u|] eqn:Hm.
  - apply (user_by_email_iff _ _ _ Hinv) in Hm as [Hu Hm]. destruct Hp as [now ->].
    exists (user_ID u), (set_role "admin" now u). simpl. rewrite lookup_alter_eq, Hu.
    split_and!; try done; [naive_solver|]. intros i Hi. by rewrite lookup_alter_ne.
  - destruct Hp as (now & hash & _ & ->). simpl. eexists _, _. rewrite lookup_insert_eq.
    split_and!; [done..|congruence|]. intros i Hi. by rewrite lookup_insert_ne.
Qed.

(** Bootstrapping is safe to repeat: if it reports success the account of
    the email is an administrator, an account that existed keeps its
    password, and no other account changes. *)
Theorem BootstrapAdmin_ensures_admin E w email password fullName w' :
  tables_inv (w_tables w) -> t_users (w_tables w) !! next_user (w_seqs w) = None ->
  run E (BootstrapAdmin email password fullName) w = (Ok tt, w') ->
  exists id u', t_users (w_tables w') !! id = Some u' /\
    user_Email u' = normalize_email email /\ user_Role u' = "admin" /\
    (forall u, t_users (w_tables w) !! id = Some u -> user_PasswordHash u' = user_PasswordHash u) /\
    (forall i, i <> id -> t_users (w_tables w') !! i = t_users (w_tables w) !! i).
Proof.
  intros Hinv Hnew Hrun.
  exact (bootstrap_post_admin _ _ _ _ _ _ _ Hinv Hnew
    (wp_run _ _ _ _ _ Hrun (BootstrapAdmin_wp E w email password fullName))).
Qed.
End Spec.

(** A password between 73 and 128 bytes passes the validation, but
    [bcrypt] does not accept more than 72 bytes: the registration fails with
    an internal error instead of being refused as invalid input. *)
Theorem Register_long_password `{UnicodeLower, Bcrypt, Mail, Signer} E w req email fullName :
  (forall pw, (72 < len pw)%Z -> GenerateFromPassword pw = None) ->
  validateRegistration req = Ok (email, fullName) -> (72 < len (reg_Password req))%Z ->
  run E (Register req) w = (Err (Other "hashing password"), w).
Proof. intros Hb Hv Hlen. unfold Register. by rewrite Hv, (Hb _ Hlen). Qed.

(** ** Concrete interfaces *)

(** Simple stand-ins that satisfy the laws, to instantiate the theorems. *)
Module Standin.
#[export] Instance lower : UnicodeLower := id.
#[export] Instance mail : Mail := fun s => bool_decide ("@"%char ∈ chars s).
#[export] Instance signer : Signer := fun c secret => Some (cl_Subject c +:+ secret).
#[export] Instance bcrypt : Bcrypt := {|
  GenerateFromPassword pw := if decide (72 < len pw)%Z then None else Some ("$" +:+ pw);
  CompareHashAndPassword h pw := bool_decide (h = "$" +:+ pw)
|}.
#[export] Instance bcrypt_laws : BcryptLaws.
Proof. intros pw h. simpl. case_decide; [done|]. intros [= <-]. by apply bool_decide_eq_true. Qed.

Definition new_user : RegisterRequest := mkRegisterRequest " New@X.et " "correct horse" "New User".
Definition long_request : RegisterRequest :=
  mkRegisterRequest "new@x.et"
    "0123456789012345678901234567890123456789012345678901234567890123456789012345" "New User".
Definition registered_world : world := (run (calm_env 5) (Register new_user) sample_world).2.
End Standin.

Section Witnesses.
Import Standin.

Lemma Register_Login_witness :
  exists user token, run (calm_env 5) (Register new_user) sample_world = (Ok user, registered_world) /\
    (run (calm_env 9) (Login "key" 60 (mkLoginRequest "NEW@x.et" "correct horse"))
       registered_world).1 = Ok (mkLoginResponse token user).
Proof.
  destruct (Register_Login (calm_env 5) (calm_env 9) sample_world "key" 60 new_user
    (mkUser 5 "new@x.et" "New User" "user" "" 0 0) registered_world "NEW@x.et")
    as [token Hlogin].
  - apply sample_inv.
  - by vm_compute.
  - by vm_compute.
  - apply calm_not_faulty.
  - by vm_compute.
  - intros c. by eexists.
  - exists (mkUser 5 "new@x.et" "New User" "user" "" 0 0), token.
    split; [by vm_compute|exact Hlogin].
Defined.

Lemma Login_sound_witness :
  exists resp w' id u, run (calm_env 9) (Login "key" 60 (mkLoginRequest "new@x.et" "correct horse"))
      registered_world = (Ok resp, w') /\
    t_users (w_tables registered_world) !! id = Some u /\ user_Email u = "new@x.et".
Proof.
  destruct (run (calm_env 9) (Login "key" 60 (mkLoginRequest "new@x.et" "correct horse"))
    registered_world) as [[resp|] w'] eqn:Hrun; [|exfalso; by vm_compute in Hrun].
  destruct (Login_sound (calm_env 9) registered_world "key" 60
    (mkLoginRequest "new@x.et" "correct horse") resp w') as (_ & id & u & now & Hu & _ & Hm & _).
  - eapply (register_post_inv False sample_tables 5 new_user); [apply sample_inv|by vm_compute|].
    right. exists 5%Z. split; [by vm_compute|]. left. reflexivity.
  - exact Hrun.
  - exists resp, w', id, u. auto.
Defined.

Lemma Login_no_enumeration_witness :
  (run (calm_env 9) (Login "key" 60 (mkLoginRequest "nobody@x.et" "guess")) registered_world).1 =
  Err ErrInvalidCredentials.
Proof.
  apply (Login_no_enumeration (calm_env 9) registered_world "key" 60
    (mkLoginRequest "nobody@x.et" "guess")); [apply calm_not_faulty|by vm_compute|].
  intros u Hu. exfalso. by vm_compute in Hu.
Defined.

Lemma BootstrapAdmin_ensures_admin_witness :
  exists id u', t_users (w_tables (run (calm_env 9) (BootstrapAdmin "A@x.et" "password" "Root")
      sample_world).2) !! id = Some u' /\ user_Role u' = "admin" /\ user_Email u' = "a@x.et".
Proof.
  destruct (BootstrapAdmin_ensures_admin (calm_env 9) sample_world "A@x.et" "password" "Root"
    (run (calm_env 9) (BootstrapAdmin "A@x.et" "password" "Root") sample_world).2)
    as (id & u' & Hu & Hm & Hr & _); [apply sample_inv|by vm_compute|by vm_compute|].
  exists id, u'. auto.
Defined.

Lemma Register_long_password_witness :
  run (calm_env 9) (Register long_request) sample_world = (Err (Other "hashing password"), sample_world).
Proof.
  apply (Register_long_password (calm_env 9) sample_world long_request "new@x.et" "New User").
  - intros pw Hpw. simpl. by rewrite decide_True.
  - by vm_compute.
  - by vm_compute.
Defined.
End Witnesses.
