(* ===== verification/System.v ===== *)
(** * The running system

    Requests of every kind, in any order, each under its own environment of
    failures and clocks, against one database and one Redis.  The theorems
    hold in every state such a history can reach. *)

From S2P Require Import Prelude GoString GoTime Models Seal Shuffle Database Effects Invariant.
From S2P Require Import Growth Booking Events Scenario Draw Lock Auth.

(** ** Every operation adds only *)

Lemma book_post_grows faults t eid uid r t' : book_post faults t eid uid r t' -> grows t t'.
Proof.
  assert (booked_in t t' eid uid -> grows t t') as Hb.
  { intros (id & at_ & ->). apply grows_booking. }
  intros [[_ Hr]|(_ & _ & [->|[_ ?]])]; [|done|by apply Hb].
  destruct r; [by apply Hb|by subst].
Qed.

(** A move along the lifecycle. *)
Definition legal_move (mv : EventStatus -> move) : Prop :=
  forall st st', mv st = MoveTo st' -> status_edge st st'.

Lemma close_move_legal : legal_move close_move.
Proof. intros [] [] [=]; constructor. Qed.
Lemma cancel_move_legal : legal_move cancel_move.
Proof. intros [] [] [=]; constructor. Qed.

Lemma moved_grows mv t t' id e :
  legal_move mv -> t_events t !! id = Some e -> moved t t' id (mv (ev_status e)) -> grows t t'.
Proof.
  intros Hl He Hm. destruct (mv (ev_status e)) as [| |st] eqn:Hmv; simpl in Hm; [done|by subst|].
  destruct Hm as [now ->]. apply grows_status. intros e' He'. rewrite He in He'.
  injection He' as <-. by apply rtc_once, Hl.
Qed.

Lemma move_post_grows mv faults t id r t' :
  legal_move mv -> move_post mv faults t id r t' -> grows t t'.
Proof.
  unfold move_post. intros Hl Hp. destruct (t_events t !! id) as [e|] eqn:He;
    [|by destruct Hp as [-> _]].
  destruct Hp as [(_ & _ & ->)|[(_ & Hm)|(_ & _ & [->|Hm])]]; eauto using moved_grows; done.
Qed.

Lemma create_post_grows faults valid t id req by_ r t' :
  t_events t !! id = None -> create_post faults valid t id req by_ r t' -> grows t t'.
Proof.
  intros Hnew Hp. destruct valid as [wc|e]; [|by destruct Hp as [_ ->]].
  destruct Hp as [(now & _ & -> & _)|(-> & _)]; [|done]. by apply grows_new_event.
Qed.

Lemma create_post_inv maxWinners now0 faults t id req by_ r t' :
  tables_inv t -> t_events t !! id = None ->
  create_post faults (validate_create maxWinners req now0) t id req by_ r t' -> tables_inv t'.
Proof.
  intros Hinv Hnew Hp. destruct (validate_create _ _ _) as [wc|e] eqn:Hv;
    [|by destruct Hp as [_ ->]].
  apply validate_create_ok in Hv.
  destruct Hp as [(now & Hi & -> & _)|(-> & _)]; [|done].
  unfold insertable, fits_int4 in Hi. rewrite !andb_true_iff, !bool_decide_eq_true in Hi.
  apply event_insert_inv; simpl; try done; [lia|lia|tauto].
Qed.

Lemma drawn_tables_grows t id e wc drawnAt now rows :
  tables_inv t -> t_events t !! id = Some e -> ev_status e = EventStatusClosed ->
  grows t (drawn_tables t id wc drawnAt now rows).
Proof.
  intros Hinv He Hst. unfold drawn_tables.
  rewrite apply_writes_app. pose proof (apply_draws t rows) as Hd.
  set (t1 := apply_writes t (WDraw <$> rows)) in *. transitivity t1; [apply grows_draws|].
  set (sl := mkSealRow _ _ _ _). transitivity (apply_write t1 (WSeal sl)).
  - apply grows_seal. rewrite Hd. apply (undrawn_draws t id e); [done..|congruence].
  - apply grows_status. rewrite Hd. simpl. intros e' He'. rewrite He in He'. injection He' as <-.
    rewrite Hst. apply rtc_once. constructor.
Qed.

Lemma draw_post_grows {R} `{RandSource R} faults (rand : R) t k id now r t' :
  tables_inv t -> draw_post faults rand t k id now r t' -> grows t t'.
Proof.
  intros Hinv [(_ & _ & ->)|Hp]; [done|].
  destruct (draw_refusal t id now) as [err|] eqn:Href; [by destruct Hp as [_ ->]|].
  destruct Hp as (e & He & Hp). apply draw_refusal_None in Href as (e' & He' & Hst & _).
  rewrite He in He'. injection He' as <-.
  destruct (SelectWinners _ _ rand) as [[[winners waitlist] rand']|er];
    [|by destruct Hp as [_ ->]].
  destruct Hp as (clock & -> & _). by eapply drawn_tables_grows.
Qed.

Section AuthGrows.
Context `{UnicodeLower, Bcrypt, Mail, Signer}.

Lemma register_post_grows faults t id req r t' :
  t_users t !! id = None -> register_post faults t id req r t' -> grows t t'.
Proof.
  intros Hnew [(_ & _ & ->)|[now Hp]]; [done|].
  destruct (register_spec t id req now) as [row|e] eqn:Hs; [|by destruct Hp as [_ ->]].
  destruct Hp as [-> _]. apply register_spec_Ok in Hs as (em & nm & h & _ & _ & _ & ->).
  by apply grows_new_user.
Qed.

Lemma promote_post_grows faults t id r t' : promote_post faults t id r t' -> grows t t'.
Proof.
  intros [(_ & _ & ->)|Hp]; [done|]. destruct (t_users t !! id); [|by destruct Hp as [_ ->]].
  destruct Hp as (now & -> & _). apply grows_role.
Qed.

Lemma bootstrap_post_grows faults t id email password fullName r t' :
  t_users t !! id = None -> bootstrap_post faults t id email password fullName r t' -> grows t t'.
Proof.
  intros Hnew [[-> _]|[_ Hp]]%bootstrap_post_cases; [done|]. destruct (user_by_email _ t) as [u|].
  - destruct Hp as [now ->]. apply grows_role.
  - destruct Hp as (now & hash & _ & ->). by apply grows_new_user.
Qed.
End AuthGrows.

(** ** Requests *)

Section System.
Context `{UnicodeLower, Bcrypt, Mail, Signer} {R : Type} `{RandSource R}.
(** The configuration: [MAX_WINNERS], the lock durations, the token secret and
    lifetime. *)
Variables (maxWinners lockTTL lockWait : Z) (jwtSecret : string) (jwtExpiry : Z).

Inductive request :=
| ReqRegister (req : RegisterRequest)
| ReqLogin (req : LoginRequest)
| ReqMe (userID : Z)
| ReqPromote (userID : Z)
| ReqBootstrap (email password fullName : string)
| ReqCreate (req : CreateEventRequest) (createdBy : Z)
| ReqGetEvent (id : Z)
| ReqList (status : string) (page limit : Z)
| ReqClose (id : Z)
| ReqCancel (id : Z)
| ReqBook (eventID userID : Z)
| ReqBookingsOfEvent (eventID : Z)
| ReqBookingsOfUser (userID : Z)
| ReqDraw (rand : R) (eventID : Z)
| ReqResults (eventID : Z).

(** The effect of one request.  It starts without a transaction and outside
    every gate. *)
Definition serve (E : env) (rq : request) (w : world) : world :=
  let w := set_tx None (set_gates [] w) in
  match rq with
  | ReqRegister req => (run E (Register req) w).2
  | ReqLogin req => (run E (Login jwtSecret jwtExpiry req) w).2
  | ReqMe id => (run E (Me id) w).2
  | ReqPromote id => (run E (PromoteToAdmin id) w).2
  | ReqBootstrap email password fullName => (run E (BootstrapAdmin email password fullName) w).2
  | ReqCreate req by_ => (run E (Create maxWinners req by_) w).2
  | ReqGetEvent id => (run E (GetByID id) w).2
  | ReqList status page limit => (run E (List_ status page limit) w).2
  | ReqClose id => (run E (Close id) w).2
  | ReqCancel id => (run E (Cancel id) w).2
  | ReqBook eid uid => (run E (BookWithLock lockTTL lockWait eid uid) w).2
  | ReqBookingsOfEvent eid => (run E (GetByEvent eid) w).2
  | ReqBookingsOfUser uid => (run E (UserBookings uid) w).2
  | ReqDraw rand id => (run E (RunDraw rand id) w).2
  | ReqResults id => (run E (GetResults id) w).2
  end.

Inductive served : world -> world -> Prop :=
| Served E rq w : served w (serve E rq w).

(** Histories of requests. *)
Definition history : world -> world -> Prop := rtc served.

(** The freshly migrated database. *)
Definition initial_world : world := world_of empty_tables initial_seqs.

Lemma run_pool_read {X A Er} E w (s : stmt X) (h : pgerror -> Er) (f : X -> A) :
  (forall now q, (exec_stmt now (w_tables w) q s).1.2 = []) ->
  w_tables (run E (try x := pool_exec s catch e => h e in mret (Ok (f x))) w).2 = w_tables w.
Proof.
  intros Hs. change (wp E (try x := pool_exec s catch e => h e in mret (Ok (f x)))
    (fun _ w' => w_tables w' = w_tables w) w).
  apply wp_try, wp_pool; [done|]. intros now w'. specialize (Hs now (w_seqs w)).
  destruct (exec_stmt _ _ _ s) as [[[x|e] ws] q]; simpl in Hs; subst; simpl; done.
Qed.

Lemma List_reads E w status page limit :
  w_tables (run E (List_ status page limit) w).2 = w_tables w.
Proof.
  change (wp E (List_ status page limit) (fun _ w' => w_tables w' = w_tables w) w).
  unfold List_. apply wp_try, wp_pool; [done|]. intros now w1.
  cbn [exec_stmt]. unfold with_text, answer.
  destruct (forallb storable [status]); [case_bool_decide|]; intros Ht _ _; try done.
  simpl in Ht. split; [|done]. apply wp_try, wp_pool; [intros; congruence|]. intros now' w2.
  cbn [exec_stmt]. unfold with_text, answer.
  destruct (forallb storable [status]); simpl; intros Ht2 _ _; (split; [|congruence]);
    [apply wp_ret|]; congruence.
Qed.

(** One request keeps the invariant and only adds. *)
Lemma serve_ok E rq w :
  db_inv w -> db_inv (serve E rq w) /\ grows (w_tables w) (w_tables (serve E rq w)).
Proof.
  intros [Hinv Hseq]. unfold db_inv.
  set (w0 := set_tx None (set_gates [] w)).
  assert (forall (A : Type) (p : program A), seqs_inv (w_tables (run E p w0).2) (w_seqs (run E p w0).2)) as Hs.
  { intros A p. apply (run_keys E p w0). by split. }
  pose proof (fresh_user _ _ Hseq) as Hfu. pose proof (fresh_event _ _ Hseq) as Hfe.
  assert (forall (A : Type) (p : program A), w_tables (run E p w0).2 = w_tables w ->
    (tables_inv (w_tables (run E p w0).2) /\ seqs_inv (w_tables (run E p w0).2) (w_seqs (run E p w0).2)) /\
    grows (w_tables w) (w_tables (run E p w0).2)) as Hread.
  { intros A p Ht. split; [split; [by rewrite Ht|apply Hs]|by rewrite Ht]. }
  destruct rq; unfold serve; fold w0.
  - pose proof (Register_wp E w0 req) as Hp. unfold wp in Hp.
    split; [split; [by eapply register_post_inv|apply Hs]|by eapply register_post_grows].
  - apply Hread, (Login_wp E w0).
  - apply Hread, (Me_wp E w0).
  - pose proof (PromoteToAdmin_wp E w0 userID) as Hp. unfold wp in Hp.
    split; [split; [by eapply promote_post_inv|apply Hs]|by eapply promote_post_grows].
  - pose proof (BootstrapAdmin_wp E w0 email password fullName) as Hp. unfold wp in Hp.
    split; [split; [by eapply bootstrap_post_inv|apply Hs]|by eapply bootstrap_post_grows].
  - pose proof (Create_wp maxWinners E w0 req createdBy) as Hp. unfold wp in Hp.
    split; [split; [by eapply create_post_inv|apply Hs]|by eapply create_post_grows].
  - apply Hread. enough (wp E (GetByID id) (fun _ w' => w_tables w' = w_tables w) w0) by done.
    by apply wp_GetByID.
  - apply Hread. apply (List_reads E w0).
  - pose proof (Close_wp E w0 id) as Hp. unfold wp in Hp.
    split; [split; [|apply Hs]|]; [eapply move_post_inv|eapply move_post_grows];
      eauto using close_move_safe, close_move_legal.
  - pose proof (Cancel_wp E w0 id) as Hp. unfold wp in Hp.
    split; [split; [|apply Hs]|]; [eapply move_post_inv|eapply move_post_grows];
      eauto using cancel_move_safe, cancel_move_legal.
  - destruct (BookWithLock_wp lockTTL lockWait E eventID userID w0) as (_ & _ & Hp).
    revert Hp. unfold locked_post. case_decide; intros Hp; [by apply Hread, Hp|].
    destruct Hp as [[Ht _]|Hp]; [by apply Hread|].
    split; [split; [by eapply book_post_inv|apply Hs]|by eapply book_post_grows].
  - apply Hread. by apply (run_pool_read E w0).
  - apply Hread. by apply (run_pool_read E w0).
  - pose proof (RunDraw_wp E rand w0 eventID Hinv) as Hp. unfold wp in Hp.
    split; [split; [by eapply draw_post_inv|apply Hs]|by eapply draw_post_grows].
  - apply Hread, (GetResults_wp E w0).
Qed.

Lemma history_ok w w' :
  history w w' -> db_inv w -> db_inv w' /\ grows (w_tables w) (w_tables w').
Proof.
  induction 1 as [w|w w1 w2 [E rq w0] _ IH]; intros Hw; [done|].
  destruct (serve_ok E rq w0 Hw) as [Hw1 Hg1]. destruct (IH Hw1) as [Hw2 Hg2].
  split; [done|by etrans].
Qed.

Lemma initial_world_ok : db_inv initial_world.
Proof. split; [apply empty_inv|]. split; simpl; intros; simplify_map_eq. Qed.

(** The audit rows of a drawn event are final. *)
Lemma draws_of_final t t' id e :
  tables_inv t -> tables_inv t' -> grows t t' ->
  t_events t !! id = Some e -> ev_status e = EventStatusDrawn -> draws_of id t <> [] ->
  draws_of id t' = draws_of id t.
Proof.
  intros Hinv Hinv' Hg He Hst Hne.
  destruct (g_events t t' Hg id e He) as (e' & He' & Hf & Hst').
  rewrite Hst in Hst'. apply drawn_final in Hst'.
  destruct (inv_drawn t Hinv id e He Hst) as [_ _ (at1 & Ha1 & _)].
  destruct (inv_drawn t' Hinv' id e' He' Hst') as [_ _ (at2 & Ha2 & _)].
  rewrite (inv_event_key t Hinv id e He) in *. rewrite (inv_event_key t' Hinv' id e' He') in *.
  destruct (g_draws t t' Hg) as [l Hl].
  assert (draws_of id t' = draws_of id t ++ filter (fun d => draw_EventID d = id) l) as Hd.
  { unfold draws_of. by rewrite Hl, filter_app. }
  rewrite Hd in Ha2 |- *. apply Forall_app in Ha2 as [Ha2 _].
  destruct (draws_of id t) as [|d rows]; [done|].
  apply Forall_cons in Ha1 as [(_ & Ht1 & _) _]. apply Forall_cons in Ha2 as [(_ & Ht2 & _) _].
  rewrite Ht1, length_app in Ht2.
  destruct (filter _ l); [by rewrite app_nil_r|]. simpl in Ht2. lia.
Qed.

(** So are its results. *)
Lemma results_of_final t t' id res :
  tables_inv t -> tables_inv t' -> grows t t' -> draws_of id t <> [] ->
  results_of t id = Ok res -> results_of t' id = Ok res.
Proof.
  intros Hinv Hinv' Hg Hne Hres.
  assert (exists e, t_events t !! id = Some e /\ ev_status e = EventStatusDrawn) as (e & He & Hst).
  { revert Hres. unfold results_of. destruct (t_events t !! id) as [e|]; [|done].
    case_decide; [by eauto|done]. }
  destruct (g_events t t' Hg id e He) as (e' & He' & Hf & Hst').
  rewrite Hst in Hst'. apply drawn_final in Hst'. injection Hf as _ Htitle _ _ Hwc _ _ _.
  pose proof (draws_of_final t t' id e Hinv Hinv' Hg He Hst Hne) as Hd.
  destruct (results_of_drawn t id e Hinv He Hst Hne) as (at1 & Ha1 & Hr1).
  destruct (results_of_drawn t' id e' Hinv' He' Hst') as (at2 & Ha2 & Hr2); [by rewrite Hd|].
  rewrite Hd in Ha2, Hr2. rewrite Hr1 in Hres. rewrite Hr2, <- Hres.
  assert (at2 = at1) as ->.
  { destruct (draws_of id t) as [|d rows]; [done|].
    apply Forall_cons in Ha1 as [<- _]. by apply Forall_cons in Ha2 as [? _]. }
  unfold drawn_result. rewrite Htitle, Hwc. reflexivity.
Qed.

(** ** Properties *)

(** C25: the record only grows.  Over any history bookings, audit rows and seals
    are added and never changed or removed, an account keeps its email and
    password hash, an event keeps its title, capacity, winner count, draw
    time and creator, and its status moves only along
    [open -> closed -> drawn] and [open | closed -> cancelled]. *)
Theorem history_append_only w w' :
  db_inv w -> history w w' -> grows (w_tables w) (w_tables w').
Proof. intros Hw Hh. by apply history_ok. Qed.

(** C5: a draw is final.  Once [RunDraw] has answered with a result, then after
    any further history a second draw is refused as already drawn and changes
    nothing, and [GetResults] (with the database reachable) answers the same
    result, verified. *)
Theorem draw_is_final E E1 E2 (rand rand' : R) w id res w1 w2 :
  db_inv w -> run E (RunDraw rand id) (set_tx None (set_gates [] w)) = (Ok res, w1) ->
  history w1 w2 -> ~ faulty E1 -> ~ faulty E2 ->
  (run E1 (GetResults id) w2).1 = Ok res /\
  (run E2 (RunDraw rand' id) w2).1 = Err ErrEventAlreadyDrawn /\
  w_tables (run E2 (RunDraw rand' id) w2).2 = w_tables w2.
Proof.
  intros Hw Hrun Hh Hn1 Hn2.
  destruct (serve_ok E (ReqDraw rand id) w Hw) as [Hw1 _]. unfold serve in Hw1.
  rewrite Hrun in Hw1. simpl in Hw1. destruct (history_ok _ _ Hh Hw1) as [[Hinv2 _] Hg].
  pose proof Hw1 as [Hinv1 _]. destruct Hw as [Hinv _].
  destruct (RunDraw_ok E rand (set_tx None (set_gates [] w)) id res w1 Hinv Hrun)
    as (e & winners & waitlist & r' & clock & He & Hst & _ & Hne & Hsel & _ & Ht1).
  apply SelectWinners_ok in Hsel as (_ & _ & Hperm & _). simpl in Ht1, Hne, Hperm, He.
  assert (t_events (w_tables w1) !! id =
    Some (set_status EventStatusDrawn (pg_time (env_dbclock E (w_step w))) e)) as He1.
  { rewrite Ht1, drawn_tables_eq. simpl. by rewrite lookup_alter_eq, He. }
  assert (draws_of id (w_tables w1) <> []) as Hd1.
  { rewrite Ht1, draws_of_drawn, decide_True by
      (done || (eapply Forall_impl; [apply audit_rows_fields|]; by intros d [? _])).
    intros [_ Hnil]%app_nil. apply (f_equal length) in Hnil. rewrite length_audit_rows in Hnil.
    apply Permutation_length in Hperm. rewrite length_participants, Hnil in Hperm.
    by destruct (bookings_of id (w_tables w)). }
  pose proof (RunDraw_results E rand (set_tx None (set_gates [] w)) id res w1 Hinv Hrun) as Hres1.
  split.
  - destruct (GetResults_wp E1 w2 id) as (_ & [->|[? _]]); [|done].
    by eapply (results_of_final (w_tables w1)).
  - destruct (g_events _ _ Hg id _ He1) as (e2 & He2 & _ & Hst2). apply drawn_final in Hst2.
    destruct (RunDraw_wp E2 rand' w2 id Hinv2) as [[? _]|Hp]; [done|].
    unfold draw_refusal in Hp. rewrite He2, Hst2 in Hp. exact Hp.
Qed.
End System.

(** ** A concrete history *)

Section Witnesses.
Import Standin.

Definition do (E : env) (rq : request (R := list nat)) (w : world) : world :=
  serve 10 0 0 "key" 60 E rq w.

Definition gala : CreateEventRequest := mkCreateEventRequest "Gala" "" 2 1000000 1.

(** An administrator is bootstrapped, creates an event, two users register and
    book it, it is closed and drawn. *)
Definition created : world :=
  do (calm_env 3000) (ReqCreate gala 1)
    (do (calm_env 2000) (ReqBootstrap "root@x.et" "password" "Root") initial_world).

Definition ready : world :=
  do (calm_env 9000) (ReqClose 1)
    (do (calm_env 7000) (ReqBook 1 3)
      (do (calm_env 6000) (ReqBook 1 2)
        (do (calm_env 5000) (ReqRegister (mkRegisterRequest "b@x.et" "password" "B"))
          (do (calm_env 4000) (ReqRegister (mkRegisterRequest "a@x.et" "password" "A")) created)))).

Definition drawn : world := do (calm_env 2000000) (ReqDraw [0] 1) ready.

Lemma history_do E rq w w' :
  history (R := list nat) 10 0 0 "key" 60 w w' ->
  history (R := list nat) 10 0 0 "key" 60 w (do E rq w').
Proof. intros Hh. eapply rtc_r; [exact Hh|]. constructor. Qed.

Lemma ready_history : history (R := list nat) 10 0 0 "key" 60 initial_world ready.
Proof. repeat apply history_do. constructor. Qed.

Lemma drawn_history : history (R := list nat) 10 0 0 "key" 60 initial_world drawn.
Proof. apply history_do, ready_history. Qed.

Lemma history_append_only_witness : grows (w_tables initial_world) (w_tables drawn).
Proof.
  apply (history_append_only (R := list nat) 10 0 0 "key" 60 initial_world drawn).
  - apply initial_world_ok.
  - apply drawn_history.
Defined.

(** Another booking attempt and a cancellation after the draw. *)
Definition later : world :=
  do (calm_env 3000000) (ReqCancel 1) (do (calm_env 2500000) (ReqBook 1 1) drawn).

Lemma draw_is_final_witness :
  exists res, (run (calm_env 4000000) (GetResults 1) later).1 = Ok res /\
    (run (calm_env 5000000) (RunDraw [1] 1) later).1 = Err ErrEventAlreadyDrawn.
Proof.
  destruct (run (calm_env 2000000) (RunDraw [0] 1) (set_tx None (set_gates [] ready)))
    as [[res|] w1] eqn:Hrun; [|exfalso; by vm_compute in Hrun].
  assert (w1 = drawn) as Hw1 by (change drawn with
    (run (calm_env 2000000) (RunDraw [0] 1) (set_tx None (set_gates [] ready))).2; by rewrite Hrun).
  exists res.
  destruct (draw_is_final 10 0 0 "key" 60 (calm_env 2000000) (calm_env 4000000) (calm_env 5000000)
    [0] [1] ready 1 res w1 later) as (Hres & Hagain & _).
  - apply (history_ok (R := list nat) 10 0 0 "key" 60 initial_world); [apply ready_history|apply initial_world_ok].
  - exact Hrun.
  - rewrite Hw1. apply history_do, history_do. constructor.
  - apply calm_not_faulty.
  - apply calm_not_faulty.
  - split; [exact Hres|exact Hagain].
Defined.
End Witnesses.
