(* ===== verification/Interleave.v ===== *)
(** * Requests interleaved

    Every request of the server, run as one session among any others under
    the row locks of [Concurrent]: each takes effect at one of its own steps,
    does there what its sequential specification says and answers what that
    specification says, but for what a few requests read at a later step.  So the whole
    server refines the atomic operations, without any help from the gate or
    from Redis. *)

From S2P Require Import Prelude GoFmt GoString GoTime Models Seal Shuffle Database Effects Invariant Growth.
From S2P Require Import Booking Events Draw Lock Auth Concurrent System.

(** ** The writes of one event *)

Lemma booking_exists_slice eid uid T T' :
  slice_eq eid T T' -> booking_exists eid uid T' = booking_exists eid uid T.
Proof.
  intros Hs. apply eq_bool_prop_intro.
  assert (forall T0, booking_exists eid uid T0 = true <->
    exists b, b ∈ bookings_of eid T0 /\ booking_UserID b = uid) as Hb.
  { intros T0. rewrite booking_exists_spec. setoid_rewrite elem_of_bookings_of. naive_solver. }
  rewrite !Is_true_true, !Hb. by rewrite (sl_bookings _ _ _ Hs).
Qed.

Lemma frame_booking T b :
  frame [(booking_EventID b, ForUpdate)] T (apply_write T (WBooking b)).
Proof.
  split; [apply grows_booking|]. intros e _ Hn. split; try done.
  rewrite bookings_of_app, decide_False, app_nil_r; [done|]. set_solver.
Qed.

Lemma frame_status T id st now :
  grows T (apply_write T (WEventStatus id st now)) ->
  frame [(id, ForUpdate)] T (apply_write T (WEventStatus id st now)).
Proof.
  intros Hg. split; [done|]. intros e _ Hn. split; try done. simpl.
  rewrite lookup_alter_ne; [done|]. set_solver.
Qed.

Lemma frame_drawn T id wc drawnAt now rows :
  Forall (fun d => draw_EventID d = id) rows -> grows T (drawn_tables T id wc drawnAt now rows) ->
  frame [(id, ForUpdate)] T (drawn_tables T id wc drawnAt now rows).
Proof.
  intros Hids Hg. split; [done|]. intros e _ Hn.
  assert (e <> id) by set_solver.
  split.
  - rewrite drawn_tables_eq. simpl. by rewrite lookup_alter_ne.
  - by rewrite drawn_tables_eq.
  - by rewrite draws_of_drawn, decide_False, app_nil_r.
  - rewrite drawn_tables_eq. simpl. by rewrite lookup_insert_ne.
Qed.

(** ** Booking *)

(** One statement on the locked event, whose failure settles the request. *)
Ltac lwp_step H fl :=
  apply lwp_try; eapply lwp_stmt;
  [exact H|done|intros ? ? Hfaulty Hfail; eapply settles_now; [exact Hfail|]; fl|intros ?].

(** The end of the transaction, once every check has passed. *)
Lemma book_insert_lwp E l eventID userID start T e :
  holds l eventID start [] T -> t_events T !! eventID = Some e ->
  booking_exists eventID userID T = false ->
  (forall Tn, slice_eq eventID T Tn -> book_spec Tn eventID userID =
     match t_users Tn !! userID with
     | None => Err Booking.ErrEventNotFound
     | Some _ => Ok tt
     end) ->
  lwp E (try _ := tx_exec (InsertBooking eventID userID)
           catch err => if IsUnique err then ErrAlreadyBooked
                        else if IsForeignKey err then Booking.ErrEventNotFound
                        else Booking.Other "inserting booking" in
         try _ := perform Commit catch _ => Booking.Other "commit" in
         mret (Ok tt)) l
    (settles (fun r T T' _ => book_post (faulty E) T eventID userID r T')).
Proof.
  intros H4 He Hex Hspec.
  assert (forall c T, faulty E -> book_post (faulty E) T eventID userID (Err (Booking.Other c)) T)
    as Hother by (intros c T' Hf; right; simpl; auto).
  lwp_step H4 ltac:(by apply Hother). intros T4 q4 _ _ Hs4. cbn [exec_stmt].
  specialize (Hspec T4 Hs4) as Hspec4. unfold insert_booking. simpl.
  rewrite (booking_exists_slice _ _ _ _ Hs4), Hex, (sl_event _ _ _ Hs4), He.
  destruct (t_users T4 !! userID) as [u|] eqn:Hu; simpl.
  2: { intros l5 Ho. eapply settles_now; [exact Ho|]. by left. }
  intros l5 H5 H5'. apply lwp_try. eapply lwp_commit; [exact H5'|].
  intros T5 HT5 Hg5 Hs5. cbn zeta.
  assert (book_spec T5 eventID userID = Ok tt) as Hok.
  { rewrite (Hspec T5) by (by etrans). destruct (g_users _ _ Hg5 userID u Hu) as (u' & -> & _). done. }
  set (b := mkBooking _ _ _ _). assert (booked_in T5 (apply_write T5 (WBooking b)) eventID userID) as Hin.
  { by eexists _, _. }
  split_and!.
  - by eapply booked_in_inv.
  - apply (frame_booking T5 b).
  - intros l' (_ & _ & Ho) _. split; [apply lwp_ret|intros Hf]; (eapply settles_now; [exact Ho|]).
    + by left.
    + right. simpl. auto.
  - intros l' Hf (_ & _ & Ho). eapply settles_now; [exact Ho|]. by apply Hother.
Qed.

Lemma createBooking_lwp E l eventID userID :
  outside l None ->
  lwp E (createBooking eventID userID) l (fun r l' => exists e, outside l' (Some e) /\
    took (fun r T T' _ => book_post (faulty E) T eventID userID r T') r e).
Proof.
  intros Hl. set (post := fun r T T' (_ : list Tables) => book_post (faulty E) T eventID userID r T').
  assert (forall c T, faulty E -> post (Err (Booking.Other c)) T T []) as Hother.
  { intros c T Hf. right. simpl. auto. }
  apply (lwp_with_tx E _ _ l post); [done|by intros; apply Hother|]. intros n l1 H1.
  set (start := env_dbclock E n) in *.
  apply lwp_try. eapply lwp_lock; [exact H1|done| |].
  { intros T l' Hf Ho. case_decide; [done|]. eapply settles_now; [exact Ho|]. by apply Hother. }
  intros ties T q HT. simpl. destruct (t_events T !! eventID) as [e|] eqn:He; simpl.
  2: { intros l' Ho. eapply settles_now; [exact Ho|]. left. unfold book_spec. by rewrite He. }
  split_and!; [done|by eexists|]. intros l2 H2.
  (* what is known of the event holds as long as it is locked *)
  assert (forall r l', holds l' eventID start [] T ->
    (forall Tn, t_events Tn !! eventID = Some e -> slice_eq eventID T Tn ->
      book_spec Tn eventID userID = Err r) -> settles post (Err r) l') as Hrefuse.
  { intros r l' Hh Hr. unfold settles. rewrite (h_effect _ _ _ _ _ Hh). intros Tn HTn Hrn.
    destruct (holds_rely _ _ _ _ _ _ Hh Hrn) as [_ Hsn]. left.
    rewrite (Hr Tn); [done|by rewrite (sl_event _ _ _ Hsn)|done]. }
  lwp_step H2 ltac:(by apply Hother). intros T2 q2 _ _ Hs2. simpl.
  rewrite (booking_exists_slice _ _ _ _ Hs2). intros l3 H3 _.
  destruct (booking_exists eventID userID T) eqn:Hex.
  { apply lwp_ret, Hrefuse; [done|]. intros Tn Hen Hsn. unfold book_spec.
    by rewrite Hen, (booking_exists_slice _ _ _ _ Hsn), Hex. }
  case_decide as Hst.
  { apply lwp_ret, Hrefuse; [done|]. intros Tn Hen Hsn. unfold book_spec.
    by rewrite Hen, (booking_exists_slice _ _ _ _ Hsn), Hex, decide_True. }
  lwp_step H3 ltac:(by apply Hother). intros T3 q3 _ _ Hs3. simpl.
  rewrite (sl_bookings _ _ _ Hs3). intros l4 H4 _.
  case_decide as Hfull.
  { apply lwp_ret, Hrefuse; [done|]. intros Tn Hen Hsn. unfold book_spec.
    rewrite Hen, (booking_exists_slice _ _ _ _ Hsn), Hex, decide_False by tauto.
    by rewrite (sl_bookings _ _ _ Hsn), decide_True. }
  eapply book_insert_lwp; eauto. intros Tn Hsn. unfold book_spec.
  rewrite (sl_event _ _ _ Hsn), He, (booking_exists_slice _ _ _ _ Hsn), Hex, decide_False by tauto.
  by rewrite (sl_bookings _ _ _ Hsn), decide_False.
Qed.

(** ** Booking under the gate and the Redis lock *)

Definition acquire_answer (E : env) (r : result booking_error unit) : Prop :=
  r = Ok tt \/ r = Err ErrEventBusy \/
  faulty E /\ r = Err (Booking.Other "redis lock acquisition failed").

(** The retry loop ends in time whatever happens to the keys of Redis. *)
Lemma acquire_loop_lwp lockTTL E fuel key token backoff l :
  outside l None -> (2 * Millisecond <= backoff)%Z ->
  (w_budget (l_world l) < w_waited (l_world l) + (Z.of_nat fuel - 1) * Millisecond)%Z -> 0 < fuel ->
  lwp E (acquire_loop lockTTL fuel key token backoff) l
    (fun r l' => outside l' None /\ acquire_answer E r).
Proof.
  revert backoff l. induction fuel as [|fuel IH]; intros backoff l Hl Hb Hfuel Hpos; [lia|].
  cbn [acquire_loop]. apply lwp_bind. eapply lwp_quiet; [done|exact Hl|]. intros T q r out l1 Hw1 Hl1.
  assert (match out.1 with None => faulty E | _ => True end /\
          w_budget out.2 = w_budget (l_world l) /\ w_waited out.2 = w_waited (l_world l)) as (Hout & HB & HW).
  { subst out. unfold exec_cmd, exec_setnx. cbn [w_step refresh set_redis set_db w_redis].
    destruct (redis_setnx _ _ _ _ _).
    destruct (env_fault E _) eqn:Hft; simpl; split_and!; eauto using faulty_at. }
  rewrite <- Hw1 in HB, HW. destruct out.1 as [[|]|].
  - apply lwp_ret. unfold acquire_answer. auto.
  - apply lwp_bind. eapply lwp_quiet; [done|exact Hl1|]. intros T2 q2 r2 out2 l2 Hw2 Hl2.
    apply lwp_bind. eapply lwp_quiet; [done|exact Hl2|]. intros T3 q3 r3 out3 l3 Hw3 Hl3.
    set (d := (backoff `quot` 2 + out2.1)%Z) in *.
    assert (Millisecond <= d)%Z as Hd.
    { subst d out2. simpl. unfold Millisecond in *.
      pose proof (Z.mod_pos_bound (env_int63 E (w_step (l_world l1))) backoff).
      assert (1000000 <= backoff `quot` 2)%Z; [|lia]. apply Z.quot_le_lower_bound; lia. }
    assert (out3.1 = true \/ (w_waited (l_world l) < w_budget (l_world l))%Z /\ out3.1 = false /\
      w_budget out3.2 = w_budget (l_world l) /\ w_waited out3.2 = (w_waited (l_world l) + d)%Z)
      as [->|(Hlt & -> & HB3 & HW3)].
    { subst out3. unfold exec_cmd, exec_wait. cbn [refresh set_redis set_db w_budget w_waited w_step].
      rewrite Hw2. subst out2. unfold exec_cmd. simpl. rewrite HB, HW. case_decide; [by left|].
      destruct (env_timeout E _); [by left|right]. simpl. split_and!; [lia|done..]. }
    + apply lwp_ret. unfold acquire_answer. auto.
    + apply IH; rewrite ?Hw3, ?HB3, ?HW3; [done|case_decide; lia|unfold Millisecond in *; lia..].
  - apply lwp_ret. unfold acquire_answer. auto.
Qed.

Lemma acquireRedisLock_lwp lockTTL lockWait E key token l :
  outside l None -> w_budget (l_world l) = service_lockWait lockWait -> w_waited (l_world l) = 0%Z ->
  lwp E (acquireRedisLock lockTTL lockWait key token) l
    (fun r l' => outside l' None /\ acquire_answer E r).
Proof.
  intros Hl Hb Hw. apply acquire_loop_lwp; [done..|rewrite Hb, Hw|unfold acquire_fuel; lia].
  apply acquire_fuel_enough.
Qed.

(** Identifiers that pass the check; the answers that look at no table. *)
Lemma locked_post_none E eventID userID r T :
  ~ (eventID <= 0 \/ userID <= 0)%Z ->
  r = Err ErrEventBusy \/ r = Err (Booking.Other "generating lock token") \/
    faulty E /\ r = Err (Booking.Other "redis lock acquisition failed") ->
  locked_post (faulty E) T eventID userID r T.
Proof. intros Hgood Hr. unfold locked_post. rewrite decide_False by done. by left. Qed.

Lemma book_in_gate_lwp lockTTL lockWait E l eventID userID :
  ~ (eventID <= 0 \/ userID <= 0)%Z ->
  outside l None -> w_budget (l_world l) = service_lockWait lockWait -> w_waited (l_world l) = 0%Z ->
  lwp E (book_in_gate lockTTL lockWait eventID userID) l
    (concluded (fun r T T' _ => locked_post (faulty E) T eventID userID r T')).
Proof.
  intros Hgood Hl HB HW. apply lwp_bind. unfold newToken. apply lwp_bind. eapply lwp_quiet; [done|exact Hl|].
  intros T3 q3 r3 out3 l3 Hw3 Hl3.
  assert (w_budget (l_world l3) = service_lockWait lockWait /\ w_waited (l_world l3) = 0%Z) as [HB3 HW3]
    by (rewrite Hw3; done).
  destruct out3.1 as [bytes|]; apply lwp_ret; [set (token := hex_encode bytes)|].
  2: { apply lwp_ret. exists None. split; [done|]. intros T. apply locked_post_none; auto. }
  apply lwp_try. eapply lwp_mono; [by apply acquireRedisLock_lwp|].
  intros r l4 [Hl4 Hr]. destruct r as [[]|e].
  2: { exists None. split; [done|]. intros T. apply locked_post_none; [done|].
       destruct Hr as [?|[?|[? ?]]]; auto. done. }
  apply lwp_bind. eapply lwp_mono; [by apply createBooking_lwp|].
  intros r5 l5 (e & Hl5 & seen & Hseen & Hpost). apply lwp_bind. eapply lwp_quiet; [done|exact Hl5|].
  intros T6 q6 r6 out6 l6 _ Hl6. apply lwp_ret. apply (concluded_ext _ _ (Some e) T6); [done|].
  exists seen. split; [done|]. unfold locked_post. rewrite decide_False by done. by right.
Qed.

Lemma BookWithLock_lwp lockTTL lockWait E l eventID userID :
  outside l None ->
  lwp E (BookWithLock lockTTL lockWait eventID userID) l
    (concluded (fun r T T' _ => locked_post (faulty E) T eventID userID r T')).
Proof.
  intros Hl. unfold BookWithLock.
  destruct (decide (eventID <= 0 \/ userID <= 0)%Z) as [Hbad|Hgood].
  { apply lwp_ret. exists None. split; [done|]. intros T. unfold locked_post.
    by rewrite decide_True. }
  apply lwp_bind. eapply lwp_quiet; [done|exact Hl|]. intros T1 q1 r1 out1 l1 Hw1 Hl1.
  apply lwp_bind. eapply lwp_quiet; [done|exact Hl1|]. intros T2 q2 r2 out2 l2 Hw2 Hl2.
  assert (w_budget (l_world l2) = service_lockWait lockWait /\ w_waited (l_world l2) = 0%Z) as [HB HW].
  { rewrite Hw2. subst out2. unfold exec_cmd. cbn [refresh set_redis set_db].
    rewrite Hw1. by destruct (env_timeout E _). }
  destruct out2.1; cbn [negb].
  2: { apply lwp_ret. exists None. split; [done|]. intros T. apply locked_post_none; auto. }
  apply lwp_bind. eapply lwp_mono; [by apply book_in_gate_lwp|].
  intros r l3 (o & Hl3 & Hpost). apply lwp_bind. eapply lwp_quiet; [done|exact Hl3|].
  intros T4 q4 r4 out4 l4 _ Hl4. apply lwp_ret. by eapply concluded_ext.
Qed.

(** ** Closing and cancelling *)

(** The answer and the tables around the step at which [Close] or [Cancel]
    took effect: as in [move_post], except that the event in the answer is
    read after the commit, at a later step of the request, from tables that
    may have grown since. *)
Definition moved_post (mv : EventStatus -> move) (faults : Prop) (id : Z)
    (r : result event_error Event) (T T' : Tables) (late : list Tables) : Prop :=
  match t_events T !! id with
  | None => T' = T /\ (r = Err Events.ErrEventNotFound \/ faults /\ exists c, r = Err (Events.Other c))
  | Some e =>
      (r = Err (ErrInvalidTransition (ev_status e)) /\ mv (ev_status e) = Refuse /\ T' = T) \/
      ((exists T2, T2 ∈ late /\ grows T' T2 /\ r = read_event T2 id) /\ moved T T' id (mv (ev_status e))) \/
      (faults /\ (exists c, r = Err (Events.Other c)) /\
         (T' = T \/ moved T T' id (mv (ev_status e))))
  end.

Lemma moved_post_fault mv E id c T : faulty E -> moved_post mv (faulty E) id (Err (Events.Other c)) T T [].
Proof. intros Hf. unfold moved_post. case_match; eauto 8. Qed.

Lemma moved_frame mv T T' id e :
  legal_move mv -> t_events T !! id = Some e -> moved T T' id (mv (ev_status e)) ->
  frame [(id, ForUpdate)] T T'.
Proof.
  intros Hl He Hm. pose proof (moved_grows mv T T' id e Hl He Hm) as Hg.
  destruct (mv (ev_status e)); simpl in Hm; [done|by subst|].
  destruct Hm as [now ->]. by apply frame_status.
Qed.

Lemma commit_read_lwp mv E l id start L Tl e :
  holds l id start L Tl -> t_events Tl !! id = Some e -> safe_move mv -> legal_move mv ->
  (forall T, moved T (apply_writes T L) id (mv (ev_status e))) ->
  lwp E (try _ := perform Commit catch _ => Events.Other "commit" in GetByID id) l
    (settles (moved_post mv (faulty E) id)).
Proof.
  intros Hh He Hsafe Hlegal Hm. apply lwp_try. eapply lwp_commit; [exact Hh|].
  intros T HT _ Hs. assert (t_events T !! id = Some e) as HeT by (by rewrite (sl_event _ _ _ Hs)).
  cbn zeta. split_and!; [by eapply moved_inv|by eapply moved_frame| |].
  2: { intros l' Hf (_ & _ & Ho). eapply settles_now; [exact Ho|]. by apply moved_post_fault. }
  intros l' Hl' Hlast. assert (forall c, faulty E ->
    moved_post mv (faulty E) id (Err (Events.Other c)) T (apply_writes T L) []) as Hfault.
  { intros c Hf. unfold moved_post. rewrite HeT. eauto 8. }
  split; [|intros Hf; destruct Hl' as (_ & _ & Ho); (eapply settles_now; [exact Ho|]); by apply Hfault].
  apply lwp_try. eapply lwp_pool; [exact Hl'|done|].
  intros T2 q2 r2 HT2 _ Hg2 out T2'. rewrite Hlast in Hg2.
  assert (T2' = T2 /\ (out.1 = match t_events T2 !! id with
      | Some e => Ok (event_with_count T2 e) | None => Err ErrNoRows end \/
      faulty E /\ out.1 = Err ErrDriver)) as [-> Hout].
  { subst T2' out. unfold exec_cmd, exec_in_pool. cbn.
    destruct (env_fault E _) eqn:Hft; simpl; split; eauto using faulty_at. }
  split_and!; [done|apply frame_refl|]. eexists. split; [constructor|].
  intros l2 _ _ (_ & _ & Ho). assert (forall r, r = read_event T2 id ->
    settles (moved_post mv (faulty E) id) r l2) as Hread.
  { intros r Hr. unfold settles. rewrite Ho. exists [T2]. split; [done|]. unfold moved_post. simpl.
    rewrite HeT. right. left. split; [|apply Hm]. exists T2. split; [set_solver|done]. }
  destruct Hout as [->|[Hf ->]].
  - destruct (t_events T2 !! id) as [e2|] eqn:He2; [apply lwp_ret|]; apply Hread;
      unfold read_event; by rewrite He2.
  - eapply settles_now; [exact Ho|]. by apply Hfault.
Qed.

(** The two transitions have one shape: lock the event, decide, commit and
    read the event back. *)
Definition transition (id : Z) (decide_ : EventStatus -> program (result event_error unit))
  : program (result event_error Event) :=
  with_tx (fun _ => Events.Other "begin tx") (
    try current := tx_exec (SelectStatusForUpdate id)
      catch err => if decide (err = ErrNoRows) then Events.ErrEventNotFound
                   else Events.Other "loading event" in
    try _ := decide_ current catch e => e in
    try _ := perform Commit catch _ => Events.Other "commit" in
    GetByID id).

Lemma transition_lwp mv E l id decide_ :
  outside l None -> safe_move mv -> legal_move mv ->
  (forall l1 start T e, holds l1 id start [] T -> t_events T !! id = Some e ->
     lwp E (decide_ (ev_status e)) l1 (fun r l' =>
       match r with
       | Ok _ => exists L, holds l' id start L T /\
                   forall T, moved T (apply_writes T L) id (mv (ev_status e))
       | Err err => settles (moved_post mv (faulty E) id) (Err err) l'
       end)) ->
  lwp E (transition id decide_) l (concluded (moved_post mv (faulty E) id)).
Proof.
  intros Hl Hsafe Hlegal Hdec.
  eapply lwp_mono; [eapply (lwp_with_tx E _ _ l (moved_post mv (faulty E) id)); [done|..]|].
  - intros T Hf. by apply moved_post_fault.
  - intros n l1 H1. apply lwp_try. eapply lwp_lock; [exact H1|done| |].
    { intros T l' Hf Ho. case_decide; [done|]. eapply settles_now; [exact Ho|]. by apply moved_post_fault. }
    intros ties T q HT. simpl. destruct (t_events T !! id) as [e|] eqn:He; simpl.
    2: { intros l' Ho. eapply settles_now; [exact Ho|]. unfold moved_post. rewrite He. auto. }
    split_and!; [done|by eexists|]. intros l2 H2. apply lwp_try.
    eapply lwp_mono; [by eapply Hdec|]. intros [[]|err] l3; simpl; [|done].
    intros (L & H3 & Hm). by eapply commit_read_lwp.
  - intros r l' (e & Hl' & Hp). by exists (Some e).
Qed.

(** A refusal or an update of the status under the lock. *)
Lemma refuse_lwp mv E l id start T e :
  holds l id start [] T -> t_events T !! id = Some e -> mv (ev_status e) = Refuse ->
  settles (moved_post mv (faulty E) id) (Err (ErrInvalidTransition (ev_status e))) l.
Proof.
  intros Hh He Hr. unfold settles. rewrite (h_effect _ _ _ _ _ Hh). intros Tn HTn Hrn.
  destruct (holds_rely _ _ _ _ _ _ Hh Hrn) as [_ Hsn]. unfold moved_post.
  rewrite (sl_event _ _ _ Hsn), He. by left.
Qed.

Lemma update_status_lwp mv E l id start T e st c :
  holds l id start [] T -> t_events T !! id = Some e -> safe_move mv ->
  mv (ev_status e) = MoveTo st ->
  lwp E (try _ := tx_exec (UpdateEventStatus id st) catch _ => Events.Other c in mret (Ok tt)) l
    (fun r l' => match r with
       | Ok _ => exists L, holds l' id start L T /\
                   forall T, moved T (apply_writes T L) id (mv (ev_status e))
       | Err err => settles (moved_post mv (faulty E) id) (Err err) l'
       end).
Proof.
  intros Hh He Hsafe Hm. destruct (Hsafe _ _ Hm) as [Hd _].
  lwp_step Hh ltac:(by apply moved_post_fault). intros T2 q2 _ _ Hs2. simpl.
  unfold update_event_status. rewrite (sl_event _ _ _ Hs2), He, bool_decide_false by tauto. simpl.
  intros l' Hl' _. apply lwp_ret. eexists. split; [exact Hl'|]. intros T0. rewrite Hm. by eexists.
Qed.

Lemma Close_lwp E l id :
  outside l None -> lwp E (Close id) l (concluded (moved_post close_move (faulty E) id)).
Proof.
  intros Hl.
  apply (transition_lwp close_move E l id (fun current => match current with
    | EventStatusOpen => try _ := tx_exec (UpdateEventStatus id EventStatusClosed)
                           catch _ => Events.Other "closing event" in mret (Ok tt)
    | EventStatusClosed => mret (Ok tt)
    | _ => mret (Err (ErrInvalidTransition current))
    end)); [done|apply close_move_safe|apply close_move_legal|].
  intros l1 start T e Hh He. destruct (ev_status e) eqn:Hst; rewrite <- Hst.
  - apply update_status_lwp; [done..|apply close_move_safe|by rewrite Hst].
  - apply lwp_ret. exists []. rewrite Hst. done.
  - apply lwp_ret. eapply refuse_lwp; eauto. by rewrite Hst.
  - apply lwp_ret. eapply refuse_lwp; eauto. by rewrite Hst.
Qed.

Lemma Cancel_lwp E l id :
  outside l None -> lwp E (Cancel id) l (concluded (moved_post cancel_move (faulty E) id)).
Proof.
  intros Hl.
  apply (transition_lwp cancel_move E l id (fun current => match current with
    | EventStatusOpen | EventStatusClosed =>
        try _ := tx_exec (UpdateEventStatus id EventStatusCancelled)
          catch _ => Events.Other "cancelling event" in mret (Ok tt)
    | EventStatusCancelled => mret (Ok tt)
    | _ => mret (Err (ErrInvalidTransition current))
    end)); [done|apply cancel_move_safe|apply cancel_move_legal|].
  intros l1 start T e Hh He. destruct (ev_status e) eqn:Hst; rewrite <- Hst.
  - apply update_status_lwp; [done..|apply cancel_move_safe|by rewrite Hst].
  - apply update_status_lwp; [done..|apply cancel_move_safe|by rewrite Hst].
  - apply lwp_ret. eapply refuse_lwp; eauto. by rewrite Hst.
  - apply lwp_ret. exists []. rewrite Hst. done.
Qed.

(** ** Drawing *)

(** The answer and the tables around the step at which a draw took effect:
    as in [draw_post], at a time of the database's clock and stamped with a
    time of the server's; but the keys of the audit rows, which the sequence
    hands out one by one, may have gaps where other sessions used it. *)
Definition drawing_post {R} `{RandSource R} (E : env) (rand : R) (id : Z)
    (r : result draw_error DrawResult) (T T' : Tables) : Prop :=
  (faulty E /\ Draw.is_other r /\ T' = T) \/
  exists n, let now := env_dbclock E n in
  match draw_refusal T id now with
  | Some err => r = Err err /\ T' = T
  | None =>
    exists e, t_events T !! id = Some e /\
    match SelectWinners (participants_of T id) (ev_winner_count e) rand with
    | Err _ => r = Err (Draw.Other "lottery selection") /\ T' = T
    | Ok (winners, waitlist, _) => exists n' rows,
      let drawnAt := Truncate (env_clock E n') Microsecond in
      audit_of id (Z.of_nat (length (participants_of T id))) drawnAt 1 (winners ++ waitlist) rows /\
      T' = drawn_tables T id (ev_winner_count e) drawnAt (pg_time now) rows /\
      (r = Ok (drawn_result e id drawnAt (length winners) rows) \/
       faulty E /\ r = Err (Draw.Other "commit draw tx"))
    end
  end.

Lemma participants_slice id T T' : slice_eq id T T' -> participants_of T' id = participants_of T id.
Proof. intros Hs. unfold participants_of. by rewrite (sl_bookings _ _ _ Hs). Qed.

Lemma refusal_slice id T T' now : slice_eq id T T' -> draw_refusal T' id now = draw_refusal T id now.
Proof. intros Hs. unfold draw_refusal. by rewrite (sl_event _ _ _ Hs), (sl_bookings _ _ _ Hs). Qed.

Lemma audit_of_nil id total drawnAt rank : audit_of id total drawnAt rank [] [].
Proof. by split. Qed.

Lemma audit_of_cons id total drawnAt rank u us k rows :
  audit_of id total drawnAt (rank + 1) us rows ->
  audit_of id total drawnAt rank (u :: us) (mkDraw k id u rank entropySource total drawnAt :: rows).
Proof.
  intros [H1 H2 H3]. split; [by rewrite fmap_cons, H1| |by constructor].
  rewrite fmap_cons, H2. change (length (u :: us)) with (S (length us)).
  rewrite Nat2Z.inj_succ, (seqZ_cons rank) by lia. simpl. rewrite Z.pred_succ.
  by replace (Z.succ rank) with (rank + 1)%Z by lia.
Qed.

Lemma audit_of_app id total drawnAt rank us vs rows rows' :
  audit_of id total drawnAt rank us rows ->
  audit_of id total drawnAt (Z.of_nat (length us) + rank) vs rows' ->
  audit_of id total drawnAt rank (us ++ vs) (rows ++ rows').
Proof.
  intros [A1 A2 A3] [B1 B2 B3]. split.
  - by rewrite fmap_app, A1, B1.
  - rewrite fmap_app, A2, B2, length_app, Nat2Z.inj_add, seqZ_app by lia. do 2 f_equal. lia.
  - by apply Forall_app.
Qed.

(** That rows can be inserted is known of the locked event alone. *)
Lemma insertable_slice Tl T id total drawnAt rank us rows :
  slice_eq id Tl T -> grows Tl T ->
  insertable_ranks (apply_writes Tl (WDraw <$> rows)) id total drawnAt rank us ->
  insertable_ranks (apply_writes T (WDraw <$> rows)) id total drawnAt rank us.
Proof.
  intros Hs Hg. rewrite !apply_draws. intros [He Hu Hf Hr Ht Hp]. simpl in *.
  split; simpl; try done.
  - by rewrite (sl_event _ _ _ Hs).
  - eapply Forall_impl; [exact Hu|]. intros u [v Hv].
    destruct (g_users _ _ Hg u v Hv) as (v' & Hv' & _). by eexists.
  - rewrite Forall_app in *. split; [|tauto]. destruct Hf as [Hf _].
    rewrite Forall_forall in *. intros d Hd Hid. apply Hf; [|done].
    assert (d ∈ draws_of id T) as Hin by (by apply elem_of_draws_of).
    rewrite (sl_draws _ _ _ Hs) in Hin. by apply elem_of_draws_of in Hin as [_ ?].
Qed.

Lemma insert_loop_lwp E context id total drawnAt start Tl us rank acc rows0 l
    (Q : result draw_error (list LotteryDraw) -> local -> Prop) :
  holds l id start (WDraw <$> rows0) Tl ->
  insertable_ranks (apply_writes Tl (WDraw <$> rows0)) id total drawnAt rank us ->
  (forall T l', faulty E -> l_effect l' = Some (T, T, []) -> Q (Err (Draw.Other context)) l') ->
  (forall rows l', audit_of id total drawnAt rank us rows ->
     holds l' id start (WDraw <$> (rows0 ++ rows)) Tl -> Q (Ok (acc ++ rows)) l') ->
  lwp E (insert_loop context id total drawnAt rank us acc) l Q.
Proof.
  intros Hh Hir Hf. revert rank acc rows0 l Hh Hir.
  induction us as [|u us IH]; intros rank acc rows0 l Hh Hir Hok.
  { apply lwp_ret. specialize (Hok [] l). rewrite !app_nil_r in Hok. apply Hok; [|done].
    apply audit_of_nil. }
  cbn [insert_loop]. apply lwp_try. eapply lwp_stmt; [exact Hh|done|by eauto|].
  intros ties T q HT Hg Hs. cbn [exec_stmt].
  pose proof (insertable_slice _ _ _ _ _ _ _ _ Hs Hg Hir) as HirT.
  apply (insert_draw_ok _ q) in HirT as [-> _]. apply (insert_draw_ok _ q) in Hir as [_ Hir].
  set (d := mkDraw _ _ _ _ _ _ _) in *.
  replace ((WDraw <$> rows0) ++ [WDraw d]) with (WDraw <$> (rows0 ++ [d])) by (by rewrite fmap_app).
  intros l' Hl' _. apply (IH _ _ (rows0 ++ [d])); [done| |].
  - by rewrite fmap_app, apply_writes_app.
  - intros rows l2 Hao Hl2. rewrite <- !app_assoc in *. apply Hok; [|done]. by apply audit_of_cons.
Qed.

Section Drawing.
Context {R : Type} `{RandSource R}.

Lemma drawing_post_fault E (rand : R) id c T :
  faulty E -> drawing_post E rand id (Err (Draw.Other c)) T T.
Proof. intros Hf. left. by simpl. Qed.

(** The end of a draw: seal, mark, commit. *)
Lemma seal_draw_lwp E (rand : R) l id n n' Tl e rows winners waitlist rand' :
  let start := env_dbclock E n in let drawnAt := Truncate (env_clock E n') Microsecond in
  holds l id start (WDraw <$> rows) Tl -> tables_inv Tl ->
  t_events Tl !! id = Some e -> draw_refusal Tl id start = None ->
  SelectWinners (participants_of Tl id) (ev_winner_count e) rand = Ok (winners, waitlist, rand') ->
  audit_of id (Z.of_nat (length (participants_of Tl id))) drawnAt 1 (winners ++ waitlist) rows ->
  lwp E (seal_draw id (ev_title e) (ev_winner_count e) (Z.of_nat (length rows)) drawnAt
           (take (length winners) rows) (drop (length winners) rows)) l
    (settles (fun r T T' _ => drawing_post E rand id r T T')).
Proof.
  intros start drawnAt Hh HTl He Href Hsel Hao.
  assert (pg_time drawnAt = drawnAt) as Htime by apply pg_time_truncate.
  destruct (draw_refusal_None _ _ _ Href) as (e' & He' & Hst & _).
  rewrite He in He'. injection He' as <-.
  destruct (undrawn_draws Tl id e HTl He) as [_ Hns]; [congruence|].
  unfold seal_draw. rewrite take_drop. cbn zeta.
  lwp_step Hh ltac:(by apply drawing_post_fault). intros T1 q1 _ _ Hs1. cbn [exec_stmt].
  rewrite apply_draws. unfold insert_seal. simpl.
  rewrite (sl_seal _ _ _ Hs1), Hns, (sl_event _ _ _ Hs1), He, Htime. intros l1 H1 _.
  lwp_step H1 ltac:(by apply drawing_post_fault). intros T2 q2 _ _ Hs2. cbn [exec_stmt].
  rewrite apply_writes_app, apply_draws. unfold update_event_status. simpl.
  rewrite (sl_event _ _ _ Hs2), He, bool_decide_false by naive_solver. intros l2 H2 _.
  rewrite <- app_assoc in H2. apply lwp_try. eapply lwp_commit; [exact H2|].
  intros T HT _ Hs. assert (t_events T !! id = Some e) as HeT by (by rewrite (sl_event _ _ _ Hs)).
  pose proof (participants_slice _ _ _ Hs) as Hpart.
  pose proof (SelectWinners_ok _ _ _ _ _ _ Hsel) as (_ & _ & Hperm & _).
  rewrite <- Hpart in Hao, Hperm, Hsel.
  assert (forall r, (r = Ok (drawn_result e id drawnAt (length winners) rows) \/
       faulty E /\ r = Err (Draw.Other "commit draw tx")) ->
    drawing_post E rand id r T
      (drawn_tables T id (ev_winner_count e) drawnAt (pg_time start) rows)) as Hpost.
  { intros r Hr. right. exists n. cbn zeta. rewrite (refusal_slice _ _ _ _ Hs). fold start.
    rewrite Href. exists e. split; [done|]. rewrite Hsel. exists n', rows. done. }
  cbn zeta. split_and!.
  - by eapply drawn_tables_inv.
  - apply frame_drawn; [by eapply audit_of_ids|by eapply drawn_tables_grows].
  - intros l' (_ & _ & Ho) _. split; [apply lwp_ret|intros Hf]; (eapply settles_now; [exact Ho|]);
      apply Hpost; auto.
  - intros l' Hf (_ & _ & Ho). eapply settles_now; [exact Ho|]. by apply drawing_post_fault.
Qed.

Lemma record_draw_lwp E (rand : R) l id n Tl e winners waitlist rand' :
  let start := env_dbclock E n in
  holds l id start [] Tl -> tables_inv Tl ->
  t_events Tl !! id = Some e -> draw_refusal Tl id start = None ->
  SelectWinners (participants_of Tl id) (ev_winner_count e) rand = Ok (winners, waitlist, rand') ->
  lwp E (record_draw id (ev_title e) (ev_winner_count e)
           (Z.of_nat (length (participants_of Tl id))) winners waitlist) l
    (settles (fun r T T' _ => drawing_post E rand id r T T')).
Proof.
  intros start Hh HTl He Href Hsel.
  destruct (draw_refusal_None _ _ _ Href) as (e' & He' & Hst & _).
  rewrite He in He'. injection He' as <-.
  pose proof (SelectWinners_ok _ _ _ _ _ _ Hsel) as (_ & _ & Hperm & _).
  unfold record_draw. apply lwp_bind. eapply lwp_now; [exact Hh|]. intros l1 H1.
  set (n' := w_step (l_world l)) in *. set (clock := env_clock E n') in *.
  pose proof (draw_insertable Tl id e _ clock HTl He Hst Hperm) as Hir.
  set (drawnAt := Truncate clock Microsecond) in *.
  set (total := Z.of_nat (length (participants_of Tl id))) in *. cbn zeta.
  assert (Forall (fun u => is_Some (t_users Tl !! u)) winners /\
          Forall (fun u => is_Some (t_users Tl !! u)) waitlist) as [Hw Hwl]
    by apply Forall_app, (ir_users _ _ _ _ _ _ Hir).
  pose proof (ir_total _ _ _ _ _ _ Hir) as Htot. rewrite length_app in Htot.
  assert (forall c T l', faulty E -> l_effect l' = Some (T, T, []) ->
    settles (fun r T T' _ => drawing_post E rand id r T T') (Err (Draw.Other c)) l') as Hfail.
  { intros c T l' Hf Ho. eapply settles_now; [exact Ho|]. by apply drawing_post_fault. }
  apply lwp_try. eapply (insert_loop_lwp _ _ _ _ _ _ _ _ _ _ []); [exact H1| |by eauto|].
  { destruct Hir. split; try done. lia. }
  intros rows1 l2 Ha1 H2. rewrite app_nil_l in *.
  apply lwp_try. eapply insert_loop_lwp; [exact H2| |by eauto|].
  { rewrite apply_draws. destruct Hir. split; simpl; try done; try lia.
    apply Forall_app. split; [eapply Forall_impl; [exact ir_free|]; simpl; lia|].
    apply Forall_forall. intros d Hd _.
    assert (draw_DrawRank d ∈ seqZ 1 (Z.of_nat (length winners))) as Hr%elem_of_seqZ; [|lia].
    rewrite <- (ao_ranks _ _ _ _ _ _ Ha1). by apply list_elem_of_fmap_2. }
  intros rows2 l3 Ha2 H3. rewrite app_nil_l.
  pose proof (audit_of_app _ _ _ _ _ _ _ _ Ha1 Ha2) as Ha.
  pose proof (audit_of_length _ _ _ _ _ _ Ha1) as Hl1.
  pose proof (audit_of_length _ _ _ _ _ _ Ha) as Hl.
  replace rows1 with (take (length winners) (rows1 ++ rows2)) at 1
    by (rewrite <- Hl1; apply take_app_length).
  replace rows2 with (drop (length winners) (rows1 ++ rows2)) at 2
    by (rewrite <- Hl1; apply drop_app_length).
  replace total with (Z.of_nat (length (rows1 ++ rows2)))
    by (subst total; rewrite Hl, (Permutation_length Hperm); done).
  eapply seal_draw_lwp; eauto.
Qed.

Lemma RunDraw_lwp E (rand : R) l id :
  outside l None -> lwp E (RunDraw rand id) l (concluded (fun r T T' _ => drawing_post E rand id r T T')).
Proof.
  intros Hl. eapply lwp_mono;
    [eapply (lwp_with_tx E _ _ l (fun r T T' _ => drawing_post E rand id r T T')); [done|..]|].
  { intros T Hf. by apply drawing_post_fault. }
  2: { intros r l' (e & Hl' & Hp). by exists (Some e). }
  intros n l1 H1. set (start := env_dbclock E n) in *. apply lwp_try. eapply lwp_lock; [exact H1|done| |].
  { intros T l' Hf Ho. case_decide; [done|]. eapply settles_now; [exact Ho|]. by apply drawing_post_fault. }
  intros ties T q HT. simpl. destruct (t_events T !! id) as [e|] eqn:He; simpl.
  2: { intros l' Ho. eapply settles_now; [exact Ho|]. right. exists n.
       unfold draw_refusal. by rewrite He. }
  split_and!; [done|by eexists|]. intros l2 H2.
  assert (forall r l', holds l' id start [] T -> draw_refusal T id start = Some r ->
    settles (fun r T T' _ => drawing_post E rand id r T T') (Err r) l') as Hrefuse.
  { intros r l' Hh Hr. unfold settles. rewrite (h_effect _ _ _ _ _ Hh). intros Tn HTn Hrn.
    destruct (holds_rely _ _ _ _ _ _ Hh Hrn) as [_ Hsn]. right. exists n.
    cbn zeta. fold start. by rewrite (refusal_slice _ _ _ _ Hsn), Hr. }
  assert (draw_refusal T id start = draw_refusal T id start) as Href by done.
  unfold draw_refusal in Href at 2. rewrite He in Href.
  destruct (ev_status e) eqn:Hst; try (apply lwp_ret; by apply Hrefuse).
  case_bool_decide as Hdue; cbn [negb].
  2: { apply lwp_ret, Hrefuse; [done|]. rewrite Href. by rewrite decide_True by lia. }
  rewrite decide_False in Href by lia.
  lwp_step H2 ltac:(by apply drawing_post_fault). intros T2 q2 _ _ Hs2. cbn [exec_stmt].
  change (booking_UserID <$> order_asc booking_BookedAt (bookings_of id (apply_writes T2 [])))
    with (participants_of T2 id). rewrite (participants_slice _ _ _ Hs2). intros l3 H3 _.
  destruct (decide (length (participants_of T id) = 0)) as [Hempty|Hempty].
  { apply lwp_ret, Hrefuse; [done|]. rewrite Href. rewrite decide_True; [done|].
    apply nil_length_inv. by rewrite <- length_participants. }
  rewrite decide_False in Href
    by (intros Hb; apply Hempty; by rewrite length_participants, Hb).
  destruct (SelectWinners _ _ rand) as [[[winners waitlist] rand']|er] eqn:Hsel.
  - by eapply record_draw_lwp.
  - apply lwp_ret. unfold settles. rewrite (h_effect _ _ _ _ _ H3). intros Tn HTn Hrn.
    destruct (holds_rely _ _ _ _ _ _ H3 Hrn) as [_ Hsn]. right. exists n. cbn zeta.
    fold start. rewrite (refusal_slice _ _ _ _ Hsn), Href. exists e.
    by rewrite (sl_event _ _ _ Hsn), He, (participants_slice _ _ _ Hsn), Hsel.
Qed.
End Drawing.

(** ** Requests of one statement *)

(** A program that at most reads the clock. *)
Inductive clock_only {A} : program A -> Prop :=
| clock_ret a : clock_only (Ret a)
| clock_now k : (forall x, clock_only (k x)) -> clock_only (Act TimeNow k).

(** At most the clock before and after a statement of its own transaction. *)
Inductive one_shot {A} : program A -> Prop :=
| one_shot_ret a : one_shot (Ret a)
| one_shot_now k : (forall x, one_shot (k x)) -> one_shot (Act TimeNow k)
| one_shot_pool {X} (s : stmt X) k :
    stmt_lock s = None -> (forall x, clock_only (k x)) -> one_shot (Act (PoolExec s) k).

(** Prove [clock_only] and [one_shot] by following the program text. *)
Ltac clock_tac :=
  repeat (simpl; intros; first [ apply clock_ret | apply clock_now | progress (repeat case_match) ]).

Ltac one_shot_tac :=
  repeat case_match; first
    [ apply one_shot_ret | apply one_shot_pool; [done|intros []; clock_tac] ].

(** Its answer depends on the step it starts at, and it changes nothing. *)
Lemma clock_only_run {A} E (p : program A) w w' :
  clock_only p -> w_step w = w_step w' ->
  (run E p w).1 = (run E p w').1 /\ w_tables (run E p w).2 = w_tables w.
Proof.
  intros Hp. revert w w'. induction Hp as [a|k _ IH]; intros w w' Hw; [done|]. simpl. rewrite Hw.
  destruct (IH (env_clock E (w_step w')) (tick w) (tick w')) as [-> ->]; [simpl; by rewrite Hw|done].
Qed.

(** The clock, read outside a transaction. *)
Lemma lwp_clock {A} E (k : Z -> program A) l o Q :
  outside l o ->
  (forall l' T, w_step (l_world l') = S (w_step (l_world l)) -> outside l' (ext o T) ->
     lwp E (k (env_clock E (w_step (l_world l)))) l' Q) ->
  lwp E (Act TimeNow k) l Q.
Proof.
  intros (Htx & Hh & Ho) HQ. split; [done|]. intros T q r HT _ Hr.
  split_and!; [done|apply frame_refl|]. exists (ext (l_effect l) T). split; [apply effect_ext|].
  apply (HQ _ T); [done|]. rewrite Ho. split_and!; simpl; [done| |done].
  unfold locks_after, live. simpl. by rewrite Htx.
Qed.

Lemma clock_only_lwp {A} E (p : program A) l e (post : A -> Tables -> Tables -> list Tables -> Prop) :
  clock_only p -> outside l (Some e) -> took post (run E p (l_world l)).1 e ->
  lwp E p l (concluded post).
Proof.
  intros Hp. revert l e. induction Hp as [a|k Hk IH]; intros l e Hl Hpost.
  { by exists (Some e). }
  eapply lwp_clock; [exact Hl|]. intros l' T Hw Hl'. eapply IH; [exact Hl'|].
  apply took_after. simpl in Hpost.
  destruct (clock_only_run E (k (env_clock E (w_step (l_world l)))) (l_world l') (tick (l_world l)))
    as [-> _]; [apply Hk|by rewrite Hw|done].
Qed.

(** Such a request behaves as it does alone. *)
Lemma one_shot_lwp {A} E (p : program A) l (post : A -> Tables -> Tables -> list Tables -> Prop) :
  one_shot p -> outside l None ->
  (forall w, let out := run E p w in
     post out.1 (w_tables w) (w_tables out.2) [] /\
     (tables_inv (w_tables w) -> seqs_inv (w_tables w) (w_seqs w) ->
      tables_inv (w_tables out.2) /\ frame [] (w_tables w) (w_tables out.2))) ->
  lwp E p l (concluded post).
Proof.
  intros Hp Hl Hrun.
  enough (forall l, outside l None -> (forall T q r, let w := refresh T q r (l_world l) in
     let out := run E p w in post out.1 (w_tables w) (w_tables out.2) [] /\
     (tables_inv (w_tables w) -> seqs_inv (w_tables w) (w_seqs w) ->
      tables_inv (w_tables out.2) /\ frame [] (w_tables w) (w_tables out.2))) ->
    lwp E p l (concluded post)) as H by (apply H; [done|intros T q r; apply Hrun]).
  clear l Hl Hrun. induction Hp as [a|k _ IH|X s k Hs Hk]; intros l Hl Hrun.
  - exists None. split; [done|]. intros T. apply (Hrun T initial_seqs ∅).
  - split; [done|]. intros T q r HT _ Hr. split_and!; [done|apply frame_refl|].
    exists None. destruct Hl as (Htx & Hh & Ho). rewrite Ho. split; [constructor|]. apply IH.
    + split_and!; simpl; [done| |done]. unfold locks_after, live. simpl. by rewrite Htx.
    + intros T2 q2 r2. apply (Hrun T2 q2 r2).
  - change (lwp E (pool_exec s ≫= k) l (concluded post)). apply lwp_bind.
    eapply lwp_pool; [exact Hl|done|]. intros T q r HT Hq _ out T'.
    destruct (Hrun T q r) as [Hpost Hinv]. cbn [run] in Hpost, Hinv. fold out in Hpost, Hinv.
    rewrite (surjective_pairing out) in Hpost, Hinv.
    destruct (clock_only_run E (k out.1) out.2 out.2 (Hk out.1) eq_refl) as [_ Htab].
    rewrite Htab in Hpost, Hinv. destruct (Hinv HT Hq) as [Hi Hf]. simpl in *.
    split_and!; [done..|]. eexists. split; [constructor|]. intros l' Hw' _ Hl'.
    eapply clock_only_lwp; [apply Hk|exact Hl'|]. rewrite Hw'. by apply took_now.
Qed.

(** A request of one read: its answer is about the tables at its step. *)
Lemma one_read_lwp {A} E (p : program A) l (Q : A -> Tables -> Prop) :
  one_shot p -> outside l None ->
  (forall w, wp E p (fun r w' => w_tables w' = w_tables w /\ Q r (w_tables w)) w) ->
  lwp E p l (concluded (fun r T T' _ => T' = T /\ Q r T)).
Proof.
  intros Hp Hl Hw. apply one_shot_lwp; [done..|]. intros w out.
  destruct (Hw w) as [Ht HQ]. fold out in Ht, HQ. rewrite Ht. split; [done|].
  intros HT _. split; [done|apply frame_refl].
Qed.

(** A read among other steps: it changes nothing, and answers about the tables
    it finds, or the connection fails. *)
Lemma lwp_read {X} E (s : stmt X) l o Q :
  outside l o -> stmt_lock s = None -> (forall now t q, (exec_stmt now t q s).1.2 = []) ->
  (forall T q n l', tables_inv T -> grows (l_last l) T -> l_last l' = T ->
     outside l' (Some (match o with Some e => after e T | None => (T, T, []) end)) ->
     Q (exec_stmt (mkMoment (env_dbclock E n) (env_ties E n)) T q s).1.1 l' /\
     (faulty E -> Q (Err ErrDriver) l')) ->
  lwp E (pool_exec s) l Q.
Proof.
  intros Hl Hs Hw HQ. eapply lwp_pool; [exact Hl|done|]. intros T q r HT Hq Hg out T'.
  set (n := w_step (l_world l)).
  assert (T' = T /\ (out.1 = (exec_stmt (mkMoment (env_dbclock E n) (env_ties E n)) T q s).1.1 \/
    faulty E /\ out.1 = Err ErrDriver)) as [-> Hout].
  { subst T' out n. unfold exec_cmd, exec_in_pool. cbn [w_step refresh set_redis set_db w_tables w_seqs].
    pose proof (Hw (mkMoment (env_dbclock E (w_step (l_world l))) (env_ties E (w_step (l_world l)))) T q)
      as Hws.
    destruct (exec_stmt _ T q s) as [[x ws] q']. simpl in Hws. subst.
    destruct (env_fault E _) eqn:Hft; simpl; split; eauto using faulty_at. }
  split_and!; [done|apply frame_refl|].
  exists (Some (match o with Some e => after e T | None => (T, T, []) end)).
  split; [destruct o; constructor|]. intros l' _ Hlast Hl'.
  destruct (HQ T q n l' HT Hg Hlast Hl') as [H1 H2].
  destruct Hout as [->|[Hf ->]]; auto.
Qed.

(** A write to an account, or a new event, disturbs no event. *)
Definition harmless (T : Tables) (w : write) : Prop :=
  match w with
  | WUser _ | WUserRole _ _ _ => True
  | WEvent e => t_events T !! ev_id e = None
  | _ => False
  end.

Lemma frame_harmless T w : grows T (apply_write T w) -> harmless T w -> frame [] T (apply_write T w).
Proof.
  intros Hg Hw. split; [done|]. intros e [ev He] _. destruct w; try done.
  split; try done. simpl. simpl in Hw. rewrite lookup_insert_ne; [done|]. intros Heq. congruence.
Qed.

(** ** The server *)

Section Server.
Context `{UnicodeLower, Bcrypt, Mail, Signer} {R : Type} `{RandSource R}.
Variables (maxWinners lockTTL lockWait : Z) (jwtSecret : string) (jwtExpiry : Z).

Inductive answer :=
| AnsUser (r : result auth_error User)
| AnsLogin (r : result auth_error LoginResponse)
| AnsBootstrap (r : result auth_error unit)
| AnsEvent (r : result event_error Event)
| AnsList (r : result event_error (list Event * Z))
| AnsBook (r : result booking_error unit)
| AnsBookings (r : result booking_error (list Booking))
| AnsDraw (r : result draw_error DrawResult).

Definition answering {A} (f : A -> answer) (p : program A) : program answer := a ← p; mret (f a).

(** The program of each request. *)
Definition program_of (rq : request (R:=R)) : program answer :=
  match rq with
  | ReqRegister req => answering AnsUser (Register req)
  | ReqLogin req => answering AnsLogin (Login jwtSecret jwtExpiry req)
  | ReqMe id => answering AnsUser (Me id)
  | ReqPromote id => answering AnsUser (PromoteToAdmin id)
  | ReqBootstrap email password fullName => answering AnsBootstrap (BootstrapAdmin email password fullName)
  | ReqCreate req by_ => answering AnsEvent (Create maxWinners req by_)
  | ReqGetEvent id => answering AnsEvent (GetByID id)
  | ReqList status page limit => answering AnsList (List_ status page limit)
  | ReqClose id => answering AnsEvent (Close id)
  | ReqCancel id => answering AnsEvent (Cancel id)
  | ReqBook eid uid => answering AnsBook (BookWithLock lockTTL lockWait eid uid)
  | ReqBookingsOfEvent eid => answering AnsBookings (GetByEvent eid)
  | ReqBookingsOfUser uid => answering AnsBookings (UserBookings uid)
  | ReqDraw rand id => answering AnsDraw (RunDraw rand id)
  | ReqResults id => answering AnsDraw (GetResults id)
  end.

(** [List] takes effect at its first query; the total is counted by a second
    one, at a later step, when there may be more events. *)
Definition list_post (E : env) (status : string) (page limit : Z)
    (r : result event_error (list Event * Z)) (T : Tables) (late : list Tables) : Prop :=
  (faulty E /\ r = Err (Events.Other "querying events")) \/
  exists n, match list_page T (env_ties E n) status page limit with
  | Err e => r = Err e
  | Ok events =>
      (exists T2, T2 ∈ late /\ grows T T2 /\ r = Ok (events, list_total T2 status)) \/
      faulty E /\ r = Err (Events.Other "counting events")
  end.

(** [GetResults] takes effect when it reads the event; if the event is drawn,
    its audit rows and its seal are read at later steps.  They are final, so
    that the answer is the one the tables of the first step give. *)
Definition results_post (E : env) (id : Z) (r : result draw_error DrawResult) (T : Tables)
    (late : list Tables) : Prop :=
  (faulty E /\ Draw.is_other r) \/
  match t_events T !! id with
  | Some e =>
    if decide (ev_status e = EventStatusDrawn) then
      exists T2 T3, T2 ∈ late /\ T3 ∈ late /\ grows T T2 /\ grows T2 T3 /\
        r = Ok (verified_against T3 id (ev_winner_count e) (collect id (ev_title e)
              (ev_winner_count e) (order_asc draw_DrawRank (draws_of id T2)))) /\
        (draws_of id T <> [] -> r = results_of T id)
    else r = results_of T id
  | None => r = results_of T id
  end.

(** The seal of a drawn event is final. *)
Lemma verified_final T T' id e wc res :
  tables_inv T -> grows T T' -> t_events T !! id = Some e -> ev_status e = EventStatusDrawn ->
  verified_against T' id wc res = verified_against T id wc res.
Proof.
  intros HT Hg He Hst. destruct (inv_drawn T HT id e He Hst) as [_ _ (drawnAt & _ & Hs)].
  rewrite (inv_event_key T HT id e He) in Hs. unfold verified_against.
  by rewrite Hs, (lookup_weaken _ _ _ _ Hs (g_seals _ _ Hg)).
Qed.

(** What each request does at the step at which it takes effect, from the
    tables [T] to [T'], and what it answers: the specification of its
    sequential run on [T].  [late] are tables the request finds at later
    steps, which only [Close], [Cancel], [List] and [GetResults] look at. *)
Definition effect_of (E : env) (rq : request (R:=R)) (a : answer) (T T' : Tables)
    (late : list Tables) : Prop :=
  match rq, a with
  | ReqRegister req, AnsUser r => exists id, register_post (faulty E) T id req r T'
  | ReqPromote id, AnsUser r => promote_post (faulty E) T id r T'
  | ReqBootstrap email password fullName, AnsBootstrap r =>
      exists id, bootstrap_post (faulty E) T id email password fullName r T'
  | ReqCreate req by_, AnsEvent r => exists n id,
      create_post (faulty E) (validate_create maxWinners req (env_clock E n)) T id req by_ r T'
  | ReqClose id, AnsEvent r => moved_post close_move (faulty E) id r T T' late
  | ReqCancel id, AnsEvent r => moved_post cancel_move (faulty E) id r T T' late
  | ReqBook eid uid, AnsBook r => locked_post (faulty E) T eid uid r T'
  | ReqDraw rand id, AnsDraw r => drawing_post E rand id r T T'
  | ReqLogin req, AnsLogin r => T' = T /\
      ((exists n, r = login_spec jwtSecret jwtExpiry T req (env_clock E n)) \/
       faulty E /\ r = Err (Auth.Other "fetching user"))
  | ReqMe id, AnsUser r => T' = T /\
      (r = me_spec T id \/ faulty E /\ r = Err (Auth.Other "fetching user"))
  | ReqGetEvent id, AnsEvent r => T' = T /\
      (r = read_event T id \/ faulty E /\ r = Err (Events.Other "fetching event"))
  | ReqList status page limit, AnsList r => T' = T /\ list_post E status page limit r T late
  | ReqBookingsOfEvent eid, AnsBookings r => T' = T /\
      ((exists n, r = Ok (order_by booking_BookedAt (fun b => env_ties E n (booking_ID b))
                            (bookings_of eid T))) \/
       faulty E /\ r = Err (Booking.Other "querying bookings"))
  | ReqBookingsOfUser uid, AnsBookings r => T' = T /\
      ((exists n, r = Ok (order_by (fun b => - booking_BookedAt b)%Z (fun b => env_ties E n (booking_ID b))
                            (bookings_by uid T))) \/
       faulty E /\ r = Err (Booking.Other "querying user bookings"))
  | ReqResults id, AnsDraw r => T' = T /\ results_post E id r T late
  | _, _ => False
  end.

Lemma answering_lwp {A} E (f : A -> answer) (p : program A) l
    (post : A -> Tables -> Tables -> list Tables -> Prop)
    (post' : answer -> Tables -> Tables -> list Tables -> Prop) :
  (forall a T T' late, post a T T' late -> post' (f a) T T' late) ->
  lwp E p l (concluded post) -> lwp E (answering f p) l (concluded post').
Proof.
  intros Hpost Hp. apply lwp_bind. eapply lwp_mono; [exact Hp|]. intros a l' (o & Hl' & Ho).
  apply lwp_ret. exists o. split; [done|]. destruct o as [e|]; [|by eauto].
  destruct Ho as (seen & Hs & Ho). exists seen. eauto.
Qed.

(** *** Reads *)

Lemma Login_lwp E l req :
  outside l None -> lwp E (Login jwtSecret jwtExpiry req) l (concluded (fun r T T' _ => T' = T /\
    ((exists n, r = login_spec jwtSecret jwtExpiry T req (env_clock E n)) \/
     faulty E /\ r = Err (Auth.Other "fetching user")))).
Proof.
  intros Hl. apply (one_read_lwp E _ l (fun r T => (exists n, r = login_spec jwtSecret jwtExpiry T req
    (env_clock E n)) \/ faulty E /\ r = Err (Auth.Other "fetching user"))); [|done|].
  - unfold Login, GenerateToken. one_shot_tac.
  - intros w. apply Login_wp.
Qed.

Lemma Me_lwp E l id :
  outside l None -> lwp E (Me id) l (concluded (fun r T T' _ => T' = T /\
    (r = me_spec T id \/ faulty E /\ r = Err (Auth.Other "fetching user")))).
Proof.
  intros Hl. apply (one_read_lwp E _ l (fun r T => r = me_spec T id \/
    faulty E /\ r = Err (Auth.Other "fetching user"))); [one_shot_tac|done|intros w; apply Me_wp].
Qed.

Lemma GetByID_lwp E l id :
  outside l None -> lwp E (GetByID id) l (concluded (fun r T T' _ => T' = T /\
    (r = read_event T id \/ faulty E /\ r = Err (Events.Other "fetching event")))).
Proof.
  intros Hl. apply (one_read_lwp E _ l (fun r T => r = read_event T id \/
    faulty E /\ r = Err (Events.Other "fetching event"))); [one_shot_tac|done|].
  intros w. apply wp_GetByID; auto.
Qed.

Lemma GetByEvent_lwp E l eid :
  outside l None -> lwp E (GetByEvent eid) l (concluded (fun r T T' _ => T' = T /\
    ((exists n, r = Ok (order_by booking_BookedAt (fun b => env_ties E n (booking_ID b))
                          (bookings_of eid T))) \/
     faulty E /\ r = Err (Booking.Other "querying bookings")))).
Proof.
  intros Hl. apply lwp_try. eapply lwp_read; [exact Hl|done|done|].
  intros T q n l' _ _ _ Hl'. split; [apply lwp_ret|intros Hf];
    (eexists; split; [exact Hl'|]); apply took_now; (split; [done|]); [left; by exists n|by right].
Qed.

Lemma UserBookings_lwp E l uid :
  outside l None -> lwp E (UserBookings uid) l (concluded (fun r T T' _ => T' = T /\
    ((exists n, r = Ok (order_by (fun b => - booking_BookedAt b)%Z (fun b => env_ties E n (booking_ID b))
                          (bookings_by uid T))) \/
     faulty E /\ r = Err (Booking.Other "querying user bookings")))).
Proof.
  intros Hl. apply lwp_try. eapply lwp_read; [exact Hl|done|done|].
  intros T q n l' _ _ _ Hl'. split; [apply lwp_ret|intros Hf];
    (eexists; split; [exact Hl'|]); apply took_now; (split; [done|]); [left; by exists n|by right].
Qed.

(** The page of a query. *)
Lemma select_events_page now T q status page limit :
  (exec_stmt now T q (SelectEvents status (clamp_limit limit)
     (list_offset (clamp_page page) (clamp_limit limit)))).1.1 =
  match list_page T (m_ties now) status page limit with
  | Ok events => Ok events
  | Err _ => if storable status then Err (PgError codeInvalidRowCount)
             else Err (PgError codeCharacterNotInRepertoire)
  end.
Proof.
  pose proof (clamp_limit_range limit). unfold list_page, exec_stmt, with_text. cbn [forallb].
  rewrite andb_true_r. destruct (storable status); [|done]. simpl.
  rewrite (bool_decide_ext _ (0 <= list_offset (clamp_page page) (clamp_limit limit))%Z) by lia.
  by case_bool_decide.
Qed.

Lemma list_page_Err T ties status page limit e :
  list_page T ties status page limit = Err e -> e = Events.Other "querying events".
Proof. unfold list_page. case_match; [done|]. by intros [= <-]. Qed.

Lemma List_lwp E l status page limit :
  outside l None ->
  lwp E (List_ status page limit) l (concluded (fun r T T' late =>
    T' = T /\ list_post E status page limit r T late)).
Proof.
  intros Hl. apply lwp_try. eapply lwp_read; [exact Hl|done| |].
  { intros. simpl. unfold with_text, Database.answer. by repeat case_match. }
  intros T q n l1 _ _ Hlast Hl1. split.
  2: { intros Hf. eexists. split; [exact Hl1|]. apply took_now. split; [done|]. by left. }
  rewrite select_events_page. simpl m_ties.
  destruct (list_page T (env_ties E n) status page limit) as [events|e] eqn:Hpage.
  2: { assert (concluded (fun r T T' late => T' = T /\ list_post E status page limit r T late)
         (Err (Events.Other "querying events")) l1) as Hc; [|by destruct (storable status)].
       eexists. split; [exact Hl1|]. apply took_now. split; [done|]. right. exists n.
       rewrite Hpage. by rewrite (list_page_Err _ _ _ _ _ _ Hpage). }
  apply lwp_try. eapply lwp_read; [exact Hl1|done| |].
  { intros. simpl. unfold with_text, Database.answer. by repeat case_match. }
  intros T2 q2 n2 l2 _ Hg _ Hl2. rewrite Hlast in Hg. split.
  2: { intros Hf. eexists. split; [exact Hl2|]. apply took_now. split; [done|]. right. exists n.
       rewrite Hpage. by right. }
  assert (storable status = true) as Hst.
  { unfold list_page in Hpage. by destruct (storable status). }
  unfold exec_stmt, with_text. cbn [forallb]. rewrite Hst. simpl. apply lwp_ret.
  eexists. split; [exact Hl2|]. exists [T2]. split; [done|]. split; [done|]. right. exists n.
  simpl. rewrite Hpage. left. exists T2. split; [set_solver|done].
Qed.

Lemma GetResults_lwp E l id :
  outside l None ->
  lwp E (GetResults id) l (concluded (fun r T T' late => T' = T /\ results_post E id r T late)).
Proof.
  intros Hl. set (post := fun r T T' late => T' = T /\ results_post E id r T late).
  assert (forall r T late l', faulty E -> Draw.is_other r -> outside l' (Some (T, T, late)) ->
    concluded post r l') as Hfail.
  { intros r T late l' Hf Hr Hl'. eexists. split; [exact Hl'|]. apply took_now. split; [done|]. by left. }
  apply lwp_try. eapply lwp_read; [exact Hl|done|done|].
  intros T q n l1 HT _ Hlast Hl1. split; [|intros Hf; rewrite decide_False by done; eapply Hfail; [done|done|exact Hl1]]. cbn [exec_stmt].
  destruct (t_events T !! id) as [e|] eqn:He; simpl.
  2: { eexists. split; [exact Hl1|]. apply took_now. split; [done|]. right.
       simpl. unfold results_of. by rewrite He. }
  case_guard as Hst; simpl.
  2: { eexists. split; [exact Hl1|]. apply took_now. split; [done|]. right.
       simpl. unfold results_post, results_of. rewrite He. by rewrite !decide_False by done. }
  apply lwp_try. eapply lwp_read; [exact Hl1|done|done|].
  intros T2 q2 n2 l2 HT2 Hg2 Hlast2 Hl2. rewrite Hlast in Hg2.
  split; [|intros Hf; eapply Hfail; [done|done|exact Hl2]]. simpl. apply lwp_bind. eapply lwp_read; [exact Hl2|done|done|].
  intros T3 q3 n3 l3 HT3 Hg3 _ Hl3. rewrite Hlast2 in Hg3.
  split; [|intros Hf; rewrite decide_False by done; apply lwp_ret; eapply Hfail; [done|done|exact Hl3]].
  assert (concluded post (Ok (verified_against T3 id (ev_winner_count e) (collect id (ev_title e)
    (ev_winner_count e) (order_asc draw_DrawRank (draws_of id T2))))) l3) as Hdone.
  { eexists. split; [exact Hl3|]. exists [T2; T3]. split; [simpl; set_solver|]. split; [done|]. right.
    simpl. rewrite He, decide_True by done. exists T2, T3. split_and!; [set_solver|set_solver|done|done|done|].
    intros Hne. unfold results_of. rewrite He, decide_True by done.
    by rewrite (draws_of_final T T2 id e), (verified_final T T3 id e) by (done || by etrans). }
  cbn [exec_stmt]. unfold verified_against in Hdone.
  destruct (t_seals T3 !! id); simpl; apply lwp_ret; exact Hdone.
Qed.

(** *** Accounts and new events *)

Lemma Register_lwp E l req :
  outside l None ->
  lwp E (Register req) l (concluded (fun r T T' _ => exists id, register_post (faulty E) T id req r T')).
Proof.
  intros Hl. apply one_shot_lwp; [|done|].
  { unfold Register. one_shot_tac. }
  intros w out. pose proof (Register_wp E w req) as Hp.
  unfold wp in Hp. fold out in Hp. simpl in Hp. split; [by eexists|]. intros HT Hq.
  pose proof (fresh_user _ _ Hq) as Hnew.
  split; [by eapply register_post_inv|].
  pose proof (register_post_grows _ _ _ _ _ _ Hnew Hp) as Hg.
  destruct Hp as [(_ & _ & ->)|[now Hp]]; [apply frame_refl|].
  destruct (register_spec (w_tables w) _ req now); [|by destruct Hp as [_ ->]].
  destruct Hp as [Ht _]. rewrite Ht in *. by apply frame_harmless.
Qed.

Lemma PromoteToAdmin_lwp E l id :
  outside l None -> lwp E (PromoteToAdmin id) l (concluded (fun r T T' _ => promote_post (faulty E) T id r T')).
Proof.
  intros Hl. apply one_shot_lwp; [|done|].
  { one_shot_tac. }
  intros w out. pose proof (PromoteToAdmin_wp E w id) as Hp.
  unfold wp in Hp. fold out in Hp. simpl in Hp. split; [done|]. intros HT Hq.
  split; [by eapply promote_post_inv|]. pose proof (promote_post_grows _ _ _ _ _ Hp) as Hg.
  destruct Hp as [(_ & _ & ->)|Hp]; [apply frame_refl|].
  destruct (t_users (w_tables w) !! id); [|by destruct Hp as [_ ->]].
  destruct Hp as (now & Ht & _). rewrite Ht in *. by apply frame_harmless.
Qed.

Lemma BootstrapAdmin_lwp E l email password fullName :
  outside l None ->
  lwp E (BootstrapAdmin email password fullName) l
    (concluded (fun r T T' _ => exists id, bootstrap_post (faulty E) T id email password fullName r T')).
Proof.
  intros Hl. apply one_shot_lwp; [|done|].
  { unfold BootstrapAdmin. one_shot_tac. }
  intros w out.
  pose proof (BootstrapAdmin_wp E w email password fullName) as Hp.
  unfold wp in Hp. fold out in Hp. simpl in Hp. split; [by eexists|]. intros HT Hq.
  pose proof (fresh_user _ _ Hq) as Hnew.
  split; [by eapply bootstrap_post_inv|].
  pose proof (bootstrap_post_grows _ _ _ _ _ _ _ _ Hnew Hp) as Hg.
  apply bootstrap_post_cases in Hp as [[-> _]|[_ Hp]]; [apply frame_refl|].
  destruct (user_by_email _ (w_tables w)); [destruct Hp as (now & Ht)|destruct Hp as (now & hash & _ & Ht)];
    rewrite Ht in *; by apply frame_harmless.
Qed.

Lemma Create_lwp E l req createdBy :
  outside l None ->
  lwp E (Create maxWinners req createdBy) l (concluded (fun r T T' _ => exists n id,
    create_post (faulty E) (validate_create maxWinners req (env_clock E n)) T id req createdBy r T')).
Proof.
  intros Hl. apply one_shot_lwp; [|done|].
  { apply one_shot_now. intros now. simpl. one_shot_tac. }
  intros w out. pose proof (Create_wp maxWinners E w req createdBy) as Hp.
  unfold wp in Hp. fold out in Hp. simpl in Hp. split; [by eauto|]. intros HT Hq.
  pose proof (fresh_event _ _ Hq) as Hnew.
  split; [by eapply create_post_inv|].
  pose proof (create_post_grows _ _ _ _ _ _ _ _ Hnew Hp) as Hg.
  destruct (validate_create _ _ _); [|by destruct Hp as [_ ->]].
  destruct Hp as [(now & _ & Ht & _)|(-> & _)]; [|apply frame_refl].
  rewrite Ht in *. by apply frame_harmless.
Qed.

(** *** Every request *)

Lemma program_of_lwp E rq w T :
  w_tx w = None ->
  lwp E (program_of rq) (mkLocal w [] T None) (final effect_of E rq).
Proof.
  intros Hw. assert (outside (mkLocal w [] T None) None) as Hl by done.
  destruct rq; simpl; unfold final; eapply answering_lwp;
    [|by apply Register_lwp| |by apply Login_lwp| |by apply Me_lwp| |by apply PromoteToAdmin_lwp
    | |by apply BootstrapAdmin_lwp| |by apply Create_lwp| |by apply GetByID_lwp| |by apply List_lwp
    | |by apply Close_lwp| |by apply Cancel_lwp| |by apply BookWithLock_lwp| |by apply GetByEvent_lwp
    | |by apply UserBookings_lwp| |by apply RunDraw_lwp| |by apply GetResults_lwp]; done.
Qed.

(** The server on a database, before any request has arrived. *)
Definition idle (w : world) : cstate (Req := request (R:=R)) (Ans := answer) :=
  mkCState (w_tables w) (w_seqs w) ∅.

Lemma idle_inv w : db_inv w -> cinv effect_of (idle w).
Proof. intros [HT Hq]. split; simpl; try done; intros; simplify_map_eq. Qed.

Lemma reachable_inv w st : db_inv w -> rtc (cstep program_of) (idle w) st -> cinv effect_of st.
Proof. intros Hw Hst. eapply csteps_inv; [apply program_of_lwp|exact Hst|by apply idle_inv]. Qed.

(** ** Properties *)

(** C3: concurrent requests are linearizable.  However the statements of any
    number of requests interleave under the row locks, whatever fails, and
    whatever Redis holds, a request that has answered did all it did to the
    tables in one of its own steps, from [T] to [T'], and its answer is the one
    its sequential specification gives on [T] ([effect_of]): reads and logins
    included, with the error each failed call gives.  Four answers also
    contain what the request itself read at a later step, from tables [late]
    that had grown since: the event [Close] and [Cancel] return, the total of
    [List], and the rows and seal of [GetResults], which are final.  The audit
    rows of a draw are those of the sequential draw up to their keys.  A
    request that answered without looking at a table changed nothing.  None
    holds a lock any more. *)
Theorem concurrent_linearizable w st i s a :
  db_inv w -> rtc (cstep program_of) (idle w) st ->
  c_sessions st !! i = Some s -> s_prog s = Ret a ->
  s_held s = [] /\
  ((stutters (s_log s) /\ forall T, effect_of (s_env s) (s_req s) a T T []) \/
   exists l1 T T' l2 late, s_log s = l1 ++ (T, T') :: l2 /\ stutters l1 /\ stutters l2 /\
     late ⊆ l2.*1 /\ effect_of (s_env s) (s_req s) a T T' late).
Proof. intros Hw Hst Hi Ha. eapply finished_took_effect; [by eapply reachable_inv|done..]. Qed.

(** C4: concurrent requests keep the record.  At every moment of every
    interleaving no event has more bookings than its capacity, no user holds
    two bookings of one event, the audit trail of a drawn event is complete
    and sealed and any other event has none, and nothing recorded before is
    changed or lost. *)
Theorem concurrent_safe w st id e :
  db_inv w -> rtc (cstep program_of) (idle w) st -> t_events (c_tables st) !! id = Some e ->
  (Z.of_nat (length (bookings_of id (c_tables st))) <= ev_capacity e)%Z /\
  NoDup (booking_UserID <$> bookings_of id (c_tables st)) /\
  (if decide (ev_status e = EventStatusDrawn) then drawn_ok (c_tables st) e
   else draws_of id (c_tables st) = [] /\ t_seals (c_tables st) !! id = None) /\
  grows (w_tables w) (c_tables st).
Proof.
  intros Hw Hst He. pose proof (reachable_inv w st Hw Hst) as Hinv.
  pose proof (ci_tables _ _ Hinv) as HT. split_and!.
  - by apply (inv_capacity _ HT id e).
  - by apply entrants_NoDup.
  - case_decide; [by apply (inv_drawn _ HT id e)|by eapply undrawn_draws].
  - apply (steps_grow program_of effect_of program_of_lwp (idle w) st Hst). by apply idle_inv.
Qed.

(** C24: no deadlock.  In every reachable state, every request that is being
    served can still be brought to its answer: the row locks are requested in
    an order that lets their holders go on. *)
Theorem concurrent_no_deadlock w st i s :
  db_inv w -> rtc (cstep program_of) (idle w) st -> c_sessions st !! i = Some s ->
  exists st' s' a, rtc (cstep program_of) st st' /\
    c_sessions st' !! i = Some s' /\ s_prog s' = Ret a.
Proof.
  intros Hw Hst Hi. eapply can_finish; [apply program_of_lwp|by eapply reachable_inv|done].
Qed.
End Server.

(** ** A concrete interleaving *)

Section Witnesses.
Import Standin.

Definition booking_session (i : nat) (now uid : Z) : action (Req := request (R := list nat)) :=
  Arrive i (calm_env now) (ReqBook 1 uid) (world_of empty_tables initial_seqs).

(** Three users book an event with two places at once, statement by statement
    in turn, with a Redis that lets everyone through. *)
Definition contest : list (action (Req := request (R := list nat))) :=
  [booking_session 1 5000 2; booking_session 2 5000 3; booking_session 3 5000 4] ++
  mjoin (replicate 40 [Execute 1 ∅; Execute 2 ∅; Execute 3 ∅]).

Definition contested (n : nat) := 
  play (program_of 10 0 0 "key" 60) (take n contest) (idle sample_world).

Definition answered (s : session (Req := request (R := list nat)) (Ans := answer)) : option answer :=
  match s_prog s with Ret a => Some a | Act _ _ => None end.

(** Two get a place; the third waits for the lock of each and is told that the
    event is full. *)
Lemma contest_answers :
  (fun i => s ← c_sessions (contested 200) !! i; answered s) <$> [1; 2; 3] =
  [Some (AnsBook (Ok tt)); Some (AnsBook (Ok tt)); Some (AnsBook (Err (ErrEventFull 2 2)))].
Proof. vm_compute. reflexivity. Qed.

Lemma concurrent_linearizable_witness :
  exists s, c_sessions (contested 200) !! 3 = Some s /\
    ~ (forall T, effect_of 10 "key" 60 (s_env s) (s_req s) (AnsBook (Err (ErrEventFull 2 2))) T T []) /\
    exists T late, effect_of 10 "key" 60 (s_env s) (s_req s) (AnsBook (Err (ErrEventFull 2 2))) T T late.
Proof.
  assert ((s ← c_sessions (contested 200) !! 3; answered s) = Some (AnsBook (Err (ErrEventFull 2 2))) /\
          (s_req <$> c_sessions (contested 200) !! 3) = Some (ReqBook 1 4)) as [Ha Hq]
    by (vm_compute; done).
  destruct (c_sessions (contested 200) !! 3) as [s|] eqn:Hs; [|done]. injection Hq as Hq.
  assert (s_prog s = Ret (AnsBook (Err (ErrEventFull 2 2)))) as Hp.
  { simpl in Ha. unfold answered in Ha. destruct (s_prog s); [by injection Ha as ->|done]. }
  exists s. split; [reflexivity|].
  destruct (concurrent_linearizable 10 0 0 "key" 60 sample_world (contested 200) 3 s _
    sample_inv (play_steps _ _ _) Hs Hp) as [_ Hlin]. clear Hs Ha Hp.
  assert (~ forall T, effect_of 10 "key" 60 (s_env s) (s_req s)
    (AnsBook (Err (ErrEventFull 2 2))) T T []) as Hno.
  { rewrite Hq. intros Hall. specialize (Hall empty_tables). simpl in Hall.
    unfold locked_post in Hall. rewrite decide_False in Hall by lia.
    destruct Hall as [(_ & [?|[?|[_ ?]]])|[[? _]|(_ & ? & _)]]; done. }
  split; [exact Hno|]. destruct Hlin as [[_ Hlin]|(l1 & T & T' & l2 & late & _ & _ & _ & _ & Heff)].
  { destruct (Hno Hlin). }
  exists T, late. assert (T' = T) as <-; [|exact Heff]. rewrite Hq in Heff. simpl in Heff.
  unfold locked_post in Heff. rewrite decide_False in Heff by lia.
  destruct Heff as [[? _]|[[_ ?]|(_ & ? & _)]]; done.
Defined.

Lemma concurrent_safe_witness :
  length (bookings_of 1 (c_tables (contested 200))) = 2 /\
  grows (w_tables sample_world) (c_tables (contested 200)).
Proof.
  split; [by vm_compute|].
  apply (concurrent_safe 10 0 0 "key" 60 sample_world (contested 200) 1 sample_event).
  - apply sample_inv.
  - apply play_steps.
  - by vm_compute.
Defined.

(** In the middle of the contest the second session holds the row the third
    one is waiting for. *)
Lemma concurrent_no_deadlock_witness :
  (s_held <$> c_sessions (contested 40) !! 2) = Some [(1%Z, ForUpdate)] /\
  execute 3 ∅ (contested 40) = None /\
  exists st' s' a, rtc (cstep (program_of 10 0 0 "key" 60)) (contested 40) st' /\
    c_sessions st' !! 3 = Some s' /\ s_prog s' = Ret a.
Proof.
  split; [by vm_compute|]. split; [by vm_compute|].
  assert ((s_req <$> c_sessions (contested 40) !! 3) = Some (ReqBook 1 4)) as Hq by (by vm_compute).
  destruct (c_sessions (contested 40) !! 3) as [s|] eqn:Hs; [clear Hq|done].
  apply (concurrent_no_deadlock 10 0 0 "key" 60 sample_world (contested 40) 3 s).
  - apply sample_inv.
  - apply play_steps.
  - exact Hs.
Defined.
End Witnesses.
