(* ===== verification/Gate.v ===== *)
(** * The per-event gates

    [src/internal/booking/gate.go]: one channel of capacity 1 per event,
    reference counted, under a mutex.  Goroutines are interleaved at the
    granularity of the mutex sections and the channel operations; the gates
    are heap objects, so that a goroutine keeps its gate even when the map has
    moved on to another.

    Channels follow the Go specification and runtime: a send on a full channel
    joins the queue of blocked senders; a receive takes the buffered value and,
    if senders are blocked, moves the oldest one's value into the buffer; a
    sender blocked in a [select] leaves the queue when another case is taken. *)

From S2P Require Import Prelude.

(** ** State *)

(** [type gate struct { slot chan struct{}; refs int }]: [slot] is full or
    empty, [sendq] holds the blocked senders, oldest first. *)
Record gate := mkGate { slot : bool; sendq : list nat; refs : Z }.

(** Where a goroutine is in [enter] and [leave]. *)
Inductive pc :=
| Registered   (* counted in refs, about to select *)
| Waiting      (* blocked in the select *)
| Inside       (* its send succeeded; it holds the gate *)
| Leaving      (* it has received from slot, about to release *)
| Cancelled.   (* ctx was done first, about to release *)

#[export] Instance pc_eq_dec : EqDecision pc.
Proof. solve_decision. Defined.

Record thread := mkThread { th_event : Z; th_gate : nat; th_pc : pc }.

(** [heap] holds the gate objects, [gates] is the map [g.m]. *)
Record state := mkState {
  heap : gmap nat gate;
  next_gate : nat;
  gates : gmap Z nat;
  threads : gmap nat thread
}.

Definition newEventGates : state := mkState ∅ 0 ∅ ∅.

Definition set_gate (g : nat) (gt : gate) (s : state) : state :=
  mkState (<[g := gt]> (heap s)) (next_gate s) (gates s) (threads s).
Definition set_thread (t : nat) (th : thread) (s : state) : state :=
  mkState (heap s) (next_gate s) (gates s) (<[t := th]> (threads s)).
Definition goto (t : nat) (th : thread) (p : pc) (s : state) : state :=
  set_thread t (mkThread (th_event th) (th_gate th) p) s.

(** ** Operations *)

(** The mutex section of [enter]: find or make the gate, count the caller. *)
Definition enter_register (t : nat) (eventID : Z) (s : state) : option state :=
  match threads s !! t with
  | Some _ => None
  | None =>
    match gates s !! eventID with
    | Some g =>
        gt ← heap s !! g;
        Some (set_thread t (mkThread eventID g Registered)
                (set_gate g (mkGate (slot gt) (sendq gt) (refs gt + 1)) s))
    | None =>
        let g := next_gate s in
        Some (mkState (<[g := mkGate false [] 1]> (heap s)) (S g) (<[eventID := g]> (gates s))
                (<[t := mkThread eventID g Registered]> (threads s)))
    end
  end.

(** [case gt.slot <- struct{}{}]: succeed at once, or block. *)
Definition enter_send (t : nat) (s : state) : option state :=
  th ← threads s !! t; gt ← heap s !! th_gate th;
  if decide (th_pc th = Registered) then
    if slot gt
    then Some (goto t th Waiting (set_gate (th_gate th) (mkGate true (sendq gt ++ [t]) (refs gt)) s))
    else Some (goto t th Inside (set_gate (th_gate th) (mkGate true (sendq gt) (refs gt)) s))
  else None.

(** [case <-ctx.Done()]. *)
Definition enter_cancel (t : nat) (s : state) : option state :=
  th ← threads s !! t; gt ← heap s !! th_gate th;
  match th_pc th with
  | Registered => Some (goto t th Cancelled s)
  | Waiting =>
      Some (goto t th Cancelled
              (set_gate (th_gate th) (mkGate (slot gt) (filter (fun t' => t' <> t) (sendq gt)) (refs gt)) s))
  | _ => None
  end.

(** [<-gt.slot] in [leave]. *)
Definition leave_receive (t : nat) (s : state) : option state :=
  th ← threads s !! t; gt ← heap s !! th_gate th;
  if decide (th_pc th = Inside) then
    match sendq gt with
    | [] => Some (goto t th Leaving (set_gate (th_gate th) (mkGate false [] (refs gt)) s))
    | t' :: q =>
        th' ← threads s !! t';
        Some (goto t' th' Inside (goto t th Leaving
                (set_gate (th_gate th) (mkGate true q (refs gt)) s)))
    end
  else None.

(** [release]: drop the count, and the map entry with the last one. *)
Definition release (t : nat) (s : state) : option state :=
  th ← threads s !! t; gt ← heap s !! th_gate th;
  match th_pc th with
  | Leaving | Cancelled =>
      let gt' := mkGate (slot gt) (sendq gt) (refs gt - 1) in
      Some (mkState (<[th_gate th := gt']> (heap s)) (next_gate s)
              (if decide (refs gt' = 0)%Z then delete (th_event th) (gates s) else gates s)
              (delete t (threads s)))
  | _ => None
  end.

Definition size (s : state) : nat := base.size (gates s).

Inductive label :=
| LRegister (t : nat) (eventID : Z)
| LSend (t : nat)
| LCancel (t : nat)
| LReceive (t : nat)
| LRelease (t : nat).

Definition step (l : label) (s : state) : option state :=
  match l with
  | LRegister t e => enter_register t e s
  | LSend t => enter_send t s
  | LCancel t => enter_cancel t s
  | LReceive t => leave_receive t s
  | LRelease t => release t s
  end.

Fixpoint steps (ls : list label) (s : state) : option state :=
  match ls with
  | [] => Some s
  | l :: ls' => s' ← step l s; steps ls' s'
  end.

(** Two goroutines compete for event 7: the second waits, is handed the gate
    when the first leaves, and the map is empty when both are gone. *)
Example gate_handoff :
  (threads <$> steps [LRegister 1 7; LRegister 2 7; LSend 1; LSend 2; LReceive 1] newEventGates)
    = Some (<[1 := mkThread 7 0 Leaving]> {[2 := mkThread 7 0 Inside]}) /\
  (size <$> steps [LRegister 1 7; LRegister 2 7; LSend 1; LSend 2; LReceive 1; LRelease 1;
                   LReceive 2; LRelease 2] newEventGates) = Some 0.
Proof. split; vm_compute; reflexivity. Qed.

(** ** The invariant *)

(** Goroutine [t] uses gate [g] (in state [p]). *)
Definition uses (m : gmap nat thread) (g t : nat) : Prop :=
  exists th, m !! t = Some th /\ th_gate th = g.
Definition uses_at (m : gmap nat thread) (g t : nat) (p : pc) : Prop :=
  exists th, m !! t = Some th /\ th_gate th = g /\ th_pc th = p.

(** The reference count is the number of goroutines that use the gate. *)
Definition counted (m : gmap nat thread) (g : nat) (n : Z) : Prop :=
  exists L, NoDup L /\ (forall t, t ∈ L <-> uses m g t) /\ n = Z.of_nat (length L).

(** The channel agrees with where the goroutines are: the queue holds those
    that wait, a full slot has exactly one holder, an empty one none and
    nobody waits for it. *)
Record channel_ok (m : gmap nat thread) (g : nat) (gt : gate) : Prop := {
  co_nodup : NoDup (sendq gt);
  co_queue : forall t, t ∈ sendq gt <-> uses_at m g t Waiting;
  co_one : forall t1 t2, uses_at m g t1 Inside -> uses_at m g t2 Inside -> t1 = t2;
  co_slot : if slot gt then exists t, uses_at m g t Inside
            else sendq gt = [] /\ forall t, ~ uses_at m g t Inside
}.

Record gates_inv (s : state) : Prop := {
  gi_counted : forall g gt, heap s !! g = Some gt -> counted (threads s) g (refs gt);
  gi_channel : forall g gt, heap s !! g = Some gt -> channel_ok (threads s) g gt;
  gi_fresh : forall g, next_gate s <= g -> heap s !! g = None;
  gi_thread : forall t th, threads s !! t = Some th ->
    gates s !! th_event th = Some (th_gate th) /\ is_Some (heap s !! th_gate th);
  gi_map : forall e g, gates s !! e = Some g ->
    exists t th, threads s !! t = Some th /\ th_event th = e /\ th_gate th = g;
  gi_inj : forall e1 e2 g, gates s !! e1 = Some g -> gates s !! e2 = Some g -> e1 = e2
}.

(** ** Updates of the goroutines *)

Lemma uses_at_insert m t th g t' p :
  uses_at (<[t := th]> m) g t' p <->
  (t' = t /\ th_gate th = g /\ th_pc th = p) \/ (t' <> t /\ uses_at m g t' p).
Proof.
  unfold uses_at. destruct (decide (t' = t)) as [->|Hne].
  - rewrite lookup_insert_eq. naive_solver.
  - rewrite lookup_insert_ne by done. naive_solver.
Qed.

Lemma uses_at_delete m t g t' p : uses_at (delete t m) g t' p <-> t' <> t /\ uses_at m g t' p.
Proof.
  unfold uses_at. destruct (decide (t' = t)) as [->|Hne].
  - rewrite lookup_delete_eq. naive_solver.
  - rewrite lookup_delete_ne by done. naive_solver.
Qed.

Lemma uses_uses_at m g t : uses m g t <-> exists p, uses_at m g t p.
Proof. unfold uses, uses_at. naive_solver. Qed.

Lemma channel_ok_ext m m' g gt :
  (forall t p, uses_at m' g t p <-> uses_at m g t p) -> channel_ok m g gt -> channel_ok m' g gt.
Proof.
  intros Hext [Hnd Hq Hone Hslot]. split.
  - done.
  - intros t. by rewrite Hext.
  - intros t1 t2. rewrite !Hext. apply Hone.
  - destruct (slot gt).
    + destruct Hslot as [t Ht]. exists t. by rewrite Hext.
    + destruct Hslot as [? Hn]. split; [done|]. intros t. by rewrite Hext.
Qed.

Lemma counted_ext m m' g n :
  (forall t, uses m' g t <-> uses m g t) -> counted m g n -> counted m' g n.
Proof. intros Hext (L & Hnd & HL & Hn). exists L. split_and!; [done| |done]. intros t. by rewrite Hext. Qed.

(** [m'] has the goroutines of [m] with the same events and gates. *)
Definition same_users (m m' : gmap nat thread) : Prop :=
  forall t, (fun th => (th_event th, th_gate th)) <$> m' !! t
          = (fun th => (th_event th, th_gate th)) <$> m !! t.

Lemma same_users_uses m m' g t : same_users m m' -> uses m' g t <-> uses m g t.
Proof.
  intros Hs. specialize (Hs t). unfold uses.
  destruct (m' !! t) as [th'|], (m !! t) as [th|]; naive_solver.
Qed.

(** A channel operation on gate [g]: only goroutines of [g] move, and the
    channel still agrees with them. *)
Lemma channel_step s g gt gt' m' :
  gates_inv s -> heap s !! g = Some gt -> refs gt' = refs gt -> same_users (threads s) m' ->
  (forall g' t p, g' <> g -> uses_at m' g' t p <-> uses_at (threads s) g' t p) ->
  channel_ok m' g gt' ->
  gates_inv (mkState (<[g := gt']> (heap s)) (next_gate s) (gates s) m').
Proof.
  intros Hinv Hg Hrefs Hsame Hframe Hch.
  assert (forall g', heap s !! g' = None -> <[g := gt']> (heap s) !! g' = None) as Hnone.
  { intros g' Hg'. rewrite lookup_insert_ne; [done|]. intros ->. congruence. }
  split; simpl.
  - intros g' gt0 [[<- <-]|[Hne Hg']]%lookup_insert_Some.
    + rewrite Hrefs. eapply counted_ext; [|by apply (gi_counted s Hinv)].
      intros t. by apply same_users_uses.
    + eapply counted_ext; [|by apply (gi_counted s Hinv)]. intros t. by apply same_users_uses.
  - intros g' gt0 [[<- <-]|[Hne Hg']]%lookup_insert_Some; [done|].
    eapply channel_ok_ext; [|by apply (gi_channel s Hinv)]. intros t p. by apply Hframe.
  - intros g' Hle. by apply Hnone, (gi_fresh s Hinv).
  - intros t th' Ht. pose proof (Hsame t) as Hs. rewrite Ht in Hs. simpl in Hs.
    symmetry in Hs. apply fmap_Some in Hs as (th & Hth & Heq). injection Heq as He Hgt.
    rewrite He, Hgt. destruct (gi_thread s Hinv t th Hth) as [Hm Hh]. split; [done|].
    apply lookup_insert_is_Some. destruct (decide (g = th_gate th)); auto.
  - intros e g' He. destruct (gi_map s Hinv e g' He) as (t & th & Ht & Hev & Hgt).
    pose proof (Hsame t) as Hs. rewrite Ht in Hs. apply fmap_Some in Hs as (th' & Hth' & Heq).
    injection Heq as He' Hg'. exists t, th'. split; [done|]. split; congruence.
  - apply (gi_inj s Hinv).
Qed.

Lemma same_users_goto m t th p :
  m !! t = Some th -> same_users m (<[t := mkThread (th_event th) (th_gate th) p]> m).
Proof.
  intros Ht t'. destruct (decide (t' = t)) as [->|Hne].
  - by rewrite lookup_insert_eq, Ht.
  - by rewrite lookup_insert_ne.
Qed.

Lemma uses_at_goto_frame m t th p g' t' p' :
  m !! t = Some th -> g' <> th_gate th ->
  uses_at (<[t := mkThread (th_event th) (th_gate th) p]> m) g' t' p' <-> uses_at m g' t' p'.
Proof.
  intros Ht Hne. rewrite uses_at_insert. simpl. split; [naive_solver|].
  intros Hu. right. split; [|done]. intros ->. destruct Hu as (th' & Ht' & Hg & _). congruence.
Qed.

(** A goroutine is in one place. *)
Lemma uses_at_pc m t th g p : m !! t = Some th -> uses_at m g t p <-> th_gate th = g /\ th_pc th = p.
Proof. unfold uses_at. intros Ht. split; [intros (th' & Ht' & H); congruence|eauto]. Qed.

(** ** Every operation keeps the invariant *)

Lemma enter_send_inv t s s' : gates_inv s -> enter_send t s = Some s' -> gates_inv s'.
Proof.
  unfold enter_send. intros Hinv Hs.
  destruct (threads s !! t) as [th|] eqn:Ht; simpl in Hs; [|done].
  destruct (heap s !! th_gate th) as [gt|] eqn:Hg; simpl in Hs; [|done].
  case_decide as Hpc; [|done]. destruct (gi_channel s Hinv _ _ Hg) as [Hnd Hq Hone Hslot].
  assert (forall p, uses_at (threads s) (th_gate th) t p <-> p = Registered) as Hat.
  { intros p. rewrite (uses_at_pc _ _ _ _ _ Ht), Hpc. naive_solver. }
  destruct (slot gt) eqn:Hsl; injection Hs as <-;
    unfold goto, set_thread, set_gate; simpl; (eapply channel_step;
    [exact Hinv|exact Hg|done|by apply same_users_goto|intros; by apply uses_at_goto_frame|]).
  - split; simpl.
    + apply NoDup_app. split_and!; [done| |apply NoDup_singleton].
      intros x Hx ->%list_elem_of_singleton. apply Hq, Hat in Hx. done.
    + intros x. rewrite elem_of_app, list_elem_of_singleton, uses_at_insert, Hq. simpl.
      destruct (decide (x = t)) as [->|]; [rewrite Hat|]; naive_solver.
    + intros t1 t2. rewrite !uses_at_insert. simpl. naive_solver.
    + destruct Hslot as [x Hx]. exists x. rewrite uses_at_insert. right. split; [|done].
      intros ->. by apply Hat in Hx.
  - destruct Hslot as [Hnil Hno]. split; simpl.
    + done.
    + intros x. rewrite uses_at_insert, Hq. simpl.
      destruct (decide (x = t)) as [->|]; [rewrite Hat|]; naive_solver.
    + intros t1 t2. rewrite !uses_at_insert. simpl. intros [[-> _]|[_ H1]] [[-> _]|[_ H2]]; try done;
        exfalso; by eapply Hno.
    + exists t. rewrite uses_at_insert. by left.
Qed.

Lemma filter_out_nodup (l : list nat) t : NoDup l -> NoDup (filter (fun t' => t' <> t) l).
Proof. intros H. by apply NoDup_filter. Qed.

Lemma enter_cancel_inv t s s' : gates_inv s -> enter_cancel t s = Some s' -> gates_inv s'.
Proof.
  unfold enter_cancel. intros Hinv Hs.
  destruct (threads s !! t) as [th|] eqn:Ht; simpl in Hs; [|done].
  destruct (heap s !! th_gate th) as [gt|] eqn:Hg; simpl in Hs; [|done].
  destruct (gi_channel s Hinv _ _ Hg) as [Hnd Hq Hone Hslot].
  assert (forall p, uses_at (threads s) (th_gate th) t p <-> p = th_pc th) as Hat.
  { intros p. rewrite (uses_at_pc _ _ _ _ _ Ht). naive_solver. }
  assert (forall gt', refs gt' = refs gt ->
    channel_ok (<[t := mkThread (th_event th) (th_gate th) Cancelled]> (threads s)) (th_gate th) gt' ->
    gates_inv (goto t th Cancelled (set_gate (th_gate th) gt' s))) as Hgo.
  { intros gt' Hr Hc. unfold goto, set_thread, set_gate. simpl. eapply channel_step;
      [exact Hinv|exact Hg|done|by apply same_users_goto|intros; by apply uses_at_goto_frame|done]. }
  assert (forall x, th_pc th <> Inside ->
    uses_at (<[t := mkThread (th_event th) (th_gate th) Cancelled]> (threads s)) (th_gate th) x Inside <->
    uses_at (threads s) (th_gate th) x Inside) as Hin.
  { intros x Hni. rewrite uses_at_insert. simpl.
    destruct (decide (x = t)) as [->|]; [rewrite Hat|]; naive_solver. }
  destruct (th_pc th) eqn:Hpc; try done; injection Hs as <-.
  - replace s with (set_gate (th_gate th) gt s) at 1.
    2: { unfold set_gate. rewrite insert_id by done. by destruct s. }
    apply Hgo; [done|]. split; [done| | |].
    + intros x. rewrite uses_at_insert, Hq. simpl.
      destruct (decide (x = t)) as [->|]; [rewrite Hat|]; naive_solver.
    + intros t1 t2. rewrite !Hin by done. apply Hone.
    + destruct (slot gt); [destruct Hslot as [x Hx]; exists x; by apply Hin|].
      destruct Hslot as [? Hno]. split; [done|]. intros x. by rewrite Hin.
  - apply Hgo; [done|]. split; simpl.
    + by apply filter_out_nodup.
    + intros x. rewrite list_elem_of_filter, uses_at_insert, Hq. simpl. naive_solver.
    + intros t1 t2. rewrite !Hin by done. apply Hone.
    + destruct (slot gt); [destruct Hslot as [x Hx]; exists x; by apply Hin|].
      destruct Hslot as [-> Hno]. split; [done|]. intros x. by rewrite Hin.
Qed.

Lemma leave_receive_inv t s s' : gates_inv s -> leave_receive t s = Some s' -> gates_inv s'.
Proof.
  unfold leave_receive. intros Hinv Hs.
  destruct (threads s !! t) as [th|] eqn:Ht; simpl in Hs; [|done].
  destruct (heap s !! th_gate th) as [gt|] eqn:Hg; simpl in Hs; [|done].
  case_decide as Hpc; [|done]. destruct (gi_channel s Hinv _ _ Hg) as [Hnd Hq Hone Hslot].
  assert (forall p, uses_at (threads s) (th_gate th) t p <-> p = Inside) as Hat.
  { intros p. rewrite (uses_at_pc _ _ _ _ _ Ht), Hpc. naive_solver. }
  assert (forall x, uses_at (threads s) (th_gate th) x Inside -> x = t) as Honly.
  { intros x Hx. apply Hone; [done|by apply Hat]. }
  destruct (sendq gt) as [|t' q] eqn:Hsq.
  - injection Hs as <-. unfold goto, set_thread, set_gate. simpl. eapply channel_step;
      [exact Hinv|exact Hg|done|by apply same_users_goto|intros; by apply uses_at_goto_frame|].
    split; simpl.
    + constructor.
    + intros x. rewrite uses_at_insert, Hq. simpl.
      destruct (decide (x = t)) as [->|]; [rewrite Hat|]; naive_solver.
    + intros t1 t2. rewrite !uses_at_insert. simpl. naive_solver.
    + split; [done|]. intros x. rewrite uses_at_insert. simpl. naive_solver.
  - assert (uses_at (threads s) (th_gate th) t' Waiting) as (th' & Ht' & Hg' & Hpc')
      by (apply Hq; constructor).
    assert (t' <> t) as Hne by congruence.
    rewrite Ht' in Hs. simpl in Hs. injection Hs as <-.
    apply NoDup_cons in Hnd as [Hnin Hnd].
    unfold goto, set_thread, set_gate. simpl. eapply channel_step; [exact Hinv|exact Hg|done| | |].
    + intros x. rewrite same_users_goto by (by rewrite lookup_insert_ne by congruence).
      by apply same_users_goto.
    + intros g0 x p Hg0. rewrite uses_at_goto_frame;
        [|by rewrite lookup_insert_ne by congruence|congruence].
      by apply uses_at_goto_frame.
    + assert (forall x p, uses_at (<[t':=mkThread (th_event th') (th_gate th') Inside]>
        (<[t:=mkThread (th_event th) (th_gate th) Leaving]> (threads s))) (th_gate th) x p <->
        (x = t' /\ p = Inside) \/ (x = t /\ p = Leaving) \/
        (x <> t' /\ x <> t /\ uses_at (threads s) (th_gate th) x p)) as Hnew.
      { intros x p. rewrite !uses_at_insert. simpl. rewrite Hg'. naive_solver. }
      split; simpl.
      * done.
      * intros x. rewrite Hnew. specialize (Hq x). rewrite elem_of_cons in Hq.
        destruct (decide (x = t')) as [->|]; [naive_solver|].
        destruct (decide (x = t)) as [->|]; [rewrite Hat in Hq; naive_solver|]. naive_solver.
      * intros t1 t2. rewrite !Hnew. naive_solver.
      * exists t'. rewrite Hnew. auto.
Qed.

Lemma uses_insert_fresh m t th g x :
  m !! t = None -> uses (<[t := th]> m) g x <-> (x = t /\ th_gate th = g) \/ uses m g x.
Proof.
  intros Hn. rewrite !uses_uses_at. setoid_rewrite uses_at_insert.
  destruct (decide (x = t)) as [->|]; [|naive_solver].
  split; [naive_solver|]. intros [[_ Hg]|[p (th' & Ht' & _)]]; [eauto 10|congruence].
Qed.

Lemma uses_at_insert_registered m t e g x g' p :
  m !! t = None -> p <> Registered ->
  uses_at (<[t := mkThread e g Registered]> m) g' x p <-> uses_at m g' x p.
Proof.
  intros Hn Hp. rewrite uses_at_insert. simpl. destruct (decide (x = t)) as [->|]; [|naive_solver].
  split; [naive_solver|]. intros (th' & Ht' & _). congruence.
Qed.

(** The channel does not see goroutines outside of [Waiting] and [Inside]. *)
Lemma channel_ok_unseen m m' g gt :
  (forall t p, p = Waiting \/ p = Inside -> uses_at m' g t p <-> uses_at m g t p) ->
  channel_ok m g gt -> channel_ok m' g gt.
Proof.
  intros Hext [Hnd Hq Hone Hslot]. split.
  - done.
  - intros t. rewrite Hext by auto. apply Hq.
  - intros t1 t2. rewrite !Hext by auto. apply Hone.
  - destruct (slot gt).
    + destruct Hslot as [t Ht]. exists t. apply Hext; auto.
    + destruct Hslot as [? Hn]. split; [done|]. intros t. rewrite Hext by auto. apply Hn.
Qed.

Lemma channel_ok_refs m g gt n :
  channel_ok m g gt -> channel_ok m g (mkGate (slot gt) (sendq gt) n).
Proof. intros []. by split. Qed.

Lemma counted_add m t e g g' n :
  m !! t = None -> counted m g' n ->
  counted (<[t := mkThread e g Registered]> m) g' (if decide (g = g') then n + 1 else n)%Z.
Proof.
  intros Hn (L & Hnd & HL & Hlen).
  case_decide as Hg.
  - exists (t :: L). split_and!.
    + apply NoDup_cons. split; [|done]. intros (th & Ht & _)%HL. congruence.
    + intros x. rewrite elem_of_cons, HL, uses_insert_fresh by done. simpl. naive_solver.
    + rewrite Hlen. simpl. lia.
  - exists L. split_and!; [done| |done].
    intros x. rewrite HL, uses_insert_fresh by done. simpl. naive_solver.
Qed.

Lemma unused_gate s g t : gates_inv s -> next_gate s <= g -> ~ uses (threads s) g t.
Proof.
  intros Hinv Hle (th & Ht & <-). destruct (gi_thread s Hinv t th Ht) as [_ [gt Hg]].
  rewrite (gi_fresh s Hinv) in Hg by done. done.
Qed.

(** Joining a gate that is in the map. *)
Lemma register_existing_inv t e g gt s :
  gates_inv s -> threads s !! t = None -> gates s !! e = Some g -> heap s !! g = Some gt ->
  gates_inv (set_thread t (mkThread e g Registered)
               (set_gate g (mkGate (slot gt) (sendq gt) (refs gt + 1)) s)).
Proof.
  intros Hinv Ht He Hg.
  split; simpl.
  + intros g' gt' [[<- <-]|[Hne Hg']]%lookup_insert_Some.
    * pose proof (counted_add _ _ e g g _ Ht (gi_counted s Hinv g gt Hg)) as Hc.
      by rewrite decide_True in Hc.
    * pose proof (counted_add _ _ e g g' _ Ht (gi_counted s Hinv g' gt' Hg')) as Hc.
      by rewrite decide_False in Hc.
  + intros g' gt' [[<- <-]|[Hne Hg']]%lookup_insert_Some; [apply channel_ok_refs|];
      (eapply channel_ok_unseen; [|by apply (gi_channel s Hinv)]);
      intros x p Hp; apply uses_at_insert_registered; naive_solver.
  + intros g' Hle. rewrite lookup_insert_ne; [by apply (gi_fresh s Hinv)|].
    intros <-. rewrite (gi_fresh s Hinv) in Hg by done. done.
  + intros x th [[<- <-]|[Hne Hx]]%lookup_insert_Some; simpl.
    * split; [done|]. rewrite lookup_insert_eq. by eexists.
    * destruct (gi_thread s Hinv x th Hx). split; [done|].
      apply lookup_insert_is_Some. destruct (decide (g = th_gate th)); auto.
  + intros e' g' He'. destruct (gi_map s Hinv e' g' He') as (x & th & Hx & ? & ?).
    exists x, th. split; [|done]. rewrite lookup_insert_ne; congruence.
  + apply (gi_inj s Hinv).
Qed.

(** Making a new gate. *)
Lemma register_new_inv t e s :
  gates_inv s -> threads s !! t = None -> gates s !! e = None ->
  let g := next_gate s in
  gates_inv (mkState (<[g := mkGate false [] 1]> (heap s)) (S g) (<[e := g]> (gates s))
               (<[t := mkThread e g Registered]> (threads s))).
Proof.
  intros Hinv Ht He g.
  assert (forall x, ~ uses (threads s) g x) as Hun by (intros x; by apply unused_gate).
  split; simpl.
  + intros g' gt' [[<- <-]|[Hne Hg']]%lookup_insert_Some.
    * exists [t]. split_and!; [apply NoDup_singleton| |done]. intros x.
      rewrite list_elem_of_singleton, uses_insert_fresh by done. simpl. naive_solver.
    * pose proof (counted_add _ _ e g g' _ Ht (gi_counted s Hinv g' gt' Hg')) as Hc.
      by rewrite decide_False in Hc.
  + intros g' gt' [[<- <-]|[Hne Hg']]%lookup_insert_Some.
    * assert (forall x p, p <> Registered ->
        ~ uses_at (<[t := mkThread e g Registered]> (threads s)) g x p) as Hno.
      { intros x p Hp. rewrite uses_at_insert_registered by done. intros Hu.
        apply (Hun x), uses_uses_at. eauto. }
      split; simpl; [constructor| | |].
      -- intros x. split; [by intros ?%elem_of_nil|]. intros Hu. by apply Hno in Hu.
      -- intros t1 t2 Hu. by apply Hno in Hu.
      -- split; [done|]. intros x. by apply Hno.
    * eapply channel_ok_unseen; [|by apply (gi_channel s Hinv)].
      intros x p Hp. apply uses_at_insert_registered; naive_solver.
  + intros g' Hle. rewrite lookup_insert_ne by lia. apply (gi_fresh s Hinv). lia.
  + intros x th [[<- <-]|[Hne Hx]]%lookup_insert_Some; simpl.
    * rewrite !lookup_insert_eq. by split; [|eexists].
    * destruct (gi_thread s Hinv x th Hx). split.
      -- rewrite lookup_insert_ne; [done|]. congruence.
      -- apply lookup_insert_is_Some. destruct (decide (g = th_gate th)); auto.
  + intros e' g' [[<- <-]|[Hne He']]%lookup_insert_Some.
    * exists t, (mkThread e g Registered). by rewrite lookup_insert_eq.
    * destruct (gi_map s Hinv e' g' He') as (x & th & Hx & ? & ?).
      exists x, th. split; [|done]. rewrite lookup_insert_ne; congruence.
  + assert (forall e', gates s !! e' <> Some g) as Hng.
    { intros e' He'. destruct (gi_map s Hinv e' g He') as (x & th & Hx & _ & Hgt).
      apply (Hun x). by exists th. }
    intros e1 e2 g' [[<- <-]|[Hne1 H1]]%lookup_insert_Some
      [[<- Heq]|[Hne2 H2]]%lookup_insert_Some; try done.
    * by destruct (Hng e2).
    * subst g'. by destruct (Hng e1).
    * by eapply (gi_inj s Hinv).
Qed.

Lemma enter_register_inv t e s s' : gates_inv s -> enter_register t e s = Some s' -> gates_inv s'.
Proof.
  unfold enter_register. intros Hinv Hs.
  destruct (threads s !! t) as [th|] eqn:Ht; [done|].
  destruct (gates s !! e) as [g|] eqn:He.
  - destruct (heap s !! g) as [gt|] eqn:Hg; simpl in Hs; [|done]. injection Hs as <-.
    by apply register_existing_inv.
  - injection Hs as <-. by apply register_new_inv.
Qed.

(** One goroutine fewer. *)
Lemma counted_remove m t th g n :
  m !! t = Some th -> counted m g n ->
  counted (delete t m) g (if decide (th_gate th = g) then n - 1 else n)%Z.
Proof.
  intros Ht (L & Hnd & HL & Hlen).
  assert (forall x, uses (delete t m) g x <-> x <> t /\ uses m g x) as Hu.
  { intros x. rewrite !uses_uses_at. setoid_rewrite uses_at_delete. naive_solver. }
  case_decide as Hg.
  - assert (t ∈ L) as Hin by (apply HL; by exists th).
    apply elem_of_Permutation in Hin as [L' HLp].
    rewrite HLp in Hnd. apply NoDup_cons in Hnd as [Hnin Hnd].
    exists L'. split_and!; [done| |].
    + intros x. rewrite Hu, <- HL, HLp, elem_of_cons. naive_solver.
    + rewrite Hlen, HLp. simpl. lia.
  - exists L. split_and!; [done| |done]. intros x. rewrite Hu, HL. split; [|tauto].
    intros Hx. split; [|done]. intros ->. destruct Hx as (th' & Ht' & ?). congruence.
Qed.

(** A count of zero means that nobody uses the gate. *)
Lemma counted_zero m g n : counted m g n -> n = 0%Z <-> forall t, ~ uses m g t.
Proof.
  intros (L & _ & HL & ->). split.
  - intros Hn t Hu%HL. destruct L; [by apply elem_of_nil in Hu|]. simpl in Hn. lia.
  - intros Hno. destruct L as [|t L]; [done|]. exfalso. apply (Hno t), HL. constructor.
Qed.

Lemma release_inv t s s' : gates_inv s -> release t s = Some s' -> gates_inv s'.
Proof.
  unfold release. intros Hinv Hs.
  destruct (threads s !! t) as [th|] eqn:Ht; simpl in Hs; [|done].
  destruct (heap s !! th_gate th) as [gt|] eqn:Hg; simpl in Hs; [|done].
  assert (th_pc th = Leaving \/ th_pc th = Cancelled) as Hpc by (destruct (th_pc th); try done; auto).
  assert (s' = mkState (<[th_gate th := mkGate (slot gt) (sendq gt) (refs gt - 1)]> (heap s))
    (next_gate s) (if decide (refs gt - 1 = 0)%Z then delete (th_event th) (gates s) else gates s)
    (delete t (threads s))) as ->.
  { destruct (th_pc th); naive_solver. }
  destruct (gi_thread s Hinv t th Ht) as [He _].
  pose proof (counted_remove _ _ _ _ _ Ht (gi_counted s Hinv _ _ Hg)) as Hcnt.
  rewrite decide_True in Hcnt by done. pose proof (counted_zero _ _ _ Hcnt) as Hzero.
  assert (forall e g, (if decide (refs gt - 1 = 0)%Z then delete (th_event th) (gates s) else gates s) !! e
    = Some g -> gates s !! e = Some g) as Hsub.
  { intros e g. case_decide; [|done]. rewrite lookup_delete_Some. tauto. }
  split; simpl.
  - intros g gt' [[<- <-]|[Hne Hg']]%lookup_insert_Some; [done|].
    pose proof (counted_remove _ _ _ _ _ Ht (gi_counted s Hinv _ _ Hg')) as Hc.
    by rewrite decide_False in Hc.
  - intros g gt' Hl. assert (exists gt0 n, heap s !! g = Some gt0 /\ gt' = mkGate (slot gt0) (sendq gt0) n)
      as (gt0 & n & Hg0 & ->).
    { apply lookup_insert_Some in Hl as [[<- <-]|[_ Hg']]; [eauto|]. exists gt', (refs gt').
      split; [done|]. by destruct gt'. }
    apply channel_ok_refs. eapply channel_ok_unseen; [|by apply (gi_channel s Hinv)].
    intros x p Hp. rewrite uses_at_delete. split; [tauto|]. intros Hu. split; [|done].
    intros ->. destruct Hu as (th' & Ht' & _ & ?). rewrite Ht in Ht'. injection Ht' as <-.
    destruct Hp, Hpc; congruence.
  - intros g Hle. rewrite lookup_insert_ne; [by apply (gi_fresh s Hinv)|].
    intros <-. rewrite (gi_fresh s Hinv) in Hg by done. done.
  - intros x th' [Hne Hx]%lookup_delete_Some. destruct (gi_thread s Hinv x th' Hx) as [He' Hh'].
    split; [|apply lookup_insert_is_Some; destruct (decide (th_gate th = th_gate th')); auto].
    case_decide as Hz; [|done]. rewrite lookup_delete_ne; [done|]. intros Heq.
    rewrite <- Heq, He in He'. injection He' as Hgg. apply (proj1 Hzero Hz x).
    exists th'. by rewrite lookup_delete_ne.
  - intros e g He'. pose proof (Hsub e g He') as He0.
    destruct (gi_map s Hinv e g He0) as (x & th' & Hx & Hev & Hgt).
    destruct (decide (x = t)) as [->|Hne].
    2: { exists x, th'. by rewrite lookup_delete_ne. }
    rewrite Ht in Hx. injection Hx as <-. subst e g. case_decide as Hz.
    { by rewrite lookup_delete_eq in He'. }
    destruct Hcnt as (L & _ & HL & Hn). destruct L as [|y L]; [simpl in Hn; lia|].
    destruct (proj1 (HL y)) as (thy & [Hyt Hy]%lookup_delete_Some & Hgy); [constructor|].
    exists y, thy. rewrite lookup_delete_ne by done. split_and!; [done| |done].
    apply (gi_inj s Hinv _ _ (th_gate th)); [|done].
    rewrite <- Hgy. by apply (gi_thread s Hinv y).
  - intros e1 e2 g H1%Hsub H2%Hsub. by eapply (gi_inj s Hinv).
Qed.

(** ** Reachable states *)

Lemma newEventGates_inv : gates_inv newEventGates.
Proof. split; simpl; intros; simplify_map_eq. done. Qed.

Lemma step_inv l s s' : gates_inv s -> step l s = Some s' -> gates_inv s'.
Proof.
  destruct l; simpl; eauto using enter_register_inv, enter_send_inv, enter_cancel_inv,
    leave_receive_inv, release_inv.
Qed.

Lemma steps_inv ls s s' : gates_inv s -> steps ls s = Some s' -> gates_inv s'.
Proof.
  revert s. induction ls as [|l ls IH]; intros s Hinv Hs; simpl in Hs; [by simplify_eq|].
  destruct (step l s) as [s1|] eqn:Hl; simpl in Hs; [|done]. by eapply IH, Hs; eapply step_inv.
Qed.

(** ** Positions in the queue *)

Lemma filter_position (P : nat -> Prop) `{!forall x, Decision (P x)} (l : list nat) k x :
  l !! k = Some x -> P x -> exists k', k' <= k /\ filter P l !! k' = Some x.
Proof.
  revert k. induction l as [|y l IH]; intros k Hk Hx; [done|]. rewrite filter_cons.
  destruct k as [|k]; simpl in Hk.
  - simplify_eq. rewrite decide_True by done. by exists 0.
  - destruct (IH k Hk Hx) as (k' & Hle & Hk'). case_decide.
    + exists (S k'). split; [lia|done].
    + exists k'. split; [lia|done].
Qed.

(** A goroutine that is queued is queued at its own gate. *)
Lemma queued_gate s g gt t th :
  gates_inv s -> heap s !! g = Some gt -> t ∈ sendq gt -> threads s !! t = Some th ->
  th_gate th = g /\ th_pc th = Waiting.
Proof.
  intros Hinv Hg Hin Ht. apply (co_queue _ _ _ (gi_channel s Hinv g gt Hg)) in Hin.
  by rewrite (uses_at_pc _ _ _ _ _ Ht) in Hin.
Qed.

(** How one step can make [t] the holder. *)
Lemma step_admits l s s' t th :
  gates_inv s -> step l s = Some s' -> threads s !! t = Some th -> th_pc th <> Inside ->
  (exists th', threads s' !! t = Some th' /\ th_pc th' = Inside) ->
  exists gt, heap s !! th_gate th = Some gt /\
    ((th_pc th = Waiting /\ head (sendq gt) = Some t) \/ (th_pc th = Registered /\ sendq gt = [])).
Proof.
  intros Hinv Hs Ht Hpc (th' & Ht' & Hin).
  assert (threads s' !! t = threads s !! t -> False) as Hsame by congruence.
  destruct l as [t0 e|t0|t0|t0|t0]; simpl in Hs.
  - unfold enter_register in Hs. destruct (threads s !! t0) eqn:H0; [done|].
    exfalso. apply Hsame. destruct (gates s !! e) as [g|];
      [destruct (heap s !! g); simpl in Hs; [|done]|]; injection Hs as <-; simpl;
      by rewrite lookup_insert_ne by congruence.
  - unfold enter_send in Hs. destruct (threads s !! t0) as [th0|] eqn:H0; simpl in Hs; [|done].
    destruct (heap s !! th_gate th0) as [gt|] eqn:Hg; simpl in Hs; [|done]. case_decide as Hp0; [|done].
    destruct (decide (t0 = t)) as [->|Hne].
    + rewrite Ht in H0. injection H0 as <-. exists gt. split; [done|]. right. split; [done|].
      pose proof (co_slot _ _ _ (gi_channel s Hinv _ gt Hg)) as Hslot.
      destruct (slot gt); [|by destruct Hslot]. injection Hs as <-. simpl in Ht'.
      rewrite lookup_insert_eq in Ht'. by injection Ht' as <-.
    + exfalso. apply Hsame. destruct (slot gt); injection Hs as <-; simpl; by rewrite lookup_insert_ne.
  - unfold enter_cancel in Hs. destruct (threads s !! t0) as [th0|] eqn:H0; simpl in Hs; [|done].
    destruct (heap s !! th_gate th0) as [gt|] eqn:Hg; simpl in Hs; [|done]. exfalso.
    destruct (decide (t0 = t)) as [->|Hne].
    + destruct (th_pc th0); try done; injection Hs as <-; simpl in Ht';
        rewrite lookup_insert_eq in Ht'; by injection Ht' as <-.
    + apply Hsame. destruct (th_pc th0); try done; injection Hs as <-; simpl; by rewrite lookup_insert_ne.
  - unfold leave_receive in Hs. destruct (threads s !! t0) as [th0|] eqn:H0; simpl in Hs; [|done].
    destruct (heap s !! th_gate th0) as [gt|] eqn:Hg; simpl in Hs; [|done]. case_decide as Hp0; [|done].
    assert (t0 <> t) as Hne by congruence.
    destruct (sendq gt) as [|t1 q] eqn:Hq.
    + exfalso. apply Hsame. injection Hs as <-. simpl. by rewrite lookup_insert_ne.
    + destruct (threads s !! t1) as [th1|] eqn:H1; simpl in Hs; [|done].
      destruct (decide (t1 = t)) as [->|Hne1].
      * destruct (queued_gate s _ gt t th Hinv Hg) as [Hgt Hw]; [rewrite Hq; constructor|done|].
        exists gt. rewrite Hgt. split; [done|]. left. by rewrite Hq.
      * exfalso. apply Hsame. injection Hs as <-. simpl. by rewrite !lookup_insert_ne.
  - unfold release in Hs. destruct (threads s !! t0) as [th0|] eqn:H0; simpl in Hs; [|done].
    destruct (heap s !! th_gate th0) as [gt|] eqn:Hg; simpl in Hs; [|done]. exfalso.
    destruct (decide (t0 = t)) as [->|Hne].
    + destruct (th_pc th0); try done; injection Hs as <-; simpl in Ht'; by rewrite lookup_delete_eq in Ht'.
    + apply Hsame. destruct (th_pc th0); try done; injection Hs as <-; simpl; by rewrite lookup_delete_ne.
Qed.

(** A step leaves the queue of a gate as it is, or is one of the three queue
    operations on it. *)
Lemma step_queue l s s' g gt :
  gates_inv s -> heap s !! g = Some gt -> step l s = Some s' ->
  exists gt', heap s' !! g = Some gt' /\
    (sendq gt' = sendq gt \/ (exists t, sendq gt' = sendq gt ++ [t]) \/
     (exists t, sendq gt' = filter (fun t' => t' <> t) (sendq gt) /\
        exists th', threads s' !! t = Some th' /\ th_pc th' = Cancelled) \/
     (exists t, sendq gt = t :: sendq gt' /\
        exists th', threads s' !! t = Some th' /\ th_pc th' = Inside)).
Proof.
  intros Hinv Hg Hs. destruct l as [t0 e|t0|t0|t0|t0]; simpl in Hs.
  - unfold enter_register in Hs. destruct (threads s !! t0); [done|].
    destruct (gates s !! e) as [g0|]; [destruct (heap s !! g0) as [gt0|] eqn:Hg0; simpl in Hs; [|done]|];
      injection Hs as <-; simpl.
    + destruct (decide (g0 = g)) as [->|]; [rewrite lookup_insert_eq|rewrite lookup_insert_ne by done];
        naive_solver.
    + rewrite lookup_insert_ne; [eauto|]. intros <-. rewrite (gi_fresh s Hinv) in Hg; done.
  - unfold enter_send in Hs. destruct (threads s !! t0) as [th0|]; simpl in Hs; [|done].
    destruct (heap s !! th_gate th0) as [gt0|] eqn:Hg0; simpl in Hs; [|done]. case_decide; [|done].
    destruct (slot gt0); injection Hs as <-; simpl;
      (destruct (decide (th_gate th0 = g)) as [Heq|];
        [rewrite Heq in *; rewrite lookup_insert_eq; rewrite Hg in Hg0; injection Hg0 as <-
        |rewrite lookup_insert_ne by done]); eauto 7.
  - unfold enter_cancel in Hs. destruct (threads s !! t0) as [th0|]; simpl in Hs; [|done].
    destruct (heap s !! th_gate th0) as [gt0|] eqn:Hg0; simpl in Hs; [|done].
    destruct (th_pc th0); try done; injection Hs as <-; simpl; [by eauto|].
    destruct (decide (th_gate th0 = g)) as [Heq|]; [|rewrite lookup_insert_ne by done; by eauto].
    rewrite Heq in *. rewrite lookup_insert_eq. rewrite Hg in Hg0. injection Hg0 as <-.
    eexists. split; [done|]. do 2 right. left. exists t0. split; [done|].
    rewrite lookup_insert_eq. eauto.
  - unfold leave_receive in Hs. destruct (threads s !! t0) as [th0|]; simpl in Hs; [|done].
    destruct (heap s !! th_gate th0) as [gt0|] eqn:Hg0; simpl in Hs; [|done]. case_decide; [|done].
    destruct (sendq gt0) as [|t1 q] eqn:Hq0;
      [|destruct (threads s !! t1) as [th1|]; simpl in Hs; [|done]]; injection Hs as <-; simpl;
      (destruct (decide (th_gate th0 = g)) as [Heq|]; [|rewrite lookup_insert_ne by done; by eauto]);
      rewrite Heq in *; rewrite lookup_insert_eq; rewrite Hg in Hg0; injection Hg0 as <-;
      (eexists; split; [done|]); simpl; [by auto|].
    do 3 right. exists t1. split; [done|]. rewrite lookup_insert_eq. eauto.
  - unfold release in Hs. destruct (threads s !! t0) as [th0|]; simpl in Hs; [|done].
    destruct (heap s !! th_gate th0) as [gt0|] eqn:Hg0; simpl in Hs; [|done].
    destruct (th_pc th0); try done; injection Hs as <-; simpl;
      (destruct (decide (th_gate th0 = g)) as [Heq|]; [|rewrite lookup_insert_ne by done; by eauto]);
      rewrite Heq in *; rewrite lookup_insert_eq; rewrite Hg in Hg0; injection Hg0 as <-; eauto.
Qed.

(** ** Properties *)

(** C9: the gate excludes.  In every state the goroutines can reach, in any
    interleaving and with any cancellations, at most one holds the gate of an
    event. *)
Theorem gate_mutual_exclusion ls s t1 t2 th1 th2 :
  steps ls newEventGates = Some s ->
  threads s !! t1 = Some th1 -> threads s !! t2 = Some th2 ->
  th_pc th1 = Inside -> th_pc th2 = Inside -> th_event th1 = th_event th2 -> t1 = t2.
Proof.
  intros Hs H1 H2 Hp1 Hp2 He. pose proof (steps_inv _ _ _ newEventGates_inv Hs) as Hinv.
  destruct (gi_thread s Hinv t1 th1 H1) as [Hg1 [gt Hh]].
  destruct (gi_thread s Hinv t2 th2 H2) as [Hg2 _]. rewrite He, Hg2 in Hg1. injection Hg1 as Hg.
  apply (co_one _ _ _ (gi_channel s Hinv _ gt Hh)); [by exists th1|by exists th2].
Qed.

Lemma gate_mutual_exclusion_witness :
  exists s th, steps [LRegister 1 7; LRegister 2 7; LSend 1; LSend 2] newEventGates = Some s /\
    threads s !! 1 = Some th /\ forall t2 th2, threads s !! t2 = Some th2 ->
      th_pc th2 = Inside -> th_event th2 = 7%Z -> 1 = t2.
Proof.
  eexists _, (mkThread 7 0 Inside). split; [vm_compute; reflexivity|].
  split; [vm_compute; reflexivity|]. intros t2 th2 H2 Hp2 He2.
  eapply (gate_mutual_exclusion [LRegister 1 7; LRegister 2 7; LSend 1; LSend 2] _ 1 t2
    (mkThread 7 0 Inside) th2).
  - vm_compute. reflexivity.
  - vm_compute. reflexivity.
  - exact H2.
  - reflexivity.
  - exact Hp2.
  - by rewrite He2.
Defined.

(** C31: no gate leaks and none is dropped early.  In every reachable state an
    event is in the map exactly while some goroutine is between [enter] and
    the end of [leave] for it, and the gate's reference count is the number
    of these goroutines; when all are gone the map is empty. *)
Theorem gate_no_leak ls s :
  steps ls newEventGates = Some s ->
  (forall e, is_Some (gates s !! e) <-> exists t th, threads s !! t = Some th /\ th_event th = e) /\
  (forall e g gt, gates s !! e = Some g -> heap s !! g = Some gt -> counted (threads s) g (refs gt)) /\
  (threads s = ∅ -> size s = 0).
Proof.
  intros Hs. pose proof (steps_inv _ _ _ newEventGates_inv Hs) as Hinv.
  assert (forall e, is_Some (gates s !! e) <->
    exists t th, threads s !! t = Some th /\ th_event th = e) as Hmap.
  { intros e. split.
    - intros [g He]. destruct (gi_map s Hinv e g He) as (t & th & Ht & Hev & _). eauto.
    - intros (t & th & Ht & <-). destruct (gi_thread s Hinv t th Ht) as [-> _]. by eexists. }
  split_and!; [done| |].
  - intros e g gt _ Hg. by apply (gi_counted s Hinv).
  - intros Hempty. unfold size. apply map_size_empty_iff, map_eq. intros e. rewrite lookup_empty.
    apply eq_None_not_Some. intros (t & th & Ht & _)%Hmap. by rewrite Hempty, lookup_empty in Ht.
Qed.

Lemma gate_no_leak_witness :
  exists s, steps [LRegister 1 7; LSend 1; LReceive 1; LRelease 1] newEventGates = Some s /\ size s = 0.
Proof.
  eexists. split; [vm_compute; reflexivity|].
  apply (gate_no_leak [LRegister 1 7; LSend 1; LReceive 1; LRelease 1]); vm_compute; reflexivity.
Defined.

(** First come, first served.  Whatever step makes a goroutine the holder,
    it was the oldest waiter, or it had just arrived and nobody was waiting. *)
Theorem gate_fifo ls s l s' t th th' :
  steps ls newEventGates = Some s -> step l s = Some s' ->
  threads s !! t = Some th -> th_pc th <> Inside ->
  threads s' !! t = Some th' -> th_pc th' = Inside ->
  exists gt, heap s !! th_gate th = Some gt /\
    ((th_pc th = Waiting /\ head (sendq gt) = Some t) \/ (th_pc th = Registered /\ sendq gt = [])).
Proof.
  intros Hs Hl Ht Hp Ht' Hp'. pose proof (steps_inv _ _ _ newEventGates_inv Hs) as Hinv.
  eapply step_admits; eauto.
Qed.

(** Three goroutines at event 7, the first inside. *)
Definition crowd : list label :=
  [LRegister 1 7; LRegister 2 7; LRegister 3 7; LSend 1; LSend 2; LSend 3].

Lemma gate_fifo_witness :
  exists s gt, steps crowd newEventGates = Some s /\ heap s !! 0 = Some gt /\
    head (sendq gt) = Some 2.
Proof.
  destruct (steps crowd newEventGates) as [s|] eqn:Hs; [|by vm_compute in Hs].
  destruct (step (LReceive 1) s) as [s'|] eqn:Hl.
  2: { exfalso. vm_compute in Hs. injection Hs as <-. by vm_compute in Hl. }
  destruct (gate_fifo crowd s (LReceive 1) s' 2 (mkThread 7 0 Waiting) (mkThread 7 0 Inside))
    as (gt & Hg & [[_ Hh]|[? _]]); try done.
  - vm_compute in Hs. injection Hs as <-. vm_compute. reflexivity.
  - vm_compute in Hs. injection Hs as <-. vm_compute in Hl. injection Hl as <-. vm_compute. reflexivity.
  - exists s, gt. auto.
Defined.

(** No deadlock and no starvation.  While a goroutine waits at position
    [k], some goroutine holds the gate and its [leave] can proceed; that step
    admits the waiter if it is first, and otherwise moves it up by one. *)
Theorem gate_progress ls s t th gt k :
  steps ls newEventGates = Some s -> threads s !! t = Some th ->
  heap s !! th_gate th = Some gt -> sendq gt !! k = Some t ->
  exists holder s', step (LReceive holder) s = Some s' /\
    if decide (k = 0) then uses_at (threads s') (th_gate th) t Inside
    else exists gt', heap s' !! th_gate th = Some gt' /\ sendq gt' !! (k - 1) = Some t.
Proof.
  intros Hs Ht Hg Hk. pose proof (steps_inv _ _ _ newEventGates_inv Hs) as Hinv.
  destruct (gi_channel s Hinv _ gt Hg) as [Hnd Hq _ Hslot].
  destruct (slot gt); [|destruct Hslot as [Hn _]; by rewrite Hn in Hk].
  destruct Hslot as (holder & th0 & H0 & Hg0 & Hp0).
  destruct (sendq gt) as [|t1 q] eqn:Hsq; [done|].
  destruct (proj1 (Hq t1)) as (th1 & H1 & Hg1 & _); [constructor|].
  exists holder. eexists. split.
  { simpl. unfold leave_receive. rewrite H0. simpl. rewrite Hg0, Hg. simpl.
    rewrite decide_True by done. rewrite Hsq, H1. reflexivity. }
  destruct k as [|k]; simpl in *.
  - injection Hk as ->. rewrite uses_at_insert. left. simpl. by rewrite Hg1.
  - exists (mkGate true q (refs gt)). rewrite lookup_insert_eq, Nat.sub_0_r. done.
Qed.

Lemma gate_progress_witness :
  exists s holder s', steps crowd newEventGates = Some s /\ step (LReceive holder) s = Some s' /\
    exists gt', heap s' !! 0 = Some gt' /\ sendq gt' !! 0 = Some 3.
Proof.
  destruct (steps crowd newEventGates) as [s|] eqn:Hs; [|by vm_compute in Hs].
  destruct (gate_progress crowd s 3 (mkThread 7 0 Waiting) (mkGate true [2; 3] 3) 1)
    as (holder & s' & Hl & Hpos).
  - exact Hs.
  - vm_compute in Hs. injection Hs as <-. vm_compute. reflexivity.
  - vm_compute in Hs. injection Hs as <-. vm_compute. reflexivity.
  - reflexivity.
  - exists s, holder, s'. split; [done|]. split; [exact Hl|exact Hpos].
Defined.

(** Nobody is overtaken.  Whatever step anybody takes, a goroutine that
    keeps waiting never moves back in the queue. *)
Theorem gate_no_overtaking ls s l s' t th gt k :
  steps ls newEventGates = Some s -> step l s = Some s' ->
  heap s !! th_gate th = Some gt -> sendq gt !! k = Some t ->
  threads s' !! t = Some th -> th_pc th = Waiting ->
  exists gt' k', heap s' !! th_gate th = Some gt' /\ sendq gt' !! k' = Some t /\ k' <= k.
Proof.
  intros Hs Hl Hg Hk Ht' Hp. pose proof (steps_inv _ _ _ newEventGates_inv Hs) as Hinv.
  destruct (step_queue l s s' _ gt Hinv Hg Hl) as (gt' & Hg' & Hcases). exists gt'.
  destruct Hcases as [Hq|[[x Hq]|[(x & Hq & th' & Hx & Hc)|(x & Hq & th' & Hx & Hc)]]].
  - exists k. by rewrite Hq.
  - exists k. rewrite Hq. split_and!; [done|by apply lookup_app_l_Some|done].
  - rewrite Hq. destruct (filter_position (fun t' => t' <> x) (sendq gt) k t Hk) as (k' & ? & ?);
      [congruence|]. by exists k'.
  - rewrite Hq in Hk. destruct k as [|k]; simpl in Hk; [congruence|]. exists k.
    split_and!; [done..|lia].
Qed.

Lemma gate_no_overtaking_witness :
  exists s s' gt' k', steps crowd newEventGates = Some s /\ step (LCancel 2) s = Some s' /\
    heap s' !! 0 = Some gt' /\ sendq gt' !! k' = Some 3 /\ k' <= 1.
Proof.
  destruct (steps crowd newEventGates) as [s|] eqn:Hs; [|by vm_compute in Hs].
  destruct (step (LCancel 2) s) as [s'|] eqn:Hl.
  2: { exfalso. vm_compute in Hs. injection Hs as <-. by vm_compute in Hl. }
  destruct (gate_no_overtaking crowd s (LCancel 2) s' 3 (mkThread 7 0 Waiting) (mkGate true [2; 3] 3) 1)
    as (gt' & k' & Hg & Hk & Hle); try done.
  - vm_compute in Hs. injection Hs as <-. vm_compute. reflexivity.
  - vm_compute in Hs. injection Hs as <-. vm_compute in Hl. injection Hl as <-. vm_compute. reflexivity.
  - exists s, s', gt', k'. auto.
Defined.
