(* ===== verification/Http.v ===== *)
(** * The HTTP interface

    [src/internal/httpx/respond.go], the handlers of the four services,
    [Authenticate] and [RequireAdmin] of [src/internal/middleware/auth.go] and
    the route table of [src/cmd/server/main.go].  The token parser and the rate
    limiter are interfaces; path matching follows the patterns of the route
    table.  The access rules of [src/README.md] are written down apart from the
    router's groups ([documented]), which are proved to follow them. *)

From S2P Require Import Prelude GoFmt GoString GoTime Models Seal Shuffle Database Effects Invariant.
From S2P Require Import Growth Booking Events Scenario Draw Lock Auth GoJson Codec.
From Stdlib Require Import Ascii.

(** ** Responses *)

(** [APIResponse.Data]. *)
Inductive payload :=
| PNone
| PUser (u : User)
| PLogin (r : LoginResponse)
| PEvent (e : Event)
| PEvents (l : list Event)
| PBookings (l : list Booking)
| PDraw (d : DrawResult)
| PMessage (s : string).

(** The status line, the headers the handlers set and the [APIResponse]. *)
Record response := mkResponse {
  rs_status : Z;
  rs_success : bool;
  rs_data : payload;
  rs_error : string;
  rs_code : string;
  rs_meta : option Meta;
  rs_retry_after : option string
}.

Definition Respond (status : Z) (success : bool) (data : payload) (errMsg : string) : response :=
  mkResponse status success data errMsg "" None None.
Definition Error (status : Z) (code msg : string) : response :=
  mkResponse status false PNone msg code None None.
Definition RespondMeta (status : Z) (data : payload) (meta : Meta) : response :=
  mkResponse status true data "" "" (Some meta) None.

Definition BadRequest (msg : string) : response := Respond 400 false PNone msg.
Definition Unauthorized (msg : string) : response := Respond 401 false PNone msg.
Definition Forbidden (msg : string) : response := Respond 403 false PNone msg.
Definition NotFound (msg : string) : response := Respond 404 false PNone msg.
Definition Conflict (msg : string) : response := Respond 409 false PNone msg.
Definition Internal (msg : string) : response := Respond 500 false PNone msg.

(** [w.Header().Set("Retry-After", v)]. *)
Definition with_retry_after (v : string) (r : response) : response :=
  mkResponse (rs_status r) (rs_success r) (rs_data r) (rs_error r) (rs_code r) (rs_meta r) (Some v).

(** ** Error texts *)

Definition booking_text (e : Booking.booking_error) : string :=
  match e with
  | Booking.ErrEventBusy => "event is busy, please retry"
  | Booking.ErrEventNotFound => "event not found"
  | Booking.ErrEventNotOpen st =>
      "event is not open for booking (current status: " +:+ status_string st +:+ ")"
  | Booking.ErrEventFull b c =>
      "event is fully booked (" +:+ FormatInt b +:+ "/" +:+ FormatInt c +:+ ")"
  | Booking.ErrAlreadyBooked => "you have already booked this event"
  | Booking.ErrInvalidInput => "invalid input"
  | Booking.Other c => c
  end.

Definition draw_text (e : Draw.draw_error) : string :=
  match e with
  | Draw.ErrEventNotFound => "event not found"
  | Draw.ErrEventNotClosed st =>
      "event must be closed before drawing (current status: " +:+ status_string st +:+ ")"
  | Draw.ErrEventAlreadyDrawn => "event has already been drawn"
  | Draw.ErrEventCancelled => "event has been cancelled"
  | Draw.ErrNoParticipants => "no participants in the lottery pool"
  | Draw.ErrDrawNotDue => "the event's draw time has not been reached"
  | Draw.ErrResultsUnavailable => "no draw results available for this event"
  | Draw.Other c => c
  end.

(** [%q] of a status. *)
Definition quoted (s : string) : string :=
  let q := String (ascii_of_N 34) EmptyString in q +:+ s +:+ q.

(** [verb] is ["close"] or ["cancel"]. *)
Definition event_text (verb : string) (e : Events.event_error) : string :=
  match e with
  | Events.ErrInvalidInput why => "invalid input: " +:+ why
  | Events.ErrEventNotFound => "event not found"
  | Events.ErrInvalidTransition st =>
      "event status does not permit this transition: cannot " +:+ verb +:+ " event in status "
        +:+ quoted (status_string st)
  | Events.Other c => c
  end.

Definition auth_text (e : Auth.auth_error) : string :=
  match e with
  | Auth.ErrInvalidInput why => "invalid input: " +:+ why
  | Auth.ErrInvalidCredentials => "invalid credentials"
  | Auth.ErrEmailTaken => "email already registered"
  | Auth.ErrUserNotFound => "user not found"
  | Auth.Other c => c
  end.

(** ** Requests *)

(** What the handlers read of a request: the method, the segments of the path,
    the query parameters ([""] if absent), the [Authorization] header ([""] if
    absent) and the body. *)
Record http_request := mkHttpRequest {
  rq_method : string;
  rq_path : list string;
  rq_query : string -> string;
  rq_authorization : string;
  rq_body : string
}.

(** The values [Authenticate] puts into the request context. *)
Record identity := mkIdentity { id_user : Z; id_role : string }.

(** [strconv.ParseInt(chi.URLParam(r, ...), 10, 64)] with the check that the
    number is positive. *)
Definition parseID (param : string) : option Z :=
  match ParseInt param with
  | (id, None) => if decide (id <= 0)%Z then None else Some id
  | (_, Some _) => None
  end.

(** ** Handlers *)

Section Handlers.
Context `{UnicodeLower, Bcrypt, Mail, Signer} {R : Type} `{RandSource R}.
Context `{JSONErrors}.
Variables (maxWinners lockTTL lockWait : Z) (jwtSecret : string) (jwtExpiry : Z).

(** [ident] is what [GetUserID] and [GetRole] find in the context. *)
Implicit Types (ident : option identity) (rq : http_request).

(** *** [src/internal/lottery/handler.go] *)

Definition draw_failure (err : Draw.draw_error) : response :=
  match err with
  | Draw.ErrEventNotFound => Error 404 "event_not_found" (draw_text err)
  | Draw.ErrEventAlreadyDrawn => Error 409 "already_drawn" (draw_text err)
  | Draw.ErrEventCancelled => Error 409 "event_cancelled" (draw_text err)
  | Draw.ErrEventNotClosed _ => Error 409 "event_not_closed" (draw_text err)
  | Draw.ErrDrawNotDue => Error 409 "draw_not_due" (draw_text err)
  | Draw.ErrNoParticipants => Error 409 "no_participants" (draw_text err)
  | _ => Error 500 "internal" "could not run draw"
  end.

Definition handle_Draw (rand : R) (eventID : string) : program response :=
  match parseID eventID with
  | None => mret (BadRequest "invalid event id")
  | Some eventID =>
    r ← Draw.RunDraw rand eventID;
    match r with
    | Err err => mret (draw_failure err)
    | Ok result => mret (Respond 200 true (PDraw result) "")
    end
  end.

Definition handle_Results (eventID : string) : program response :=
  match parseID eventID with
  | None => mret (BadRequest "invalid event id")
  | Some eventID =>
    r ← Draw.GetResults eventID;
    match r with
    | Err Draw.ErrResultsUnavailable => mret (NotFound (draw_text Draw.ErrResultsUnavailable))
    | Err _ => mret (Internal "could not fetch results")
    | Ok result => mret (Respond 200 true (PDraw result) "")
    end
  end.

(** *** [src/internal/booking/handler.go] *)

Definition book_failure (err : Booking.booking_error) : response :=
  match err with
  | Booking.ErrEventBusy => with_retry_after "1" (Error 503 "event_busy" (booking_text err))
  | Booking.ErrAlreadyBooked => Error 409 "already_booked" (booking_text err)
  | Booking.ErrEventNotOpen _ => Error 409 "event_not_open" (booking_text err)
  | Booking.ErrEventFull _ _ => Error 409 "event_full" (booking_text err)
  | Booking.ErrEventNotFound => Error 404 "event_not_found" (booking_text err)
  | Booking.ErrInvalidInput => Error 400 "invalid_input" (booking_text err)
  | Booking.Other _ => Error 500 "internal" "could not create booking"
  end.

Definition booked_message : string :=
  "booking confirmed — you are now eligible for the lottery".

Definition handle_Book ident (eventID : string) : program response :=
  match parseID eventID with
  | None => mret (BadRequest "invalid event id")
  | Some eventID =>
    match ident with
    | None => mret (Unauthorized "unauthenticated")
    | Some i =>
      r ← BookWithLock lockTTL lockWait eventID (id_user i);
      match r with
      | Err err => mret (book_failure err)
      | Ok _ => mret (Respond 201 true (PMessage booked_message) "")
      end
    end
  end.

Definition handle_MyBookings ident : program response :=
  match ident with
  | None => mret (Unauthorized "unauthenticated")
  | Some i =>
    r ← Booking.UserBookings (id_user i);
    match r with
    | Err _ => mret (Internal "failed to fetch bookings")
    | Ok bookings => mret (Respond 200 true (PBookings bookings) "")
    end
  end.

Definition handle_ListByEvent (eventID : string) : program response :=
  match parseID eventID with
  | None => mret (BadRequest "invalid event id")
  | Some eventID =>
    r ← Booking.GetByEvent eventID;
    match r with
    | Err _ => mret (Internal "failed to fetch bookings")
    | Ok bookings => mret (Respond 200 true (PBookings bookings) "")
    end
  end.

(** *** [src/internal/event/handler.go] *)

Definition handle_Create ident rq : program response :=
  match DecodeJSON (A := CreateEventRequest) (rq_body rq) with
  | Err e => mret (BadRequest ("invalid request body: " +:+ e))
  | Ok req =>
    match ident with
    | None => mret (Unauthorized "unauthenticated")
    | Some i =>
      r ← Events.Create maxWinners req (id_user i);
      match r with
      | Err (Events.ErrInvalidInput _ as e) => mret (BadRequest (event_text "" e))
      | Err _ => mret (Internal "could not create event")
      | Ok event => mret (Respond 201 true (PEvent event) "")
      end
    end
  end.

Definition handle_GetByID (id : string) : program response :=
  match parseID id with
  | None => mret (BadRequest "invalid id")
  | Some id =>
    r ← Events.GetByID id;
    match r with
    | Err Events.ErrEventNotFound => mret (NotFound "event not found")
    | Err _ => mret (Internal "could not fetch event")
    | Ok event => mret (Respond 200 true (PEvent event) "")
    end
  end.

Definition handle_List rq : program response :=
  let status := rq_query rq "status" in
  let page := (Atoi (rq_query rq "page")).1 in
  let limit := (Atoi (rq_query rq "limit")).1 in
  r ← Events.List_ status page limit;
  match r with
  | Err _ => mret (Internal "failed to list events")
  | Ok (events, total) =>
      mret (RespondMeta 200 (PEvents events)
              (mkMeta total (Events.clamp_page page) (Events.clamp_limit limit)))
  end.

Definition transition_failure (verb internal : string) (err : Events.event_error) : response :=
  match err with
  | Events.ErrEventNotFound => NotFound "event not found"
  | Events.ErrInvalidTransition _ => Conflict (event_text verb err)
  | _ => Internal internal
  end.

Definition handle_Close (id : string) : program response :=
  match parseID id with
  | None => mret (BadRequest "invalid id")
  | Some id =>
    r ← Events.Close id;
    match r with
    | Err err => mret (transition_failure "close" "could not close event" err)
    | Ok event => mret (Respond 200 true (PEvent event) "")
    end
  end.

Definition handle_Cancel (id : string) : program response :=
  match parseID id with
  | None => mret (BadRequest "invalid id")
  | Some id =>
    r ← Events.Cancel id;
    match r with
    | Err err => mret (transition_failure "cancel" "could not cancel event" err)
    | Ok event => mret (Respond 200 true (PEvent event) "")
    end
  end.

(** *** [src/internal/auth/handler.go] *)

Definition handle_Register rq : program response :=
  match DecodeJSON (A := RegisterRequest) (rq_body rq) with
  | Err e => mret (BadRequest ("invalid request body: " +:+ e))
  | Ok req =>
    r ← Auth.Register req;
    match r with
    | Err Auth.ErrEmailTaken => mret (Conflict (auth_text Auth.ErrEmailTaken))
    | Err (Auth.ErrInvalidInput _ as e) => mret (BadRequest (auth_text e))
    | Err _ => mret (Internal "could not register user")
    | Ok user => mret (Respond 201 true (PUser user) "")
    end
  end.

Definition handle_Login rq : program response :=
  match DecodeJSON (A := LoginRequest) (rq_body rq) with
  | Err e => mret (BadRequest ("invalid request body: " +:+ e))
  | Ok req =>
    r ← Auth.Login jwtSecret jwtExpiry req;
    match r with
    | Err Auth.ErrInvalidCredentials => mret (Unauthorized (auth_text Auth.ErrInvalidCredentials))
    | Err _ => mret (Internal "could not authenticate")
    | Ok resp => mret (Respond 200 true (PLogin resp) "")
    end
  end.

Definition handle_Me ident : program response :=
  match ident with
  | None => mret (Unauthorized "unauthenticated")
  | Some i =>
    r ← Auth.Me (id_user i);
    match r with
    | Err Auth.ErrUserNotFound => mret (NotFound "user not found")
    | Err _ => mret (Internal "could not fetch user")
    | Ok user => mret (Respond 200 true (PUser user) "")
    end
  end.

(** Unlike the other handlers this one accepts identifiers that are not
    positive. *)
Definition handle_PromoteToAdmin (id : string) : program response :=
  match ParseInt id with
  | (_, Some _) => mret (BadRequest "invalid user id")
  | (userID, None) =>
    r ← Auth.PromoteToAdmin userID;
    match r with
    | Err Auth.ErrUserNotFound => mret (NotFound "user not found")
    | Err _ => mret (Internal "could not promote user")
    | Ok user => mret (Respond 200 true (PUser user) "")
    end
  end.

(** ** Authentication *)

(** [jwt.ParseWithClaims] with the options of [Authenticate] (HMAC key, method
    HS256, this issuer) at the time [now]: the claims of a valid token. *)
Class TokenParser := ParseWithClaims : string -> string -> Z -> option Claims.
Context `{TokenParser}.

(** [strings.SplitN(s, " ", 2)]: the parts before and after the first space. *)
Fixpoint cut_space (l : list ascii) : option (list ascii * list ascii) :=
  match l with
  | [] => None
  | c :: l' => if decide (c = " "%char) then Some ([], l')
               else match cut_space l' with
               | Some (a, b) => Some (c :: a, b)
               | None => None
               end
  end.

(** [strings.EqualFold(s, "bearer")]: no letter beyond ASCII folds to one of
    these. *)
Definition is_bearer (scheme : list ascii) : bool :=
  bool_decide (lower_byte <$> scheme = chars "bearer").

(** The token of an [Authorization] header. *)
Definition bearer_token (header : string) : option string :=
  match cut_space (chars header) with
  | Some (scheme, token) =>
      if is_bearer scheme && negb (bool_decide (token = []))
      then Some (String.string_of_list_ascii token) else None
  | None => None
  end.

Definition Authenticate rq : program (result response identity) :=
  if decide (rq_authorization rq = "")
  then mret (Err (Unauthorized "missing Authorization header"))
  else match bearer_token (rq_authorization rq) with
  | None => mret (Err (Unauthorized "malformed Authorization header"))
  | Some token =>
    now ← perform TimeNow;
    match ParseWithClaims token jwtSecret now with
    | None => mret (Err (Unauthorized "invalid or expired token"))
    | Some claims => mret (Ok (mkIdentity (cl_UserID claims) (cl_Role claims)))
    end
  end.

Definition RequireAdmin ident : result response unit :=
  match ident with
  | Some i => if decide (id_role i = "admin") then Ok tt
              else Err (Forbidden "forbidden: admin only")
  | None => Err (Forbidden "forbidden: admin only")
  end.

(** ** Routes *)

Inductive endpoint :=
| EpRegister | EpLogin
| EpList | EpGetEvent (id : string) | EpResults (eventID : string)
| EpMe | EpBook (eventID : string) | EpMyBookings
| EpCreate | EpClose (id : string) | EpCancel (id : string)
| EpListByEvent (eventID : string) | EpDraw (eventID : string) | EpPromote (id : string).

(** The route table of [run]; a path parameter matches one non-empty
    segment. *)
Definition route (method : string) (path : list string) : option endpoint :=
  if decide (method = "GET") then
    match path with
    | ["events"] => Some EpList
    | ["auth"; "me"] => Some EpMe
    | ["me"; "bookings"] => Some EpMyBookings
    | ["events"; x] => if decide (x = "") then None else Some (EpGetEvent x)
    | ["events"; x; "results"] => if decide (x = "") then None else Some (EpResults x)
    | ["events"; x; "bookings"] => if decide (x = "") then None else Some (EpListByEvent x)
    | _ => None
    end
  else if decide (method = "POST") then
    match path with
    | ["auth"; "register"] => Some EpRegister
    | ["auth"; "login"] => Some EpLogin
    | ["events"] => Some EpCreate
    | ["events"; x; "book"] => if decide (x = "") then None else Some (EpBook x)
    | ["events"; x; "draw"] => if decide (x = "") then None else Some (EpDraw x)
    | ["admin"; "users"; x; "promote"] => if decide (x = "") then None else Some (EpPromote x)
    | _ => None
    end
  else if decide (method = "PUT") then
    match path with
    | ["events"; x; "close"] => if decide (x = "") then None else Some (EpClose x)
    | ["events"; x; "cancel"] => if decide (x = "") then None else Some (EpCancel x)
    | _ => None
    end
  else None.

(** The groups of the router. *)
Inductive access := Public | Authenticated | AdminOnly.

#[export] Instance access_eq_dec : EqDecision access.
Proof. solve_decision. Defined.

Definition access_of (ep : endpoint) : access :=
  match ep with
  | EpRegister | EpLogin | EpList | EpGetEvent _ | EpResults _ => Public
  | EpMe | EpBook _ | EpMyBookings => Authenticated
  | EpCreate | EpClose _ | EpCancel _ | EpListByEvent _ | EpDraw _ | EpPromote _ => AdminOnly
  end.

Definition handle (rand : R) ident rq (ep : endpoint) : program response :=
  match ep with
  | EpRegister => handle_Register rq
  | EpLogin => handle_Login rq
  | EpList => handle_List rq
  | EpGetEvent id => handle_GetByID id
  | EpResults id => handle_Results id
  | EpMe => handle_Me ident
  | EpBook id => handle_Book ident id
  | EpMyBookings => handle_MyBookings ident
  | EpCreate => handle_Create ident rq
  | EpClose id => handle_Close id
  | EpCancel id => handle_Cancel id
  | EpListByEvent id => handle_ListByEvent id
  | EpDraw id => handle_Draw rand id
  | EpPromote id => handle_PromoteToAdmin id
  end.

(** The handler behind the middleware of its group. *)
Definition serve_endpoint (rand : R) rq (ep : endpoint) : program response :=
  match access_of ep with
  | Public => handle rand None rq ep
  | Authenticated =>
    a ← Authenticate rq;
    match a with
    | Err resp => mret resp
    | Ok i => handle rand (Some i) rq ep
    end
  | AdminOnly =>
    a ← Authenticate rq;
    match a with
    | Err resp => mret resp
    | Ok i =>
      match RequireAdmin (Some i) with
      | Err resp => mret resp
      | Ok _ => handle rand (Some i) rq ep
      end
    end
  end.

(** A request; [None] is the router's own answer to an unknown path or
    method. *)
Definition serve_http (rand : R) rq : program (option response) :=
  match route (rq_method rq) (rq_path rq) with
  | None => mret None
  | Some ep => resp ← serve_endpoint rand rq ep; mret (Some resp)
  end.

(** ** Lemmas *)

Lemma wp_any {A} E (p : program A) (Q : A -> world -> Prop) w :
  (forall a w', Q a w') -> wp E p Q w.
Proof. unfold wp. auto. Qed.

(** The answer is decided by what follows. *)
Lemma wp_then {A B} E (p : program A) (f : A -> program B) Q w :
  (forall a w', wp E (f a) Q w') -> wp E (p ≫= f) Q w.
Proof. intros Hf. apply wp_bind, wp_any, Hf. Qed.

(** What differs between two worlds is only the number of steps. *)
Definition untouched (w w' : world) : Prop :=
  w_tables w' = w_tables w /\ w_seqs w' = w_seqs w /\ w_redis w' = w_redis w /\
  w_tx w' = w_tx w /\ w_gates w' = w_gates w.

Lemma Authenticate_wp E w rq :
  wp E (Authenticate rq) (fun r w' => untouched w w' /\
    match r with
    | Err resp => rs_status resp = 401%Z
    | Ok i => exists token now claims, bearer_token (rq_authorization rq) = Some token /\
        ParseWithClaims token jwtSecret now = Some claims /\
        i = mkIdentity (cl_UserID claims) (cl_Role claims)
    end) w.
Proof.
  unfold Authenticate. case_decide; [by apply wp_ret|].
  destruct (bearer_token _) as [token|]; [|by apply wp_ret].
  apply wp_bind, wp_perform. cbn [exec_cmd fst snd].
  destruct (ParseWithClaims token jwtSecret _) as [claims|] eqn:Hp; apply wp_ret; [|done].
  split; [done|]. eauto 10.
Qed.

(** The claims of the request's token, if it is valid when the request
    arrives. *)
Definition accepted (E : env) (w : world) rq : option Claims :=
  token ← bearer_token (rq_authorization rq);
  ParseWithClaims token jwtSecret (env_clock E (w_step w)).

(** [Authenticate] lets through exactly the requests with such a token. *)
Lemma Authenticate_accepted E w rq :
  wp E (Authenticate rq) (fun r w' => untouched w w' /\
    match accepted E w rq with
    | None => exists resp, r = Err resp /\ rs_status resp = 401%Z
    | Some claims => r = Ok (mkIdentity (cl_UserID claims) (cl_Role claims))
    end) w.
Proof.
  unfold Authenticate, accepted. case_decide as Hempty.
  { apply wp_ret. rewrite Hempty. split; [done|]. by eexists. }
  destruct (bearer_token _) as [token|]; [|apply wp_ret; split; [done|]; by eexists].
  apply wp_bind, wp_perform. cbn [exec_cmd fst snd mbind option_bind].
  destruct (ParseWithClaims token jwtSecret _) as [claims|] eqn:Hp; apply wp_ret;
    (split; [done|]); [done|by eexists].
Qed.

(** The messages of the answers with status 500. *)
Definition internal_messages : list string :=
  ["could not run draw"; "could not fetch results"; "could not create booking";
   "failed to fetch bookings"; "could not create event"; "could not fetch event";
   "failed to list events"; "could not close event"; "could not cancel event";
   "could not register user"; "could not authenticate"; "could not fetch user";
   "could not promote user"].

Definition failure_statuses : list Z := [400; 401; 403; 404; 409; 500; 503]%Z.

(** A uniform answer: success with data and no error, or failure with an error
    and no data; an internal error tells nothing but the operation. *)
Definition uniform (r : response) : Prop :=
  if rs_success r
  then (rs_status r = 200 \/ rs_status r = 201)%Z /\ rs_error r = "" /\ rs_code r = "" /\
       rs_data r <> PNone
  else rs_status r ∈ failure_statuses /\ rs_error r <> "" /\ rs_data r = PNone /\
       rs_meta r = None /\ (rs_status r = 500%Z -> rs_error r ∈ internal_messages).


Lemma append_ne_l s1 s2 : s1 <> "" -> s1 +:+ s2 <> "".
Proof. by destruct s1. Qed.
End Handlers.

(** Decide a membership in a concrete list. *)
Ltac by_membership := apply (bool_decide_unpack _); vm_compute; exact I.

(** A concrete answer is uniform. *)
Ltac solve_uniform :=
  unfold uniform; simpl; split_and!; solve
    [ done | by left | by right | by_membership | intros; by_membership
    | by apply append_ne_l ].

(** Follow a handler through its checks and the answers of the service. *)
Ltac each_answer tac :=
  repeat first
    [ apply wp_ret; solve [tac]
    | apply wp_then; let r := fresh "r" in intros r ?; destruct r as [?|[]]
    | case_match ].

Section Properties.
Context `{UnicodeLower, Bcrypt, Mail, Signer} {R : Type} `{RandSource R}.
Context `{JSONErrors}.
Context `{TokenParser}.
Variables (maxWinners lockTTL lockWait : Z) (jwtSecret : string) (jwtExpiry : Z).

Lemma handle_uniform E w (rand : R) ident rq ep :
  wp E (handle maxWinners lockTTL lockWait jwtSecret jwtExpiry rand ident rq ep)
    (fun r _ => uniform r) w.
Proof.
  destruct ep; unfold handle, handle_Register, handle_Login, handle_List, handle_GetByID,
    handle_Results, handle_Me, handle_Book, handle_MyBookings, handle_Create, handle_Close,
    handle_Cancel, handle_ListByEvent, handle_Draw, handle_PromoteToAdmin;
    each_answer solve_uniform.
Qed.

(** The handlers of the protected routes leave 401 and 403 to the
    middleware. *)
Lemma handle_not_refused E w (rand : R) i rq ep :
  access_of ep <> Public ->
  wp E (handle maxWinners lockTTL lockWait jwtSecret jwtExpiry rand (Some i) rq ep)
    (fun r _ => rs_status r <> 401%Z /\ rs_status r <> 403%Z) w.
Proof.
  intros Hep. destruct ep; try done; unfold handle, handle_Me, handle_Book, handle_MyBookings,
    handle_Create, handle_Close, handle_Cancel, handle_ListByEvent, handle_Draw,
    handle_PromoteToAdmin; each_answer done.
Qed.

(** The routes the API documents, with who may use them: the tables of
    [src/README.md], row by row. *)
Inductive documented : string -> list string -> access -> Prop :=
| DocRegister : documented "POST" ["auth"; "register"] Public
| DocLogin : documented "POST" ["auth"; "login"] Public
| DocMe : documented "GET" ["auth"; "me"] Authenticated
| DocList : documented "GET" ["events"] Public
| DocGetEvent x : x <> "" -> documented "GET" ["events"; x] Public
| DocCreate : documented "POST" ["events"] AdminOnly
| DocClose x : x <> "" -> documented "PUT" ["events"; x; "close"] AdminOnly
| DocCancel x : x <> "" -> documented "PUT" ["events"; x; "cancel"] AdminOnly
| DocListByEvent x : x <> "" -> documented "GET" ["events"; x; "bookings"] AdminOnly
| DocBook x : x <> "" -> documented "POST" ["events"; x; "book"] Authenticated
| DocDraw x : x <> "" -> documented "POST" ["events"; x; "draw"] AdminOnly
| DocResults x : x <> "" -> documented "GET" ["events"; x; "results"] Public
| DocMyBookings : documented "GET" ["me"; "bookings"] Authenticated
| DocPromote x : x <> "" -> documented "POST" ["admin"; "users"; x; "promote"] AdminOnly.

(** The route table has these routes, in these groups, and no others. *)
Lemma route_documented m p ep : route m p = Some ep -> documented m p (access_of ep).
Proof.
  unfold route. intros Hr. repeat case_decide; subst; [..|done];
    repeat match type of Hr with
    | context [match ?x with _ => _ end] => is_var x; destruct x; try discriminate Hr
    end; try (case_decide; [done|]); injection Hr as <-; by constructor.
Qed.

Lemma route_None m p a : route m p = None -> ~ documented m p a.
Proof.
  intros Hr Hd. assert (exists ep, route m p = Some ep) as [ep ?]; [|congruence]. clear Hr.
  destruct Hd; unfold route; rewrite ?(decide_False (P := x = "")) by done; eexists; reflexivity.
Qed.

(** The same request with another [Authorization] header. *)
Definition with_authorization (auth : string) (rq : http_request) : http_request :=
  mkHttpRequest (rq_method rq) (rq_path rq) (rq_query rq) auth (rq_body rq).

(** No account data in an answer carries a password hash. *)
Definition hash_free (r : response) : Prop :=
  match rs_data r with
  | PUser u => user_PasswordHash u = ""
  | PLogin l => user_PasswordHash (lresp_User l) = ""
  | _ => True
  end.

Lemma handle_hash_free E w (rand : R) ident rq ep :
  wp E (handle maxWinners lockTTL lockWait jwtSecret jwtExpiry rand ident rq ep)
    (fun r _ => hash_free r) w.
Proof.
  destruct ep; unfold handle, handle_Register, handle_Login, handle_List, handle_GetByID,
    handle_Results, handle_Me, handle_Book, handle_MyBookings, handle_Create, handle_Close,
    handle_Cancel, handle_ListByEvent, handle_Draw, handle_PromoteToAdmin;
    try solve [each_answer done].
  - case_match; [|by apply wp_ret]. apply wp_bind. eapply wp_mono; [apply Register_wp|].
    intros [u|[]] w' Hp; apply wp_ret; try done. unfold hash_free; simpl.
    destruct Hp as [(_ & ? & _)|[now Hp]]; [done|].
    destruct (register_spec _ _ _ _); [|by destruct Hp].
    by destruct Hp as (_ & [[= ->]|[_ ?]]).
  - case_match; [|by apply wp_ret]. apply wp_bind. eapply wp_mono; [apply Login_wp|].
    intros [u|[]] w' (_ & Hp); apply wp_ret; try done. unfold hash_free; simpl.
    destruct Hp as [[now Hp]|[_ ?]]; [|done]. revert Hp. unfold login_spec.
    repeat case_match; intros; simplify_eq; done.
  - case_match; [|by apply wp_ret]. apply wp_bind. eapply wp_mono; [apply Me_wp|].
    intros [u|[]] w' (_ & Hp); apply wp_ret; try done. unfold hash_free; simpl.
    destruct Hp as [Hp|[_ ?]]; [|done]. revert Hp. unfold me_spec.
    case_match; intros; simplify_eq; done.
  - case_match. case_match; [by apply wp_ret|]. apply wp_bind.
    eapply wp_mono; [apply PromoteToAdmin_wp|].
    intros [u|[]] w' Hp; apply wp_ret; try done. unfold hash_free; simpl.
    destruct Hp as [(_ & ? & _)|Hp]; [done|]. revert Hp. unfold me_spec.
    case_match; [|by intros [? _]]. intros (now & _ & [[= ->]|[_ ?]]); done.
Qed.

(** What every handler guarantees holds behind the middleware as well. *)
Lemma serve_endpoint_wp E w (rand : R) rq ep (Q : response -> Prop) :
  (forall msg, msg <> "" -> Q (Unauthorized msg)) -> (forall msg, msg <> "" -> Q (Forbidden msg)) ->
  (forall w' ident, wp E (handle maxWinners lockTTL lockWait jwtSecret jwtExpiry rand ident rq ep)
     (fun r _ => Q r) w') ->
  wp E (serve_endpoint maxWinners lockTTL lockWait jwtSecret jwtExpiry rand rq ep)
    (fun r _ => Q r) w.
Proof.
  intros Hu Hf Hh.
  assert (wp E (Authenticate jwtSecret rq) (fun r _ =>
    match r with Err resp => Q resp | Ok _ => True end) w) as Ha.
  { unfold Authenticate. repeat case_match; try (apply wp_ret; by apply Hu).
    apply wp_then. intros now w'. case_match; apply wp_ret; [done|by apply Hu]. }
  unfold serve_endpoint. destruct (access_of ep); [apply Hh| |];
    apply wp_bind; (eapply wp_mono; [exact Ha|]); intros [i|resp] w' Hr; try by apply wp_ret.
  - apply Hh.
  - unfold RequireAdmin. case_decide; [apply Hh|]. by apply wp_ret, Hf.
Qed.

(** ** Properties *)

(** Every answer of a route has the uniform envelope. *)
Lemma serve_endpoint_uniform E w (rand : R) rq ep :
  wp E (serve_endpoint maxWinners lockTTL lockWait jwtSecret jwtExpiry rand rq ep)
    (fun r _ => uniform r) w.
Proof.
  apply (serve_endpoint_wp E w rand rq ep uniform).
  - intros msg Hm. unfold uniform. simpl. split_and!; [by_membership|done..].
  - intros msg Hm. unfold uniform. simpl. split_and!; [by_membership|done..].
  - intros w' ident. apply handle_uniform.
Qed.

(** No password hash leaves the server: whatever the request and the state
    of the database, the account data in an answer has an empty hash. *)
Theorem responses_hash_free E w (rand : R) rq :
  wp E (serve_http maxWinners lockTTL lockWait jwtSecret jwtExpiry rand rq)
    (fun o _ => match o with Some r => hash_free r | None => True end) w.
Proof.
  unfold serve_http. destruct (route _ _) as [ep|]; [|by apply wp_ret].
  apply wp_bind. eapply wp_mono; [apply (serve_endpoint_wp E w rand rq ep hash_free)|done]; try done.
  intros w' ident. apply handle_hash_free.
Qed.

(** C11: access control.  The answers follow the documented table of routes
    and roles, which is written down independently of the router's groups.  A
    request for any other route gets the router's own answer and touches
    nothing.  A public route is answered without looking at the token.  On any
    other route, a request without a bearer token that is valid at the
    server's clock when it arrives is answered 401, a valid token without the
    role [admin] is answered 403 on an administrator's route, both touching
    nothing, and no other request is answered 401 or 403. *)
Theorem routes_guarded E w (rand : R) rq :
  wp E (serve_http maxWinners lockTTL lockWait jwtSecret jwtExpiry rand rq) (fun o w' =>
    match o with
    | None => (forall a, ~ documented (rq_method rq) (rq_path rq) a) /\ untouched w w'
    | Some r => exists a, documented (rq_method rq) (rq_path rq) a /\
      match a, accepted jwtSecret E w rq with
      | Public, _ => forall auth,
          run E (serve_http maxWinners lockTTL lockWait jwtSecret jwtExpiry rand
                   (with_authorization auth rq)) w = (o, w')
      | _, None => rs_status r = 401%Z /\ untouched w w'
      | AdminOnly, Some claims =>
          if decide (cl_Role claims = "admin") then rs_status r <> 401%Z /\ rs_status r <> 403%Z
          else rs_status r = 403%Z /\ untouched w w'
      | Authenticated, Some _ => rs_status r <> 401%Z /\ rs_status r <> 403%Z
      end
    end) w.
Proof.
  unfold serve_http. destruct (route (rq_method rq) (rq_path rq)) as [ep|] eqn:Hroute.
  2: { apply wp_ret. split; [|done]. intros a. by apply route_None. }
  apply route_documented in Hroute as Hdoc. destruct (access_of ep) eqn:Hep.
  { unfold wp. rewrite run_bind.
    assert (forall auth, serve_endpoint maxWinners lockTTL lockWait jwtSecret jwtExpiry rand
      (with_authorization auth rq) ep = serve_endpoint maxWinners lockTTL lockWait jwtSecret jwtExpiry
      rand rq ep) as Heq by (intros auth; unfold serve_endpoint; rewrite Hep; by destruct ep).
    destruct (run E _ w) as [r w'] eqn:Hrun. simpl. exists Public. split; [done|]. intros auth.
    by rewrite Hroute, run_bind, Heq, Hrun. }
  all: apply wp_bind; unfold serve_endpoint; rewrite Hep; apply wp_bind;
    (eapply wp_mono; [apply Authenticate_accepted|]); intros r w1 [Hw Hr];
    destruct (accepted jwtSecret E w rq) as [claims|] eqn:Hacc;
    [subst r|destruct Hr as (resp & -> & Hst); by do 2 apply wp_ret; eexists; (split; [exact Hdoc|])].
  - eapply wp_mono; [apply handle_not_refused; by rewrite Hep|]. intros r w2 Hr. apply wp_ret.
    by exists Authenticated.
  - unfold RequireAdmin. simpl. case_decide as Hadm.
    + eapply wp_mono; [apply handle_not_refused; by rewrite Hep|]. intros r w2 Hr. apply wp_ret.
      by exists AdminOnly.
    + do 2 apply wp_ret. by exists AdminOnly.
Qed.

(** C33: a user books for themselves.  A booking request over HTTP leaves the
    tables as they were, or adds exactly one booking: for the event of the
    path and the user of the token. *)
Theorem book_as_token_user E w (rand : R) rq x :
  route (rq_method rq) (rq_path rq) = Some (EpBook x) ->
  wp E (serve_http maxWinners lockTTL lockWait jwtSecret jwtExpiry rand rq) (fun _ w' =>
    w_tables w' = w_tables w \/
    exists token now claims eid, bearer_token (rq_authorization rq) = Some token /\
      ParseWithClaims token jwtSecret now = Some claims /\ parseID x = Some eid /\
      book_spec (w_tables w) eid (cl_UserID claims) = Ok tt /\
      booked_in (w_tables w) (w_tables w') eid (cl_UserID claims)) w.
Proof.
  intros Hroute. unfold serve_http. rewrite Hroute. apply wp_bind. unfold serve_endpoint. simpl.
  apply wp_bind. eapply wp_mono; [apply Authenticate_wp|].
  intros [i|resp] w1 [(Ht1 & _) Hi]; [|apply wp_ret, wp_ret; by left].
  destruct Hi as (token & now & claims & Ht & Hc & ->). unfold handle_Book.
  destruct (parseID x) as [eid|] eqn:Hx; [|apply wp_ret, wp_ret; by left]. simpl.
  apply wp_bind. eapply wp_mono; [apply BookWithLock_wp|].
  intros r w2 (_ & _ & Hp).
  assert (w_tables w2 = w_tables w \/
    book_spec (w_tables w) eid (cl_UserID claims) = Ok tt /\
    booked_in (w_tables w) (w_tables w2) eid (cl_UserID claims)) as Hend.
  { revert Hp. unfold locked_post. rewrite Ht1. case_decide; [intros [_ ->]; by left|].
    intros [[-> _]|[[-> Hr]|(_ & _ & [->|?])]]; [by left| |by left|by right].
    destruct (book_spec _ _ _) as [[]|]; [by right|by left]. }
  destruct r; apply wp_ret; apply wp_ret; destruct Hend as [?|[? ?]]; (by left) || (right; eauto 12).
Qed.

(** The check for trailing input looks for a further JSON value only: a
    body that goes on with a closing bracket is accepted, against the comment
    that extra input after the first value is rejected. *)
Theorem DecodeJSON_trailing_bracket {A} `{JSONDecode A} body (v : A) rest :
  json_Decode body = Ok (v, String "}" rest) -> DecodeJSON body = Ok v.
Proof. intros Hd. unfold DecodeJSON. by rewrite Hd. Qed.
End Properties.

(** ** Concrete requests *)

Section Witnesses.
Import Standin Wording.

(** A parser that knows two tokens. *)
#[local] Instance two_tokens : TokenParser := fun token secret now =>
  if decide (token = "root") then Some (mkClaims 1 "admin" 0 0 0 "lottery-system" "user:1")
  else if decide (token = "alice") then Some (mkClaims 2 "user" 0 0 0 "lottery-system" "user:2")
  else None.

Definition request_of (method : string) (path : list string) (auth : string) : http_request :=
  mkHttpRequest method path (fun _ => "") auth "".

(** A user asks for a draw: forbidden, and nothing happens. *)
Lemma routes_guarded_witness :
  wp (calm_env 5) (serve_http 10 0 0 "key" 60 [0]
    (request_of "POST" ["events"; "1"; "draw"] "Bearer alice")) (fun o w' =>
      exists r, o = Some r /\ rs_status r = 403%Z /\ untouched sample_world w')
    sample_world.
Proof.
  eapply wp_mono; [apply (routes_guarded 10 0 0 "key" 60 (calm_env 5) sample_world [0]
    (request_of "POST" ["events"; "1"; "draw"] "Bearer alice"))|].
  intros [r|] w'.
  - intros (a & Ha & Hr). exists r. split; [done|]. assert (a = AdminOnly) as ->.
    { inversion Ha; done. }
    replace (accepted _ _ _ _) with (Some (mkClaims 2 "user" 0 0 0 "lottery-system" "user:2")) in Hr
      by (by vm_compute).
    exact Hr.
  - intros [Hno _]. exfalso. apply (Hno AdminOnly). by apply DocDraw.
Defined.

Lemma book_as_token_user_witness :
  wp (calm_env 5) (serve_http 10 0 0 "key" 60 [0]
    (request_of "POST" ["events"; "1"; "book"] "bearer alice")) (fun _ w' =>
      w_tables w' = w_tables sample_world \/
      exists eid uid, booked_in (w_tables sample_world) (w_tables w') eid uid) sample_world.
Proof.
  eapply wp_mono; [apply (book_as_token_user 10 0 0 "key" 60 (calm_env 5) sample_world [0]
    (request_of "POST" ["events"; "1"; "book"] "bearer alice") "1"); done|].
  intros o w' [?|(token & now & claims & eid & _ & _ & _ & _ & Hb)]; [by left|]. right. eauto.
Defined.

Lemma DecodeJSON_trailing_bracket_witness :
  DecodeJSON (A := LoginRequest) "{}}" = Ok (mkLoginRequest "" "").
Proof. apply (DecodeJSON_trailing_bracket "{}}" (mkLoginRequest "" "") ""). vm_compute. reflexivity. Defined.
End Witnesses.
