(* ===== verification/Wire.v ===== *)
(** * The bytes of an answer

    [json.NewEncoder(w).Encode(models.APIResponse{...})] of
    [src/internal/httpx/respond.go]: the text a client receives, with the
    struct tags of [src/internal/models/models.go], and what a decoder of a
    client reads from it. *)

From S2P Require Import Prelude GoFmt GoString GoTime GoJson Models Codec Http.
From Stdlib Require Import Ascii.

(** ** Encoding *)

(** An instant, in UTC; the encoder fails beyond the year 9999.  A time the
    code has read from the database carries the zone of the server, so on a
    server outside UTC the text has that zone's offset instead of [Z]: the same
    instant, and so the same value for every decoder. *)
Definition json_time (t : Z) : option json :=
  if decide (0 <= t < max_time)%Z then Some (JString (chars (FormatRFC3339Nano t))) else None.

(** A struct, field by field. *)
Definition json_fields (l : list (string * option json)) : option json :=
  JObject <$> mapM (fun kv : string * option json => v ← kv.2; Some (chars kv.1, v)) l.

(** [omitempty]. *)
Definition omit_if (empty : bool) (name : string) (v : option json) : list (string * option json) :=
  if empty then [] else [(name, v)].

Definition json_strings (name s : string) : list (string * option json) :=
  omit_if (bool_decide (s = "")) name (Some (json_string s)).

Definition User_json (u : User) : option json :=
  json_fields [("id", Some (json_int (user_ID u))); ("email", Some (json_string (user_Email u)));
    ("full_name", Some (json_string (user_FullName u))); ("role", Some (json_string (user_Role u)));
    ("created_at", json_time (user_CreatedAt u)); ("updated_at", json_time (user_UpdatedAt u))].

Definition Event_json (e : Event) : option json :=
  json_fields ([("id", Some (json_int (event_ID e))); ("title", Some (json_string (event_Title e)));
    ("description", Some (json_string (event_Description e)));
    ("capacity", Some (json_int (event_Capacity e))); ("draw_at", json_time (event_DrawAt e));
    ("status", Some (json_string (status_string (event_Status e))));
    ("winner_count", Some (json_int (event_WinnerCount e)));
    ("created_by", Some (json_int (event_CreatedBy e)))] ++
    omit_if (bool_decide (event_BookingCount e = 0%Z)) "booking_count" (Some (json_int (event_BookingCount e))) ++
    [("created_at", json_time (event_CreatedAt e)); ("updated_at", json_time (event_UpdatedAt e))]).

Definition Booking_json (b : Booking) : option json :=
  json_fields [("id", Some (json_int (booking_ID b))); ("event_id", Some (json_int (booking_EventID b)));
    ("user_id", Some (json_int (booking_UserID b))); ("booked_at", json_time (booking_BookedAt b))].

Definition LotteryDraw_json (d : LotteryDraw) : option json :=
  json_fields [("id", Some (json_int (draw_ID d))); ("event_id", Some (json_int (draw_EventID d)));
    ("winner_user_id", Some (json_int (draw_WinnerUserID d)));
    ("draw_rank", Some (json_int (draw_DrawRank d)));
    ("entropy_source", Some (json_string (draw_EntropySource d)));
    ("total_entrants", Some (json_int (draw_TotalEntrants d))); ("drawn_at", json_time (draw_DrawnAt d))].

Definition json_array {A} (f : A -> option json) (l : list A) : option json := JArray <$> mapM f l.

Definition DrawResult_fields (d : DrawResult) : list (string * option json) :=
  [("event_id", Some (json_int (dr_EventID d)));
    ("event_title", Some (json_string (dr_EventTitle d)));
    ("total_entrants", Some (json_int (dr_TotalEntrants d)));
    ("winners", json_array LotteryDraw_json (dr_Winners d));
    ("waitlist", json_array LotteryDraw_json (dr_Waitlist d)); ("drawn_at", json_time (dr_DrawnAt d))] ++
  json_strings "digest" (dr_Digest d) ++ json_strings "integrity" (dr_Integrity d).

Definition DrawResult_json (d : DrawResult) : option json := json_fields (DrawResult_fields d).

Definition LoginResponse_json (r : LoginResponse) : option json :=
  json_fields [("token", Some (json_string (lresp_Token r))); ("user", User_json (lresp_User r))].

Definition Meta_json (m : Meta) : option json :=
  json_fields [("total", Some (json_int (meta_Total m))); ("page", Some (json_int (meta_Page m)));
    ("limit", Some (json_int (meta_Limit m)))].

Definition payload_json (p : payload) : option json :=
  match p with
  | PNone => Some JNull
  | PUser u => User_json u
  | PLogin r => LoginResponse_json r
  | PEvent e => Event_json e
  | PEvents l => json_array Event_json l
  | PBookings l => json_array Booking_json l
  | PDraw d => DrawResult_json d
  | PMessage s => json_fields [("message", Some (json_string s))]
  end.

Definition no_data (p : payload) : bool := match p with PNone => true | _ => false end.

Definition APIResponse_fields (r : response) : list (string * option json) :=
  [("success", Some (JBool (rs_success r)))] ++
  omit_if (no_data (rs_data r)) "data" (payload_json (rs_data r)) ++
  json_strings "error" (rs_error r) ++ json_strings "code" (rs_code r) ++
  match rs_meta r with Some m => [("meta", Meta_json m)] | None => [] end.

Definition APIResponse_json (r : response) : option json := json_fields (APIResponse_fields r).

(** [Encode] ends the text with a line break; when it fails it has written
    nothing (the status is sent). *)
Definition encode_response (r : response) : string :=
  match APIResponse_json r with
  | Some j => String.string_of_list_ascii (print j ++ ["010"%char])
  | None => ""
  end.

(** The router's own answers: the text of [http.NotFound], and no body with
    status 405. *)
Definition router_body (status : Z) : string :=
  if decide (status = 404%Z) then "404 page not found" +:+ String "010"%char "" else "".

Definition answer_body (own_status : Z) (o : option response) : string :=
  match o with Some r => encode_response r | None => router_body own_status end.

(** ** Decoding *)

(** [json.NewDecoder(resp.Body).Decode(&v)] of the clients. *)
Definition decode_answer {A} (d : decoder A) (zero : A) (text : string) : option A :=
  '(j, _) ← parse (chars text); d j zero.

(** ** Lemmas *)

(** Bytes that stand for themselves in a string literal. *)
Definition plain (c : ascii) : bool := is_ascii c && bool_decide (quote_byte c = [c]).

Lemma quote_text_plain l : Forall (fun c => plain c = true) l -> quote_text l = l.
Proof.
  unfold quote_text. induction 1 as [|c l Hc _ IH]; [done|].
  apply andb_prop in Hc as [Hc Hq%bool_decide_eq_true].
  rewrite runes_ascii by done. rewrite bind_cons. cbn [quote_rune]. by rewrite Hq, IH.
Qed.

Lemma plain_digit c : is_digit c = true -> plain c = true.
Proof. destruct c as [[] [] [] [] [] [] [] []]; (done || intros _; vm_compute; reflexivity). Qed.

Lemma FormatRFC3339Nano_plain t : (0 <= t)%Z -> Forall (fun c => plain c = true) (chars (FormatRFC3339Nano t)).
Proof.
  intros Ht. rewrite chars_FormatRFC3339Nano. unfold format_date, format_clock, appendNano.
  assert (forall x n, (0 <= x)%Z -> Forall (fun c => plain c = true) (chars (appendInt x n))) as Hi.
  { intros x n Hx. destruct (appendInt_spec x n Hx) as [Hd _]. eapply Forall_impl; [exact Hd|]. apply plain_digit. }
  assert (0 <= t `div` ns_per_day)%Z as Hd by (by apply Z.div_pos).
  pose proof (year_yday_spec _ Hd) as (Hy & Hb & _). destruct (year_yday _) as [y yd]. cbn [fst snd] in *.
  pose proof (month_day_spec (isLeap y) yd Hb) as (_ & Hm & Hday). destruct (month_day _ yd) as [m dd].
  cbn [fst snd] in *. pose proof (Z.mod_pos_bound t ns_per_day eq_refl) as Hc.
  assert (0 <= (t `mod` ns_per_day) `div` Hour)%Z by (apply Z.div_pos; [lia|done]).
  rewrite !Forall_app, !Forall_cons, !Forall_app, !Forall_cons, !Forall_app, !Forall_cons, !Forall_app.
  repeat match goal with
  | |- _ /\ _ => split
  | |- plain _ = true => vm_compute; reflexivity
  | |- Forall _ (chars (appendInt _ _)) => apply Hi; (lia || by apply Z.mod_pos_bound)
  end; [|by repeat constructor].
  case_decide; [constructor|]. constructor; [vm_compute; reflexivity|].
  assert (Forall (fun c => plain c = true) (chars (appendInt ((t `mod` ns_per_day) `mod` Second) 9))) as Hn
    by (apply Hi; by apply Z.mod_pos_bound).
  rewrite Forall_forall in Hn |- *. intros c Hin. by apply Hn, trim_zeros_incl.
Qed.

(** A value the encoder can produce, of bounded height. *)
Definition fine (h : Z) (j : json) : Prop := written j /\ (height j <= h)%Z.

Lemma fine_mono h h' j : (h <= h')%Z -> fine h j -> fine h' j.
Proof. intros Hh [Hw Hj]. split; [done|lia]. Qed.

Lemma fine_int h x : (0 <= h)%Z -> fine h (json_int x).
Proof. intros Hh. split; [constructor|done]. Qed.

Lemma fine_string h s : (0 <= h)%Z -> fine h (json_string s).
Proof. intros Hh. split; [constructor|done]. Qed.

Lemma fine_time h t j : (0 <= h)%Z -> json_time t = Some j -> fine h j.
Proof.
  intros Hh. unfold json_time. case_decide as Ht; [|done]. intros [= <-]. split; [|done].
  rewrite <- (quote_text_plain (chars (FormatRFC3339Nano t))); [constructor|].
  apply FormatRFC3339Nano_plain. lia.
Qed.

(** Field names are plain, values are fine. *)
Definition field_ok (h : Z) (kv : string * option json) : Prop :=
  forallb plain (chars kv.1) = true /\ forall j, kv.2 = Some j -> fine h j.

Lemma fine_fields h l j : Forall (field_ok h) l -> (0 <= h)%Z -> json_fields l = Some j -> fine (h + 1) j.
Proof.
  unfold json_fields. intros Hl Hh (ms & Hms & ->)%fmap_Some. apply mapM_Some in Hms.
  assert (Forall (fun m : list ascii * json => (exists k, m.1 = quote_text k) /\ fine h m.2) ms) as Hok.
  { clear Hh. induction Hms as [|[name [v|]] m l ms Hm _ IH]; [constructor| |done].
    apply Forall_cons in Hl as [[Hn Hv] Hl]. cbn in Hm, Hn, Hv. injection Hm as <-.
    constructor; [|by apply IH]. split; [|by apply Hv]. exists (chars name). symmetry.
    apply quote_text_plain, Forall_forall. intros c Hc. rewrite forallb_forall in Hn.
    by apply Hn, list_elem_of_In. }
  clear Hms Hl. split.
  - constructor. eapply Forall_impl; [exact Hok|]. intros m [? [? _]]. done.
  - cbn [height]. assert (foldr Z.max 0 ((fun m : list ascii * json => height m.2) <$> ms) <= h)%Z; [|lia].
    induction Hok as [|m ms [_ [_ Hm]] _ IH]; [done|]. rewrite fmap_cons. cbn [foldr]. lia.
Qed.

Lemma fine_array {A} (f : A -> option json) h l j :
  (forall x y, f x = Some y -> fine h y) -> (0 <= h)%Z -> json_array f l = Some j -> fine (h + 1) j.
Proof.
  unfold json_array. intros Hf Hh (vs & Hvs & ->)%fmap_Some. apply mapM_Some in Hvs.
  assert (Forall (fine h) vs) as Hok by (induction Hvs; constructor; eauto). clear Hvs. split.
  - constructor. eapply Forall_impl; [exact Hok|]. by intros v [? _].
  - cbn [height]. assert (foldr Z.max 0 (height <$> vs) <= h)%Z; [|lia].
    induction Hok as [|v vs [_ Hv] _ IH]; [done|]. rewrite fmap_cons. cbn [foldr]. lia.
Qed.

(** The fields of a struct one by one. *)
Ltac fields_ok :=
  repeat match goal with
  | |- Forall (field_ok _) (_ ++ _) => apply Forall_app; split
  | |- Forall (field_ok _) (omit_if ?b _ _) => destruct b; cbn [omit_if]
  | |- Forall (field_ok _) (json_strings _ _) => unfold json_strings
  | |- Forall (field_ok _) [] => constructor
  | |- Forall (field_ok _) (_ :: _) => constructor
  | |- field_ok _ (_, ?v) => split; [reflexivity|cbn [snd]; intros ? ?; simplify_eq]
  | |- fine _ (json_int _) => apply fine_int; lia
  | |- fine _ (json_string _) => apply fine_string; lia
  | H : json_time _ = Some ?j |- fine _ ?j => eapply fine_time; [|exact H]; lia
  end.

Lemma User_fine u j : User_json u = Some j -> fine 1 j.
Proof. apply (fine_fields 0); [fields_ok|done]. Qed.
Lemma Event_fine e j : Event_json e = Some j -> fine 1 j.
Proof. apply (fine_fields 0); [fields_ok|done]. Qed.
Lemma Booking_fine b j : Booking_json b = Some j -> fine 1 j.
Proof. apply (fine_fields 0); [fields_ok|done]. Qed.
Lemma LotteryDraw_fine d j : LotteryDraw_json d = Some j -> fine 1 j.
Proof. apply (fine_fields 0); [fields_ok|done]. Qed.
Lemma Meta_fine m j : Meta_json m = Some j -> fine 1 j.
Proof. apply (fine_fields 0); [fields_ok|done]. Qed.

Lemma payload_fine p j : payload_json p = Some j -> fine 3 j.
Proof.
  destruct p as [|u|r|e|l|l|d|s]; cbn [payload_json].
  - intros [= <-]. by split; [constructor|].
  - intros Hj%User_fine. by eapply fine_mono, Hj.
  - intros Hj. apply (fine_fields 2) in Hj; [done| |done]. fields_ok. eapply fine_mono, User_fine; done.
  - intros Hj%Event_fine. by eapply fine_mono, Hj.
  - intros Hj. apply (fine_array _ 1) in Hj; [by eapply fine_mono, Hj|apply Event_fine|done].
  - intros Hj. apply (fine_array _ 1) in Hj; [by eapply fine_mono, Hj|apply Booking_fine|done].
  - intros Hj. apply (fine_fields 2) in Hj; [done| |done]. unfold DrawResult_fields. fields_ok;
      (eapply (fine_array LotteryDraw_json 1); [apply LotteryDraw_fine|done|eassumption]).
  - intros Hj. apply (fine_fields 2) in Hj; [done| |done]. fields_ok.
Qed.

Lemma APIResponse_fine r j : APIResponse_json r = Some j -> fine 4 j.
Proof.
  apply (fine_fields 3); [|done]. unfold APIResponse_fields. fields_ok.
  - by split; [constructor|].
  - by apply payload_fine in H.
  - destruct (rs_meta r) as [m|]; fields_ok. eapply fine_mono, Meta_fine; done.
Qed.

(** A client decodes the value the server encoded. *)
Lemma decode_encoded {A} (d : decoder A) zero r :
  decode_answer d zero (encode_response r) = j ← APIResponse_json r; d j zero.
Proof.
  unfold decode_answer, encode_response. destruct (APIResponse_json r) as [j|] eqn:Hj; [|done].
  apply APIResponse_fine in Hj as [Hw Hh]. rewrite String.list_ascii_of_string_of_list_ascii.
  rewrite parse_print; [done|done| |by apply (bool_decide_unpack _)].
  unfold maxNestingDepth. lia.
Qed.

(** So does a program that reads a file another one encoded. *)
Lemma Unmarshal_line {A} (d : decoder A) zero h j :
  fine h j -> (h <= maxNestingDepth)%Z ->
  Unmarshal d zero (String.string_of_list_ascii (print j ++ ["010"%char])) = d j zero.
Proof.
  intros [Hw Hj] Hh. unfold Unmarshal. rewrite String.list_ascii_of_string_of_list_ascii.
  rewrite parse_print; [done|done|lia|by apply (bool_decide_unpack _)].
Qed.

(** ** Lemmas: decoding what was encoded *)

Lemma unquote_plain_name name : forallb plain (chars name) = true -> unquote (chars name) = Some (chars name).
Proof.
  intros Hn. apply unquote_plain, Forall_forall. intros c Hc. rewrite forallb_forall in Hn.
  specialize (Hn c ltac:(by apply list_elem_of_In)). clear Hc.
  destruct c as [[] [] [] [] [] [] [] []]; try discriminate Hn; by split_and!.
Qed.

(** Decoding the fields of an encoded struct one by one. *)
Definition decode_step {A} (fields : list (field A)) (o : option A) (kv : string * option json) : option A :=
  a ← o; match find_field fields (chars kv.1) with Some d => v ← kv.2; d v a | None => Some a end.

Lemma decode_step_None {A} (fields : list (field A)) l : foldl (decode_step fields) None l = None.
Proof. by induction l. Qed.

Lemma decode_struct_fields {A} (fields : list (field A)) l j a :
  json_fields l = Some j -> Forall (fun kv => forallb plain (chars kv.1) = true) l ->
  decode_struct false fields j a = foldl (decode_step fields) (Some a) l.
Proof.
  unfold json_fields. intros (ms & Hms & ->)%fmap_Some Hl. apply mapM_Some in Hms.
  cbn [decode_struct]. revert a. induction Hms as [|[name [v|]] m l ms Hm _ IH]; intros a; [done| |done].
  apply Forall_cons in Hl as [Hn Hl]. cbn in Hm. injection Hm as <-. cbn [fst] in Hn.
  cbn [decode_members foldl]. rewrite unquote_plain_name by done. cbn [mbind option_bind].
  unfold decode_step at 2. cbn [mbind option_bind fst snd].
  destruct (find_field fields (chars name)) as [d|]; [|by apply IH]. cbn [mbind option_bind].
  destruct (d v a) as [a'|]; cbn [mbind option_bind]; [by apply IH|]. by rewrite decode_step_None.
Qed.

(** The names in an answer. *)
Definition named (l : list (string * option json)) : Prop := Forall (fun kv => forallb plain (chars kv.1) = true) l.

Lemma omit_named b name v : forallb plain (chars name) = true -> named (omit_if b name v).
Proof. intros Hn. unfold omit_if. destruct b; repeat constructor. done. Qed.

Lemma APIResponse_named r : named (APIResponse_fields r).
Proof.
  unfold named, APIResponse_fields, json_strings. rewrite !Forall_app. split_and!.
  - by repeat constructor.
  - by apply omit_named.
  - by apply omit_named.
  - by apply omit_named.
  - by destruct (rs_meta r); repeat constructor.
Qed.

Lemma DrawResult_named d : named (DrawResult_fields d).
Proof.
  unfold named, DrawResult_fields, json_strings. rewrite !Forall_app.
  split_and!; [by repeat constructor|by apply omit_named|by apply omit_named].
Qed.

(** Decoding an answer with a struct of a client. *)
Lemma decode_response {A} (fields : list (field A)) a r x :
  decode_answer (decode_struct false fields) a (encode_response r) = Some x ->
  foldl (decode_step fields) (Some a) (APIResponse_fields r) = Some x.
Proof.
  rewrite decode_encoded. destruct (APIResponse_json r) as [j|] eqn:Hj; [|done]. cbn [mbind option_bind].
  intros Hx. rewrite <- (decode_struct_fields fields _ j a); [done|exact Hj|apply APIResponse_named].
Qed.

Lemma decode_time_json t j old : json_time t = Some j -> decode_time j old = Some t.
Proof.
  unfold json_time. case_decide; [|done]. intros [= <-]. by apply ParseRFC3339_Format.
Qed.
