(* ===== verification/Client.v ===== *)
(** * Clients of the API

    What the load-test programs under [src/loadtest/cmd] share: programs that
    send HTTP requests to the server over a network that can lose a request
    or its answer, while other clients use the server at the same time.

    A client program is a tree of commands, like the services' programs
    ([Prelude.prog]); [crun] runs it against the server of [Http]: each
    request is answered by [serve_http] on the committed world, after whatever
    other requests were served since the last one. *)

From S2P Require Import Prelude GoFmt GoString GoTime Models Seal Shuffle Database Effects Invariant.
From S2P Require Import Growth Booking Events Draw Lock Auth System Codec Http.

(** ** Client programs *)

(** [ClientDo] is [client.Do]: [None] when there was no HTTP response, else
    what the server answered ([None] again: the router's own answer). *)
Inductive ccmd : Type -> Type :=
| ClientDo (rq : http_request) : ccmd (option (option response))
| ClientNow : ccmd Z
| Sleep (d : Z) : ccmd unit
| CountTransportError : ccmd unit.

#[warnings="-notation-for-abbreviation"]
Notation client := (prog ccmd).

(** ** The network *)

Inductive fate := Delivered | RequestLost | AnswerLost.

(** What happens at each step of the client: the fate of its request, the
    environment and the random source the server serves it with, the requests
    of others served before it, and the client's clock. *)
Record wire (R : Type) := mkWire {
  wi_fate : nat -> fate;
  wi_env : nat -> env;
  wi_rand : nat -> R;
  wi_others : nat -> world -> world;
  wi_clock : nat -> Z
}.
Arguments wi_fate {R} w n.
Arguments wi_env {R} w n.
Arguments wi_rand {R} w n.
Arguments wi_others {R} w n.
Arguments wi_clock {R} w n.
Arguments mkWire {R} wi_fate wi_env wi_rand wi_others wi_clock.

(** The server, the number of steps taken, requests sent and transport errors
    counted. *)
Record net := mkNet {
  net_world : world;
  net_step : nat;
  net_sent : nat;
  net_errors : Z
}.

(** A request starts outside every gate and transaction. *)
Definition idle (w : world) : world := set_tx None (set_gates [] w).

(** The status of the router's own answers: 405 if the path has a route for
    another method, else 404. *)
Definition own_status (rq : http_request) : Z :=
  if existsb (fun m => bool_decide (is_Some (route m (rq_path rq)))) ["GET"; "POST"; "PUT"]
  then 405 else 404.

Definition status_of (rq : http_request) (o : option response) : Z :=
  match o with Some resp => rs_status resp | None => own_status rq end.

(** ** How many requests a program sends *)

(** [p] sends at most [k] requests, whatever it is answered. *)
Fixpoint sends {A} (k : nat) (p : client A) : Prop :=
  match p with
  | Ret _ => True
  | Act c f =>
    match c in ccmd X return (X -> client A) -> Prop with
    | ClientDo _ => fun f => match k with
                             | O => False
                             | S k' => forall o, sends k' (f o)
                             end
    | ClientNow => fun f => forall x, sends k (f x)
    | Sleep _ => fun f => sends k (f tt)
    | CountTransportError => fun f => sends k (f tt)
    end f
  end.

Lemma sends_weaken {A} k k' (p : client A) : sends k p -> k <= k' -> sends k' p.
Proof.
  revert k k'. induction p as [a|X c f IH]; intros k k'; [done|]. simpl.
  destruct c; intros Hs Hle; [|by eauto..].
  destruct k as [|k]; [done|]. destruct k' as [|k']; [lia|]. intros o. eapply IH; [done|lia].
Qed.

Lemma sends_bind {A B} k1 k2 (p : client A) (f : A -> client B) :
  sends k1 p -> (forall a, sends k2 (f a)) -> sends (k1 + k2) (p ≫= f).
Proof.
  intros Hp Hf. unfold mbind, prog_bind. revert k1 Hp.
  induction p as [a|X c g IH]; intros k1 Hp; simpl.
  - eapply sends_weaken; [apply Hf|lia].
  - simpl in Hp. destruct c; simpl; [|by eauto..].
    destruct k1 as [|k1]; [done|]. simpl. intros o. by apply IH.
Qed.

Lemma sends_try {Er Er' A B} k1 k2 (p : client (result Er A)) (h : Er -> Er')
    (f : A -> client (result Er' B)) :
  sends k1 p -> (forall a, sends k2 (f a)) -> sends (k1 + k2) (try_catch p h f).
Proof. intros Hp Hf. apply sends_bind; [done|]. by intros [a|e]. Qed.

(** ** The server *)

Section Server.
Context `{UnicodeLower, Bcrypt, Mail, Signer} {R : Type} `{RandSource R}.
Context `{JSONErrors}.
Context `{TokenParser}.
Variables (maxWinners lockTTL lockWait : Z) (jwtSecret : string) (jwtExpiry : Z).

(** The server's answer to a request, and its world after it. *)
Definition answered (E : env) (rand : R) (rq : http_request) (w : world)
  : option response * world :=
  run E (serve_http maxWinners lockTTL lockWait jwtSecret jwtExpiry rand rq) (idle w).

Section Run.
Variable W : wire R.

Definition exec_ccmd {X} (c : ccmd X) (n : net) : X * net :=
  let i := net_step n in
  match c in ccmd X return X * net with
  | ClientDo rq =>
    let w := wi_others W i (net_world n) in
    let (o, w') := answered (wi_env W i) (wi_rand W i) rq w in
    match wi_fate W i with
    | Delivered => (Some o, mkNet w' (S i) (S (net_sent n)) (net_errors n))
    | AnswerLost => (None, mkNet w' (S i) (S (net_sent n)) (net_errors n))
    | RequestLost => (None, mkNet w (S i) (S (net_sent n)) (net_errors n))
    end
  | ClientNow => (wi_clock W i, mkNet (net_world n) (S i) (net_sent n) (net_errors n))
  | Sleep _ => (tt, mkNet (net_world n) (S i) (net_sent n) (net_errors n))
  | CountTransportError =>
      (tt, mkNet (net_world n) (S i) (net_sent n) (net_errors n + 1)%Z)
  end.

Fixpoint crun {A} (p : client A) (n : net) : A * net :=
  match p with
  | Ret a => (a, n)
  | Act c k => let (x, n') := exec_ccmd c n in crun (k x) n'
  end.

(** [cwp p Q n]: running [p] from [n] ends in an answer and a network that
    satisfy [Q]. *)
Definition cwp {A} (p : client A) (Q : A -> net -> Prop) (n : net) : Prop :=
  Q (crun p n).1 (crun p n).2.

Arguments cwp : simpl never.

Lemma cwp_ret {A} (a : A) (Q : A -> net -> Prop) n : Q a n -> cwp (Ret a) Q n.
Proof. done. Qed.

Lemma cwp_mono {A} (p : client A) (Q Q' : A -> net -> Prop) n :
  cwp p Q n -> (forall a n', Q a n' -> Q' a n') -> cwp p Q' n.
Proof. unfold cwp. auto. Qed.

Lemma cwp_bind {A B} (p : client A) (f : A -> client B) Q n :
  cwp p (fun a n' => cwp (f a) Q n') n -> cwp (p ≫= f) Q n.
Proof.
  unfold cwp, mbind, prog_bind. revert n. induction p as [a|X c k IH]; intros n; simpl; [done|].
  destruct (exec_ccmd c n) as [x n']. apply IH.
Qed.

Lemma cwp_try {Er Er' A B} (p : client (result Er A)) (h : Er -> Er')
    (k : A -> client (result Er' B)) Q n :
  cwp p (fun r n' => match r with
                     | Ok x => cwp (k x) Q n'
                     | Err e => Q (Err (h e)) n'
                     end) n ->
  cwp (try_catch p h k) Q n.
Proof. intros Hp. apply cwp_bind. eapply cwp_mono; [exact Hp|]. by intros [x|e] n'. Qed.

Lemma cwp_perform {X} (c : ccmd X) Q n :
  Q (exec_ccmd c n).1 (exec_ccmd c n).2 -> cwp (perform c) Q n.
Proof. unfold cwp. simpl. by destruct (exec_ccmd c n). Qed.

End Run.

(** *** What the server guarantees while clients run *)

(** The stored data is sound and has only grown since [t]. *)
Definition since (t : Tables) (w : world) : Prop := db_inv w /\ grows t (w_tables w).

Lemma since_refl w : db_inv w -> since (w_tables w) w.
Proof. by split. Qed.

Lemma run_answer {A B} E (p : program A) (f : A -> program B) w :
  (forall a, exists b, f a = Ret b) -> (run E (p ≫= f) w).2 = (run E p w).2.
Proof.
  intros Hf. rewrite run_bind. destruct (run E p w) as [a w']. by destruct (Hf a) as [b ->].
Qed.

(** A handler's program is the answer it returns at once, or the request
    [req] of [System] followed by its answer. *)
Ltac served_as Hidle Hreq Hret req :=
  repeat first
    [ apply Hret; eexists; reflexivity
    | eapply (Hreq _ _ _ req); [intros [[]|[]]; by eexists|unfold serve; by rewrite Hidle]
    | case_match ].

(** Behind the middleware every handler is one request of [System] or reads
    nothing at all. *)
Lemma handle_served E rand ident rq ep w :
  w_tx w = None -> w_gates w = [] ->
  let w' := (run E (handle maxWinners lockTTL lockWait jwtSecret jwtExpiry rand ident rq ep) w).2 in
  w' = w \/ exists req, w' = serve maxWinners lockTTL lockWait jwtSecret jwtExpiry E req w.
Proof.
  intros Htx Hg. assert (set_tx None (set_gates [] w) = w) as Hidle
    by (destruct w; simpl in *; by subst).
  assert (forall (A : Type) (p : program A) (f : A -> program response) req,
    (forall a, exists b, f a = Ret b) ->
    (run E p w).2 = serve maxWinners lockTTL lockWait jwtSecret jwtExpiry E req w ->
    (run E (p ≫= f) w).2 = w \/
    exists req, (run E (p ≫= f) w).2
      = serve maxWinners lockTTL lockWait jwtSecret jwtExpiry E req w) as Hreq.
  { intros A p f req Hf Hp. right. exists req. by rewrite run_answer. }
  assert (forall x : program response, (exists b, x = Ret b) ->
    (run E x w).2 = w \/ exists req, (run E x w).2
      = serve maxWinners lockTTL lockWait jwtSecret jwtExpiry E req w) as Hret.
  { intros x [b ->]. by left. }
  destruct ep; unfold handle, handle_Register, handle_Login, handle_List, handle_GetByID,
    handle_Results, handle_Me, handle_Book, handle_MyBookings, handle_Create, handle_Close,
    handle_Cancel, handle_ListByEvent, handle_Draw, handle_PromoteToAdmin; cbv zeta.
  - served_as Hidle Hreq Hret uconstr:(ReqRegister _).
  - served_as Hidle Hreq Hret uconstr:(ReqLogin _).
  - served_as Hidle Hreq Hret uconstr:(ReqList _ _ _).
  - served_as Hidle Hreq Hret uconstr:(ReqGetEvent _).
  - served_as Hidle Hreq Hret uconstr:(ReqResults _).
  - served_as Hidle Hreq Hret uconstr:(ReqMe _).
  - served_as Hidle Hreq Hret uconstr:(ReqBook _ _).
  - served_as Hidle Hreq Hret uconstr:(ReqBookingsOfUser _).
  - served_as Hidle Hreq Hret uconstr:(ReqCreate _ _).
  - served_as Hidle Hreq Hret uconstr:(ReqClose _).
  - served_as Hidle Hreq Hret uconstr:(ReqCancel _).
  - served_as Hidle Hreq Hret uconstr:(ReqBookingsOfEvent _).
  - served_as Hidle Hreq Hret uconstr:(ReqDraw rand _).
  - served_as Hidle Hreq Hret uconstr:(ReqPromote _).
Qed.

(** A request that reached its handler, or was turned away before it. *)
Definition handled (E : env) (rand : R) (rq : http_request) (ep : endpoint) (w : world)
    (resp : response) (w' : world) : Prop :=
  ((rs_status resp = 401 \/ rs_status resp = 403)%Z /\ untouched (idle w) w') \/
  exists ident w1, untouched (idle w) w1 /\
    run E (handle maxWinners lockTTL lockWait jwtSecret jwtExpiry rand ident rq ep) w1 = (resp, w') /\
    match ident with
    | None => access_of ep = Public
    | Some i => exists token now claims, bearer_token (rq_authorization rq) = Some token /\
        ParseWithClaims token jwtSecret now = Some claims /\
        i = mkIdentity (cl_UserID claims) (cl_Role claims)
    end.

Lemma serve_endpoint_handled E rand rq ep w :
  wp E (serve_endpoint maxWinners lockTTL lockWait jwtSecret jwtExpiry rand rq ep)
    (handled E rand rq ep w) (idle w).
Proof.
  unfold serve_endpoint. destruct (access_of ep) eqn:Hacc.
  - right. exists None, (idle w). split_and!; [done| |done].
    by destruct (run E _ (idle w)).
  - apply wp_bind. eapply wp_mono; [apply Authenticate_wp|]. intros [i|resp] w1 [Hw Hi].
    + right. exists (Some i), w1. split_and!; [done| |done]. by destruct (run E _ w1).
    + apply wp_ret. left. auto.
  - apply wp_bind. eapply wp_mono; [apply Authenticate_wp|]. intros [i|resp] w1 [Hw Hi].
    + unfold RequireAdmin. case_decide; [|apply wp_ret; left; by auto].
      right. exists (Some i), w1. split_and!; [done| |done]. by destruct (run E _ w1).
    + apply wp_ret. left. auto.
Qed.

Lemma answered_routed E rand rq ep w o w' :
  route (rq_method rq) (rq_path rq) = Some ep -> answered E rand rq w = (o, w') ->
  exists resp, o = Some resp /\ handled E rand rq ep w resp w'.
Proof.
  intros Hroute. unfold answered, serve_http. rewrite Hroute, run_bind.
  pose proof (serve_endpoint_handled E rand rq ep w) as Hh. unfold wp in Hh.
  destruct (run E _ (idle w)) as [resp w1]. intros [= <- <-]. eauto.
Qed.

(** Serving a request keeps what is stored sound, and only adds to it. *)
Lemma answered_since E rand rq w t o w' :
  since t w -> answered E rand rq w = (o, w') -> since t w'.
Proof.
  intros [Hinv Hg] Hans. destruct (route (rq_method rq) (rq_path rq)) as [ep|] eqn:Hroute.
  2: { unfold answered, serve_http in Hans. rewrite Hroute in Hans. injection Hans as <- <-.
       by split. }
  destruct (answered_routed E rand rq ep w o w' Hroute Hans) as (resp & -> & [[_ Hw]|Hw]).
  { destruct Hw as (Ht & Hq & _). simpl in Ht, Hq. unfold since, db_inv. by rewrite Ht, Hq. }
  destruct Hw as (ident & w1 & (Ht & Hq & _ & Htx & Hgates) & Hrun & _).
  simpl in Ht, Hq, Htx, Hgates.
  assert (since t w1) as [Hinv1 Hg1] by (unfold since, db_inv; by rewrite Ht, Hq).
  pose proof (handle_served E rand ident rq ep w1 Htx Hgates) as Hs. cbv zeta in Hs.
  rewrite Hrun in Hs.
  simpl in Hs. destruct Hs as [->|[req ->]]; [by split|].
  destruct (serve_ok maxWinners lockTTL lockWait jwtSecret jwtExpiry E req w1 Hinv1) as [Hi2 Hg2].
  split; [done|by etrans].
Qed.

(** The other clients only send requests. *)
Definition others_ok (W : wire R) : Prop :=
  forall i w, history (R := R) maxWinners lockTTL lockWait jwtSecret jwtExpiry w (wi_others W i w).

Lemma history_since t w w' :
  since t w -> history (R := R) maxWinners lockTTL lockWait jwtSecret jwtExpiry w w' -> since t w'.
Proof.
  intros [Hinv Hg] Hh. destruct (history_ok maxWinners lockTTL lockWait jwtSecret jwtExpiry w w' Hh Hinv)
    as [Hinv' Hg']. split; [done|by etrans].
Qed.

Section Cwp.
Variable W : wire R.
Hypothesis Hothers : others_ok W.

(** One request: no answer, or the answer of the server, which is then in the
    world the answer came from. *)
Lemma cwp_do rq t Q n :
  since t (net_world n) ->
  (forall n', since t (net_world n') -> Q None n') ->
  (forall E rand w o n', since t w -> answered E rand rq w = (o, net_world n') ->
     since t (net_world n') -> Q (Some o) n') ->
  cwp W (perform (ClientDo rq)) Q n.
Proof.
  intros Hs Hnone Hsome. apply cwp_perform. unfold exec_ccmd.
  pose proof (history_since t _ _ Hs (Hothers (net_step n) (net_world n))) as Hw.
  destruct (answered _ _ rq _) as [o w'] eqn:Hans.
  pose proof (answered_since _ _ _ _ t _ _ Hw Hans) as Hw'.
  destruct (wi_fate W (net_step n)); simpl; [|by apply Hnone..].
  by eapply Hsome; [exact Hw|exact Hans|].
Qed.

(** No more requests are sent than the program has. *)
Lemma crun_sent {A} k (p : client A) n :
  sends k p -> net_sent (crun W p n).2 <= net_sent n + k.
Proof.
  revert k n. induction p as [a|X c f IH]; intros k n Hp; simpl; [lia|].
  destruct (exec_ccmd W c n) as [x n'] eqn:Hex. unfold exec_ccmd in Hex.
  destruct c; simpl in Hp; 
    [|injection Hex as <- <-; by (etrans; [apply (IH _ k); done|simpl; lia])..].
  destruct k as [|k]; [done|].
  assert (net_sent n' = S (net_sent n)) as Hn.
  { destruct (answered _ _ rq _) as [o w']. destruct (wi_fate W (net_step n)); by injection Hex as _ <-. }
  specialize (IH x k n' (Hp x)). lia.
Qed.

(** The other commands leave the server alone. *)
Lemma cwp_quiet {X} (c : ccmd X) t Q n :
  match c with ClientDo _ => False | _ => True end -> since t (net_world n) ->
  (forall x n', since t (net_world n') -> net_world n' = net_world n -> Q x n') ->
  cwp W (perform c) Q n.
Proof. intros Hc Hs HQ. apply cwp_perform. destruct c; [done|by apply HQ..]. Qed.
End Cwp.
End Server.
