(* ===== verification/FairnessApi.v ===== *)
(** * The fairness test of the whole service

    [src/loadtest/cmd/fairness-api/main.go]: every draw creates an event
    through the API, books the same users in the same order, closes the event
    and draws it; the workers count who won.  [oneDraw] runs against the
    server of [Http] over a network that loses requests and answers
    ([Client]), so what it reports can be compared with what the server
    committed. *)

From S2P Require Import Prelude GoFmt GoString GoTime GoJson Models Seal Shuffle Database Effects Invariant.
From S2P Require Import Growth Booking Events Draw Lock Auth System Codec Http Wire Client Stats Fairness.
From Stdlib Require Import Ascii.

(** ** Sending one request *)

(** Why [call] fails: [http.NewRequest] refuses, no answer came, or the body
    does not decode. *)
Inductive call_error := NoRequest | NoAnswer | BadBody.

(** The answer of [call]: the status and the decoded body, or the status and
    the error. *)
Definition called (T : Type) : Type := result (Z * call_error) (Z * T).

Section Call.
(** [http.NewRequest] accepts URLs that start with [base]. *)
Variable base_ok : bool.

(** The loop of [call], [left] attempts before its end. *)
Fixpoint call_loop {T} (decode : string -> option T) (rq : http_request) (left : nat)
    (lastErr : call_error) : client (called T) :=
  match left with
  | O => mret (Err (0%Z, lastErr))
  | S left' =>
    if base_ok then
      resp ← perform (ClientDo rq);
      match resp with
      | None =>
        _ ← perform CountTransportError;
        _ ← perform (Sleep (50 * Millisecond));
        call_loop decode rq left' NoAnswer
      | Some o =>
        match decode (answer_body (own_status rq) o) with
        | Some out => mret (Ok (status_of rq o, out))
        | None => mret (Err (status_of rq o, BadBody))
        end
      end
    else mret (Err (0%Z, NoRequest))
  end.

Definition call {T} (decode : string -> option T) (rq : http_request)
  : client (called T) := call_loop decode rq 5 NoAnswer.

(** ** Decoding answers *)

(** [out == nil]: the body is not read. *)
Definition decode_none (_ : string) : option unit := Some tt.

(** [struct { Data struct { ID int64 } }], whose inner field has no tag. *)
Definition decode_event : string -> option Z :=
  decode_answer (decode_struct false [("data", decode_struct false [("ID", decode_int)])]) 0%Z.

(** [apiError]. *)
Definition decode_error : string -> option string :=
  decode_answer (decode_struct false [("error", decode_string)]) "".

Record drawResp := mkDrawResp {
  dr_Code : string;
  dr_Data_Winners : list Z;
  dr_Data_Waitlist : list Z
}.

(** [struct { WinnerUserID int64 }] *)
Definition decode_winner : decoder Z := decode_struct false [("winner_user_id", decode_int)].

Definition drawResp_data_fields : list (field drawResp) :=
  [("winners", fun j r => l ← decode_slice 0%Z decode_winner j (dr_Data_Winners r);
                          Some (mkDrawResp (dr_Code r) l (dr_Data_Waitlist r)));
   ("waitlist", fun j r => l ← decode_slice 0%Z decode_winner j (dr_Data_Waitlist r);
                           Some (mkDrawResp (dr_Code r) (dr_Data_Winners r) l))].

Definition drawResp_fields : list (field drawResp) :=
  [("code", fun j r => v ← decode_string j (dr_Code r);
                       Some (mkDrawResp v (dr_Data_Winners r) (dr_Data_Waitlist r)));
   ("data", decode_struct false drawResp_data_fields)].

Definition decode_draw : string -> option drawResp :=
  decode_answer (decode_struct false drawResp_fields) (mkDrawResp "" [] []).

(** ** One draw *)

Record user_token := mkUserToken { ut_ID : Z; ut_Token : string }.
Record tokens := mkTokens { tk_Admin : string; tk_Users : list user_token }.

Definition user_token_fields : list (field user_token) :=
  [("id", fun j u => v ← decode_int j (ut_ID u); Some (mkUserToken v (ut_Token u)));
   ("token", fun j u => v ← decode_string j (ut_Token u); Some (mkUserToken (ut_ID u) v))].

Definition tokens_fields : list (field tokens) :=
  [("admin", fun j t => v ← decode_string j (tk_Admin t); Some (mkTokens v (tk_Users t)));
   ("users", fun j t => l ← decode_slice (mkUserToken 0 "") (decode_struct false user_token_fields) j (tk_Users t);
                        Some (mkTokens (tk_Admin t) l))].

(** [json.Unmarshal(raw, &t)]. *)
Definition read_tokens (raw : string) : option tokens :=
  Unmarshal (decode_struct false tokens_fields) (mkTokens "" []) raw.

(** How [oneDraw] ends early; [TokenPanic] is [t.Users[i]] out of range. *)
Inductive draw_failure :=
| CreateFailed (code : Z) (err : option call_error)
| BookFailed (i : nat) (code : Z) (err : option call_error)
| CloseFailed (code : Z) (err : option call_error)
| DrawFailed (code : Z) (err : option call_error)
| WrongCounts (winners waitlist : Z)
| TokenPanic (i : nat).

Definition code_of {T} (r : called T) : Z := match r with Ok (c, _) => c | Err (c, _) => c end.
Definition err_of {T} (r : called T) : option call_error :=
  match r with Ok _ => None | Err (_, e) => Some e end.

Definition api_request (method : string) (path : list string) (token body : string)
  : http_request :=
  mkHttpRequest method path (fun _ => "") ("Bearer " +:+ token) body.

(** The body of [POST /events]; [%q] of a time adds quotes only. *)
Definition create_body (k w : Z) (drawAt : string) : string :=
  let field name value := quoted name +:+ ":" +:+ value in
  "{" +:+ field "title" (quoted "fairness") +:+ "," +:+ field "capacity" (FormatInt k)
    +:+ "," +:+ field "winner_count" (FormatInt w) +:+ "," +:+ field "draw_at" (quoted drawAt)
    +:+ "}".

(** The user has the place: booked now, or by an attempt whose answer was
    lost. *)
Definition booked (r : called string) : bool :=
  match r with
  | Ok (code, err) =>
      bool_decide (code = 201%Z) || (bool_decide (code = 409%Z) && Contains err "already booked")
  | Err _ => false
  end.

(** The loop over [attempt], which gives up when [attempt > 50]. *)
Fixpoint book_loop (i : nat) (rq : http_request) (left : nat) : client (result draw_failure unit) :=
  r ← call decode_error rq;
  if booked r then mret (Ok tt)
  else match left with
       | O => mret (Err (BookFailed i (code_of r) (err_of r)))
       | S left' => _ ← perform (Sleep (10 * Millisecond)); book_loop i rq left'
       end.

(** The loop over the users, [n] of them left. *)
Fixpoint book_users (id : string) (users : list user_token) (i n : nat)
  : client (result draw_failure unit) :=
  match n with
  | O => mret (Ok tt)
  | S n' =>
    match users !! i with
    | None => mret (Err (TokenPanic i))
    | Some u =>
      try _ := book_loop i (api_request "POST" ["events"; id; "book"] (ut_Token u) "") 51
        catch e => e in
      book_users id users (S i) n'
    end
  end.

(** The loop that waits out the difference of the clocks; it gives up when
    [attempt > 20]. *)
Fixpoint draw_loop (rq : http_request) (left : nat) : client (called drawResp) :=
  r ← call decode_draw rq;
  match r, left with
  | Ok (code, dr), S left' =>
      if bool_decide (code = 409%Z /\ dr_Code dr = "draw_not_due")
      then _ ← perform (Sleep (100 * Millisecond)); draw_loop rq left'
      else mret r
  | _, _ => mret r
  end.

(** What is left when the draw (or its results) came back. *)
Definition finish_draw (k w : Z) (r : called drawResp) : result draw_failure (list Z) :=
  match r with
  | Ok (200%Z, dr) =>
      let winners := Z.of_nat (length (dr_Data_Winners dr)) in
      let waitlist := Z.of_nat (length (dr_Data_Waitlist dr)) in
      if decide (winners <> w \/ winners + waitlist <> k)%Z then Err (WrongCounts winners waitlist)
      else Ok (dr_Data_Winners dr)
  | _ => Err (DrawFailed (code_of r) (err_of r))
  end.

(** An attempt whose answer was lost may have drawn the event: read the
    results instead. *)
Definition drawn_before (r : called drawResp) : bool :=
  match r with
  | Ok (code, dr) => bool_decide (code = 409%Z /\ dr_Code dr = "already_drawn")
  | Err _ => false
  end.

Definition oneDraw (t : tokens) (k w : Z) : client (result draw_failure (list Z)) :=
  now ← perform ClientNow;
  let due := (now + 1500 * Millisecond)%Z in
  r ← call decode_event (api_request "POST" ["events"] (tk_Admin t)
                           (create_body k w (FormatRFC3339Nano due)));
  match r with
  | Ok (201%Z, ev) =>
    let id := FormatInt ev in
    try _ := book_users id (tk_Users t) 0 (Z.to_nat k) catch e => e in
    c ← call decode_none (api_request "PUT" ["events"; id; "close"] (tk_Admin t) "");
    match c with
    | Ok (200%Z, _) =>
      now ← perform ClientNow;
      _ ← perform (Sleep (due - now + 100 * Millisecond));
      r ← draw_loop (api_request "POST" ["events"; id; "draw"] (tk_Admin t) "") 21;
      if drawn_before r then
        r ← call decode_draw (api_request "GET" ["events"; id; "results"] (tk_Admin t) "");
        mret (finish_draw k w r)
      else mret (finish_draw k w r)
    | _ => mret (Err (CloseFailed (code_of c) (err_of c)))
    end
  | _ => mret (Err (CreateFailed (code_of r) (err_of r)))
  end.
End Call.

(** ** Counting *)

(** Why the program fails in the end; [UnknownWinner] is an identifier that is
    not one of the participants'. *)
Inductive run_error := BadTokens | DrawError (e : draw_failure) | UnknownWinner (id : Z).

Record tallies := mkTallies {
  ta_wins : list Z;
  ta_firsts : list Z;
  ta_firstErr : option run_error
}.

(** The first error is kept. *)
Definition note_error (e : run_error) (o : option run_error) : option run_error :=
  match o with Some e' => Some e' | None => Some e end.

(** One iteration of the loop over [winners]; [None] is an index out of range. *)
Definition count_winner (index : gmap Z nat) (st : tallies) (r : nat) (id : Z) : option tallies :=
  let firstErr := match index !! id with
                  | Some _ => ta_firstErr st
                  | None => note_error (UnknownWinner id) (ta_firstErr st)
                  end in
  let idx := position index id in
  wins ← incr (ta_wins st) idx;
  firsts ← (if decide (r = 0) then incr (ta_firsts st) idx else Some (ta_firsts st));
  Some (mkTallies wins firsts firstErr).

Fixpoint count_winners (index : gmap Z nat) (st : tallies) (r : nat) (winners : list Z)
  : option tallies :=
  match winners with
  | [] => Some st
  | id :: winners' => st ← count_winner index st r id; count_winners index st (S r) winners'
  end.

(** What a worker does between [mu.Lock()] and [mu.Unlock()] with the outcome
    of a draw. *)
Definition record_outcome (index : gmap Z nat) (st : tallies) (o : result draw_failure (list Z))
  : option tallies :=
  match o with
  | Err e => Some (mkTallies (ta_wins st) (ta_firsts st) (note_error (DrawError e) (ta_firstErr st)))
  | Ok winners => count_winners index st 0 winners
  end.

(** The outcomes of all workers, in the order in which they took the mutex. *)
Definition record_all (index : gmap Z nat) (st : tallies) (outcomes : list (result draw_failure (list Z)))
  : option tallies :=
  foldl (fun o out => st ← o; record_outcome index st out) (Some st) outcomes.

(** [index[t.Users[i].ID] = i] for [i < k]; [None] when there are fewer
    tokens. *)
Definition users_index (t : tokens) (k : Z) : option (gmap Z nat) :=
  if decide (Z.to_nat k <= length (tk_Users t))
  then Some (index_of (ut_ID <$> take (Z.to_nat k) (tk_Users t))) else None.

Section Report.
Context `{FloatMath}.

(** The end of [main]: the error, or the three test results. *)
Definition api_report (k w draws : Z) (st : tallies) : result run_error (list Result) :=
  match ta_firstErr st with
  | Some e => Err e
  | None => let (p, a) := WinFrequency (ta_wins st) draws w in
            Ok [p; a; Uniform "rank-1 frequency" (ta_firsts st)]
  end.

(** What [main] prepares for the workers; [None] is a panic ([make] panics on
    a negative length). *)
Definition api_start (t : tokens) (k : Z) : option (gmap Z nat * tallies) :=
  index ← users_index t k;
  guard (0 <= k)%Z;;
  Some (index, mkTallies (replicate (Z.to_nat k) 0%Z) (replicate (Z.to_nat k) 0%Z) None).

(** [main] on the bytes of the tokens file, with the outcomes the workers got
    in the order in which they took the mutex. *)
Definition api_main (raw : string) (k w draws : Z) (outcomes : list (result draw_failure (list Z)))
  : option (result run_error (list Result)) :=
  match read_tokens raw with
  | None => Some (Err BadTokens)
  | Some t =>
    '(index, st) ← api_start t k;
    st ← record_all index st outcomes;
    Some (api_report k w draws st)
  end.
End Report.

(** ** Lemmas: what an answer says about the server *)

(** The users of encoded draw rows. *)
Lemma decode_winners l j x old :
  json_array LotteryDraw_json l = Some j -> decode_slice 0%Z decode_winner j old = Some x ->
  x = draw_WinnerUserID <$> l.
Proof.
  unfold json_array. intros (vs & Hvs & ->)%fmap_Some. cbn [decode_slice]. apply mapM_Some in Hvs.
  intros Hx%mapM_Some. revert x Hx. induction Hvs as [|d v l vs Hd _ IH]; intros x Hx.
  { by apply Forall2_nil_inv_l in Hx as ->. }
  apply Forall2_cons_inv_l in Hx as (y & x' & Hy & Hx & ->). rewrite fmap_cons, <- (IH x' Hx). f_equal.
  unfold decode_winner in Hy. erewrite decode_struct_fields in Hy; [|exact Hd|by repeat constructor].
  revert Hy. cbn [foldl]. unfold decode_step. lookup_fields.
  intros Hy. by apply decode_int_json in Hy.
Qed.

(** What [decode_draw] reads of the results of a draw. *)
Lemma decode_draw_data d j x :
  DrawResult_json d = Some j ->
  decode_struct false drawResp_data_fields j (mkDrawResp "" [] []) = Some x ->
  x = mkDrawResp "" (draw_WinnerUserID <$> dr_Winners d) (draw_WinnerUserID <$> dr_Waitlist d).
Proof.
  intros Hj. erewrite decode_struct_fields; [|exact Hj|apply DrawResult_named].
  unfold DrawResult_fields. rewrite foldl_app. cbn [foldl].
  unfold decode_step at 2 3 4 5 6 7. lookup_fields.
  match goal with |- foldl _ ?s _ = _ -> _ => set (st := s) end.
  assert (forall y, st = Some y ->
    y = mkDrawResp "" (draw_WinnerUserID <$> dr_Winners d) (draw_WinnerUserID <$> dr_Waitlist d)) as Hst.
  { unfold st. intros y.
    destruct (json_array LotteryDraw_json (dr_Winners d)) as [jw|] eqn:Hw; [|by cbn]. cbn [mbind option_bind].
    destruct (decode_slice _ _ jw _) as [lw|] eqn:Hlw; [|by cbn]. cbn [mbind option_bind].
    destruct (json_array LotteryDraw_json (dr_Waitlist d)) as [jl|] eqn:Hl; [|by cbn]. cbn [mbind option_bind].
    destruct (decode_slice _ _ jl _) as [ll|] eqn:Hll; [|by cbn]. cbn [mbind option_bind]. intros [= <-].
    by rewrite (decode_winners _ _ _ _ Hw Hlw), (decode_winners _ _ _ _ Hl Hll). }
  assert (forall l, named l -> (forall kv, kv ∈ l -> find_field drawResp_data_fields (chars kv.1) = None) ->
    foldl (decode_step drawResp_data_fields) st l = st) as Hskip.
  { intros l _ Hl. induction l as [|kv l IH]; [done|]. cbn [foldl]. unfold decode_step at 2.
    rewrite Hl by constructor. rewrite option_bind_ret. apply IH. intros kv' ?. apply Hl. by constructor. }
  rewrite Hskip; [apply Hst|..].
  - unfold json_strings. apply Forall_app. by split; apply omit_named.
  - intros kv. unfold json_strings, omit_if. rewrite elem_of_app.
    intros [Hkv|Hkv]; destruct (bool_decide _); (by apply not_elem_of_nil in Hkv) ||
      (apply list_elem_of_singleton in Hkv as ->; reflexivity).
Qed.

Lemma decode_draw_results d x :
  decode_draw (encode_response (Respond 200 true (PDraw d) "")) = Some x ->
  x = mkDrawResp "" (draw_WinnerUserID <$> dr_Winners d) (draw_WinnerUserID <$> dr_Waitlist d).
Proof.
  intros Hx%decode_response. revert Hx.
  change (APIResponse_fields (Respond 200 true (PDraw d) ""))
    with [("success", Some (JBool true)); ("data", DrawResult_json d)].
  cbn [foldl]. unfold decode_step. lookup_fields.
  destruct (DrawResult_json d) as [j|] eqn:Hj; [|done]. cbn [mbind option_bind].
  intros Hx. by eapply decode_draw_data.
Qed.

(** What [decode_error] reads. *)
Lemma decode_error_text r x : decode_error (encode_response r) = Some x -> x = coerced (rs_error r).
Proof.
  intros Hx%decode_response. revert Hx. unfold APIResponse_fields, json_strings, omit_if.
  destruct (no_data (rs_data r)), (bool_decide (rs_error r = "")) eqn:He, (bool_decide (rs_code r = "")),
    (rs_meta r); cbn [app foldl]; unfold decode_step; lookup_fields;
    rewrite ?decode_string_json; intros [= <-]; try done;
    apply bool_decide_eq_true in He; by rewrite He.
Qed.

Section Sound.
Context `{UnicodeLower, Bcrypt, Mail, Signer} {R : Type} `{RandSource R}.
Context `{JSONErrors}.
Context `{TokenParser}.
Variables (maxWinners lockTTL lockWait : Z) (jwtSecret : string) (jwtExpiry : Z).
Variable base_ok : bool.

Notation answered := (answered maxWinners lockTTL lockWait jwtSecret jwtExpiry).
Notation handled := (handled maxWinners lockTTL lockWait jwtSecret jwtExpiry).

(** The events' results that an answer shows are those the server has
    committed. *)
Definition shows_results (id : string) (o : option response) (w : world) : Prop :=
  forall own code dr, decode_draw (answer_body own o) = Some dr -> code = 200%Z ->
    (exists resp, o = Some resp /\ rs_status resp = code) ->
    exists eid res, parseID id = Some eid /\ results_of (w_tables w) eid = Ok res /\
      dr_Data_Winners dr = draw_WinnerUserID <$> dr_Winners res /\
      dr_Data_Waitlist dr = draw_WinnerUserID <$> dr_Waitlist res.

Lemma turned_away o resp id w :
  o = Some resp -> (rs_status resp = 401 \/ rs_status resp = 403)%Z -> shows_results id o w.
Proof. intros -> Hst own code dr _ -> (r & [= <-] & Hr). by destruct Hst; congruence. Qed.

Lemma draw_shows E (rand : R) rq x w o w' t :
  route (rq_method rq) (rq_path rq) = Some (EpDraw x) -> since t w ->
  answered E rand rq w = (o, w') -> shows_results x o w'.
Proof.
  intros Hroute [[Hinv _] _] Hans.
  destruct (answered_routed _ _ _ _ _ E rand rq _ w o w' Hroute Hans)
    as (resp & -> & [[Hst _]|(ident & w1 & (Ht & _) & Hrun & _)]); [by eapply turned_away|].
  intros own code dr Hdec -> (r & [= <-] & Hst). revert Hrun. unfold handle, handle_Draw.
  destruct (parseID x) as [eid|]; [|clear Hdec; by intros [= <- <-]].
  rewrite run_bind. destruct (run E (RunDraw rand eid) w1) as [[res|e] w2] eqn:Hd.
  - intros [= <- <-]. exists eid, res. apply decode_draw_results in Hdec as ->.
    split_and!; [done| |done..]. eapply RunDraw_results; [|exact Hd]. by rewrite Ht.
  - clear Hdec. intros [= <- <-]. by destruct e.
Qed.

Lemma results_shows E (rand : R) rq x w o w' t :
  route (rq_method rq) (rq_path rq) = Some (EpResults x) -> since t w ->
  answered E rand rq w = (o, w') -> shows_results x o w'.
Proof.
  intros Hroute _ Hans.
  destruct (answered_routed _ _ _ _ _ E rand rq _ w o w' Hroute Hans)
    as (resp & -> & [[Hst _]|(ident & w1 & (Ht & _) & Hrun & _)]); [by eapply turned_away|].
  intros own code dr Hdec -> (r & [= <-] & Hst). revert Hrun. unfold handle, handle_Results.
  destruct (parseID x) as [eid|]; [|clear Hdec; by intros [= <- <-]].
  rewrite run_bind. destruct (run E (GetResults eid) w1) as [[res|e] w2] eqn:Hd.
  - intros [= <- <-]. exists eid, res. apply decode_draw_results in Hdec as ->.
    split_and!; [done| |done..].
    destruct (wp_run _ _ _ _ _ Hd (GetResults_wp E w1 eid)) as (Ht2 & [Hr|[_ []]]).
    by rewrite Ht2.
  - clear Hdec. by destruct e; intros [= <- <-].
Qed.

Lemma booking_full_ascii b c : forallb is_ascii (chars (booking_text (ErrEventFull b c))) = true.
Proof.
  apply ascii_chars. cbn [booking_text]. rewrite !chars_app, !Forall_app.
  assert (forall z, Forall (fun c => is_ascii c = true) (chars (FormatInt z))) as Hi.
  { intros z. apply Forall_forall. intros x [Hx| ->]%FormatInt_chars; [|done].
    destruct x as [[] [] [] [] [] [] [] []]; done. }
  split_and!; try apply Hi; by repeat constructor.
Qed.

(** The only conflict whose text contains the client's marker. *)
Lemma already_booked_text e :
  rs_status (book_failure e) = 409%Z ->
  Contains (coerced (rs_error (book_failure e))) "already booked" = true -> e = ErrAlreadyBooked.
Proof.
  destruct e as [| |st|b c| | |c]; simpl; try done.
  - by destruct st.
  - rewrite coerced_ascii by (apply booking_full_ascii). intros _ Hc. exfalso.
    assert ("a"%char ∈ chars "already booked") as Ha by (apply (bool_decide_unpack _); vm_compute; exact I).
    pose proof (Contains_char _ _ _ Hc Ha) as Hin. clear Hc. rename Hin into Hc.
    unfold booking_text in Hc. rewrite !chars_app, !elem_of_app in Hc.
    destruct Hc as [Hc|[Hc|[Hc|[Hc|Hc]]]];
      try (revert Hc; apply (bool_decide_unpack _); vm_compute; exact I);
      revert Hc; by apply not_in_FormatInt.
Qed.

(** The user of a token has a place. *)
Definition has_place (id token : string) (w : world) : Prop :=
  exists now claims eid, ParseWithClaims token jwtSecret now = Some claims /\ parseID id = Some eid /\
    booking_exists eid (cl_UserID claims) (w_tables w) = true.

Lemma booked_in_exists t t' eid uid : booked_in t t' eid uid -> booking_exists eid uid t' = true.
Proof.
  intros (id & at_ & ->). apply booking_exists_spec.
  exists (mkBooking id eid uid at_). split_and!; [|done..]. simpl. apply elem_of_app. right.
  by apply list_elem_of_singleton.
Qed.

Lemma booking_exists_grows t t' eid uid :
  grows t t' -> booking_exists eid uid t = true -> booking_exists eid uid t' = true.
Proof.
  intros Hg (b & Hb & Hid & Hu)%booking_exists_spec. apply booking_exists_spec. exists b.
  split; [|done]. destruct (g_bookings _ _ Hg) as [l ->]. apply elem_of_app. by left.
Qed.

Lemma has_place_grows id token w w' :
  grows (w_tables w) (w_tables w') -> has_place id token w -> has_place id token w'.
Proof.
  intros Hg (now & claims & eid & Hp & Hid & Hb). exists now, claims, eid.
  split_and!; [done..|]. by eapply booking_exists_grows.
Qed.

Lemma bearer_token_of token token' : bearer_token ("Bearer " +:+ token) = Some token' -> token' = token.
Proof.
  unfold bearer_token. change ("Bearer " +:+ token) with ("Bearer " ++ token)%string.
  rewrite chars_app. simpl. case_match; [|done]. intros [= <-].
  apply String.string_of_list_ascii_of_string.
Qed.

Lemma book_gives_place E (rand : R) x token w o w' t :
  since t w ->
  let rq := api_request "POST" ["events"; x; "book"] token "" in
  x <> "" -> answered E rand rq w = (o, w') ->
  forall own err, decode_error (answer_body own o) = Some err -> booked (Ok (status_of rq o, err)) = true ->
  has_place x token w'.
Proof.
  intros [[Hinv _] _] rq Hx Hans own err Hdec Hbooked.
  assert (route (rq_method rq) (rq_path rq) = Some (EpBook x)) as Hroute.
  { unfold route. simpl. by rewrite decide_False. }
  destruct (answered_routed _ _ _ _ _ E rand rq _ w o w' Hroute Hans) as (resp & -> & Hh).
  apply decode_error_text in Hdec as ->. cbn [status_of] in Hbooked.
  destruct Hh as [[Hst _]|(ident & w1 & (Ht & _) & Hrun & Hid)].
  { exfalso. revert Hbooked. unfold booked. by destruct Hst as [-> | ->]. }
  destruct ident as [i|]; [|done].
  destruct Hid as (token' & now & claims & Hb & Hp & ->).
  apply bearer_token_of in Hb as ->. simpl in Hrun, Ht. unfold handle_Book in Hrun.
  destruct (parseID x) as [eid|] eqn:Heid; [|by injection Hrun as <- <-].
  exists now, claims, eid. split_and!; [done..|].
  rewrite run_bind in Hrun. simpl in Hrun.
  destruct (run E (BookWithLock lockTTL lockWait eid (cl_UserID claims)) w1) as [r w2] eqn:Hbk.
  destruct (wp_run _ _ _ _ _ Hbk (BookWithLock_wp lockTTL lockWait E eid (cl_UserID claims) w1))
    as (_ & _ & Hpost).
  assert (w2 = w') as -> by (by destruct r; injection Hrun as _ <-).
  assert (r = Ok tt \/ r = Err ErrAlreadyBooked) as Hr.
  { destruct r as [[]|e]; [by left|]. right. injection Hrun as <-. f_equal.
    unfold booked in Hbooked. apply orb_true_iff in Hbooked as [Hc|Hc].
    - apply bool_decide_eq_true in Hc. by destruct e.
    - apply andb_true_iff in Hc as [Hc1%bool_decide_eq_true Hc2]. by apply already_booked_text. }
  revert Hpost. unfold locked_post. case_decide; [by destruct Hr as [-> | ->]; intros [? _]|].
  intros [(_ & Hbad)|[[Hspec Heff]|(_ & Hother & _)]].
  - by destruct Hr as [-> | ->]; destruct Hbad as [?|[?|[_ ?]]].
  - destruct Hr as [-> | ->]; [by eapply booked_in_exists|]. rewrite Heff.
    revert Hspec. unfold book_spec. repeat case_match; congruence.
  - by destruct Hr as [-> | ->].
Qed.

(** *** Programs *)

Variable W : wire R.
Hypothesis Hothers : others_ok (R := R) maxWinners lockTTL lockWait jwtSecret jwtExpiry W.

Notation cwp := (cwp maxWinners lockTTL lockWait jwtSecret jwtExpiry W).

(** A call ends in an error, or in an answer of the server that decodes; the
    network is then as this answer left it. *)
Lemma call_wp {T} (decode : string -> option T) rq t (P : option response -> world -> Prop) n :
  since t (net_world n) ->
  (forall E rand w o w', since t w -> answered E rand rq w = (o, w') -> P o w') ->
  cwp (call base_ok decode rq) (fun r n' => since t (net_world n') /\
    forall code x, r = Ok (code, x) ->
      exists o, code = status_of rq o /\ decode (answer_body (own_status rq) o) = Some x /\ P o (net_world n')) n.
Proof.
  intros Hs HP. unfold call. generalize 5 as left. generalize NoAnswer as lastErr.
  intros lastErr left. revert lastErr n Hs. induction left as [|left IH]; intros lastErr n Hs.
  { by apply cwp_ret. }
  cbn [call_loop]. destruct base_ok; [|by apply cwp_ret].
  apply cwp_bind. apply (cwp_do _ _ _ _ _ W Hothers rq t); [done|..].
  - intros n1 Hs1. apply cwp_bind, (cwp_quiet _ _ _ _ _ W _ t); [done..|]. intros [] n2 Hs2 _.
    apply cwp_bind, (cwp_quiet _ _ _ _ _ W _ t); [done..|]. intros [] n3 Hs3 _. by apply IH.
  - intros E rand w o n1 Hw Hans Hs1. destruct (decode (answer_body (own_status rq) o)) as [x|] eqn:Hdec; apply cwp_ret; [|done].
    split; [done|]. intros code x' [= <- <-]. eauto 10.
Qed.

Lemma since_trans t n n' : since t (net_world n) -> since (w_tables (net_world n)) (net_world n') ->
  since t (net_world n').
Proof. intros [_ Hg] [Hi Hg']. split; [done|by etrans]. Qed.

Lemma book_loop_wp i x token left n :
  x <> "" -> db_inv (net_world n) ->
  cwp (book_loop base_ok i (api_request "POST" ["events"; x; "book"] token "") left)
    (fun r n' => since (w_tables (net_world n)) (net_world n') /\
       (r = Ok tt -> has_place x token (net_world n'))) n.
Proof.
  intros Hx. set (rq := api_request _ _ _ _). revert n. induction left as [|left IH]; intros n Hinv;
    cbn [book_loop]; apply cwp_bind; (eapply cwp_mono;
      [apply (call_wp decode_error rq (w_tables (net_world n)) (fun o w' =>
         forall own err, decode_error (answer_body own o) = Some err -> booked (Ok (status_of rq o, err)) = true ->
         has_place x token w')); [by apply since_refl|]|]);
    try (intros E rand w o w' Hw Hans; by eapply book_gives_place);
    intros r n1 [Hs1 Hr]; destruct (booked r) eqn:Hb.
  1,3: apply cwp_ret; (split; [done|]); intros _;
    destruct r as [[code err]|]; [|done]; destruct (Hr _ _ eq_refl) as (o & -> & Hdec & HP);
    by eapply HP.
  - by apply cwp_ret.
  - apply cwp_bind. apply (cwp_quiet _ _ _ _ _ W _ (w_tables (net_world n))); [done..|].
    intros [] n2 Hs2 Hw2. eapply cwp_mono; [apply IH, Hs2|]. intros r2 n3 [Hs3 Hr3].
    split; [by eapply since_trans|done].
Qed.

Lemma book_users_wp x users i m n :
  x <> "" -> db_inv (net_world n) ->
  cwp (book_users base_ok x users i m)
    (fun r n' => since (w_tables (net_world n)) (net_world n') /\
       (r = Ok tt -> i + m <= length users \/ m = 0) /\
       (r = Ok tt -> forall u, u ∈ take m (drop i users) -> has_place x (ut_Token u) (net_world n'))) n.
Proof.
  intros Hx. revert i n. induction m as [|m IH]; intros i n Hinv; cbn [book_users].
  { apply cwp_ret. split; [by apply since_refl|]. split; [by right|]. intros _ u Hu. by apply not_elem_of_nil in Hu. }
  destruct (users !! i) as [u|] eqn:Hu.
  2: { apply cwp_ret. split; [by apply since_refl|done]. }
  apply cwp_try. eapply cwp_mono; [by apply book_loop_wp|]. intros [[]|e] n1 [Hs1 Hp]; [|done].
  eapply cwp_mono; [apply IH, Hs1|]. intros r n2 (Hs2 & Hlen & Hr).
  split; [by eapply since_trans|]. split.
  - intros Hok. left. apply lookup_lt_Some in Hu. destruct (Hlen Hok); lia.
  - intros Hok u'. rewrite (drop_S _ _ _ Hu). simpl. intros [->|Hu']%elem_of_cons; [|by apply Hr].
    eapply has_place_grows; [apply Hs2|by apply Hp].
Qed.

Lemma draw_loop_wp x token left n t :
  x <> "" -> since t (net_world n) ->
  let rq := api_request "POST" ["events"; x; "draw"] token "" in
  cwp (draw_loop base_ok rq left) (fun r n' => since t (net_world n') /\
    forall code dr, r = Ok (code, dr) -> exists o, code = status_of rq o /\
      decode_draw (answer_body (own_status rq) o) = Some dr /\ shows_results x o (net_world n')) n.
Proof.
  intros Hx Hs rq. revert n Hs. induction left as [|left IH]; intros n Hs;
    cbn [draw_loop]; apply cwp_bind; (eapply cwp_mono;
      [apply (call_wp decode_draw rq t (shows_results x)); [done|]|]);
    try (intros E rand w o w' Hw Hans; eapply draw_shows; [|exact Hw|exact Hans];
         unfold route; simpl; by rewrite decide_False);
    intros r n1 [Hs1 Hr].
  - destruct r as [[]|]; by apply cwp_ret.
  - destruct r as [[code dr]|]; [|by apply cwp_ret]. case_bool_decide; [|by apply cwp_ret].
    apply cwp_bind, (cwp_quiet _ _ _ _ _ W _ t); [done..|]. intros [] n2 Hs2 _. by apply IH.
Qed.
Lemma FormatInt_nonempty z : FormatInt z <> "".
Proof.
  intros Heq. destruct (decide (0 <= z)%Z).
  - destruct (FormatInt_nonneg_spec z) as (ds & Hs & _ & _ & Hne & _); [done|].
    rewrite Heq in Hs. by destruct ds.
  - destruct (FormatInt_neg_spec z) as (ds & Hs & _); [lia|]. by rewrite Heq in Hs.
Qed.

(** What a draw that the client reports has established at the server. *)
Definition draw_reported (t : tokens) (k w : Z) (winners : list Z) (wd : world) : Prop :=
  exists x eid res, parseID x = Some eid /\ results_of (w_tables wd) eid = Ok res /\
    winners = draw_WinnerUserID <$> dr_Winners res /\ Z.of_nat (length winners) = w /\
    Z.of_nat (length (dr_Winners res ++ dr_Waitlist res)) = k /\
    Z.to_nat k <= length (tk_Users t) /\
    forall u, u ∈ take (Z.to_nat k) (tk_Users t) -> has_place x (ut_Token u) wd.

(** The last step: the counts, and the results the answer shows. *)
Lemma finish_draw_sound t k w x rq r (wd : world) winners :
  finish_draw k w r = Ok winners ->
  (forall code dr, r = Ok (code, dr) -> exists o, code = status_of rq o /\
     decode_draw (answer_body (own_status rq) o) = Some dr /\ shows_results x o wd) ->
  (0 + Z.to_nat k <= length (tk_Users t) \/ Z.to_nat k = 0) ->
  (forall u, u ∈ take (Z.to_nat k) (tk_Users t) -> has_place x (ut_Token u) wd) ->
  draw_reported t k w winners wd.
Proof.
  intros Hfin Hr Hlen Hplaces. destruct r as [[code dr]|[]]; [|done].
  destruct (decide (code = 200%Z)) as [->|Hne].
  2: { simpl in Hfin. repeat case_match; done. }
  destruct (Hr _ _ eq_refl) as (o & Hst & Hdec & Hshows). simpl in Hfin.
  case_decide as Hc; [done|]. injection Hfin as <-.
  destruct (Hshows _ 200%Z dr Hdec eq_refl) as (eid & res & Hid & Hres & Hw & Hl).
  { destruct o as [resp|]; [eauto|]. revert Hst. cbn. unfold own_status. by destruct (existsb _ _). }
  exists x, eid, res. rewrite length_app. rewrite <- (length_fmap draw_WinnerUserID (dr_Winners res)).
  rewrite <- (length_fmap draw_WinnerUserID (dr_Waitlist res)), <- Hw, <- Hl.
  split_and!; [done..|lia|lia|lia|done].
Qed.

Lemma oneDraw_wp t k w n :
  db_inv (net_world n) ->
  cwp (oneDraw base_ok t k w) (fun r n' => since (w_tables (net_world n)) (net_world n') /\
    forall winners, r = Ok winners -> draw_reported t k w winners (net_world n')) n.
Proof.
  intros Hinv. set (t0 := w_tables (net_world n)). pose proof (since_refl _ Hinv) as Hs0. fold t0 in Hs0.
  unfold oneDraw. apply cwp_bind, (cwp_quiet _ _ _ _ _ W _ t0); [done..|]. intros now n1 Hs1 _.
  apply cwp_bind. eapply cwp_mono.
  { apply (call_wp decode_event _ t0 (fun _ _ => True)); done. }
  intros r n2 [Hs2 _].
  destruct r as [[code ev]|[]]; [|by apply cwp_ret].
  destruct (decide (code = 201%Z)) as [->|Hne].
  2: { repeat case_match; (congruence || by apply cwp_ret). }
  set (x := FormatInt ev). pose proof (FormatInt_nonempty ev) as Hx. fold x in Hx.
  apply cwp_try. eapply cwp_mono; [by apply book_users_wp; [|apply Hs2]|].
  intros [[]|e] n3 (Hs3 & Hlen & Hplaces); [|split; [by eapply since_trans|done]].
  specialize (Hlen eq_refl). specialize (Hplaces eq_refl). rewrite drop_0 in Hplaces.
  set (t3 := w_tables (net_world n3)).
  assert (since t3 (net_world n3)) as Hs33 by (apply since_refl, Hs3).
  assert (forall n', since t3 (net_world n') -> since t0 (net_world n')) as Hback.
  { intros n' Hn'. eapply since_trans; [exact Hs2|]. by eapply since_trans. }
  assert (forall n', since t3 (net_world n') -> forall u, u ∈ take (Z.to_nat k) (tk_Users t) ->
    has_place x (ut_Token u) (net_world n')) as Hkeep.
  { intros n' [_ Hg] u Hu. eapply has_place_grows; [exact Hg|by apply Hplaces]. }
  apply cwp_bind. eapply cwp_mono.
  { apply (call_wp decode_none _ t3 (fun _ _ => True)); done. }
  intros c n4 [Hs4 _].
  destruct c as [[code []]|[]]; [|apply cwp_ret; split; [by apply Hback|done]].
  destruct (decide (code = 200%Z)) as [->|Hne].
  2: { repeat case_match; try congruence; apply cwp_ret; (split; [by apply Hback|done]). }
  apply cwp_bind, (cwp_quiet _ _ _ _ _ W _ t3); [done..|]. intros now' n5 Hs5 _.
  apply cwp_bind, (cwp_quiet _ _ _ _ _ W _ t3); [done..|]. intros [] n6 Hs6 _.
  apply cwp_bind. eapply cwp_mono; [by apply (draw_loop_wp x (tk_Admin t) 21 n6 t3)|].
  intros r n7 [Hs7 Hr]. destruct (drawn_before r).
  - apply cwp_bind. eapply cwp_mono.
    { apply (call_wp decode_draw _ t3 (shows_results x)); [done|].
      intros E rand wd o wd' Hwd Hans. eapply results_shows; [|exact Hwd|exact Hans].
      unfold route. simpl. by rewrite decide_False. }
    intros r2 n8 [Hs8 Hr2]. apply cwp_ret. split; [by apply Hback|]. intros winners Hfin.
    eapply finish_draw_sound; eauto.
  - apply cwp_ret. split; [by apply Hback|]. intros winners Hfin.
    eapply finish_draw_sound; eauto.
Qed.
(** The rows of the results are the audit rows of the event. *)
Lemma results_of_rows tb id res :
  results_of tb id = Ok res -> exists e, t_events tb !! id = Some e /\
    ev_status e = EventStatusDrawn /\ dr_Winners res ++ dr_Waitlist res ≡ₚ draws_of id tb.
Proof.
  unfold results_of, verified_against. destruct (t_events tb !! id) as [e|]; [|done].
  case_decide; [|done]. intros [= <-]. exists e. split_and!; [done..|].
  transitivity (order_asc draw_DrawRank (draws_of id tb)); [|apply merge_sort_Permutation].
  destruct (foldl_add_row (ev_winner_count e) (order_asc draw_DrawRank (draws_of id tb))
    (mkDrawResult id (ev_title e) 0 [] [] 0 "" "")) as (_ & _ & _ & _ & Ew & El).
  fold (collect id (ev_title e) (ev_winner_count e) (order_asc draw_DrawRank (draws_of id tb))) in Ew, El.
  unfold check_seal. destruct (t_seals tb !! id); [case_decide|]; cbn [with_integrity dr_Winners dr_Waitlist];
    rewrite Ew, El; apply filter_partition.
Qed.

(** The drawn users of an event are its entrants. *)
Lemma results_entrants tb id res :
  tables_inv tb -> results_of tb id = Ok res ->
  draw_WinnerUserID <$> dr_Winners res ++ dr_Waitlist res ≡ₚ booking_UserID <$> bookings_of id tb.
Proof.
  intros Hinv (e & He & Hst & ->)%results_of_rows.
  pose proof (dk_users tb e (inv_drawn tb Hinv id e He Hst)) as Hu.
  by rewrite (inv_event_key tb Hinv id e He) in Hu.
Qed.

Lemma elem_of_take_in {A} (x : A) m l : x ∈ take m l -> x ∈ l.
Proof. rewrite <- (take_drop m l) at 2. rewrite elem_of_app. auto. Qed.

(** The tokens are those of the users they are listed with. *)
Definition tokens_of_users (t : tokens) : Prop :=
  forall u, u ∈ tk_Users t -> forall now claims,
    ParseWithClaims (ut_Token u) jwtSecret now = Some claims -> cl_UserID claims = ut_ID u.

Definition participants (t : tokens) (k : Z) : list Z := ut_ID <$> take (Z.to_nat k) (tk_Users t).

Lemma reported_entrants t k w winners wd :
  db_inv wd -> tokens_of_users t -> NoDup (participants t k) -> draw_reported t k w winners wd ->
  exists eid res, results_of (w_tables wd) eid = Ok res /\
    winners = draw_WinnerUserID <$> dr_Winners res /\ Z.of_nat (length winners) = w /\
    draw_WinnerUserID <$> dr_Winners res ++ dr_Waitlist res ≡ₚ participants t k.
Proof.
  intros [Hinv _] Htok Hnd (x & eid & res & Hx & Hres & Hw & Hlw & Hlk & Hk & Hplaces).
  exists eid, res. split_and!; [done..|].
  pose proof (results_entrants _ _ _ Hinv Hres) as Hent. rewrite Hent. symmetry.
  apply submseteq_length_Permutation.
  - apply NoDup_submseteq; [done|]. intros id (u & -> & Hu)%list_elem_of_fmap.
    destruct (Hplaces u Hu) as (now & claims & eid' & Hp & Hx' & Hb).
    rewrite Hx in Hx'. injection Hx' as <-.
    rewrite <- (Htok u (elem_of_take_in _ _ _ Hu) now claims Hp).
    apply booking_exists_spec in Hb as (b & Hb & Hid & <-).
    apply list_elem_of_fmap_2, elem_of_bookings_of. done.
  - rewrite <- Hent. unfold participants. rewrite !length_fmap, length_take. lia.
Qed.

(** ** Properties *)

(** C17: what [oneDraw] reports is what the server committed, although requests
    and answers get lost and others use the server meanwhile.  If the tokens
    are those of [k] different users and [oneDraw] ends with winners, then some
    event is drawn, its results (with those winners, [w] of them) can be read
    from the tables, and the drawn users are exactly the [k] participants. *)
Theorem oneDraw_sound t k w n winners n' :
  db_inv (net_world n) -> tokens_of_users t -> NoDup (participants t k) ->
  crun maxWinners lockTTL lockWait jwtSecret jwtExpiry W (oneDraw base_ok t k w) n = (Ok winners, n') ->
  exists eid res, results_of (w_tables (net_world n')) eid = Ok res /\
    winners = draw_WinnerUserID <$> dr_Winners res /\ Z.of_nat (length winners) = w /\
    NoDup winners /\ winners ⊆ participants t k /\
    draw_WinnerUserID <$> dr_Winners res ++ dr_Waitlist res ≡ₚ participants t k.
Proof.
  intros Hinv Htok Hnd Hrun. pose proof (oneDraw_wp t k w n Hinv) as Hwp. unfold Client.cwp in Hwp.
  rewrite Hrun in Hwp. destruct Hwp as [[Hinv' _] Hrep].
  destruct (reported_entrants t k w winners _ Hinv' Htok Hnd (Hrep _ eq_refl))
    as (eid & res & Hres & -> & Hw & Hperm).
  exists eid, res. rewrite <- Hperm in Hnd. split_and!; try done.
  - rewrite fmap_app in Hnd. by apply NoDup_app in Hnd as (? & _ & _).
  - intros u Hu. rewrite <- Hperm, fmap_app. apply elem_of_app. by left.
Qed.

(** C38: [oneDraw] never hammers the server: whatever it is answered, and
    whatever gets lost, it sends at most [5 * (52 * k + 25)] requests: five
    attempts for each of the creation, 52 booking requests of each of the [k]
    users, the closing, 22 draw requests and the results. *)
Theorem oneDraw_bounded t k w n :
  net_sent (crun maxWinners lockTTL lockWait jwtSecret jwtExpiry W (oneDraw base_ok t k w) n).2
    <= net_sent n + 5 * (52 * Z.to_nat k + 25).
Proof.
  apply crun_sent, (sends_weaken (5 + (Z.to_nat k * (5 * 52) + (5 + (5 * 22 + 5))))); [|lia].
  assert (forall T (d : string -> option T) rq left e, sends left (call_loop base_ok d rq left e)) as Hl.
  { intros T d rq left. induction left as [|left IH]; intros e; [exact I|].
    cbn [call_loop]. destruct base_ok; [|exact I]. intros [o|]; [simpl; destruct (d _); exact I|]. exact (IH _). }
  assert (forall T (d : string -> option T) rq, sends 5 (call base_ok d rq)) as Hc
    by (intros; apply Hl). clear Hl.
  assert (forall i rq left, sends (5 * S left) (book_loop base_ok i rq left)) as Hb.
  { intros i rq left. induction left as [|left IH]; cbn [book_loop].
    - apply (sends_bind 5 0); [apply Hc|]. intros r. destruct (booked r); exact I.
    - apply (sends_weaken (5 + 5 * S left)); [|lia]. apply sends_bind; [apply Hc|].
      intros r. destruct (booked r); [exact I|]. exact IH. }
  assert (forall x users m i, sends (m * (5 * 52)) (book_users base_ok x users i m)) as Hu.
  { intros x users m. induction m as [|m IH]; intros i; cbn [book_users]; [exact I|].
    destruct (users !! i); [|exact I]. apply (sends_weaken (5 * 52 + m * (5 * 52))); [|lia].
    apply sends_try; [apply Hb|]. intros []. apply IH. }
  assert (forall rq left, sends (5 * S left) (draw_loop base_ok rq left)) as Hd.
  { intros rq left. induction left as [|left IH]; cbn [draw_loop].
    - apply (sends_bind 5 0); [apply Hc|]. intros [[]|]; exact I.
    - apply (sends_weaken (5 + 5 * S left)); [|lia]. apply sends_bind; [apply Hc|].
      intros [[code dr]|]; [|exact I]. case_bool_decide; [exact IH|exact I]. }
  intros now. apply sends_bind; [apply Hc|]. intros [[code ev]|[]]; [|exact I].
  destruct (decide (code = 201%Z)) as [->|]; [|repeat case_match; (congruence || exact I)].
  apply sends_try; [apply Hu|]. intros []. apply sends_bind; [apply Hc|]. intros [[c []]|[]]; [|exact I].
  destruct (decide (c = 200%Z)) as [->|]; [|repeat case_match; (congruence || exact I)].
  intros now'. apply (sends_bind 0 (5 * 22 + 5)); [exact I|]. intros [].
  apply sends_bind; [apply Hd|]. intros r. destruct (drawn_before r); [|exact I].
  apply (sends_bind 5 0); [apply Hc|]. intros r2. exact I.
Qed.
End Sound.

(** ** Counting the outcomes *)

Definition won (p : Z) (o : result draw_failure (list Z)) : Prop :=
  match o with Ok ws => p ∈ ws | Err _ => False end.
Definition came_first (p : Z) (o : result draw_failure (list Z)) : Prop :=
  match o with Ok ws => head ws = Some p | Err _ => False end.
#[export] Instance won_dec p o : Decision (won p o).
Proof. destruct o; simpl; apply _. Defined.
#[export] Instance came_first_dec p o : Decision (came_first p o).
Proof. destruct o; simpl; apply _. Defined.

(** In how many of the outcomes [p] won, and in how many it came first. *)
Definition wins_of (outcomes : list (result draw_failure (list Z))) (p : Z) : Z :=
  Z.of_nat (length (filter (won p) outcomes)).
Definition firsts_of (outcomes : list (result draw_failure (list Z))) (p : Z) : Z :=
  Z.of_nat (length (filter (came_first p) outcomes)).

Lemma wins_of_cons o outcomes p :
  wins_of (o :: outcomes) p = (wins_of outcomes p + if decide (won p o) then 1 else 0)%Z.
Proof. unfold wins_of. rewrite filter_cons. case_decide; simpl; lia. Qed.

Lemma firsts_of_cons o outcomes p :
  firsts_of (o :: outcomes) p = (firsts_of outcomes p + if decide (came_first p o) then 1 else 0)%Z.
Proof. unfold firsts_of. rewrite filter_cons. case_decide; simpl; lia. Qed.

(** The first failure in the order of the mutex. *)
Definition first_failure (outcomes : list (result draw_failure (list Z))) : option run_error :=
  foldl (fun o out => match out with Ok _ => o | Err e => note_error (DrawError e) o end) None outcomes.

Section Tally.
Context (ps : list Z) (Hnd : NoDup ps).

Lemma index_of_Some i p : ps !! i = Some p -> index_of ps !! p = Some i.
Proof.
  intros Hp. unfold index_of. change (fun (m : gmap Z nat) (p : nat * Z) => <[p.2 := p.1]> m) with index_step.
  by rewrite (index_from ps ∅ 0 i p Hnd Hp).
Qed.

(** Counting one known winner. *)
Lemma count_winner_known f g err r p :
  p ∈ ps ->
  count_winner (index_of ps) (mkTallies (f <$> ps) (g <$> ps) err) r p =
  Some (mkTallies ((fun q => if decide (q = p) then f q + 1 else f q)%Z <$> ps)
          (if decide (r = 0) then (fun q => if decide (q = p) then g q + 1 else g q)%Z <$> ps
           else g <$> ps) err).
Proof.
  intros [i Hi]%list_elem_of_lookup. unfold count_winner. simpl.
  rewrite (index_of_Some i p Hi), (index_of_lookup ps i p Hnd Hi), (incr_fmap f ps i p Hnd Hi). simpl.
  case_decide; simpl; [by rewrite (incr_fmap g ps i p Hnd Hi)|done].
Qed.

(** Winners after the first only count as wins. *)
Lemma count_winners_later f g err r ws :
  NoDup ws -> ws ⊆ ps -> r <> 0 ->
  count_winners (index_of ps) (mkTallies (f <$> ps) (g <$> ps) err) r ws =
  Some (mkTallies ((fun q => f q + if decide (q ∈ ws) then 1 else 0)%Z <$> ps) (g <$> ps) err).
Proof.
  revert f r. induction ws as [|p ws IH]; intros f r Hws Hsub Hr; cbn [count_winners].
  { do 2 f_equal. apply list_fmap_ext. intros i q _.
    rewrite decide_False by apply not_elem_of_nil. lia. }
  apply NoDup_cons in Hws as [Hp Hws].
  rewrite count_winner_known by (apply Hsub; left). rewrite decide_False by done.
  cbn [mbind option_bind]. rewrite IH; [|done|by intros y Hy; apply Hsub; right|lia].
  do 2 f_equal. apply list_fmap_ext. intros j q _. destruct (decide (q = p)) as [->|Hq].
  - rewrite (decide_False (P := p ∈ ws)) by done. rewrite decide_True by left. lia.
  - destruct (decide (q ∈ ws)) as [Hin|Hin], (decide (q ∈ p :: ws)) as [Hc|Hc]; try lia.
    + destruct Hc. by right.
    + by apply elem_of_cons in Hc as [?|?].
Qed.

(** The outcomes a client can get: distinct winners among the participants. *)
Definition outcome_ok (o : result draw_failure (list Z)) : Prop :=
  match o with Ok ws => NoDup ws /\ ws ⊆ ps | Err _ => True end.

Lemma record_outcome_ok f g err o :
  outcome_ok o ->
  record_outcome (index_of ps) (mkTallies (f <$> ps) (g <$> ps) err) o =
  Some (mkTallies ((fun q => f q + if decide (won q o) then 1 else 0)%Z <$> ps)
          ((fun q => g q + if decide (came_first q o) then 1 else 0)%Z <$> ps)
          (match o with Ok _ => err | Err e => note_error (DrawError e) err end)).
Proof.
  destruct o as [ws|e]; cbn [record_outcome].
  2: { intros _. cbn [ta_wins ta_firsts ta_firstErr]. do 2 f_equal; apply list_fmap_ext;
       intros i q _; cbv beta; rewrite decide_False by (intros []); lia. }
  destruct ws as [|p ws]; intros [Hws Hsub].
  { cbn [count_winners]. do 2 f_equal; apply list_fmap_ext; intros i q _; cbv beta; rewrite decide_False; try lia.
    - apply not_elem_of_nil.
    - done. }
  apply NoDup_cons in Hws as [Hp Hws]. cbn [count_winners].
  rewrite count_winner_known by (apply Hsub; left). rewrite decide_True by done.
  cbn [mbind option_bind]. rewrite count_winners_later; [|done|by intros y Hy; apply Hsub; right|done].
  do 2 f_equal; apply list_fmap_ext; intros i q _; cbv beta.
  - destruct (decide (q = p)) as [->|Hq].
    + rewrite (decide_False (P := p ∈ ws)) by done. rewrite decide_True by left. lia.
    + destruct (decide (q ∈ ws)) as [Hin|Hin], (decide (won q (Ok (p :: ws)))) as [Hc|Hc]; try lia.
      * destruct Hc. by right.
      * by apply elem_of_cons in Hc as [?|?].
  - destruct (decide (q = p)) as [->|Hq]; [by rewrite decide_True|].
    rewrite decide_False; [lia|]. simpl. congruence.
Qed.

Lemma record_all_ok f g err outcomes :
  Forall outcome_ok outcomes ->
  record_all (index_of ps) (mkTallies (f <$> ps) (g <$> ps) err) outcomes =
  Some (mkTallies ((fun q => f q + wins_of outcomes q)%Z <$> ps)
          ((fun q => g q + firsts_of outcomes q)%Z <$> ps)
          (foldl (fun o out => match out with Ok _ => o | Err e => note_error (DrawError e) o end)
             err outcomes)).
Proof.
  unfold record_all. intros Hok. revert f g err.
  induction Hok as [|o outcomes Ho _ IH]; intros f g err; cbn [foldl].
  { do 2 f_equal; apply list_fmap_ext; intros i q _; unfold wins_of, firsts_of; simpl; lia. }
  cbn [mbind option_bind]. rewrite record_outcome_ok by done. rewrite IH. do 2 f_equal;
    apply list_fmap_ext; intros i q _; cbv beta; rewrite ?wins_of_cons, ?firsts_of_cons; lia.
Qed.
End Tally.

(** No failure is noted exactly if every draw succeeded. *)
Lemma failures_none (l : list (result draw_failure (list Z))) o :
  foldl (fun o out => match out with Ok _ => o | Err e => note_error (DrawError e) o end) o l = None <->
  o = None /\ Forall (fun out => is_ok out = true) l.
Proof.
  revert o. induction l as [|[ws|e] l IH]; intros o; simpl.
  - split; [by intros ->|by intros [-> _]].
  - rewrite IH, Forall_cons. naive_solver.
  - rewrite IH, Forall_cons. destruct o; naive_solver.
Qed.

(** The workers count right, in whatever order they finish.  When every
    outcome names distinct participants, the run ends without a panic; the
    tally of wins has for each participant the number of draws it won, the
    tally of firsts the number of draws it came first, the recorded error is
    the first failed draw, and the tallies do not depend on the order in which
    the workers took the mutex. *)
Theorem record_all_correct t k outcomes :
  (0 <= k)%Z -> Z.to_nat k <= length (tk_Users t) -> NoDup (participants t k) ->
  Forall (outcome_ok (participants t k)) outcomes ->
  exists index, users_index t k = Some index /\
  let zeros := replicate (Z.to_nat k) 0%Z in
  exists st, record_all index (mkTallies zeros zeros None) outcomes = Some st /\
    ta_wins st = wins_of outcomes <$> participants t k /\
    ta_firsts st = firsts_of outcomes <$> participants t k /\
    ta_firstErr st = first_failure outcomes /\
    forall outcomes', outcomes' ≡ₚ outcomes ->
      exists st', record_all index (mkTallies zeros zeros None) outcomes' = Some st' /\
        ta_wins st' = ta_wins st /\ ta_firsts st' = ta_firsts st /\
        (ta_firstErr st' = None <-> ta_firstErr st = None).
Proof.
  intros Hk Hlen Hnd Hok. exists (index_of (participants t k)).
  split; [unfold users_index; by rewrite decide_True|]. intros zeros.
  assert (zeros = (fun _ => 0%Z) <$> participants t k) as ->.
  { unfold zeros, participants. rewrite (const_fmap _ _ 0%Z) by done.
    by rewrite length_fmap, length_take, Nat.min_l by done. }
  eexists. split; [by apply record_all_ok|]. simpl. split_and!; [done..|].
  intros outcomes' Hperm. eexists. split; [apply record_all_ok; [done|by rewrite Hperm]|]. simpl.
  split_and!.
  - apply list_fmap_ext. intros i q _. unfold wins_of. by rewrite Hperm.
  - apply list_fmap_ext. intros i q _. unfold firsts_of. by rewrite Hperm.
  - unfold first_failure. by rewrite !failures_none, Hperm.
Qed.

Lemma record_all_correct_witness :
  exists st, record_all (index_of [7; 9]%Z) (mkTallies [0; 0]%Z [0; 0]%Z None)
    [Ok [9]%Z; Err (CloseFailed 0 (Some NoAnswer)); Ok [9; 7]%Z] = Some st /\
    ta_wins st = [1; 2]%Z /\ ta_firsts st = [0; 2]%Z.
Proof.
  destruct (record_all_correct (mkTokens "root" [mkUserToken 7 "a"; mkUserToken 9 "b"]) 2
    [Ok [9]%Z; Err (CloseFailed 0 (Some NoAnswer)); Ok [9; 7]%Z])
    as (index & Hix & st & Hst & Hw & Hf & _).
  - done.
  - done.
  - apply (bool_decide_unpack _). vm_compute. exact I.
  - constructor; [|constructor; [exact I|constructor; [|constructor]]]; unfold outcome_ok;
      apply (bool_decide_unpack _); vm_compute; exact I.
  - vm_compute in Hix. injection Hix as <-. exists st. split; [exact Hst|].
    rewrite Hw, Hf. split; vm_compute; reflexivity.
Defined.

(** ** A draw over a lossy network *)

Section Witnesses.
Import Standin Wording.

#[local] Instance three_tokens : TokenParser := fun token secret now =>
  if decide (token = "root") then Some (mkClaims 1 "admin" 0 0 0 "lottery-system" "user:1")
  else if decide (token = "alice") then Some (mkClaims 2 "user" 0 0 0 "lottery-system" "user:2")
  else if decide (token = "bob") then Some (mkClaims 3 "user" 0 0 0 "lottery-system" "user:3")
  else None.

(** Alice's booking is served but its answer is lost; the first draw request
    does not arrive. *)
Definition lossy : wire (list nat) :=
  mkWire (fun i => match i with 2 => AnswerLost | 10 => RequestLost | _ => Delivered end)
    (fun i => calm_env (Z.of_nat i * 500 * Millisecond)) (fun _ => [0])
    (fun _ w => w) (fun _ => 0%Z).

Definition two_users : tokens := mkTokens "root" [mkUserToken 2 "alice"; mkUserToken 3 "bob"].

Notation lossy_draw :=
  (crun 10 0 0 "key" 60 lossy (oneDraw true two_users 2 1) (mkNet sample_world 0 0 0)).

Lemma oneDraw_sound_witness :
  exists winners n' eid res, lossy_draw = (Ok winners, n') /\ net_errors n' = 2%Z /\
    results_of (w_tables (net_world n')) eid = Ok res /\
    winners = draw_WinnerUserID <$> dr_Winners res /\ length winners = 1.
Proof.
  destruct lossy_draw as [[winners|e] n'] eqn:Hrun; [|exfalso; by vm_compute in Hrun].
  destruct (oneDraw_sound 10 0 0 "key" 60 true lossy (fun _ _ => rtc_refl _ _) two_users 2 1
    (mkNet sample_world 0 0 0) winners n') as (eid & res & Hres & Hw & Hlen & _).
  - apply sample_inv.
  - intros u Hu now claims. unfold ParseWithClaims, three_tokens.
    apply elem_of_cons in Hu as [->|Hu]; [by intros [= <-]|].
    apply list_elem_of_singleton in Hu as ->. by intros [= <-].
  - apply (bool_decide_unpack _). vm_compute. exact I.
  - exact Hrun.
  - exists winners, n', eid, res. split; [reflexivity|]. split; [|split; [exact Hres|split; [exact Hw|lia]]].
    assert (lossy_draw.2 = n') as <- by (by rewrite Hrun). vm_compute. reflexivity.
Defined.
End Witnesses.
