(* ===== verification/SetupUsers.v ===== *)
(** * Setting up the test users

    [src/loadtest/cmd/setup-users/main.go]: register [n] users (the ones that
    exist already are fine), log each in once and write their tokens to the
    file that [FairnessApi] reads.  Several workers share the result under a
    mutex; to each of them the others are other clients of the server
    ([Client]). *)

From S2P Require Import Prelude GoFmt GoString GoJson Models Shuffle Database Effects Invariant.
From S2P Require Import Growth Auth System Codec Http Wire Client FairnessApi.
From Stdlib Require Import Ascii.

(** ** Requests *)

(** [Data] is a [json.RawMessage]: a value as it is written, [None] when the
    field is absent. *)
Record envelope := mkEnvelope { env_Data : option json; env_Error : string }.

Definition envelope_fields : list (field envelope) :=
  [("success", fun j e => match j with JNull | JBool _ => Some e | _ => None end);
   ("data", fun j e => Some (mkEnvelope (Some j) (env_Error e)));
   ("error", fun j e => v ← decode_string j (env_Error e); Some (mkEnvelope (env_Data e) v))].

(** The error of [Decode] is ignored: the answers of the server are of this
    shape, or (the router's own) no JSON, which leaves the envelope empty. *)
Definition decode_envelope (text : string) : envelope :=
  default (mkEnvelope None "") (decode_answer (decode_struct false envelope_fields) (mkEnvelope None "") text).

Inductive setup_error :=
| PostFailed
| LoginRefused (email : string) (code : Z) (msg : string)
| RegisterRefused (email : string) (code : Z) (msg : string)
| BadLoginData.

Record userToken := mkTok { tok_ID : Z; tok_Email : string; tok_Token : string }.
Definition no_token : userToken := mkTok 0 "" "".

(** [struct { Token string; User struct { ID int64 } }]; without input
    [json.Unmarshal] fails. *)
Definition login_data_fields : list (field (string * Z)) :=
  [("token", fun j d => v ← decode_string j d.1; Some (v, d.2));
   ("user", decode_struct false [("id", fun j d => v ← decode_int j d.2; Some (d.1, v))])].

Definition unmarshal_login (data : option json) : option (string * Z) :=
  j ← data; decode_struct false login_data_fields j ("", 0%Z).

Section Program.
(** [http.NewRequest] accepts URLs that start with [base]. *)
Variable base_ok : bool.

Definition post (path : list string) (body : list (string * string))
  : client (result setup_error (Z * envelope)) :=
  let rq := mkHttpRequest "POST" path (fun _ => "") "" (Marshal_map body) in
  if base_ok then
    resp ← perform (ClientDo rq);
    match resp with
    | None => mret (Err PostFailed)
    | Some o => mret (Ok (status_of rq o, decode_envelope (answer_body (own_status rq) o)))
    end
  else mret (Err PostFailed).

Definition login (email password : string) : client (result setup_error userToken) :=
  try r := post ["auth"; "login"] [("email", email); ("password", password)] catch e => e in
  let '(code, env) := (r : Z * envelope) in
  if decide (code <> 200%Z) then mret (Err (LoginRefused email code (env_Error env)))
  else match unmarshal_login (env_Data env) with
       | None => mret (Err BadLoginData)
       | Some (token, id) => mret (Ok (mkTok id email token))
       end.

(** [fmt.Sprintf("lt-user-%04d@loadtest.local", i)]. *)
Definition user_email (i : nat) : string :=
  "lt-user-" +:+ appendInt (Z.of_nat i) 4 +:+ "@loadtest.local".

(** What a worker does with job [i] before it takes the mutex: the status of
    the registration ([0] without an answer) and the token or the error. *)
Definition setup_user (password : string) (i : nat)
  : client (Z * result setup_error userToken) :=
  let email := user_email i in
  r ← post ["auth"; "register"]
        [("email", email); ("full_name", "Loadtest User " +:+ FormatInt (Z.of_nat i));
         ("password", password)];
  match r with
  | Err e => mret (0%Z, Err e)
  | Ok (code, env) =>
    if decide (code <> 201 /\ code <> 409)%Z
    then mret (code, Err (RegisterRefused email code (env_Error env)))
    else t ← login email password; mret (code, t)
  end.
End Program.

(** ** The workers' results *)

Record setup_state := mkSetup {
  su_users : list userToken;
  su_firstErr : option setup_error;
  su_registered : Z;
  su_preexisting : Z
}.

(** What a worker does between [mu.Lock()] and [mu.Unlock()]. *)
Definition record_user (st : setup_state) (job : nat * (Z * result setup_error userToken))
  : setup_state :=
  let '(i, (code, t)) := job in
  mkSetup
    (<[i := match t with Ok tok => tok | Err _ => no_token end]> (su_users st))
    (match t, su_firstErr st with Err e, None => Some e | _, err => err end)
    (su_registered st + if decide (code = 201%Z) then 1 else 0)
    (su_preexisting st + if decide (code = 409%Z) then 1 else 0).

(** [json.NewEncoder(f).Encode(tokensFile{...})] *)
Definition userToken_json (t : userToken) : option json :=
  json_fields [("id", Some (json_int (tok_ID t))); ("email", Some (json_string (tok_Email t)));
    ("token", Some (json_string (tok_Token t)))].

Definition tokensFile_json (admin : string) (users : list userToken) : option json :=
  json_fields [("admin", Some (json_string admin)); ("users", json_array userToken_json users)].

Definition tokensFile (admin : string) (users : list userToken) : string :=
  match tokensFile_json admin users with
  | Some j => String.string_of_list_ascii (print j ++ ["010"%char])
  | None => ""
  end.

(** The end of [main]: the bytes of the file, or the first error. *)
Definition setup_end (admin : userToken) (st : setup_state) : result setup_error (string * setup_state) :=
  match su_firstErr st with
  | Some e => Err e
  | None => Ok (tokensFile (tok_Token admin) (su_users st), st)
  end.

Definition setup_start (n : nat) : setup_state := mkSetup (replicate n no_token) None 0 0.

(** [main]: the login of the admin, the jobs in the order in which the workers
    took the mutex, and the end. *)
Definition setup_main (n : nat) (admin : result setup_error userToken)
    (jobs : list (nat * (Z * result setup_error userToken)))
  : result setup_error (string * setup_state) :=
  match admin with
  | Err e => Err e
  | Ok admin => setup_end admin (foldl record_user (setup_start n) jobs)
  end.

Lemma setup_main_Ok n admin jobs x :
  setup_main n admin jobs = Ok x ->
  exists tok, admin = Ok tok /\ setup_end tok (foldl record_user (setup_start n) jobs) = Ok x.
Proof. destruct admin as [tok|]; [|done]. by exists tok. Qed.

(** ** Emails *)

Lemma user_email_inj i j : user_email i = user_email j -> i = j.
Proof.
  unfold user_email. intros Heq. apply (f_equal String.list_ascii_of_string) in Heq.
  rewrite !chars_app in Heq. apply app_inv_head, app_inv_tail, chars_inj, appendInt_inj in Heq; lia.
Qed.

(** The addresses are in the form the server stores. *)
Lemma normalize_user_email `{UnicodeLower} i : normalize_email (user_email i) = user_email i.
Proof.
  assert (Forall (fun c => solid c = true /\ lower_byte c = c) (chars (user_email i))) as Hc.
  { unfold user_email. rewrite !chars_app, !Forall_app. split_and!.
    - apply (bool_decide_unpack _). vm_compute. exact I.
    - destruct (appendInt_spec (Z.of_nat i) 4) as [Hd _]; [lia|].
      eapply Forall_impl; [exact Hd|]. intros c. destruct c as [[] [] [] [] [] [] [] []]; by intros [=].
    - apply (bool_decide_unpack _). vm_compute. exact I. }
  unfold normalize_email, ToLower.
  assert (forallb is_ascii (chars (user_email i)) = true) as ->.
  { apply ascii_chars. eapply Forall_impl; [exact Hc|]. simpl. intros c [Hs _].
    unfold solid in Hs. by apply andb_prop in Hs as [? _]. }
  assert (lower_byte <$> chars (user_email i) = chars (user_email i)) as ->.
  { clear -Hc. induction Hc as [|c l [_ Hl] _ IH]; [done|]. by rewrite fmap_cons, Hl, IH. }
  rewrite String.string_of_list_ascii_of_string. apply TrimSpace_solid.
  eapply Forall_impl; [exact Hc|]. by intros c [? _].
Qed.

Lemma user_email_text i : utf8_valid (chars (user_email i)) = true.
Proof.
  apply ascii_valid. unfold user_email. rewrite !chars_app, !Forall_app. split_and!.
  - apply (bool_decide_unpack _). vm_compute. exact I.
  - destruct (appendInt_spec (Z.of_nat i) 4) as [Hd _]; [lia|].
    eapply Forall_impl; [exact Hd|]. intros c. destruct c as [[] [] [] [] [] [] [] []]; by intros [=].
  - apply (bool_decide_unpack _). vm_compute. exact I.
Qed.

(** ** The file *)

(** What [fairness-api] keeps of an entry. *)
Definition entry_of (t : userToken) : user_token := mkUserToken (tok_ID t) (coerced (tok_Token t)).

Lemma read_entries users :
  Forall (fun t => min_int64 <= tok_ID t <= max_int64)%Z users ->
  exists j, json_array userToken_json users = Some j /\ fine 2 j /\ forall old,
    decode_slice (mkUserToken 0 "") (decode_struct false user_token_fields) j old = Some (entry_of <$> users).
Proof.
  intros Hr. assert (exists vs, mapM userToken_json users = Some vs) as [vs Hvs].
  { apply mapM_is_Some, Forall_forall. intros t _. by eexists. }
  exists (JArray vs). unfold json_array. rewrite Hvs. split; [done|]. split.
  - apply (fine_array userToken_json 1 users); [|done|by unfold json_array; rewrite Hvs].
    intros t j. apply (fine_fields 0); [fields_ok|done].
  - intros old. cbn [decode_slice]. apply mapM_Some. apply mapM_Some in Hvs.
    induction Hvs as [|t v users vs Ht _ IH]; [constructor|].
    apply Forall_cons in Hr as [Hid Hr]. constructor; [|by apply IH].
    erewrite decode_struct_fields; [|exact Ht|by repeat constructor].
    cbn [foldl]. unfold decode_step. lookup_fields.
    rewrite decode_int_range by done. cbn [mbind option_bind]. by rewrite decode_string_json.
Qed.

Lemma read_tokensFile admin users :
  Forall (fun t => min_int64 <= tok_ID t <= max_int64)%Z users ->
  read_tokens (tokensFile admin users) = Some (mkTokens (coerced admin) (entry_of <$> users)).
Proof.
  intros (ju & Hj & Hfine & Hread)%read_entries. unfold read_tokens, tokensFile.
  assert (exists j, tokensFile_json admin users = Some j) as [j Hfile]
    by (unfold tokensFile_json; rewrite Hj; by eexists).
  rewrite Hfile. rewrite (Unmarshal_line _ _ 3); [|..|done].
  2: { apply (fine_fields 2 _ _) in Hfile; [done| |done]. rewrite Hj. fields_ok. done. }
  erewrite decode_struct_fields; [|exact Hfile|by repeat constructor].
  cbn [foldl]. unfold decode_step. lookup_fields. rewrite Hj, decode_string_json. cbn [mbind option_bind].
  by rewrite Hread.
Qed.

(** ** Soundness *)

Section Sound.
Context `{UnicodeLower, Bcrypt, Mail, Signer} {R : Type} `{RandSource R}.
Context `{JSONErrors}.
Context `{TokenParser}.
Variables (maxWinners lockTTL lockWait : Z) (jwtSecret : string) (jwtExpiry : Z).
Variable base_ok : bool.

(** [tok] is a token of the account with this email and password. *)
Definition token_of_account (email password : string) (tok : userToken) (t : Tables) : Prop :=
  tok_Email tok = email /\ (min_int64 <= tok_ID tok <= max_int64)%Z /\
  exists u role now, t_users t !! tok_ID tok = Some u /\ user_Email u = normalize_email email /\
    CompareHashAndPassword (user_PasswordHash u) password = true /\
    SignedString (token_claims (tok_ID tok) role jwtExpiry now) jwtSecret = Some (tok_Token tok).

Lemma token_of_account_grows email password tok t t' :
  grows t t' -> token_of_account email password tok t -> token_of_account email password tok t'.
Proof.
  intros Hg (He & Hr & u & role & now & Hu & Hm & Hc & Hs). split; [done|]. split; [done|].
  destruct (g_users _ _ Hg _ _ Hu) as (u' & Hu' & Hf). injection Hf as _ Hm' _ Hh _.
  exists u', role, now. by rewrite Hm', Hh.
Qed.

(** Tokens are text. *)
Variable tokens_are_text : forall c token, SignedString c jwtSecret = Some token -> utf8_valid (chars token) = true.

(** What the client reads of a login. *)
Lemma unmarshal_login_answer own lr token id :
  unmarshal_login (env_Data (decode_envelope (answer_body own (Some (Respond 200 true (PLogin lr) "")))))
    = Some (token, id) ->
  token = coerced (lresp_Token lr) /\ id = user_ID (lresp_User lr) /\ (min_int64 <= id <= max_int64)%Z.
Proof.
  unfold decode_envelope, answer_body.
  destruct (decode_answer _ _ _) as [env|] eqn:Hd; [|done]. cbn [default]. apply decode_response in Hd.
  revert Hd. change (APIResponse_fields (Respond 200 true (PLogin lr) ""))
    with [("success", Some (JBool true)); ("data", LoginResponse_json lr)].
  cbn [foldl]. unfold decode_step. lookup_fields.
  destruct (LoginResponse_json lr) as [j|] eqn:Hj; [|done]. cbn [mbind option_bind env_Data]. intros [= <-].
  unfold unmarshal_login, Datatypes.id. cbn [env_Data mbind option_bind].
  erewrite decode_struct_fields; [|exact Hj|by repeat constructor].
  cbn [foldl]. unfold decode_step. lookup_fields. rewrite decode_string_json. cbn [mbind option_bind fst snd].
  destruct (User_json (lresp_User lr)) as [ju|] eqn:Hu; [|done]. cbn [mbind option_bind].
  erewrite decode_struct_fields; [|exact Hu|by repeat constructor].
  cbn [foldl]. unfold decode_step. lookup_fields.
  destruct (decode_int _ _) as [x|] eqn:Hx; [|done]. cbn [mbind option_bind]. intros [= <- <-].
  by apply decode_int_in_range in Hx as [-> ?].
Qed.

Lemma login_answer E (rand : R) email password w o w' t token id :
  let rq := mkHttpRequest "POST" ["auth"; "login"] (fun _ => "") ""
              (Marshal_map [("email", email); ("password", password)]) in
  since t w -> utf8_valid (chars email) = true -> utf8_valid (chars password) = true ->
  answered maxWinners lockTTL lockWait jwtSecret jwtExpiry E rand rq w = (o, w') ->
  status_of rq o = 200%Z -> 
  unmarshal_login (env_Data (decode_envelope (answer_body (own_status rq) o))) = Some (token, id) ->
  token_of_account email password (mkTok id email token) (w_tables w').
Proof.
  intros rq [[Hinv _] _] Hemail Hpassword Hans Hst Hdata.
  destruct (answered_routed _ _ _ _ _ E rand rq EpLogin w o w' eq_refl Hans) as (resp & -> & Hh).
  simpl in Hst. destruct Hh as [[Hbad _]|(ident & w1 & (Ht & _) & Hrun & _)];
    [by destruct Hbad; congruence|].
  simpl in Ht. revert Hrun. cbn [handle]. unfold handle_Login. cbn [rq rq_body].
  rewrite login_body, !coerced_valid, run_bind by done.
  destruct (run E (Login jwtSecret jwtExpiry (mkLoginRequest email password)) w1) as [[lr|e] w2] eqn:Hl.
  2: { clear Hdata. intros Hr. by destruct e; injection Hr as <- <-. }
  intros [= <- <-]. apply unmarshal_login_answer in Hdata as (-> & -> & Hrange).
  rewrite <- Ht in Hinv.
  destruct (Login_facts E w1 jwtSecret jwtExpiry (mkLoginRequest email password) lr w2 Hinv Hl)
    as (Htw & id & u & now & Hu & Hid & Hm & Hc & Hs & Hlu & _).
  rewrite coerced_valid by (by eapply tokens_are_text).
  split; [done|]. split; [done|]. exists u, (user_Role u), now. simpl. rewrite Htw, Hlu. simpl. by rewrite Hid.
Qed.

Section Programs.
Variable W : wire R.
Hypothesis Hothers : others_ok (R := R) maxWinners lockTTL lockWait jwtSecret jwtExpiry W.

Notation cwp := (cwp maxWinners lockTTL lockWait jwtSecret jwtExpiry W).

Lemma post_wp path body t (P : option response -> world -> Prop) n :
  since t (net_world n) ->
  let rq := mkHttpRequest "POST" path (fun _ => "") "" (Marshal_map body) in
  (forall E rand w o w', since t w ->
     answered maxWinners lockTTL lockWait jwtSecret jwtExpiry E rand rq w = (o, w') -> P o w') ->
  cwp (post base_ok path body) (fun r n' => since t (net_world n') /\
    forall code env, r = Ok (code, env) ->
      exists o, code = status_of rq o /\ env = decode_envelope (answer_body (own_status rq) o) /\
        P o (net_world n')) n.
Proof.
  intros Hs rq HP. unfold post. destruct base_ok; [|by apply cwp_ret].
  apply cwp_bind. apply (cwp_do _ _ _ _ _ W Hothers _ t); [done|..].
  - intros n1 Hs1. by apply cwp_ret.
  - intros E rand w o n1 Hw Hans Hs1. apply cwp_ret. split; [done|]. intros code env [= <- <-]. eauto 10.
Qed.

Lemma login_wp email password t n :
  since t (net_world n) -> utf8_valid (chars email) = true -> utf8_valid (chars password) = true ->
  cwp (login base_ok email password) (fun r n' => since t (net_world n') /\
    forall tok, r = Ok tok -> token_of_account email password tok (w_tables (net_world n'))) n.
Proof.
  intros Hs Hemail Hpassword. unfold login. apply cwp_try. eapply cwp_mono.
  { set (rq := mkHttpRequest "POST" ["auth"; "login"] (fun _ => "") ""
      (Marshal_map [("email", email); ("password", password)])).
    apply (post_wp _ _ t (fun o w' => forall token id, status_of rq o = 200%Z ->
      unmarshal_login (env_Data (decode_envelope (answer_body (own_status rq) o))) = Some (token, id) ->
      token_of_account email password (mkTok id email token) (w_tables w'))); [done|].
    intros E rand w o w' Hw Hans token id. by eapply login_answer. }
  intros [[code env]|e] n1 [Hs1 Hr]; [|done]. destruct (Hr _ _ eq_refl) as (o & -> & -> & HP).
  case_decide; [by apply cwp_ret|].
  destruct (unmarshal_login _) as [[token id]|] eqn:Hd; apply cwp_ret; (split; [done|]); [|done].
  intros tok [= <-]. apply HP; [lia|done].
Qed.

Lemma setup_user_wp password i t n :
  since t (net_world n) -> utf8_valid (chars password) = true ->
  cwp (setup_user base_ok password i) (fun r n' => since t (net_world n') /\
    forall code tok, r = (code, Ok tok) -> (code = 201 \/ code = 409)%Z /\
      token_of_account (user_email i) password tok (w_tables (net_world n'))) n.
Proof.
  intros Hs Hpassword. unfold setup_user. apply cwp_bind. eapply cwp_mono.
  { apply (post_wp _ _ t (fun _ _ => True)); done. }
  intros [[code env]|e] n1 [Hs1 _]; [|by apply cwp_ret].
  case_decide as Hcode; [by apply cwp_ret|].
  apply cwp_bind. eapply cwp_mono; [by apply (login_wp _ _ t); [|apply user_email_text|]|]. intros r n2 [Hs2 Htok].
  apply cwp_ret. split; [done|]. intros code' tok [= <- ->]. split; [|by apply Htok].
  destruct (decide (code = 201%Z)); [by left|]. destruct (decide (code = 409%Z)); [by right|]. tauto.
Qed.
End Programs.

(** *** The workers together *)

Lemma record_users_ok n jobs :
  NoDup jobs.*1 ->
  let st := foldl record_user (setup_start n) jobs in
  su_firstErr st = None ->
  length (su_users st) = n /\
  (forall i code t, (i, (code, t)) ∈ jobs -> i < n ->
     exists tok, t = Ok tok /\ su_users st !! i = Some tok) /\
  (Forall (fun j => j.2.1 = 201 \/ j.2.1 = 409)%Z jobs ->
   su_registered st + su_preexisting st = Z.of_nat (length jobs))%Z.
Proof.
  induction jobs as [|[i [code t]] jobs IH] using rev_ind; intros Hnd st Herr.
  { simpl. split_and!; [by rewrite length_replicate| |done]. intros i code t Hin.
    by apply not_elem_of_nil in Hin. }
  subst st. rewrite foldl_snoc in Herr |- *. rewrite fmap_app in Hnd.
  apply NoDup_app in Hnd as (Hnd & Hdis & _). specialize (IH Hnd).
  set (st := foldl record_user _ jobs) in *. simpl in Herr |- *.
  assert (su_firstErr st = None /\ exists tok, t = Ok tok) as [Herr' [tok ->]]
    by (destruct t, (su_firstErr st); naive_solver).
  destruct (IH Herr') as (Hlen & Hjobs & Hcount). split_and!.
  - by rewrite length_insert.
  - intros i' code' t' [Hin|Hin%list_elem_of_singleton]%elem_of_app Hi'.
    + destruct (Hjobs i' code' t' Hin Hi') as (tok' & -> & Htok'). exists tok'. split; [done|].
      rewrite list_lookup_insert_ne; [done|]. intros <-. apply (Hdis i).
      * apply list_elem_of_fmap. eexists. split; [|exact Hin]. done.
      * by apply list_elem_of_singleton.
    + injection Hin as -> -> ->. exists tok. split; [done|]. apply list_lookup_insert_eq. lia.
  - intros [Hall Hc]%Forall_app. apply Forall_inv in Hc. simpl in Hc.
    specialize (Hcount Hall). rewrite length_app. simpl. 
    destruct (decide (code = 201%Z)), (decide (code = 409%Z)); lia.
Qed.

(** A worker finished a job before the tables were [T], with whatever clients
    at the same time. *)
Definition finished (password : string) (T : Tables)
    (job : nat * (Z * result setup_error userToken)) : Prop :=
  exists W n n', others_ok (R := R) maxWinners lockTTL lockWait jwtSecret jwtExpiry W /\
    db_inv (net_world n) /\
    crun maxWinners lockTTL lockWait jwtSecret jwtExpiry W (setup_user base_ok password job.1) n
      = (job.2, n') /\
    grows (w_tables (net_world n')) T.

(** The login of the admin, likewise. *)
Definition logged_in (email password : string) (T : Tables) (admin : result setup_error userToken) : Prop :=
  exists W n n', others_ok (R := R) maxWinners lockTTL lockWait jwtSecret jwtExpiry W /\
    db_inv (net_world n) /\
    crun maxWinners lockTTL lockWait jwtSecret jwtExpiry W (login base_ok email password) n = (admin, n') /\
    grows (w_tables (net_world n')) T.

Lemma logged_in_Ok email password T tok :
  logged_in email password T (Ok tok) -> utf8_valid (chars email) = true ->
  utf8_valid (chars password) = true -> token_of_account email password tok T.
Proof.
  intros (W & n & n' & Hothers & Hinv & Hrun & Hg) He Hp.
  pose proof (login_wp W Hothers email password _ n (since_refl _ Hinv) He Hp) as Hwp.
  unfold Client.cwp in Hwp. rewrite Hrun in Hwp. destruct Hwp as [_ Hok].
  eapply token_of_account_grows; [exact Hg|by apply Hok].
Qed.

(** The file gives tokens back as they were signed. *)
Lemma coerced_token email password tok T :
  token_of_account email password tok T -> coerced (tok_Token tok) = tok_Token tok.
Proof. intros (_ & _ & u & role & now & _ & _ & _ & Hs). by eapply coerced_valid, tokens_are_text. Qed.

Lemma finished_Ok password T i code tok :
  finished password T (i, (code, Ok tok)) -> utf8_valid (chars password) = true ->
  (code = 201 \/ code = 409)%Z /\ token_of_account (user_email i) password tok T.
Proof.
  intros (W & n & n' & Hothers & Hinv & Hrun & Hg) Hjson.
  pose proof (setup_user_wp W Hothers password i _ n (since_refl _ Hinv) Hjson) as Hwp.
  unfold Client.cwp in Hwp. simpl in Hrun. rewrite Hrun in Hwp. destruct Hwp as [_ Hok].
  destruct (Hok code tok eq_refl) as [Hcode Htok]. split; [done|].
  by eapply token_of_account_grows.
Qed.

(** Accounts of different test users are different. *)
Lemma accounts_differ password1 password2 T i j tok1 tok2 :
  token_of_account (user_email i) password1 tok1 T ->
  token_of_account (user_email j) password2 tok2 T -> tok_ID tok1 = tok_ID tok2 -> i = j.
Proof.
  intros (_ & _ & u & _ & _ & Hu & Hm & _) (_ & _ & v & _ & _ & Hv & Hm' & _) Heq.
  rewrite Heq, Hv in Hu. injection Hu as ->. rewrite Hm in Hm'.
  rewrite !normalize_user_email in Hm'. by apply user_email_inj.
Qed.

(** The state the workers leave. *)
Lemma setup_jobs_ok password n jobs T st :
  utf8_valid (chars password) = true -> jobs.*1 ≡ₚ seq 0 n -> Forall (finished password T) jobs ->
  foldl record_user (setup_start n) jobs = st -> su_firstErr st = None ->
  length (su_users st) = n /\ (su_registered st + su_preexisting st = Z.of_nat n)%Z /\
  forall i tok, su_users st !! i = Some tok -> token_of_account (user_email i) password tok T.
Proof.
  intros Hjson Hperm Hfin <- Herr.
  assert (NoDup jobs.*1) as Hnd by (rewrite Hperm; apply NoDup_seq).
  destruct (record_users_ok n jobs Hnd Herr) as (Hlen & Hjobs & Hcount).
  assert (forall i code t, (i, (code, t)) ∈ jobs -> i < n) as Hin.
  { intros i code t Hj. assert (i ∈ jobs.*1) as Hi by (apply list_elem_of_fmap; by eexists (i, _)).
    rewrite Hperm, elem_of_seq in Hi. lia. }
  rewrite Forall_forall in Hfin. split_and!; [done| |].
  - rewrite Hcount.
    + by rewrite <- (length_fmap fst jobs), Hperm, length_seq.
    + apply Forall_forall. intros [i [code t]] Hj. simpl. pose proof (Hin _ _ _ Hj) as Hi.
      destruct (Hjobs _ _ _ Hj Hi) as (tok & -> & _).
      by destruct (finished_Ok _ _ _ _ _ (Hfin _ Hj) Hjson).
  - intros i tok Hi. assert (i < n) as Hlt by (apply lookup_lt_Some in Hi; lia).
    assert (i ∈ jobs.*1) as ([i' [code t]] & -> & Hj)%list_elem_of_fmap
      by (rewrite Hperm, elem_of_seq; lia). simpl in *.
    destruct (Hjobs _ _ _ Hj Hlt) as (tok' & -> & Hi'). rewrite Hi in Hi'. injection Hi' as <-.
    by destruct (finished_Ok _ _ _ _ _ (Hfin _ Hj) Hjson).
Qed.

(** If [setup-users] ends without an error, then [fairness-api] reads from the
    bytes of the file the token of the admin's account and [n] entries, each a
    token of the account of its test address, for [n] different accounts. *)
Lemma setup_main_ok adminEmail adminPassword password n admin jobs text st T :
  (forall c c' token now, SignedString c jwtSecret = Some token ->
     ParseWithClaims token jwtSecret now = Some c' -> c' = c) ->
  Forall (fun s => utf8_valid (chars s) = true) [adminEmail; adminPassword; password] ->
  logged_in adminEmail adminPassword T admin ->
  jobs.*1 ≡ₚ seq 0 n -> Forall (finished password T) jobs ->
  setup_main n admin jobs = Ok (text, st) ->
  exists file, read_tokens text = Some file /\ length (tk_Users file) = n /\
  (su_registered st + su_preexisting st = Z.of_nat n)%Z /\
  (exists tok, token_of_account adminEmail adminPassword tok T /\ tk_Admin file = tok_Token tok) /\
  (forall i u, tk_Users file !! i = Some u ->
     token_of_account (user_email i) password (mkTok (ut_ID u) (user_email i) (ut_Token u)) T) /\
  NoDup (participants file (Z.of_nat n)) /\ tokens_of_users jwtSecret file.
Proof.
  intros Hjwt Htext Hadmin Hperm Hfin Hmain. rewrite !Forall_cons in Htext.
  destruct Htext as (Hae & Hap & Hjson & _).
  destruct admin as [atok|]; [|done]. apply logged_in_Ok in Hadmin; [|done..]. unfold setup_main, setup_end in Hmain.
  destruct (su_firstErr _) eqn:Herr; [done|]. injection Hmain as <- Hst.
  destruct (setup_jobs_ok password n jobs T st Hjson Hperm Hfin Hst) as (Hlen & Hcount & Htoks); [by rewrite <- Hst|].
  rewrite Hst. eexists. split; [apply read_tokensFile|].
  { apply Forall_lookup. intros i tok Hi. by destruct (Htoks i tok Hi) as (_ & ? & _). }
  cbn [tk_Users tk_Admin]. rewrite length_fmap.
  assert (forall i u, (entry_of <$> su_users st) !! i = Some u ->
    token_of_account (user_email i) password (mkTok (ut_ID u) (user_email i) (ut_Token u)) T) as Husers.
  { intros i u. rewrite list_lookup_fmap, fmap_Some. intros (tok & Hi & ->). pose proof (Htoks i tok Hi) as Ht.
    unfold entry_of. cbn [ut_ID ut_Token]. rewrite (coerced_token _ _ _ _ Ht). by destruct Ht. }
  split_and!; [done|done| |done| |].
  - exists atok. split; [done|by eapply coerced_token].
  - unfold participants. cbn [tk_Users]. rewrite Nat2Z.id, take_ge by (rewrite length_fmap; lia).
    apply NoDup_alt. intros i j x. rewrite !(list_lookup_fmap ut_ID), !fmap_Some.
    intros (ui & Hi & ->) (uj & Hj & Heq).
    by eapply (accounts_differ password password T i j _ _ (Husers i ui Hi) (Husers j uj Hj)).
  - intros u [i Hi]%list_elem_of_lookup now claims Hp.
    destruct (Husers i u Hi) as (_ & _ & _ & role & now' & _ & _ & _ & Hs).
    by rewrite (Hjwt _ _ _ _ Hs Hp).
Qed.
End Sound.
