(* ===== verification/RoundTrip.v ===== *)
(** * What is written is read back

    The clients of [src/loadtest/cmd] and the server exchange JSON: the bodies
    the clients build are decoded by the handlers, the answers the server
    encodes by the clients.  Here both directions are composed, byte for
    byte. *)

From S2P Require Import Prelude GoFmt GoString GoTime GoJson Models Codec Http Wire.
From S2P Require Import FairnessApi SetupUsers.
From Stdlib Require Import Ascii.

Definition int64 (x : Z) : Prop := (min_int64 <= x <= max_int64)%Z.

(** The years [time.Time.MarshalJSON] accepts (instants count from the zero time on). *)
Definition printable (t : Z) : Prop := (0 <= t < max_time)%Z.

(** ** The body of [POST /events] *)

(** The value the format string of [oneDraw] spells. *)
Definition create_json (k w due : Z) : json :=
  JObject [(chars "title", JString (chars "fairness")); (chars "capacity", json_int k);
    (chars "winner_count", json_int w); (chars "draw_at", JString (chars (FormatRFC3339Nano due)))].

Lemma create_body_json k w due :
  create_body k w (FormatRFC3339Nano due) = String.string_of_list_ascii (print (create_json k w due)).
Proof.
  apply chars_inj. rewrite String.list_ascii_of_string_of_list_ascii.
  unfold create_body, create_json, quoted. rewrite !chars_app.
  cbn [print fmap list_fmap comma_separated fst snd json_int]. unfold in_quotes.
  generalize (chars (FormatRFC3339Nano due)) (chars (FormatInt k)) (chars (FormatInt w)). intros d lk lw.
  cbn [app String.list_ascii_of_string]. by repeat (rewrite <- !app_assoc; cbn [app]).
Qed.

Lemma create_json_written k w due :
  (0 <= due)%Z -> written (create_json k w due) /\ (height (create_json k w due) <= maxNestingDepth)%Z.
Proof.
  intros Hdue. split; [|done].
  assert (forall l, forallb plain l = true -> l = quote_text l) as Hplain.
  { intros l Hl. symmetry. apply quote_text_plain, Forall_forall. intros c Hc.
    rewrite forallb_forall in Hl. by apply Hl, list_elem_of_In. }
  pose proof (quote_text_plain _ (FormatRFC3339Nano_plain due Hdue)) as Ht.
  constructor. repeat (apply Forall_cons; split); [..|constructor]; cbn [fst snd];
    (split; [eexists; by apply Hplain|]); try constructor.
  - rewrite (Hplain (chars "fairness")) by done. constructor.
  - rewrite <- Ht. constructor.
Qed.

Section Requests.
Context `{JSONErrors}.

Lemma create_fields_read jt jk jw jd title k w due :
  (forall old, decode_string jt old = Some title) -> (forall old, decode_int jk old = Some k) ->
  (forall old, decode_int jw old = Some w) -> (forall old, decode_time jd old = Some due) ->
  decode_struct true CreateEventRequest_fields
    (JObject [(chars "title", jt); (chars "capacity", jk); (chars "winner_count", jw); (chars "draw_at", jd)])
    (mkCreateEventRequest "" "" 0 0 0)
  = Some (mkCreateEventRequest title "" k due w).
Proof.
  intros Ht Hk Hw Hd. cbn [decode_struct decode_members].
  rewrite !unquote_plain_name by (vm_compute; reflexivity). cbn [mbind option_bind]. lookup_fields.
  rewrite Ht. cbn [mbind option_bind]. rewrite Hk. cbn [mbind option_bind].
  rewrite Hw. cbn [mbind option_bind]. rewrite Hd. reflexivity.
Qed.

Lemma create_json_read k w due :
  int64 k -> int64 w -> printable due ->
  decode_struct true CreateEventRequest_fields (create_json k w due) (mkCreateEventRequest "" "" 0 0 0)
  = Some (mkCreateEventRequest "fairness" "" k due w).
Proof.
  intros Hk Hw Hdue. apply create_fields_read.
  - intros old. vm_compute. reflexivity.
  - intros old. by apply decode_int_range.
  - intros old. by apply decode_int_range.
  - intros old. by apply ParseRFC3339_Format.
Qed.

Lemma create_body_read k w due :
  int64 k -> int64 w -> printable due ->
  DecodeJSON (A := CreateEventRequest) (create_body k w (FormatRFC3339Nano due))
  = Ok (mkCreateEventRequest "fairness" "" k due w).
Proof.
  intros Hk Hw Hdue. rewrite create_body_json.
  destruct (create_json_written k w due) as [Hwr Hh]; [apply Hdue|].
  unfold DecodeJSON, json_Decode, decode_create.
  rewrite (Decode_print _ _ _ _ Hwr Hh (create_json_read k w due Hk Hw Hdue)). reflexivity.
Qed.
End Requests.

(** ** Answers *)

(** A value the encoder accepts is decoded field by field. *)
Lemma decode_response_eq {A} (fields : list (field A)) a r j :
  APIResponse_json r = Some j ->
  decode_answer (decode_struct false fields) a (encode_response r)
  = foldl (decode_step fields) (Some a) (APIResponse_fields r).
Proof.
  intros Hj. rewrite decode_encoded, Hj. cbn [mbind option_bind].
  by apply decode_struct_fields; [|apply APIResponse_named].
Qed.

Lemma json_time_printable t : printable t -> json_time t = Some (JString (chars (FormatRFC3339Nano t))).
Proof. intros Ht. unfold json_time. by rewrite decide_True. Qed.

Definition event_printable (e : Event) : Prop :=
  int64 (event_ID e) /\ printable (event_DrawAt e) /\ printable (event_CreatedAt e) /\
  printable (event_UpdatedAt e).

Definition draw_printable (d : LotteryDraw) : Prop :=
  int64 (draw_WinnerUserID d) /\ printable (draw_DrawnAt d).

Definition user_printable (u : User) : Prop :=
  int64 (user_ID u) /\ printable (user_CreatedAt u) /\ printable (user_UpdatedAt u).

(** A struct is encoded if its fields are. *)
Lemma json_fields_encoded l : Forall (fun kv => is_Some kv.2) l -> is_Some (json_fields l).
Proof.
  intros Hl. unfold json_fields. apply fmap_is_Some, mapM_is_Some.
  eapply Forall_impl; [exact Hl|]. intros [name v] [j Hj]. cbn in Hj |- *. rewrite Hj. by eexists.
Qed.

Lemma json_array_encoded {A} (f : A -> option json) l :
  Forall (fun x => is_Some (f x)) l -> is_Some (json_array f l).
Proof. intros Hl. by apply fmap_is_Some, mapM_is_Some. Qed.

Lemma omitted_encoded b name v : is_Some v -> Forall (fun kv => is_Some kv.2) (omit_if b name v).
Proof. intros Hv. unfold omit_if. destruct b; by repeat constructor. Qed.

(** The fields of a struct one by one. *)
Ltac encoded :=
  repeat match goal with
  | |- Forall _ (_ ++ _) => apply Forall_app; split
  | |- Forall _ (omit_if _ _ _) => apply omitted_encoded
  | |- Forall _ (json_strings _ _) => apply omitted_encoded
  | |- Forall _ [] => constructor
  | |- Forall _ (_ :: _) => constructor; cbn [snd]
  | |- is_Some (Some _) => by eexists
  | |- is_Some (json_time _) => rewrite json_time_printable by done
  end.

Lemma response_encoded r :
  is_Some (payload_json (rs_data r)) -> is_Some (APIResponse_json r).
Proof.
  intros Hp. apply json_fields_encoded. unfold APIResponse_fields. encoded; [done|].
  destruct (rs_meta r) as [m|]; encoded. apply json_fields_encoded. encoded.
Qed.

Lemma Event_encoded e : event_printable e -> is_Some (Event_json e).
Proof. intros (_ & H1 & H2 & H3). apply json_fields_encoded. encoded. Qed.

Lemma User_encoded u : user_printable u -> is_Some (User_json u).
Proof. intros (_ & H1 & H2). apply json_fields_encoded. encoded. Qed.

Lemma LotteryDraw_encoded d : draw_printable d -> is_Some (LotteryDraw_json d).
Proof. intros [_ H1]. apply json_fields_encoded. encoded. Qed.

(** The id of a created event. *)
Lemma created_read e :
  event_printable e -> decode_event (encode_response (Respond 201 true (PEvent e) "")) = Some (event_ID e).
Proof.
  intros He. destruct (Event_encoded e He) as [j Hj]. destruct He as [Hid _].
  destruct (response_encoded (Respond 201 true (PEvent e) "")) as [jr Hjr]; [by eexists|].
  unfold decode_event. rewrite (decode_response_eq _ _ _ _ Hjr).
  change (APIResponse_fields (Respond 201 true (PEvent e) ""))
    with [("success", Some (JBool true)); ("data", Event_json e)].
  cbn [foldl]. unfold decode_step. lookup_fields. rewrite Hj. cbn [mbind option_bind].
  unfold Event_json in Hj. rewrite (decode_struct_fields _ _ _ _ Hj).
  - cbn [app foldl]. rewrite foldl_app. cbn [foldl]. unfold decode_step. lookup_fields.
    rewrite decode_int_range by done. unfold omit_if. destruct (bool_decide _); reflexivity.
  - repeat (apply Forall_app; split); try apply omit_named; by repeat constructor.
Qed.

(** The users of encoded draw rows. *)
Lemma winners_read l old :
  Forall draw_printable l -> exists j, json_array LotteryDraw_json l = Some j /\
    decode_slice 0%Z decode_winner j old = Some (draw_WinnerUserID <$> l).
Proof.
  intros Hl. destruct (json_array_encoded LotteryDraw_json l) as [j Hj].
  { eapply Forall_impl; [exact Hl|]. apply LotteryDraw_encoded. }
  exists j. split; [done|]. unfold json_array in Hj. apply fmap_Some in Hj as (vs & Hvs & ->).
  cbn [decode_slice]. apply mapM_Some in Hvs. apply mapM_Some.
  induction Hvs as [|d v l vs Hd _ IH]; [constructor|].
  apply Forall_cons in Hl as [[Hid _] Hl]. constructor; [|by apply IH].
  unfold decode_winner. rewrite (decode_struct_fields _ _ _ _ Hd) by (by repeat constructor).
  cbn [foldl]. unfold decode_step. lookup_fields. by rewrite decode_int_range.
Qed.

Definition results_printable (d : DrawResult) : Prop :=
  Forall draw_printable (dr_Winners d) /\ Forall draw_printable (dr_Waitlist d) /\ printable (dr_DrawnAt d).

(** The results of a draw. *)
Lemma results_read d :
  results_printable d ->
  decode_draw (encode_response (Respond 200 true (PDraw d) ""))
  = Some (mkDrawResp "" (draw_WinnerUserID <$> dr_Winners d) (draw_WinnerUserID <$> dr_Waitlist d)).
Proof.
  intros (Hw & Hl & Ht). destruct (winners_read _ [] Hw) as (jw & Hjw & Hrw).
  destruct (winners_read _ [] Hl) as (jl & Hjl & Hrl).
  assert (is_Some (DrawResult_json d)) as [j Hj].
  { apply json_fields_encoded. unfold DrawResult_fields. rewrite Hjw, Hjl. encoded. }
  destruct (response_encoded (Respond 200 true (PDraw d) "")) as [jr Hjr]; [by eexists|].
  unfold decode_draw. rewrite (decode_response_eq _ _ _ _ Hjr).
  change (APIResponse_fields (Respond 200 true (PDraw d) ""))
    with [("success", Some (JBool true)); ("data", DrawResult_json d)].
  cbn [foldl]. unfold decode_step. lookup_fields. rewrite Hj. cbn [mbind option_bind].
  rewrite (decode_struct_fields _ _ _ _ Hj) by apply DrawResult_named.
  unfold DrawResult_fields. rewrite foldl_app. cbn [foldl]. unfold decode_step at 2 3 4 5 6 7. lookup_fields.
  rewrite Hjw, Hjl. cbn [mbind option_bind dr_Data_Winners dr_Data_Waitlist dr_Code]. rewrite Hrw.
  cbn [mbind option_bind dr_Data_Winners dr_Data_Waitlist dr_Code]. rewrite Hrl.
  cbn [mbind option_bind dr_Data_Winners dr_Data_Waitlist dr_Code].
  unfold json_strings, omit_if. destruct (bool_decide (dr_Digest d = "")), (bool_decide (dr_Integrity d = ""));
    cbn [app foldl]; unfold decode_step; lookup_fields; reflexivity.
Qed.

(** The text of a failure, which has no data. *)
Lemma failure_read r :
  rs_data r = PNone -> utf8_valid (chars (rs_error r)) = true -> decode_error (encode_response r) = Some (rs_error r).
Proof.
  intros Hd Hv. destruct (response_encoded r) as [j Hj]; [by rewrite Hd; eexists|].
  unfold decode_error. rewrite (decode_response_eq _ _ _ _ Hj).
  unfold APIResponse_fields, json_strings, omit_if. rewrite Hd. cbn [no_data].
  destruct (bool_decide (rs_error r = "")) eqn:He, (bool_decide (rs_code r = "")), (rs_meta r);
    cbn [app foldl]; unfold decode_step; lookup_fields; rewrite ?decode_string_json, ?coerced_valid by done;
    try done; apply bool_decide_eq_true in He; by rewrite He.
Qed.

(** The token and the user of a login. *)
Lemma logged_in_read own lr :
  user_printable (lresp_User lr) -> utf8_valid (chars (lresp_Token lr)) = true ->
  unmarshal_login (env_Data (decode_envelope (answer_body own (Some (Respond 200 true (PLogin lr) "")))))
  = Some (lresp_Token lr, user_ID (lresp_User lr)).
Proof.
  intros Hu Hv. destruct (User_encoded _ Hu) as [ju Hju]. destruct Hu as [Hid _].
  assert (is_Some (LoginResponse_json lr)) as [j Hj] by (apply json_fields_encoded; rewrite Hju; encoded).
  destruct (response_encoded (Respond 200 true (PLogin lr) "")) as [jr Hjr]; [by eexists|].
  unfold decode_envelope, answer_body. rewrite (decode_response_eq _ _ _ _ Hjr).
  change (APIResponse_fields (Respond 200 true (PLogin lr) ""))
    with [("success", Some (JBool true)); ("data", LoginResponse_json lr)].
  cbn [foldl]. unfold decode_step at 1 2. lookup_fields. rewrite Hj. unfold unmarshal_login, Datatypes.id.
  cbn [mbind option_bind default env_Data].
  unfold Datatypes.id. cbn [env_Data]. rewrite (decode_struct_fields _ _ _ _ Hj) by (by repeat constructor).
  cbn [foldl]. unfold decode_step. lookup_fields. rewrite Hju, decode_string_json, coerced_valid by done.
  cbn [mbind option_bind fst snd]. rewrite (decode_struct_fields _ _ _ _ Hju) by (by repeat constructor).
  cbn [foldl]. unfold decode_step. lookup_fields. by rewrite decode_int_range.
Qed.

(** ** Properties *)

(** C26: what the clients write the server reads, and the reverse.  The body
    [oneDraw] formats for an event is decoded by the handler to exactly the
    capacity, winner count and due time (to the nanosecond) the client meant;
    the registration and login bodies of [setup-users] to exactly the strings
    it marshalled; and from the bytes of the server's answers the clients read
    the created event's id, the drawn winners and waitlist in their order, the
    text of a failure, and the token and id of a login.  (Integers of the
    code's 64 bits, text in UTF-8, instants up to the year 9999.) *)
Theorem wire_roundtrip `{JSONErrors} :
  (forall k w due, int64 k -> int64 w -> printable due ->
     DecodeJSON (create_body k w (FormatRFC3339Nano due)) = Ok (mkCreateEventRequest "fairness" "" k due w)) /\
  (forall email password name, Forall (fun s => utf8_valid (chars s) = true) [email; password; name] ->
     DecodeJSON (Marshal_map [("email", email); ("password", password)]) = Ok (mkLoginRequest email password) /\
     DecodeJSON (Marshal_map [("email", email); ("full_name", name); ("password", password)])
     = Ok (mkRegisterRequest email password name)) /\
  (forall e, event_printable e ->
     decode_event (encode_response (Respond 201 true (PEvent e) "")) = Some (event_ID e)) /\
  (forall d, results_printable d ->
     decode_draw (encode_response (Respond 200 true (PDraw d) ""))
     = Some (mkDrawResp "" (draw_WinnerUserID <$> dr_Winners d) (draw_WinnerUserID <$> dr_Waitlist d))) /\
  (forall r, rs_data r = PNone -> utf8_valid (chars (rs_error r)) = true ->
     decode_error (encode_response r) = Some (rs_error r)) /\
  (forall own lr, user_printable (lresp_User lr) -> utf8_valid (chars (lresp_Token lr)) = true ->
     unmarshal_login (env_Data (decode_envelope (answer_body own (Some (Respond 200 true (PLogin lr) "")))))
     = Some (lresp_Token lr, user_ID (lresp_User lr))).
Proof.
  split_and!; [apply create_body_read| |apply created_read|apply results_read|apply failure_read|apply logged_in_read].
  intros email password name. rewrite !Forall_cons. intros (He & Hp & Hn & _).
  by rewrite login_body, register_body, !coerced_valid.
Qed.

(** ** Witness *)

Import Wording.

Lemma wire_roundtrip_witness :
  DecodeJSON (create_body 10 5 "2026-01-02T03:04:05.5Z")
    = Ok (mkCreateEventRequest "fairness" "" 10 63902919845500000000 5) /\
  decode_error (encode_response (Conflict "you have already booked this event"))
    = Some "you have already booked this event".
Proof.
  pose proof wire_roundtrip as (Hcreate & _ & _ & _ & Hfail & _). split.
  - change "2026-01-02T03:04:05.5Z" with (FormatRFC3339Nano 63902919845500000000).
    apply Hcreate; vm_compute; split; done.
  - apply Hfail; reflexivity.
Defined.
