(* ===== verification/Workers.v ===== *)
(** * The worker pool of the load-test clients

    [setup-users] and [fairness-api] (under [src/loadtest/cmd]) hand their jobs
    to [c] goroutines over an unbuffered channel.  A worker does its job, takes
    the mutex, records the outcome in the shared state and goes on; when the
    channel is closed it calls [wg.Done], and [main] goes on when all have.
    Here the pool is a step relation, whatever the jobs are. *)

From S2P Require Import Prelude.

Section Pool.
Context {J O S : Type}.
(** What a job may end with, and what a worker does with it between
    [mu.Lock()] and [mu.Unlock()]; [None] is a panic, which ends the program. *)
Variable outcome : J -> O -> Prop.
Variable record : S -> J * O -> option S.

(** Where a goroutine is: at [range jobs], in its job, at [mu.Lock()], inside
    and at [mu.Unlock()], and after [wg.Done()]. *)
Inductive worker :=
| AtRange
| AtWork (j : J)
| AtLock (j : J) (o : O)
| Inside (j : J) (o : O)
| AtUnlock
| Gone.

(** Where [main] is: starting workers, sending jobs, at [wg.Wait()], after. *)
Inductive main_at :=
| Starting (n : nat) (jobs : list J)
| Sending (jobs : list J)
| Joining
| Joined.

Record pool := mkPool {
  pl_main : main_at;
  pl_workers : list worker;
  pl_wg : nat;               (* the counter of the WaitGroup *)
  pl_locked : bool;          (* the mutex *)
  pl_shared : S;
  pl_log : list (J * O);     (* ghost: what was recorded, in order *)
  pl_crashed : bool
}.

Definition closed (m : main_at) : bool := match m with Joining | Joined => true | _ => false end.

(** Worker [i] goes to [w]. *)
Definition moved (i : nat) (w : worker) (p : pool) : pool :=
  mkPool (pl_main p) (<[i := w]> (pl_workers p)) (pl_wg p) (pl_locked p) (pl_shared p) (pl_log p) (pl_crashed p).
Definition main_to (m : main_at) (p : pool) : pool :=
  mkPool m (pl_workers p) (pl_wg p) (pl_locked p) (pl_shared p) (pl_log p) (pl_crashed p).
Definition set_locked (b : bool) (p : pool) : pool :=
  mkPool (pl_main p) (pl_workers p) (pl_wg p) b (pl_shared p) (pl_log p) (pl_crashed p).

Inductive step (p : pool) : pool -> Prop :=
| step_go n jobs :                        (* [wg.Add(1); go func() {...}] *)
    pl_crashed p = false -> pl_main p = Starting (Datatypes.S n) jobs ->
    step p (mkPool (Starting n jobs) (pl_workers p ++ [AtRange]) (Datatypes.S (pl_wg p)) (pl_locked p)
              (pl_shared p) (pl_log p) false)
| step_started jobs :
    pl_crashed p = false -> pl_main p = Starting 0 jobs -> step p (main_to (Sending jobs) p)
| step_send j jobs i :                    (* [jobs <- j] meets a receiver *)
    pl_crashed p = false -> pl_main p = Sending (j :: jobs) -> pl_workers p !! i = Some AtRange ->
    step p (main_to (Sending jobs) (moved i (AtWork j) p))
| step_close :                            (* [close(jobs)] *)
    pl_crashed p = false -> pl_main p = Sending [] -> step p (main_to Joining p)
| step_work i j o :
    pl_crashed p = false -> pl_workers p !! i = Some (AtWork j) -> outcome j o ->
    step p (moved i (AtLock j o) p)
| step_lock i j o :                       (* [mu.Lock()] *)
    pl_crashed p = false -> pl_workers p !! i = Some (AtLock j o) -> pl_locked p = false ->
    step p (set_locked true (moved i (Inside j o) p))
| step_record i j o s :
    pl_crashed p = false -> pl_workers p !! i = Some (Inside j o) -> record (pl_shared p) (j, o) = Some s ->
    step p (mkPool (pl_main p) (<[i := AtUnlock]> (pl_workers p)) (pl_wg p) (pl_locked p) s
              (pl_log p ++ [(j, o)]) false)
| step_panic i j o :
    pl_crashed p = false -> pl_workers p !! i = Some (Inside j o) -> record (pl_shared p) (j, o) = None ->
    step p (mkPool (pl_main p) (pl_workers p) (pl_wg p) (pl_locked p) (pl_shared p) (pl_log p) true)
| step_unlock i :                         (* [mu.Unlock()] *)
    pl_crashed p = false -> pl_workers p !! i = Some AtUnlock ->
    step p (set_locked false (moved i AtRange p))
| step_done i :                           (* the channel is closed: [wg.Done()] *)
    pl_crashed p = false -> pl_workers p !! i = Some AtRange -> closed (pl_main p) = true ->
    step p (mkPool (pl_main p) (<[i := Gone]> (pl_workers p)) (pred (pl_wg p)) (pl_locked p) (pl_shared p)
              (pl_log p) false)
| step_joined :                           (* [wg.Wait()] returns *)
    pl_crashed p = false -> pl_main p = Joining -> pl_wg p = 0 -> step p (main_to Joined p).

(** [c] workers are to be started for these jobs. *)
Definition launched (c : nat) (jobs : list J) (s : S) : pool :=
  mkPool (Starting c jobs) [] 0 false s [] false.

(** The sequential loop the pool stands for. *)
Definition record_in_order (s : S) (log : list (J * O)) : option S :=
  foldl (fun o x => s ← o; record s x) (Some s) log.

(** ** The invariant *)

Definition unsent (m : main_at) : list J :=
  match m with Starting _ jobs => jobs | Sending jobs => jobs | _ => [] end.
Definition job_of (w : worker) : list J :=
  match w with AtWork j => [j] | AtLock j _ => [j] | Inside j _ => [j] | _ => [] end.
Definition holder (w : worker) : list unit :=
  match w with Inside _ _ => [tt] | AtUnlock => [tt] | _ => [] end.
Definition alive (w : worker) : list unit := match w with Gone => [] | _ => [tt] end.
Definition outcome_at (w : worker) : list (J * O) :=
  match w with AtLock j o => [(j, o)] | Inside j o => [(j, o)] | _ => [] end.
Definition to_start (m : main_at) : nat := match m with Starting n _ => n | _ => 0 end.

Record pool_inv (c : nat) (jobs : list J) (s : S) (p : pool) : Prop := {
  pi_jobs : unsent (pl_main p) ++ (pl_workers p ≫= job_of) ++ (pl_log p).*1 ≡ₚ jobs;
  pi_outcomes : Forall (fun x => outcome x.1 x.2) (pl_log p ++ (pl_workers p ≫= outcome_at));
  pi_shared : record_in_order s (pl_log p) = Some (pl_shared p);
  pi_mutex : length (pl_workers p ≫= holder) = if pl_locked p then 1 else 0;
  pi_wg : pl_wg p = length (pl_workers p ≫= alive);
  pi_count : to_start (pl_main p) + length (pl_workers p) = c;
  pi_gone : closed (pl_main p) = false -> length (pl_workers p ≫= alive) = length (pl_workers p);
  pi_joined : pl_main p = Joined -> pl_wg p = 0;
  pi_crashed : pl_crashed p = true -> exists i j o, pl_workers p !! i = Some (Inside j o) /\
    record (pl_shared p) (j, o) = None
}.

(** Moving one worker changes what is gathered from the workers by that
    worker's share. *)
Lemma bind_moved {B} (f : worker -> list B) ws i w w' :
  ws !! i = Some w -> exists rest, ws ≫= f ≡ₚ f w ++ rest /\ <[i := w']> ws ≫= f ≡ₚ f w' ++ rest.
Proof.
  intros Hi. exists (delete i ws ≫= f). pose proof (lookup_lt_Some _ _ _ Hi) as Hlt. split.
  - rewrite (delete_Permutation ws i w Hi) at 1. by rewrite bind_cons.
  - rewrite insert_take_drop, bind_app, bind_cons by done.
    rewrite (delete_take_drop ws i), bind_app. rewrite !app_assoc. f_equiv. apply Permutation_app_comm.
Qed.

(** All that is gathered, before and after. *)
Ltac gather Hi w' :=
  destruct (bind_moved job_of _ _ _ w' Hi) as (restj & Hj1 & Hj2);
  destruct (bind_moved holder _ _ _ w' Hi) as (resth & Hh1 & Hh2);
  destruct (bind_moved alive _ _ _ w' Hi) as (resta & Ha1 & Ha2);
  destruct (bind_moved outcome_at _ _ _ w' Hi) as (resto & Ho1 & Ho2);
  cbn [job_of holder alive outcome_at app] in Hj1, Hj2, Hh1, Hh2, Ha1, Ha2, Ho1, Ho2.

Lemma launched_inv c jobs s : pool_inv c jobs s (launched c jobs s).
Proof. constructor; simpl; try done; try lia. by rewrite !app_nil_r. Qed.

(** What the worker's move does not change. *)
Ltac kept :=
  match goal with
  | H1 : (?ws ≫= ?f) ≡ₚ ?x, H2 : (<[?i := ?w]> ?ws ≫= ?f) ≡ₚ ?x |- context [<[?i := ?w]> ?ws ≫= ?f] =>
      rewrite H2, <- H1; by auto
  end.

Lemma pool_step_inv c jobs s p p' : pool_inv c jobs s p -> step p p' -> pool_inv c jobs s p'.
Proof.
  intros [Hjobs Hout Hsh Hmu Hwg Hcount Hgone Hjoined Hcrash] Hstep.
  destruct Hstep as [n js Hc Hm|js Hc Hm|j js i Hc Hm Hi|Hc Hm|i j o Hc Hi Ho|i j o Hc Hi Hl
    |i j o s' Hc Hi Hr|i j o Hc Hi Hr|i Hc Hi|i Hc Hi Hcl|Hc Hm Hz];
    try rewrite Hm in *.
  - constructor; simpl in *; rewrite ?bind_app; cbn; rewrite ?app_nil_r, ?length_app; try done; simpl; try lia; try congruence.
  - constructor; simpl; try done; congruence.
  - gather Hi (AtWork j). constructor; simpl in *; rewrite ?length_insert; try done; try congruence; try kept.
    rewrite Hj2, <- Hjobs, Hj1. simpl. by rewrite <- Permutation_middle.
  - constructor; simpl in *; try done; congruence.
  - gather Hi (AtLock j o). constructor; simpl in *; rewrite ?length_insert; try done; try congruence; try kept.
    rewrite Ho2. rewrite Ho1 in Hout. rewrite Forall_app, Forall_cons in *. naive_solver.
  - gather Hi (Inside j o). constructor; simpl in *; rewrite ?length_insert; try done; try congruence; try kept.
    rewrite Hh2. rewrite Hl, Hh1 in Hmu. simpl. by rewrite Hmu.
  - gather Hi AtUnlock. constructor; simpl in *; rewrite ?length_insert; try done; try congruence; try kept.
    + rewrite fmap_app, Hj2, <- Hjobs, Hj1. simpl. f_equiv. rewrite app_assoc.
      symmetry. apply Permutation_cons_append.
    + rewrite Ho2. rewrite Ho1 in Hout. rewrite !Forall_app, ?Forall_cons in *. naive_solver.
    + unfold record_in_order in *. rewrite foldl_snoc, Hsh. done.
  - constructor; simpl; try done. intros _. eauto.
  - gather Hi AtRange. constructor; simpl in *; rewrite ?length_insert; try done; try congruence; try kept.
    rewrite Hh2. rewrite Hh1 in Hmu. simpl in Hmu. destruct (pl_locked p); lia.
  - gather Hi Gone. constructor; simpl in *; rewrite ?length_insert; try done; try congruence; try kept.
    + by rewrite Ha2, Hwg, Ha1.
    + intros Hj. rewrite (Hjoined Hj) in *. done.
  - constructor; simpl in *; try done; congruence.
Qed.

Lemma pool_reachable c jobs s p : rtc step (launched c jobs s) p -> pool_inv c jobs s p.
Proof.
  intros Hr. pose proof (launched_inv c jobs s) as Hinv. revert Hinv. induction Hr; [done|].
  intros Hinv. eauto using pool_step_inv.
Qed.

(** ** Progress *)

(** A worker that is neither at the channel nor gone lets somebody go on. *)
Lemma busy_steps c jobs s p i w :
  (forall j, exists o, outcome j o) -> pool_inv c jobs s p -> pl_crashed p = false ->
  pl_workers p !! i = Some w -> w <> AtRange -> w <> Gone -> exists p', step p p'.
Proof.
  intros Hout Hinv Hc.
  assert (forall i j o, pl_workers p !! i = Some (Inside j o) -> exists p', step p p') as Hinside.
  { intros i' j o Hi. destruct (record (pl_shared p) (j, o)) as [s'|] eqn:Hr; eexists;
      [by eapply step_record|by eapply step_panic]. }
  intros Hi Hw1 Hw2. destruct w as [|j|j o|j o| |]; [done| | |by eapply Hinside| |done].
  - destruct (Hout j) as [o Ho]. eexists. by eapply step_work.
  - destruct (pl_locked p) eqn:Hl; [|eexists; by eapply step_lock].
    pose proof (pi_mutex _ _ _ _ Hinv) as Hm. rewrite Hl in Hm.
    assert (exists x, x ∈ pl_workers p ≫= holder) as (x & (w & Hx & [k Hk]%list_elem_of_lookup)%list_elem_of_bind).
    { destruct (pl_workers p ≫= holder) as [|x l]; [done|]. exists x. by left. }
    destruct w; cbn in Hx; try (by apply not_elem_of_nil in Hx); [by eapply Hinside|].
    eexists. by eapply step_unlock.
  - eexists. by eapply step_unlock.
Qed.

(** What is left to do, in steps. *)
Definition worker_left (w : worker) : nat :=
  match w with AtRange => 1 | AtWork _ => 5 | AtLock _ _ => 4 | Inside _ _ => 3 | AtUnlock => 2 | Gone => 0 end.
Definition main_left (m : main_at) : nat :=
  match m with
  | Starting n jobs => 2 * n + 5 * length jobs + 3
  | Sending jobs => 5 * length jobs + 2
  | Joining => 1
  | Joined => 0
  end.
Definition workers_left (ws : list worker) : nat := foldr (fun w n => worker_left w + n) 0 ws.
Definition steps_left (p : pool) : nat :=
  main_left (pl_main p) + workers_left (pl_workers p) + if pl_crashed p then 0 else 1.

Lemma left_moved (ws : list worker) i w w' :
  ws !! i = Some w ->
  workers_left (<[i := w']> ws) + worker_left w = workers_left ws + worker_left w'.
Proof.
  revert i. induction ws as [|x ws IH]; intros [|i] Hi; [done..| |].
  - injection Hi as ->. simpl. lia.
  - simpl. specialize (IH i Hi). lia.
Qed.

Lemma step_decreases p p' : step p p' -> steps_left p' < steps_left p.
Proof.
  unfold steps_left. intros Hstep.
  destruct Hstep as [n js Hc Hm|js Hc Hm|j js i Hc Hm Hi|Hc Hm|i j o Hc Hi Ho|i j o Hc Hi Hl
    |i j o s' Hc Hi Hr|i j o Hc Hi Hr|i Hc Hi|i Hc Hi Hcl|Hc Hm Hz];
    simpl; rewrite ?Hc, ?Hm; simpl;
    try (match goal with |- context [<[i := ?w']> _] => pose proof (left_moved _ _ _ w' Hi) end; simpl in *; lia);
    try lia.
  assert (forall ws, workers_left (ws ++ [AtRange]) = workers_left ws + 1) as ->; [|simpl; lia].
  induction ws as [|w ws IH]; simpl; lia.
Qed.

Lemma run_bounded k p p' : nsteps step k p p' -> k + steps_left p' <= steps_left p.
Proof. induction 1 as [|k p q r Hpq _ IH]; [lia|]. pose proof (step_decreases _ _ Hpq). lia. Qed.

Lemma alive_le (ws : list worker) : length (ws ≫= alive) <= length ws.
Proof.
  induction ws as [|w ws IH]; [done|]. rewrite bind_cons, length_app.
  destruct w; cbn [alive length]; lia.
Qed.

Definition busy (w : worker) : bool := match w with AtRange | Gone => false | _ => true end.

(** A pool with a worker only stops when [main] goes on, or in a panic. *)
Lemma pool_progress c jobs s p :
  (forall j, exists o, outcome j o) -> 0 < c -> pool_inv c jobs s p ->
  (exists p', step p p') \/ pl_main p = Joined \/ pl_crashed p = true.
Proof.
  intros Hout Hc Hinv. destruct (pl_crashed p) eqn:Hcr; [by right; right|].
  destruct (existsb busy (pl_workers p)) eqn:Hbusy.
  { left. apply existsb_exists in Hbusy as (w & [i Hi]%list_elem_of_In%list_elem_of_lookup & Hw).
    by eapply (busy_steps c jobs s p i w); [..|intros ->|intros ->]. }
  assert (forall i w, pl_workers p !! i = Some w -> w = AtRange \/ w = Gone) as Hidle.
  { intros i w Hi. assert (busy w = false) as Hw.
    { destruct (busy w) eqn:Hw; [|done]. rewrite <- Hbusy. symmetry. apply existsb_exists. exists w.
      split; [by eapply list_elem_of_In, list_elem_of_lookup_2|done]. }
    destruct w; auto; done. }
  pose proof (pi_count _ _ _ _ Hinv) as Hcount. pose proof (pi_wg _ _ _ _ Hinv) as Hwg.
  destruct (pl_main p) as [[|n] js|[|j js]| |] eqn:Hm; [..|by right; left]; left.
  - eexists. by apply step_started.
  - eexists. by apply step_go.
  - eexists. by apply step_close.
  - pose proof (pi_gone _ _ _ _ Hinv) as Hgone. rewrite Hm in Hgone. specialize (Hgone eq_refl).
    simpl in Hcount. destruct (pl_workers p) as [|w ws] eqn:Hws; [simpl in Hcount; lia|].
    assert (w = AtRange) as ->.
    { destruct (Hidle 0 w eq_refl) as [-> | ->]; [done|]. exfalso. rewrite bind_cons in Hgone.
      cbn [alive app length] in Hgone. pose proof (alive_le ws). lia. }
    eexists. apply (step_send _ j js 0); [done|done|by rewrite Hws].
  - destruct (pl_wg p) as [|m] eqn:Hz; [eexists; by apply step_joined|].
    assert (exists x, x ∈ pl_workers p ≫= alive) as (x & (w & Hx & [i Hi]%list_elem_of_lookup)%list_elem_of_bind).
    { destruct (pl_workers p ≫= alive) as [|x l]; [done|]. exists x. by left. }
    destruct (Hidle i w Hi) as [-> | ->]; [|by apply not_elem_of_nil in Hx].
    eexists. apply (step_done _ i); [done|done|by rewrite Hm].
Qed.

(** ** What is recorded *)

(** A log of some of the jobs, each with an outcome it may have. *)
Definition log_ok (jobs : list J) (log : list (J * O)) : Prop :=
  log.*1 ⊆+ jobs /\ Forall (fun x => outcome x.1 x.2) log.

Lemma gone_empty {B} (f : worker -> list B) ws :
  f Gone = [] -> length (ws ≫= alive) = 0 -> ws ≫= f = [].
Proof.
  intros Hf. induction ws as [|w ws IH]; [done|]. rewrite !bind_cons, length_app.
  destruct w; cbn [alive length]; try lia. rewrite Hf. apply IH.
Qed.

Lemma pool_joined c jobs s p :
  pool_inv c jobs s p -> pl_main p = Joined ->
  (pl_log p).*1 ≡ₚ jobs /\ Forall (fun x => outcome x.1 x.2) (pl_log p) /\
  record_in_order s (pl_log p) = Some (pl_shared p) /\ pl_crashed p = false.
Proof.
  intros Hinv Hm. pose proof (pi_joined _ _ _ _ Hinv Hm) as Hz.
  pose proof (pi_wg _ _ _ _ Hinv) as Hwg. rewrite Hz in Hwg. symmetry in Hwg.
  pose proof (pi_jobs _ _ _ _ Hinv) as Hjobs. rewrite Hm in Hjobs. simpl in Hjobs.
  rewrite (gone_empty job_of) in Hjobs by done. simpl in Hjobs.
  pose proof (pi_outcomes _ _ _ _ Hinv) as [Hout _]%Forall_app.
  split_and!; [done|done|apply Hinv|].
  destruct (pl_crashed p) eqn:Hc; [|done]. exfalso.
  destruct (pi_crashed _ _ _ _ Hinv Hc) as (i & j & o & Hi & _).
  assert ((j : J) ∈ pl_workers p ≫= job_of) as Hj.
  { apply list_elem_of_bind. exists (Inside j o). split; [by left|by eapply list_elem_of_lookup_2]. }
  rewrite (gone_empty job_of) in Hj by done. by apply not_elem_of_nil in Hj.
Qed.

(** A panic is one the sequential loop would have. *)
Lemma pool_panic c jobs s p :
  pool_inv c jobs s p -> pl_crashed p = true ->
  exists log, log_ok jobs log /\ record_in_order s log = None.
Proof.
  intros Hinv Hc. destruct (pi_crashed _ _ _ _ Hinv Hc) as (i & j & o & Hi & Hr).
  exists (pl_log p ++ [(j, o)]). destruct (bind_moved job_of _ i _ Gone Hi) as (restj & Hj & _).
  destruct (bind_moved outcome_at _ i _ Gone Hi) as (resto & Ho & _). split; [split|].
  - rewrite <- (pi_jobs _ _ _ _ Hinv), Hj. rewrite fmap_app. simpl.
    assert (unsent (pl_main p) ++ (j :: restj) ++ (pl_log p).*1
      ≡ₚ (unsent (pl_main p) ++ restj) ++ (pl_log p).*1 ++ [j]) as ->; [|by apply submseteq_inserts_l].
    rewrite <- app_assoc. f_equiv. simpl. rewrite app_assoc. apply Permutation_cons_append.
  - pose proof (pi_outcomes _ _ _ _ Hinv) as Hout. rewrite Ho in Hout. cbn [outcome_at app] in Hout.
    rewrite Forall_app, Forall_cons in *. naive_solver.
  - unfold record_in_order. rewrite foldl_snoc. fold (record_in_order s (pl_log p)).
    by rewrite (pi_shared _ _ _ _ Hinv).
Qed.

(** Without workers [main] waits at the first job for ever. *)
Lemma pool_without_workers j jobs s :
  exists p, rtc step (launched 0 (j :: jobs) s) p /\ pl_main p = Sending (j :: jobs) /\ forall p', ~ step p p'.
Proof.
  eexists. split; [by eapply rtc_once, (step_started _ (j :: jobs))|]. split; [done|].
  intros p' Hstep. by inversion Hstep.
Qed.

(** ** One worker can do it all *)

Lemma start_all (ws : list worker) wg n jobs s :
  rtc step (mkPool (Starting n jobs) ws wg false s [] false)
    (mkPool (Sending jobs) (ws ++ replicate n AtRange) (n + wg) false s [] false).
Proof.
  revert ws wg. induction n as [|n IH]; intros ws wg.
  - simpl. rewrite app_nil_r. eapply rtc_once, step_started; done.
  - eapply rtc_l; [by apply (step_go _ n jobs)|]. simpl.
    specialize (IH (ws ++ [AtRange]) (Datatypes.S wg)). rewrite <- app_assoc, Nat.add_succ_r in IH. apply IH.
Qed.

Lemma do_job (ws : list worker) wg j js o s s' log :
  outcome j o -> record s (j, o) = Some s' ->
  rtc step (mkPool (Sending (j :: js)) (AtRange :: ws) wg false s log false)
    (mkPool (Sending js) (AtRange :: ws) wg false s' (log ++ [(j, o)]) false).
Proof.
  intros Ho Hr. eapply rtc_l; [by apply (step_send _ j js 0)|].
  eapply rtc_l; [by apply (step_work _ 0 j o)|]. eapply rtc_l; [by apply (step_lock _ 0 j o)|].
  eapply rtc_l; [by apply (step_record _ 0 j o s')|]. simpl. apply rtc_once. refine (step_unlock _ 0 _ _); done.
Qed.

Lemma all_leave a b (s : S) log :
  rtc step (mkPool Joining (replicate a Gone ++ replicate b AtRange) b false s log false)
    (mkPool Joining (replicate (a + b) Gone) 0 false s log false).
Proof.
  revert a. induction b as [|b IH]; intros a.
  - simpl. rewrite app_nil_r, Nat.add_0_r. done.
  - eapply rtc_l; [apply (step_done _ a)|]; [done| |done|].
    + cbn [pl_workers]. rewrite lookup_app_r, length_replicate, Nat.sub_diag by (by rewrite length_replicate). done.
    + simpl. replace (a + Datatypes.S b) with (Datatypes.S a + b) by lia.
      replace (<[a:=Gone]> (replicate a Gone ++ AtRange :: replicate b AtRange))
        with (replicate (Datatypes.S a) Gone ++ replicate b AtRange); [apply IH|].
      rewrite insert_app_r_alt, length_replicate, Nat.sub_diag by (by rewrite length_replicate).
      by rewrite replicate_S_end, <- app_assoc.
Qed.

Lemma pool_sequential c s s' log :
  0 < c -> Forall (fun x => outcome x.1 x.2) log -> record_in_order s log = Some s' ->
  exists p, rtc step (launched c log.*1 s) p /\ pl_main p = Joined /\ pl_shared p = s' /\ pl_log p = log.
Proof.
  intros Hc Hout Hrec. destruct c as [|c]; [lia|].
  exists (mkPool Joined (replicate (Datatypes.S c) Gone) 0 false s' log false). split; [|done].
  etrans; [apply start_all|]. simpl. rewrite Nat.add_0_r.
  assert (forall log1 log2 s1, Forall (fun x => outcome x.1 x.2) log2 ->
    foldl (fun o x => s ← o; record s x) (Some s1) log2 = Some s' ->
    rtc step (mkPool (Sending log2.*1) (AtRange :: replicate c AtRange) (Datatypes.S c) false s1 log1 false)
      (mkPool (Sending []) (AtRange :: replicate c AtRange) (Datatypes.S c) false s' (log1 ++ log2) false)) as Hjobs.
  { intros log1 log2. revert log1. induction log2 as [|[j o] log2 IH]; intros log1 s1 Ho Hs; simpl in *.
    - injection Hs as ->. by rewrite app_nil_r.
    - apply Forall_cons in Ho as [Hjo Ho]. simpl in Hjo. destruct (record s1 (j, o)) as [s2|] eqn:Hr.
      + etrans; [by apply do_job|]. specialize (IH (log1 ++ [(j, o)]) s2 Ho Hs). rewrite <- app_assoc in IH. exact IH.
      + exfalso. clear -Hs. induction log2; done. }
  etrans; [by apply (Hjobs [])|]. eapply rtc_l; [by apply step_close|].
  etrans; [apply (all_leave 0 (Datatypes.S c))|]. eapply rtc_once, step_joined; done.
Qed.

(** ** Properties *)

(** C29: the pool does what a loop over its jobs would do.  However the
    goroutines interleave, at most one is ever between [mu.Lock()] and
    [mu.Unlock()]; when [main] returns from [wg.Wait()], every job was done
    exactly once and the shared state is the one of a sequential loop that
    records the outcomes one after the other in some order; and a panic is one
    such a loop over some of the jobs would have too. *)
Theorem pool_correct c jobs s p :
  rtc step (launched c jobs s) p ->
  length (pl_workers p ≫= holder) <= 1 /\
  (pl_main p = Joined -> exists log, log.*1 ≡ₚ jobs /\ Forall (fun x => outcome x.1 x.2) log /\
     record_in_order s log = Some (pl_shared p)) /\
  (pl_crashed p = true -> exists log, log_ok jobs log /\ record_in_order s log = None).
Proof.
  intros Hinv%pool_reachable. split_and!.
  - rewrite (pi_mutex _ _ _ _ Hinv). destruct (pl_locked p); lia.
  - intros Hm. destruct (pool_joined _ _ _ _ Hinv Hm) as (Hj & Ho & Hr & _). eauto.
  - by eapply pool_panic.
Qed.

(** C30: the pool ends.  With at least one worker and jobs that end, no
    schedule lets [main], the channel, the mutex and the WaitGroup wait for
    each other: whatever happened so far, some goroutine can go on until
    [main] has returned from [wg.Wait()] (or a worker panicked), and every
    schedule gets there, after at most five steps per job, three per worker
    and four of [main]. *)
Theorem pool_terminates c jobs s k p :
  (forall j, exists o, outcome j o) -> 0 < c -> nsteps step k (launched c jobs s) p ->
  k <= 5 * length jobs + 3 * c + 4 /\
  ((exists p', step p p') \/ pl_main p = Joined \/ pl_crashed p = true).
Proof.
  intros Hout Hc Hrun. split.
  - apply run_bounded in Hrun. unfold steps_left in Hrun. simpl in Hrun. lia.
  - eapply pool_progress; [done..|]. apply pool_reachable. apply rtc_nsteps. eauto.
Qed.
End Pool.

(** ** Witnesses *)

(** Two workers add the squares of three numbers. *)
Definition square_of (j o : nat) : Prop := o = j * j.
Definition add_outcome (s : nat) (x : nat * nat) : option nat := Some (s + x.2).

Lemma pool_correct_witness :
  exists p, rtc (step square_of add_outcome) (launched 2 [1; 2; 3] 0) p /\ pl_main p = Joined /\
    exists log, log.*1 ≡ₚ [1; 2; 3] /\ record_in_order add_outcome 0 log = Some (pl_shared p).
Proof.
  destruct (pool_sequential square_of add_outcome 2 0 14 [(1, 1); (2, 4); (3, 9)]) as (p & Hrun & Hm & _);
    [lia|by repeat constructor|reflexivity|].
  exists p. split; [exact Hrun|]. split; [exact Hm|].
  destruct (pool_correct square_of add_outcome 2 [1; 2; 3] 0 p Hrun) as (_ & Hj & _).
  destruct (Hj Hm) as (log & H1 & _ & H2). by exists log.
Defined.

Lemma pool_terminates_witness :
  0 <= 5 * 3 + 3 * 2 + 4 /\
  ((exists p', step square_of add_outcome (launched 2 [1; 2; 3] 0) p') \/
   pl_main (launched (O := nat) 2 [1; 2; 3] 0) = Joined \/
   pl_crashed (launched (J := nat) (O := nat) 2 [1; 2; 3] 0) = true).
Proof.
  apply (pool_terminates square_of add_outcome 2 [1; 2; 3] 0 0 (launched 2 [1; 2; 3] 0)).
  - intros j. by exists (j * j).
  - lia.
  - constructor.
Defined.
