(* ===== verification/Programs.v ===== *)
(** * The load-test programs as they run

    [setup-users] and [fairness-api] with their worker pools ([Workers]):
    the jobs are the clients' programs against the server ([SetupUsers],
    [FairnessApi]), the shared state is what their critical sections change,
    and the file the first writes is the one the second reads. *)

From S2P Require Import Prelude GoFmt GoString GoTime GoJson Models Shuffle Database Effects Invariant.
From S2P Require Import Growth Auth System Codec Http Wire Client Stats Fairness FairnessApi SetupUsers Workers.
From Stdlib Require Import Ascii.

Section Programs.
Context `{UnicodeLower, Bcrypt, Mail, Signer} {R : Type} `{RandSource R}.
Context `{JSONErrors}.
Context `{TokenParser}.
Variables (maxWinners lockTTL lockWait : Z) (jwtSecret : string) (jwtExpiry : Z).
Variable base_ok : bool.

(** ** [setup-users] *)

(** Job [i] ends with this outcome, on a server whose tables are [T] in the
    end. *)
Definition setup_outcome (password : string) (T : Tables) (i : nat) (o : Z * result setup_error userToken)
  : Prop :=
  finished (R := R) maxWinners lockTTL lockWait jwtSecret jwtExpiry base_ok password T (i, o).

Definition setup_step (password : string) (T : Tables) :=
  step (setup_outcome password T) (fun st job => Some (record_user st job)).

Definition setup_pool (c n : nat) := launched (O := Z * result setup_error userToken) c (seq 0 n) (setup_start n).

Lemma record_users_in_order s log :
  record_in_order (fun st job => Some (record_user st job)) s log = Some (foldl record_user s log).
Proof. revert s. induction log as [|x log IH]; intros s; [done|]. apply (IH (record_user s x)). Qed.

(** ** [fairness-api] *)

(** [oneDraw] may end with this outcome, with whatever clients at the same
    time. *)
Definition draw_outcome (t : tokens) (k w : Z) (o : result draw_failure (list Z)) : Prop :=
  exists W n n', others_ok (R := R) maxWinners lockTTL lockWait jwtSecret jwtExpiry W /\
    db_inv (net_world n) /\
    crun maxWinners lockTTL lockWait jwtSecret jwtExpiry W (oneDraw base_ok t k w) n = (o, n').

Definition api_step (t : tokens) (k w : Z) (index : gmap Z nat) :=
  step (fun _ : unit => draw_outcome t k w) (fun st x => record_outcome index st x.2).

Definition api_pool (c draws : nat) (st : tallies) :=
  launched (O := result draw_failure (list Z)) c (replicate draws tt) st.

Lemma record_all_in_order index st (log : list (unit * result draw_failure (list Z))) :
  record_in_order (fun st x => record_outcome index st x.2) st log = record_all index st log.*2.
Proof.
  unfold record_in_order, record_all. generalize (Some st) as o. induction log as [|x log IH]; intros o; [done|].
  apply IH.
Qed.

(** What a draw reports names participants, each once. *)
Lemma draw_outcome_ok t k w o :
  tokens_of_users jwtSecret t -> NoDup (participants t k) -> draw_outcome t k w o ->
  outcome_ok (participants t k) o.
Proof.
  intros Htok Hnd (W & n & n' & Hothers & Hinv & Hrun). destruct o as [ws|e]; [|done].
  pose proof (oneDraw_wp maxWinners lockTTL lockWait jwtSecret jwtExpiry base_ok W Hothers t k w n Hinv) as Hwp.
  unfold cwp in Hwp. rewrite Hrun in Hwp. destruct Hwp as [[Hinv' _] Hrep].
  destruct (reported_entrants jwtSecret t k w ws _ Hinv' Htok Hnd (Hrep _ eq_refl))
    as (eid & res & Hres & -> & _ & Hperm).
  rewrite <- Hperm, fmap_app in Hnd. apply NoDup_app in Hnd as (Hnd & _). split; [done|].
  intros u Hu. rewrite <- Hperm, fmap_app. apply elem_of_app. by left.
Qed.

(** The tallies of any outcomes [oneDraw] may have. *)
Lemma draws_recorded t k w index st outcomes :
  (0 <= k)%Z -> Z.to_nat k <= length (tk_Users t) -> tokens_of_users jwtSecret t ->
  NoDup (participants t k) -> api_start t k = Some (index, st) -> Forall (draw_outcome t k w) outcomes ->
  exists err, record_all index st outcomes
    = Some (mkTallies (wins_of outcomes <$> participants t k) (firsts_of outcomes <$> participants t k) err) /\
    (err = None <-> Forall (fun o => is_ok o = true) outcomes).
Proof.
  intros Hk Hlen Htok Hnd Hst Hout. unfold api_start, users_index in Hst. rewrite decide_True in Hst by done.
  cbn [mbind option_bind] in Hst. rewrite option_guard_True in Hst by done. injection Hst as <- <-.
  assert (replicate (Z.to_nat k) 0%Z = (fun _ => 0%Z) <$> participants t k) as ->.
  { unfold participants. rewrite (const_fmap _ _ 0%Z) by done.
    by rewrite length_fmap, length_take, Nat.min_l by done. }
  rewrite record_all_ok.
  2: done.
  2: { eapply Forall_impl; [exact Hout|]. intros o. by apply draw_outcome_ok. }
  eexists. split; [reflexivity|].
  rewrite failures_none. naive_solver.
Qed.

(** ** Properties *)


(** C28: [fairness-api] counts what the server drew.  On a tokens file with at
    least [k] users, as [setup-users] leaves it, no schedule of the workers
    panics; and when [main] has their results, there was one outcome of
    [oneDraw] per requested draw, the report is the one of a sequential run
    over these outcomes, and where it is a result and not an error every draw
    succeeded, the tally of wins has for each participant the number of draws
    it won, and the tally of firsts the number of draws it came first in. *)
Theorem fairness_api_correct `{FloatMath} raw t k w c draws index st p :
  read_tokens raw = Some t -> (0 <= k)%Z -> Z.to_nat k <= length (tk_Users t) ->
  tokens_of_users jwtSecret t -> NoDup (participants t k) -> api_start t k = Some (index, st) ->
  rtc (api_step t k w index) (api_pool c draws st) p ->
  pl_crashed p = false /\
  (pl_main p = Joined -> exists outcomes, length outcomes = draws /\ Forall (draw_outcome t k w) outcomes /\
     api_main raw k w (Z.of_nat draws) outcomes = Some (api_report k w (Z.of_nat draws) (pl_shared p)) /\
     forall results, api_report k w (Z.of_nat draws) (pl_shared p) = Ok results ->
       Forall (fun o => is_ok o = true) outcomes /\
       ta_wins (pl_shared p) = wins_of outcomes <$> participants t k /\
       ta_firsts (pl_shared p) = firsts_of outcomes <$> participants t k).
Proof.
  intros Hraw Hk Hlen Htok Hnd Hst Hrun%pool_reachable. split.
  - destruct (pl_crashed p) eqn:Hc; [exfalso|done].
    destruct (pool_panic _ _ _ _ _ _ Hrun Hc) as (log & [_ Hlog] & Hnone).
    rewrite record_all_in_order in Hnone.
    destruct (draws_recorded t k w index st log.*2) as (err & Hs & _); try done; [|congruence].
    by apply Forall_fmap.
  - intros Hm. destruct (pool_joined _ _ _ _ _ _ Hrun Hm) as (Hjobs & Hout & Hrec & _).
    rewrite record_all_in_order in Hrec. exists (pl_log p).*2.
    assert (Forall (draw_outcome t k w) (pl_log p).*2) as Hout' by (by apply Forall_fmap).
    destruct (draws_recorded t k w index st _ Hk Hlen Htok Hnd Hst Hout') as (err & Hs & Herr).
    split_and!; [|done| |].
    + by rewrite length_fmap, <- (length_fmap fst), Hjobs, length_replicate.
    + unfold api_main. rewrite Hraw, Hst. cbn [mbind option_bind]. by rewrite Hrec.
    + rewrite Hs in Hrec. injection Hrec as <-. cbn [api_report ta_firstErr ta_wins ta_firsts].
      destruct err; [done|]. intros results _. by split; [apply Herr|].
Qed.
End Programs.

(** ** Two users on the sample server *)

Section Witnesses.
Import Standin Wording.

(** A signer that knows one shape of claims, a parser of the tokens it can
    make here. *)
#[local] Instance user_signer : Signer := fun c secret =>
  if decide ((cl_Role c, cl_ExpiresAt c, cl_IssuedAt c, cl_NotBefore c, cl_Issuer c, cl_Subject c)
             = ("user", 65, 5, 5, "lottery-system", subjectFromUserID (cl_UserID c))%Z)
  then Some (FormatInt (cl_UserID c)) else None.

Definition user_claims (id : Z) : Claims := token_claims id "user" 60 5.

#[local] Instance user_parser : TokenParser := fun token secret now =>
  if decide (token = "5") then Some (user_claims 5)
  else if decide (token = "6") then Some (user_claims 6) else None.

Definition the_password : string := "correct horse".

Definition calm_wire : wire (list nat) :=
  mkWire (fun _ => Delivered) (fun _ => calm_env 5) (fun _ => []) (fun _ w => w) (fun _ => 0%Z).

Lemma calm_wire_others : others_ok (R := list nat) 10 0 0 "key" 60 calm_wire.
Proof. intros i w. apply rtc_refl. Qed.

(** The worker that runs job [i] from [n]. *)
Definition job_from (i : nat) (n : net) : Z * result setup_error userToken * net :=
  crun 10 0 0 "key" 60 calm_wire (setup_user true the_password i) n.

Lemma job_from_run i n :
  crun 10 0 0 "key" 60 calm_wire (setup_user true the_password i) n = ((job_from i n).1, (job_from i n).2).
Proof. unfold job_from. by destruct (crun _ _ _ _ _ _ _ n). Qed.

Definition net0 : net := mkNet sample_world 0 0 0.
Abbreviation net1 := (job_from 0 net0).2.
Abbreviation net2 := (job_from 1 net1).2.
Abbreviation two_jobs := [(0, (job_from 0 net0).1); (1, (job_from 1 net1).1)].

Lemma user_jwt c c' token now :
  SignedString c "key" = Some token -> ParseWithClaims token "key" now = Some c' -> c' = c.
Proof.
  unfold SignedString, user_signer, ParseWithClaims, user_parser.
  case_decide as Hc; [|done]. intros [= <-].
  destruct c as [uid role e1 e2 e3 iss sub]. simpl in *. injection Hc as -> -> -> -> -> ->.
  change "5" with (FormatInt 5). change "6" with (FormatInt 6).
  case_decide as H5; [apply FormatInt_inj in H5 as ->; by intros [= <-]|].
  case_decide as H6; [apply FormatInt_inj in H6 as ->; by intros [= <-]|done].
Qed.

Lemma user_tokens_text c token : SignedString c "key" = Some token -> utf8_valid (chars token) = true.
Proof.
  unfold SignedString, user_signer. case_decide; [|done]. intros [= <-]. apply ascii_valid, Forall_forall.
  intros x [Hx| ->]%FormatInt_chars; [|done]. destruct x as [[] [] [] [] [] [] [] []]; done.
Qed.

Lemma job_since i n :
  db_inv (net_world n) -> since (w_tables (net_world n)) (net_world (job_from i n).2).
Proof.
  intros Hinv.
  by destruct (setup_user_wp 10 0 0 "key" 60 true user_tokens_text calm_wire calm_wire_others the_password i _ n
    (since_refl _ Hinv) eq_refl).
Qed.

(** An account that exists stands in for the admin. *)
Abbreviation admin_run := (crun 10 0 0 "key" 60 calm_wire (login true (user_email 0) the_password) net2).

Lemma admin_since n :
  db_inv (net_world n) ->
  since (w_tables (net_world n))
    (net_world (crun 10 0 0 "key" 60 calm_wire (login true (user_email 0) the_password) n).2).
Proof.
  intros Hinv.
  by destruct (login_wp 10 0 0 "key" 60 true user_tokens_text calm_wire calm_wire_others (user_email 0)
    the_password _ n (since_refl _ Hinv) eq_refl eq_refl).
Qed.

Abbreviation end_tables := (w_tables (net_world admin_run.2)).

Lemma two_jobs_finished :
  Forall (fun x => setup_outcome (R := list nat) 10 0 0 "key" 60 true the_password end_tables x.1 x.2) two_jobs /\
  logged_in (R := list nat) 10 0 0 "key" 60 true (user_email 0) the_password end_tables admin_run.1.
Proof.
  assert (db_inv (net_world net0)) as Hinv0 by apply sample_inv.
  destruct (job_since 0 net0 Hinv0) as [Hinv1 Hg1].
  destruct (job_since 1 net1 Hinv1) as [Hinv2 Hg2].
  destruct (admin_since net2 Hinv2) as [_ Hg3]. split.
  - constructor; [|constructor; [|constructor]].
    + exists calm_wire, net0, net1. split; [exact calm_wire_others|]. split; [exact Hinv0|].
      split; [apply job_from_run|]. etrans; [exact Hg2|exact Hg3].
    + exists calm_wire, net1, net2. split; [exact calm_wire_others|]. split; [exact Hinv1|].
      split; [apply job_from_run|exact Hg3].
  - exists calm_wire, net2, admin_run.2. split; [exact calm_wire_others|]. split; [exact Hinv2|].
    split; [|reflexivity]. apply surjective_pairing.
Qed.

End Witnesses.

(** ** One draw of [fairness-api] over a lossy network *)

Section Draw.
Import Standin Wording.
#[local] Existing Instance three_tokens.
#[local] Instance no_math : FloatMath := {| Lgamma x := x; Exp x := x; Log x := x |}.

Abbreviation one_draw :=
  (crun 10 0 0 "key" 60 lossy (oneDraw true two_users 2 1) (mkNet sample_world 0 0 0)).

Lemma one_draw_outcome : draw_outcome (R := list nat) 10 0 0 "key" 60 true two_users 2 1 one_draw.1.
Proof.
  exists lossy, (mkNet sample_world 0 0 0), one_draw.2. split; [intros i w; apply rtc_refl|].
  split; [apply sample_inv|]. apply surjective_pairing.
Qed.

Definition two_users_file : string := tokensFile "root" [mkTok 2 "a" "alice"; mkTok 3 "b" "bob"].
Definition two_index : gmap Z nat := index_of [2; 3]%Z.
Definition two_zeros : tallies := mkTallies [0; 0]%Z [0; 0]%Z None.

Lemma fairness_api_correct_witness :
  exists p, rtc (api_step (R := list nat) 10 0 0 "key" 60 true two_users 2 1 two_index) (api_pool 4 1 two_zeros) p /\
    pl_main p = Joined /\ pl_crashed p = false /\
    exists o, api_main two_users_file 2 1 1 [o] = Some (api_report 2 1 1 (pl_shared p)).
Proof.
  destruct (record_all two_index two_zeros [one_draw.1]) as [st|] eqn:Hrec; [|exfalso; by vm_compute in Hrec].
  assert (record_in_order (fun st (x : unit * _) => record_outcome two_index st x.2) two_zeros [(tt, one_draw.1)] = Some st)
    as Hr by (by rewrite record_all_in_order).
  destruct (pool_sequential (fun _ : unit => draw_outcome (R := list nat) 10 0 0 "key" 60 true two_users 2 1)
    (fun st x => record_outcome two_index st x.2) 4 two_zeros st [(tt, one_draw.1)] ltac:(lia)
    ltac:(constructor; [exact one_draw_outcome|constructor]) Hr) as (p & Hrun & Hm & _ & _).
  destruct (fairness_api_correct (R := list nat) 10 0 0 "key" 60 true two_users_file two_users 2 1 4 1 two_index
    two_zeros p) as [Hcrash Hj].
  - vm_compute. reflexivity.
  - lia.
  - apply le_n.
  - intros u Hu now claims. unfold ParseWithClaims, three_tokens.
    apply elem_of_cons in Hu as [->|Hu]; [by intros [= <-]|].
    apply list_elem_of_singleton in Hu as ->. by intros [= <-].
  - apply (bool_decide_unpack _). vm_compute. exact I.
  - vm_compute. reflexivity.
  - exact Hrun.
  - exists p. split; [exact Hrun|]. split; [exact Hm|]. split; [exact Hcrash|].
    destruct (Hj Hm) as ([|o [|]] & Hlen & _ & Hmain & _); try discriminate Hlen. by exists o.
Defined.
End Draw.
