(* ===== verification/Middleware.v ===== *)
(** * Middleware

    [src/internal/middleware/clientip.go] and [http.go]: the client address
    behind proxies, the rate-limit key of a login, security and CORS headers,
    the body limit, and the response writer, logger and recoverer around
    every handler. *)

From S2P Require Import Prelude GoFmt GoString GoJson Netip Models Auth Codec Http.
From Stdlib Require Import Ascii.

(** ** The client address *)

(** [r.RemoteAddr] and [r.Header]: the values of each (canonical) key. *)
Record peer_request := mkPeerRequest {
  RemoteAddr : string;
  Header : string -> list string
}.

Definition Values (r : peer_request) (key : string) : list string := Header r key.
Definition Get (r : peer_request) (key : string) : string :=
  match Header r key with v :: _ => v | [] => "" end.

Definition peerAddr (remoteAddr : string) : option Addr :=
  let host := match SplitHostPort remoteAddr with Some (h, _) => h | None => remoteAddr end in
  a ← ParseAddr host; Some (Unmap a).

Definition isTrusted (trusted : list Prefix) (a : Addr) : bool :=
  existsb (fun p => Contains p (Unmap a)) trusted.

(** The loop over the hops from the last one on; [hops] is in that order. *)
Fixpoint last_untrusted (trusts : Addr -> bool) (hops : list string) : option Addr :=
  match hops with
  | [] => None
  | h :: hops' =>
    match ParseAddr (TrimSpace h) with
    | None => None
    | Some a => if trusts (Unmap a) then last_untrusted trusts hops' else Some (Unmap a)
    end
  end.

Definition fromForwardedFor (values : list string) (trusts : Addr -> bool) : option Addr :=
  last_untrusted trusts (reverse (values ≫= fun v => Split v ",")).

(** The request the next handler sees. *)
Definition ClientIP (trusted : list Prefix) (r : peer_request) : peer_request :=
  if decide (length trusted = 0) then r
  else match peerAddr (RemoteAddr r) with
  | None => r
  | Some peer =>
    if negb (isTrusted trusted peer) then r
    else match fromForwardedFor (Values r "X-Forwarded-For") (isTrusted trusted) with
    | Some ip => mkPeerRequest (AddrString ip) (Header r)
    | None =>
      match ParseAddr (TrimSpace (Get r "X-Real-IP")) with
      | Some ip => mkPeerRequest (AddrString (Unmap ip)) (Header r)
      | None => r
      end
    end
  end.

(** ** Response headers *)

Abbreviation header_map := (gmap string string).

Definition SecurityHeaders (h : header_map) : header_map :=
  <["Cache-Control" := "no-store"]> (<["Referrer-Policy" := "no-referrer"]>
  (<["X-Frame-Options" := "DENY"]> (<["X-Content-Type-Options" := "nosniff"]> h))).

Section Lower.
Context `{UnicodeLower}.

(** The headers after the middleware, and whether the next handler runs: a
    preflight request is answered here with status 204. *)
Definition CORS (allowedOrigins : list string) (method origin : string) (h : header_map)
  : header_map * bool :=
  let allowAll := bool_decide (allowedOrigins = ["*"]) in
  let allowed := ToLower <$> allowedOrigins in
  let h :=
    if decide (origin <> "" /\ 0 < length allowedOrigins) then
      if allowAll || bool_decide (ToLower origin ∈ allowed) then
        <["Access-Control-Max-Age" := "600"]>
        (<["Access-Control-Allow-Headers" := "Authorization, Content-Type, X-Request-Id"]>
        (<["Access-Control-Allow-Methods" := "GET, POST, PUT, PATCH, DELETE, OPTIONS"]>
        (<["Access-Control-Allow-Credentials" := "true"]>
        (<["Vary" := "Origin"]> (<["Access-Control-Allow-Origin" := origin]> h)))))
      else h
    else h in
  (h, negb (bool_decide (method = "OPTIONS"))).

(** ** The body *)

(** [http.MaxBytesReader] read to its end: the bytes read, and whether the
    reader failed at the limit. *)
Definition BodyLimit (maxBytes : Z) (body : string) : string * bool :=
  if decide (len body <= maxBytes)%Z then (body, false)
  else (String.string_of_list_ascii (take (Z.to_nat maxBytes) (chars body)), true).

(** The key of a login request, and the body the handler reads afterwards.
    [body] is what [io.ReadAll] read and whether it failed; [None] is a
    request without a body. *)
Definition LoginAccountKey (body : option (string * bool)) : string * option string :=
  match body with
  | None => ("login:none", None)
  | Some (text, failed) =>
    (if failed : bool then "login:none"
     else match unmarshal_email text with
     | None => "login:none"
     | Some email =>
       if decide (TrimSpace email = "") then "login:none"
       else "login:" +:+ ToLower (TrimSpace email)
     end, Some text)
  end.
End Lower.

(** ** The response writer, the logger and the recoverer *)

(** What reaches the client. *)
Inductive wire := WireHeader (code : Z) | WireBody (n : Z).

Record responseWriter := mkResponseWriter {
  rw_under : list wire;
  rw_status : Z;
  rw_wroteHeader : bool;
  rw_bytes : Z
}.

Definition WriteHeader (code : Z) (rw : responseWriter) : responseWriter :=
  if rw_wroteHeader rw then rw
  else mkResponseWriter (rw_under rw ++ [WireHeader code]) code true (rw_bytes rw).

(** [n] is what the underlying [Write] reports. *)
Definition Write (n : Z) (rw : responseWriter) : responseWriter :=
  let rw := if rw_wroteHeader rw then rw else WriteHeader 200 rw in
  mkResponseWriter (rw_under rw ++ [WireBody n]) (rw_status rw) (rw_wroteHeader rw) (rw_bytes rw + n).

(** What a handler does to the writer, and how it ends. *)
Inductive call := CallHeader (code : Z) | CallWrite (n : Z).
Inductive ending := Returns | Panics (abort : bool).

Definition do_call (rw : responseWriter) (c : call) : responseWriter :=
  match c with CallHeader code => WriteHeader code rw | CallWrite n => Write n rw end.

(** [Recoverer] around a handler: a panic other than [http.ErrAbortHandler]
    is answered with [httpx.Internal], whose body has [n] bytes; every panic
    stops here. *)
Definition Recoverer (n : Z) (b : list call * ending) : list call * ending :=
  match b with
  | (calls, Returns) => (calls, Returns)
  | (calls, Panics true) => (calls, Returns)
  | (calls, Panics false) => (calls ++ [CallHeader 500; CallWrite n], Returns)
  end.

Record log_line := mkLogLine { log_status : Z; log_bytes : Z }.

(** [Logger] around a handler: what reaches the client, and the line it logs
    (also when the handler panics; probes are not logged). *)
Definition Logger (path : string) (b : list call * ending) : list wire * option log_line :=
  let rw := foldl do_call (mkResponseWriter [] 200 false 0) b.1 in
  (rw_under rw,
   if decide (path = "/health" \/ path = "/ready") then None
   else Some (mkLogLine (rw_status rw) (rw_bytes rw))).

(** ** Lemmas *)

Lemma last_untrusted_app trusts l1 l2 a :
  last_untrusted trusts l1 = Some a -> last_untrusted trusts (l1 ++ l2) = Some a.
Proof.
  induction l1 as [|h l1 IH]; simpl; [done|].
  destruct (ParseAddr (TrimSpace h)) as [b|]; [|done]. by destruct (trusts (Unmap b)).
Qed.

Lemma last_untrusted_spec trusts l a :
  last_untrusted trusts l = Some a -> trusts a = false /\ exists s, Unmap <$> ParseAddr s = Some a.
Proof.
  induction l as [|h l IH]; simpl; [done|].
  destruct (ParseAddr (TrimSpace h)) as [b|] eqn:Hp; [|done].
  destruct (trusts (Unmap b)) eqn:Ht; [done|]. intros [= <-]. split; [done|].
  exists (TrimSpace h). by rewrite Hp.
Qed.

(** What a client can make of the values a proxy chain would have sent for
    it: more values in front, and more entries at the front of the first
    value. *)
Definition forged (genuine values : list string) : Prop :=
  exists front, values = front ++ genuine \/
    exists text v rest, genuine = v :: rest /\ values = front ++ (text +:+ String "," v) :: rest.

Lemma fromForwardedFor_forged trusts genuine values a :
  forged genuine values -> fromForwardedFor genuine trusts = Some a ->
  fromForwardedFor values trusts = Some a.
Proof.
  unfold fromForwardedFor. intros [front Hf] Ha.
  assert (exists pre, values ≫= (fun v => Split v ",") = pre ++ (genuine ≫= fun v => Split v ","))
    as [pre ->].
  { destruct Hf as [->|(text & v & rest & -> & ->)]; rewrite bind_app; [by eexists|].
    exists ((front ≫= fun v => Split v ",") ++ Split text ","). simpl.
    by rewrite Split_app, <- !app_assoc. }
  rewrite reverse_app. by apply last_untrusted_app.
Qed.

(** A response writer that has sent nothing, or one status line and then only
    body bytes, and knows it. *)
Definition writer_ok (rw : responseWriter) : Prop :=
  if rw_wroteHeader rw
  then exists bodies, rw_under rw = WireHeader (rw_status rw) :: (WireBody <$> bodies) /\
         rw_bytes rw = foldl Z.add 0%Z bodies
  else rw_under rw = [] /\ rw_status rw = 200%Z /\ rw_bytes rw = 0%Z.

Lemma do_call_ok rw c : writer_ok rw -> writer_ok (do_call rw c).
Proof.
  unfold writer_ok. intros Hrw. destruct rw as [under status [|] bytes]; simpl in Hrw.
  - destruct Hrw as (bodies & Hu & Hb). simpl in *. subst. destruct c as [code|n]; simpl.
    + by exists bodies.
    + exists (bodies ++ [n]). rewrite fmap_app, foldl_app. split; [|done]. simpl. done.
  - destruct Hrw as (-> & -> & ->). destruct c as [code|n]; simpl.
    + by exists [].
    + by exists [n].
Qed.

Lemma calls_ok calls rw : writer_ok rw -> writer_ok (foldl do_call rw calls).
Proof. revert rw. induction calls as [|c calls IH]; intros rw Hrw; simpl; auto using do_call_ok. Qed.

(** The key of a body from which the handler reads a login is the email
    exactly as the login service normalises it before it looks the account up, so every spelling of one account's email spends from
    one budget; or it is the one budget that requests without a readable email
    share (the body was cut at the limit, a closing bracket follows the
    object, or the email is empty). *)
Lemma login_budget `{LowerKeepsSpace, JSONErrors} text failed req :
  DecodeJSON (A := LoginRequest) text = Ok req ->
  exists key, LoginAccountKey (Some (text, failed)) = (key, Some text) /\
    (key = "login:" +:+ normalize_email (login_Email req) \/ key = "login:none") /\
    (failed = false -> is_Some (unmarshal_email text) -> normalize_email (login_Email req) <> "" ->
     key = "login:" +:+ normalize_email (login_Email req)).
Proof.
  intros (j & rest & Hp & Hu)%login_email_agrees. unfold LoginAccountKey. rewrite Hu.
  unfold normalize_email. rewrite TrimSpace_lower.
  destruct failed; [eexists; split; [done|]; split; [by auto|done]|].
  destruct (skip_spaces rest).
  - case_decide as Ht; eexists; (split; [done|]); [|by auto]. rewrite Ht. split; [by auto|]. done.
  - eexists. split; [done|]. split; [by auto|]. intros _ [? [=]].
Qed.

(** ** Properties *)

(** C16: a client cannot choose its address.  If the TCP peer is not a trusted
    proxy, the address the rest of the server sees is the peer's, whatever the
    headers say.  If it is, and the hops the proxies recorded lead to the
    address [a], then [a] is the address seen, whatever the client put in
    front of the recorded hops and whatever other headers it sent; [a] is not
    a trusted proxy; and if it is an IPv4 address its text is the text of no
    other address. *)
Theorem ClientIP_spoof_safe trusted remote header header' :
  (match peerAddr remote with Some peer => isTrusted trusted peer | None => false end = false ->
   RemoteAddr (ClientIP trusted (mkPeerRequest remote header')) = remote) /\
  (forall peer a, peerAddr remote = Some peer -> isTrusted trusted peer = true ->
   fromForwardedFor (header "X-Forwarded-For") (isTrusted trusted) = Some a ->
   forged (header "X-Forwarded-For") (header' "X-Forwarded-For") ->
   RemoteAddr (ClientIP trusted (mkPeerRequest remote header')) = AddrString a /\
   isTrusted trusted a = false /\
   match a with Addr4 _ => ParseAddr (AddrString a) = Some a | Addr6 _ _ => True end).
Proof.
  unfold ClientIP, Values. simpl. split.
  - intros Hp. case_decide; [done|]. destruct (peerAddr remote) as [peer|]; [|done].
    by rewrite Hp.
  - intros peer a -> Ht Ha Hforged. rewrite decide_False by (by destruct trusted).
    rewrite Ht. simpl. rewrite (fromForwardedFor_forged _ _ _ _ Hforged Ha). simpl. split; [done|].
    apply last_untrusted_spec in Ha as [Hn [s Hs]]. split; [done|].
    destruct a as [v|]; [|done]. by apply ParseAddr_string4, (ParseAddr_range s).
Qed.

(** What is logged is what was sent.  Around any handler, panicking or
    not, the client receives nothing (and 200 is logged) or exactly one status
    line before any body, and a request that is logged is logged with that
    status and with the number of body bytes; a handler that panics before it
    wrote anything is answered with 500. *)
Theorem Logger_truthful path n calls ending :
  let '(sent, line) := Logger path (Recoverer n (calls, ending)) in
  (exists status bodies,
    (sent = [] /\ status = 200%Z /\ bodies = [] \/
     sent = WireHeader status :: (WireBody <$> bodies)) /\
    (line = None \/ line = Some (mkLogLine status (foldl Z.add 0%Z bodies)))) /\
  (calls = [] -> ending = Panics false -> sent = [WireHeader 500; WireBody n]).
Proof.
  unfold Logger. split.
  - set (rw := foldl do_call _ _).
    assert (writer_ok rw) as Hok by (by apply calls_ok).
    unfold writer_ok in Hok. destruct (rw_wroteHeader rw).
    + destruct Hok as (bodies & -> & ->). exists (rw_status rw), bodies. case_decide; auto.
    + destruct Hok as (-> & -> & ->). exists 200%Z, []. case_decide; auto 6.
  - by intros -> ->.
Qed.

(** Two ways to log in on the shared budget: a closing bracket after the
    object, and white space after it up to the limit of the body.  The key
    function finds no email, the handler finds both fields. *)
Theorem login_shared_budget `{UnicodeLower, JSONErrors} :
  let body := Marshal_map [("email", "a@x.et"); ("password", "pw")] in
  let req := mkLoginRequest "a@x.et" "pw" in
  (LoginAccountKey (Some (body +:+ "}", false)) = ("login:none", Some (body +:+ "}")) /\
   DecodeJSON (body +:+ "}") = Ok req) /\
  (let (text, failed) := BodyLimit 40 (body +:+ "          ") in
   failed = true /\ LoginAccountKey (Some (text, failed)) = ("login:none", Some text) /\
   DecodeJSON text = Ok req).
Proof. vm_compute. split_and!; reflexivity. Qed.

(** Only configured origins are allowed, and only themselves. *)
Theorem CORS_only_configured `{UnicodeLower} allowedOrigins method origin h v :
  h !! "Access-Control-Allow-Origin" = None ->
  (CORS allowedOrigins method origin h).1 !! "Access-Control-Allow-Origin" = Some v ->
  v = origin /\ (allowedOrigins = ["*"] \/ ToLower origin ∈ ToLower <$> allowedOrigins).
Proof.
  intros Hh Hv. unfold CORS in Hv. cbn [fst] in Hv. case_decide; [|congruence].
  destruct (bool_decide (allowedOrigins = ["*"]) || _) eqn:Ho; [|congruence].
  rewrite !lookup_insert_ne, lookup_insert_eq in Hv by done. injection Hv as <-. split; [done|].
  by rewrite orb_true_iff, !bool_decide_eq_true in Ho.
Qed.

(** ** Witnesses *)

Definition intranet : list Prefix := [mkPrefix (Addr4 167772160) 8].
Definition recorded (key : string) : list string :=
  if decide (key = "X-Forwarded-For") then [" 203.0.113.7, 10.0.0.9"] else [].
Definition spoofed (key : string) : list string :=
  if decide (key = "X-Forwarded-For") then ["1.2.3.4, 203.0.113.7, 10.0.0.9"] else ["1.2.3.4"].

Lemma ClientIP_spoof_safe_witness :
  RemoteAddr (ClientIP intranet (mkPeerRequest "10.0.0.5:443" spoofed)) = "203.0.113.7" /\
  RemoteAddr (ClientIP intranet (mkPeerRequest "198.51.100.9:5555" spoofed)) = "198.51.100.9:5555".
Proof.
  split.
  - apply (ClientIP_spoof_safe intranet "10.0.0.5:443" recorded spoofed) with
      (peer := Addr4 167772165) (a := Addr4 3405803783).
    + by vm_compute.
    + by vm_compute.
    + by vm_compute.
    + exists []. right. by exists "1.2.3.4", " 203.0.113.7, 10.0.0.9", [].
  - apply (ClientIP_spoof_safe intranet "198.51.100.9:5555" recorded spoofed). by vm_compute.
Defined.
