(* ===== verification/Config.v ===== *)
(** * Configuration

    [src/internal/config/config.go]: the environment variables and the
    validated [Config] the server is built from. *)

From S2P Require Import Prelude GoFmt GoString GoDuration Netip Middleware.
From Stdlib Require Import Ascii.

(** ** Data *)

(** The fields of [redis.Options] the program sets or reads. *)
Record redis_options := mkRedisOptions {
  ro_Addr : string;
  ro_Password : string;
  ro_DB : Z;
  ro_PoolSize : Z;
  ro_MinIdleConns : Z
}.

(** Durations are nanoseconds; [DBMaxConns] and [DBMinConns] are [int32]. *)
Record Config := mkConfig {
  Env : string;
  Port : string;
  ReadTimeout : Z;
  WriteTimeout : Z;
  IdleTimeout : Z;
  ShutdownTimeout : Z;
  MaxRequestBytes : Z;
  DatabaseURL : string;
  MigrationDatabaseURL : string;
  MigrateOnStart : bool;
  DBMaxConns : Z;
  DBMinConns : Z;
  RedisOptions : redis_options;
  JWTSecret : string;
  JWTExpiry : Z;
  LockTTL : Z;
  LockWait : Z;
  MaxWinners : Z;
  AuthLimitRequests : Z;
  AuthLimitWindow : Z;
  AccountLimitRequests : Z;
  AccountLimitWindow : Z;
  APILimitRequests : Z;
  APILimitWindow : Z;
  TrustedProxies : list Prefix;
  CORSAllowedOrigins : list string;
  BootstrapAdminEmail : string;
  BootstrapAdminPassword : string;
  BootstrapAdminName : string
}.

(** The errors of [Load], with what their messages show. *)
Inductive load_error :=
| JWTSecretRequired
| JWTSecretTooShort (got : Z)
| DatabaseURLRequired
| RedisURLInvalid (cause : string)
| TrustedProxiesInvalid
| DBConnsInvalid (minConns maxConns : Z).

(** [os.Getenv]: the empty string for a variable that is not set. *)
Definition environment := string -> string.

(** [redis.ParseURL]: the options, or the text of the error. *)
Class ParseURL := redis_ParseURL : string -> result string redis_options.

Definition Second : Z := 1000000000.
Definition Minute : Z := 60 * Second.
Definition Hour : Z := 60 * Minute.

(** ** Readers *)

Definition getEnv (env : environment) (key fallback : string) : string :=
  let v := env key in if decide (v <> "") then v else fallback.

Definition getInt (env : environment) (key : string) (fallback : Z) : Z :=
  let v := env key in
  if decide (v = "") then fallback
  else match Atoi v with
       | (n, None) => n
       | (_, Some _) => fallback
       end.

Definition getBool `{UnicodeLower} (env : environment) (key : string) (fallback : bool) : bool :=
  let v := ToLower (TrimSpace (env key)) in
  if decide (v = "") then fallback
  else if decide (v ∈ ["1"; "true"; "yes"; "on"]) then true
  else if decide (v ∈ ["0"; "false"; "no"; "off"]) then false
  else fallback.

Definition getDuration (env : environment) (key : string) (fallback : Z) : Z :=
  let v := env key in
  if decide (v = "") then fallback
  else match ParseDuration v with Some d => d | None => fallback end.

Definition splitCSV (s : string) : list string :=
  if decide (s = "") then []
  else filter (fun p => p <> "") (TrimSpace <$> Split s ",").

(** ** Trusted proxies *)

(** [netip.PrefixFrom] with as many bits as the address has. *)
Definition host_prefix (a : Addr) : Prefix :=
  mkPrefix (match a with Addr4 v => Addr4 v | Addr6 v _ => Addr6 v "" end) (BitLen a).

(** One item of the list. *)
Definition parsePrefix_item (item : string) : option Prefix :=
  if decide ("/"%char ∈ chars item) then Masked <$> ParsePrefix item
  else a ← ParseAddr item; Some (host_prefix (Unmap a)).

Definition parsePrefixes (s : string) : option (list Prefix) :=
  mapM parsePrefix_item (splitCSV s).

(** ** Redis *)

Definition applyRedisPoolDefaults (o : redis_options) : redis_options :=
  mkRedisOptions (ro_Addr o) (ro_Password o) (ro_DB o)
    (if decide (ro_PoolSize o = 0)%Z then 20 else ro_PoolSize o)
    (if decide (ro_MinIdleConns o = 0)%Z then 5 else ro_MinIdleConns o).

Definition loadRedisOptions `{ParseURL} (env : environment) : result load_error redis_options :=
  let url := TrimSpace (env "REDIS_URL") in
  if decide (url <> "") then
    match redis_ParseURL url with
    | Err e => Err (RedisURLInvalid e)
    | Ok opts => Ok (applyRedisPoolDefaults opts)
    end
  else
    Ok (applyRedisPoolDefaults
          (mkRedisOptions (getEnv env "REDIS_ADDR" "localhost:6379") (env "REDIS_PASSWORD")
             (getInt env "REDIS_DB" 0) 0 0)).

(** ** [Load] *)

Definition Load `{UnicodeLower, ParseURL} (env : environment) : result load_error Config :=
  let jwtSecret := TrimSpace (env "JWT_SECRET") in
  if decide (jwtSecret = "") then Err JWTSecretRequired
  else if decide (len jwtSecret < 32)%Z then Err (JWTSecretTooShort (len jwtSecret))
  else
  let dbURL := TrimSpace (env "DATABASE_URL") in
  if decide (dbURL = "") then Err DatabaseURLRequired
  else
  redisOpts ← loadRedisOptions env;
  match parsePrefixes (getEnv env "TRUSTED_PROXIES" "") with
  | None => Err TrustedProxiesInvalid
  | Some trustedProxies =>
    let maxConns := getInt env "DB_MAX_CONNS" 25 in
    let minConns := getInt env "DB_MIN_CONNS" 5 in
    if decide (maxConns < 1 \/ minConns < 0 \/ maxConns < minConns)%Z
    then Err (DBConnsInvalid minConns maxConns)
    else Ok {|
      Env := getEnv env "ENV" "development";
      Port := getEnv env "PORT" "8080";
      ReadTimeout := getDuration env "READ_TIMEOUT" (10 * Second);
      WriteTimeout := getDuration env "WRITE_TIMEOUT" (30 * Second);
      IdleTimeout := getDuration env "IDLE_TIMEOUT" (120 * Second);
      ShutdownTimeout := getDuration env "SHUTDOWN_TIMEOUT" (30 * Second);
      MaxRequestBytes := getInt env "MAX_REQUEST_BYTES" (Z.shiftl 1 20);
      DatabaseURL := dbURL;
      MigrationDatabaseURL := TrimSpace (env "MIGRATION_DATABASE_URL");
      MigrateOnStart := getBool env "MIGRATE_ON_START" true;
      DBMaxConns := wrap32 maxConns;
      DBMinConns := wrap32 minConns;
      RedisOptions := redisOpts;
      JWTSecret := jwtSecret;
      JWTExpiry := getDuration env "JWT_EXPIRY" (24 * Hour);
      LockTTL := getDuration env "LOCK_TTL" (5 * Second);
      LockWait := getDuration env "LOCK_WAIT_TIMEOUT" (10 * Second);
      MaxWinners := getInt env "MAX_WINNERS" 100;
      AuthLimitRequests := getInt env "AUTH_RATE_LIMIT_REQUESTS" 10;
      AuthLimitWindow := getDuration env "AUTH_RATE_LIMIT_WINDOW" (1 * Minute);
      AccountLimitRequests := getInt env "AUTH_ACCOUNT_RATE_LIMIT_REQUESTS" 10;
      AccountLimitWindow := getDuration env "AUTH_ACCOUNT_RATE_LIMIT_WINDOW" (15 * Minute);
      APILimitRequests := getInt env "API_RATE_LIMIT_REQUESTS" 100;
      APILimitWindow := getDuration env "API_RATE_LIMIT_WINDOW" (1 * Minute);
      TrustedProxies := trustedProxies;
      CORSAllowedOrigins := splitCSV (getEnv env "CORS_ALLOWED_ORIGINS" "");
      BootstrapAdminEmail := TrimSpace (env "BOOTSTRAP_ADMIN_EMAIL");
      BootstrapAdminPassword := env "BOOTSTRAP_ADMIN_PASSWORD";
      BootstrapAdminName := getEnv env "BOOTSTRAP_ADMIN_NAME" "System Admin"
    |}
  end.

(** ** What a reader promises *)

Definition in_int64 (z : Z) : Prop := (min_int64 <= z <= max_int64)%Z.

Lemma ParseInt_in_int64 s n : ParseInt s = (n, None) -> in_int64 n.
Proof.
  unfold ParseInt, in_int64, min_int64, max_int64. destruct (split_sign (chars s)) as [neg ds].
  destruct (bool_decide (ds = [])); [done|]. destruct (forallb is_digit ds) eqn:Hd; [|done].
  assert (0 <= digits_value ds)%Z.
  { apply digits_value_nonneg, Forall_forall. intros c Hc. rewrite forallb_forall in Hd.
    by apply Hd, list_elem_of_In. }
  simpl. destruct neg; case_decide; intros [= <-]; unfold max_int64 in *; lia.
Qed.

Lemma getInt_in_int64 env key fallback : in_int64 fallback -> in_int64 (getInt env key fallback).
Proof.
  intros Hf. unfold getInt. case_decide; [done|].
  destruct (Atoi (env key)) as [n [e|]] eqn:Ha; [done|]. by eapply ParseInt_in_int64.
Qed.

(** A variable that holds a printed [int] has that value. *)
Lemma getInt_FormatInt env key n fallback :
  in_int64 n -> env key = FormatInt n -> getInt env key fallback = n.
Proof.
  intros Hn He. unfold getInt. rewrite He, decide_False.
  - unfold Atoi. by rewrite ParseInt_FormatInt.
  - intros Hnil. assert (ParseInt "" = (n, None)) by (rewrite <- Hnil; by apply ParseInt_FormatInt). done.
Qed.

Lemma getDuration_in_int64 env key fallback :
  in_int64 fallback -> in_int64 (getDuration env key fallback).
Proof.
  intros Hf. unfold getDuration. case_decide; [done|].
  destruct (ParseDuration (env key)) eqn:Hd; [|done]. by eapply ParseDuration_range.
Qed.

Lemma splitCSV_trimmed s p : p ∈ splitCSV s -> p <> "" /\ TrimSpace p = p.
Proof.
  unfold splitCSV. case_decide; [by intros ?%not_elem_of_nil|].
  intros [Hp (x & -> & _)%list_elem_of_fmap]%list_elem_of_filter.
  split; [done|apply TrimSpace_idemp].
Qed.

(** ** Prefixes are in normal form *)

(** As many bits as the family allows, no zone, and no bit set after them. *)
Definition prefix_ok (p : Prefix) : Prop :=
  (0 <= pf_bits p <= BitLen (pf_addr p))%Z /\ hasZone (pf_addr p) = false /\ Masked p = p.

Lemma mask_mask v w b : (0 <= b <= w)%Z -> mask (mask v w b) w b = mask v w b.
Proof. intros Hb. unfold mask. rewrite Z.shiftr_shiftl_l by lia. by rewrite Z.sub_diag, Z.shiftl_0_r. Qed.

Lemma Masked_ok p : (0 <= pf_bits p <= BitLen (pf_addr p))%Z -> prefix_ok (Masked p).
Proof.
  destruct p as [[v|v z] b]; simpl; intros Hb; (split; [done|split; [done|]]);
    unfold Masked; simpl; by rewrite mask_mask.
Qed.

Lemma host_prefix_ok a : prefix_ok (host_prefix a).
Proof.
  unfold host_prefix, prefix_ok, Masked, mask.
  destruct a as [v|v z]; simpl; rewrite Z.shiftr_0_r, Z.shiftl_0_r; done.
Qed.

Lemma ParsePrefix_bits s p :
  ParsePrefix s = Some p -> (0 <= pf_bits p <= BitLen (pf_addr p))%Z.
Proof.
  unfold ParsePrefix. intros ([addr bits] & _ & (ip & _ & Hp)%bind_Some)%bind_Some.
  destruct (hasZone ip); [done|].
  repeat case_match; simplify_eq/=; done.
Qed.

Lemma parsePrefix_item_ok item p : parsePrefix_item item = Some p -> prefix_ok p.
Proof.
  unfold parsePrefix_item. case_decide; intros Hp.
  - apply fmap_Some in Hp as (q & Hq%ParsePrefix_bits & ->). by apply Masked_ok.
  - apply bind_Some in Hp as (a & _ & [= <-]). apply host_prefix_ok.
Qed.

Lemma parsePrefixes_ok s ps : parsePrefixes s = Some ps -> Forall prefix_ok ps.
Proof.
  intros Hps%mapM_Some_1. induction Hps as [|item p items ps Hp _ IH]; constructor; [|done].
  by eapply parsePrefix_item_ok.
Qed.

Lemma wrap32_range z : (-2147483648 <= wrap32 z <= 2147483647)%Z.
Proof. unfold wrap32. pose proof (Z.mod_pos_bound (z + 2147483648) 4294967296). lia. Qed.

Lemma wrap32_id z : (-2147483648 <= z <= 2147483647)%Z -> wrap32 z = z.
Proof. intros Hz. unfold wrap32. rewrite Z.mod_small by lia. lia. Qed.

(** ** [Load] *)

(** What every client of the configuration may rely on. *)
Record config_ok (c : Config) : Prop := {
  ok_secret : (32 <= len (JWTSecret c))%Z /\ TrimSpace (JWTSecret c) = JWTSecret c;
  ok_database : DatabaseURL c <> "" /\ TrimSpace (DatabaseURL c) = DatabaseURL c;
  ok_pool : (-2147483648 <= DBMinConns c <= 2147483647 /\ -2147483648 <= DBMaxConns c <= 2147483647)%Z;
  ok_redis : ro_PoolSize (RedisOptions c) <> 0%Z /\ ro_MinIdleConns (RedisOptions c) <> 0%Z;
  ok_proxies : Forall prefix_ok (TrustedProxies c);
  ok_origins : Forall (fun o => o <> "" /\ TrimSpace o = o) (CORSAllowedOrigins c);
  ok_durations : Forall in_int64
    [ReadTimeout c; WriteTimeout c; IdleTimeout c; ShutdownTimeout c; JWTExpiry c; LockTTL c;
     LockWait c; AuthLimitWindow c; AccountLimitWindow c; APILimitWindow c];
  ok_counts : Forall in_int64
    [MaxRequestBytes c; MaxWinners c; AuthLimitRequests c; AccountLimitRequests c; APILimitRequests c];
  ok_named : Env c <> "" /\ Port c <> "" /\ BootstrapAdminName c <> ""
}.

(** What the environment must provide. *)
Record env_ok `{ParseURL} (env : environment) : Prop := {
  env_secret : (32 <= len (TrimSpace (env "JWT_SECRET")))%Z;
  env_database : TrimSpace (env "DATABASE_URL") <> "";
  env_redis : TrimSpace (env "REDIS_URL") = "" \/ is_ok (redis_ParseURL (TrimSpace (env "REDIS_URL"))) = true;
  env_proxies : Forall (fun item => is_Some (parsePrefix_item item)) (splitCSV (env "TRUSTED_PROXIES"));
  env_conns : (0 <= getInt env "DB_MIN_CONNS" 5 <= getInt env "DB_MAX_CONNS" 25)%Z /\
              (1 <= getInt env "DB_MAX_CONNS" 25)%Z
}.

Lemma getEnv_nonempty env key fallback : fallback <> "" -> getEnv env key fallback <> "".
Proof. unfold getEnv. by case_decide. Qed.

Lemma getEnv_empty env key : getEnv env key "" = env key.
Proof. unfold getEnv. case_decide as Hd; [done|]. by destruct (decide (env key = "")) as [->|]. Qed.

Lemma loadRedisOptions_ok `{ParseURL} env o :
  loadRedisOptions env = Ok o -> ro_PoolSize o <> 0%Z /\ ro_MinIdleConns o <> 0%Z.
Proof.
  assert (forall x, ro_PoolSize (applyRedisPoolDefaults x) <> 0%Z /\
                    ro_MinIdleConns (applyRedisPoolDefaults x) <> 0%Z) as Hd.
  { intros x. simpl. split; case_decide; done. }
  unfold loadRedisOptions. repeat case_match; intros [= <-]; apply Hd.
Qed.

Lemma loadRedisOptions_accepts `{ParseURL} env :
  is_ok (loadRedisOptions env) = true <->
  TrimSpace (env "REDIS_URL") = "" \/ is_ok (redis_ParseURL (TrimSpace (env "REDIS_URL"))) = true.
Proof.
  unfold loadRedisOptions. case_decide as Hu.
  - destruct (redis_ParseURL _); simpl; tauto.
  - split; auto.
Qed.

Lemma Load_ok `{UnicodeLower, ParseURL} env c : Load env = Ok c -> config_ok c.
Proof.
  unfold Load. case_decide as Hs; [done|]. case_decide as Hl; [done|]. case_decide as Hd; [done|].
  destruct (loadRedisOptions env) as [o|e] eqn:Ho; [|done]. simpl.
  destruct (parsePrefixes _) as [ps|] eqn:Hp; [|done].
  case_decide as Hc; [done|]. intros [= <-].
  assert (forall k f, in_int64 f -> in_int64 (getDuration env k f)) as HD
    by (intros; by apply getDuration_in_int64).
  assert (forall k f, in_int64 f -> in_int64 (getInt env k f)) as HI by (intros; by apply getInt_in_int64).
  constructor; cbn [JWTSecret DatabaseURL DBMinConns DBMaxConns RedisOptions TrustedProxies
    CORSAllowedOrigins Env Port BootstrapAdminName].
  - split; [lia|apply TrimSpace_idemp].
  - split; [done|apply TrimSpace_idemp].
  - split; apply wrap32_range.
  - by eapply loadRedisOptions_ok.
  - by eapply parsePrefixes_ok.
  - apply Forall_forall. intros x. apply splitCSV_trimmed.
  - repeat (apply Forall_cons; split; [apply HD; by split|]). by apply Forall_nil.
  - repeat (apply Forall_cons; split; [apply HI; by split|]). by apply Forall_nil.
  - split_and!; by apply getEnv_nonempty.
Qed.

Lemma Load_accepts `{UnicodeLower, ParseURL} env : is_ok (Load env) = true <-> env_ok env.
Proof.
  assert (is_Some (parsePrefixes (getEnv env "TRUSTED_PROXIES" "")) <->
    Forall (fun item => is_Some (parsePrefix_item item)) (splitCSV (env "TRUSTED_PROXIES"))) as Hpx.
  { rewrite getEnv_empty. split; [apply mapM_is_Some_1|apply mapM_is_Some_2]. }
  pose proof (loadRedisOptions_accepts env) as Hr.
  unfold Load. split.
  - case_decide as Hs; [done|]. case_decide as Hl; [done|]. case_decide as Hd; [done|].
    destruct (loadRedisOptions env) as [o|e] eqn:Ho; [|done]. simpl.
    destruct (parsePrefixes _) as [ps|] eqn:Hp; [|done].
    case_decide as Hc; [done|]. intros _. constructor; [lia|done|by apply Hr|by apply Hpx|lia].
  - intros [Hs Hd Hu Hp Hc].
    rewrite decide_False by (intros Hn; rewrite Hn in Hs; vm_compute in Hs; by apply Hs).
    rewrite decide_False by lia. rewrite decide_False by done.
    apply Hr in Hu. destruct (loadRedisOptions env) as [o|e]; [|done]. simpl.
    apply Hpx in Hp as [ps ->]. rewrite decide_False by lia. done.
Qed.

(** The condition each error reports. *)
Definition load_reason `{ParseURL} (env : environment) (e : load_error) : Prop :=
  match e with
  | JWTSecretRequired => TrimSpace (env "JWT_SECRET") = ""
  | JWTSecretTooShort got => got = len (TrimSpace (env "JWT_SECRET")) /\ (0 < got < 32)%Z
  | DatabaseURLRequired => TrimSpace (env "DATABASE_URL") = ""
  | RedisURLInvalid cause => redis_ParseURL (TrimSpace (env "REDIS_URL")) = Err cause
  | TrustedProxiesInvalid =>
      exists item, item ∈ splitCSV (env "TRUSTED_PROXIES") /\ parsePrefix_item item = None
  | DBConnsInvalid lo hi =>
      lo = getInt env "DB_MIN_CONNS" 5 /\ hi = getInt env "DB_MAX_CONNS" 25 /\
      ~ (0 <= lo <= hi /\ 1 <= hi)%Z
  end.

Lemma len_pos s : s <> "" -> (0 < len s)%Z.
Proof. destruct s; [done|]. unfold len. simpl. lia. Qed.

Lemma parsePrefixes_None s :
  parsePrefixes s = None -> exists item, item ∈ splitCSV s /\ parsePrefix_item item = None.
Proof.
  intros (i & Hi & He)%mapM_None_1%Exists_exists. by exists i.
Qed.

Lemma Load_error `{UnicodeLower, ParseURL} env e : Load env = Err e -> load_reason env e.
Proof.
  unfold Load. case_decide as Hs; [by intros [= <-]|].
  case_decide as Hl; [intros [= <-]; split; [done|]; split; [by apply len_pos|done]|].
  case_decide as Hd; [by intros [= <-]|].
  destruct (loadRedisOptions env) as [o|e'] eqn:Ho; simpl.
  - destruct (parsePrefixes _) as [ps|] eqn:Hp.
    + case_decide as Hc; [|done]. intros [= <-]. simpl. split_and!; [done..|lia].
    + intros [= <-]. rewrite getEnv_empty in Hp. by apply parsePrefixes_None.
  - intros [= <-]. unfold loadRedisOptions in Ho. case_decide; [|done].
    destruct (redis_ParseURL _) eqn:Hr; [done|]. by injection Ho as <-.
Qed.

Lemma Load_fields `{UnicodeLower, ParseURL} env c :
  Load env = Ok c ->
  DBMinConns c = wrap32 (getInt env "DB_MIN_CONNS" 5) /\
  DBMaxConns c = wrap32 (getInt env "DB_MAX_CONNS" 25) /\
  parsePrefixes (env "TRUSTED_PROXIES") = Some (TrustedProxies c).
Proof.
  unfold Load. rewrite getEnv_empty. do 3 (case_decide; [done|]).
  destruct (loadRedisOptions env); [|done]. simpl.
  destruct (parsePrefixes _); [|done]. case_decide; [done|]. by intros [= <-].
Qed.

(** ** The list of trusted proxies *)

(** An item of [TRUSTED_PROXIES] for IPv4: an address, alone or with the
    length of a prefix. *)
Definition item_text (item : Z * option Z) : string :=
  match item with
  | (v, None) => string4 v
  | (v, Some n) => string4 v +:+ String "/" (FormatInt n)
  end.

Definition item_ok (item : Z * option Z) : Prop :=
  (0 <= item.1 < 2 ^ 32)%Z /\ match item.2 with Some n => (0 <= n <= 32)%Z | None => True end.

(** The addresses the item stands for. *)
Definition covers (u : Z) (item : Z * option Z) : Prop :=
  match item with
  | (v, None) => u = v
  | (v, Some n) => (u / 2 ^ (32 - n) = v / 2 ^ (32 - n))%Z
  end.

(** The items in order, separated by a comma and a space. *)
Definition items_text (items : list (Z * option Z)) : string := join_with ", " (item_text <$> items).

Definition item_prefix (item : Z * option Z) : Prefix :=
  match item with
  | (v, None) => host_prefix (Addr4 v)
  | (v, Some n) => Masked (mkPrefix (Addr4 v) n)
  end.

Lemma join_with_chars sep l c :
  c ∈ chars (join_with sep l) -> c ∈ chars sep \/ exists x, x ∈ l /\ c ∈ chars x.
Proof.
  destruct l as [|x l]; [by intros ?%not_elem_of_nil|]. simpl. rewrite chars_app, elem_of_app.
  intros [Hc|Hc]; [right; exists x; split; [left|done]|]. revert Hc.
  induction l as [|y l IH]; simpl; [by intros ?%not_elem_of_nil|].
  rewrite !chars_app, !elem_of_app. intros [Hc|[Hc|Hc]]; [by left|right; exists y; split; [right; left|done]|].
  destruct (IH Hc) as [|(z & Hz & ?)]; [by left|]. right. exists z. split; [|done].
  apply elem_of_cons in Hz as [->|Hz]; [left|by right; right].
Qed.

Lemma string4_chars v c : c ∈ chars (string4 v) -> is_digit c = true \/ c = "."%char.
Proof.
  unfold string4. intros [Hc|(x & (b & -> & (i & -> & _)%list_elem_of_fmap)%list_elem_of_fmap & Hc)]%join_with_chars.
  { right. by apply list_elem_of_singleton in Hc. }
  destruct (FormatInt_nonneg_spec (Z.land (Z.shiftr v (8 * Z.of_nat i)) (Z.ones 8)))
    as (ds & Hds & Hd & _); [pose proof (byte_fields v (8 * Z.of_nat i)); lia|].
  rewrite Hds in Hc. rewrite Forall_forall in Hd. left. auto.
Qed.

Lemma item_chars item c :
  item_ok item -> c ∈ chars (item_text item) -> is_digit c = true \/ c = "."%char \/ c = "/"%char.
Proof.
  destruct item as [v [n|]]; intros [_ Hn]; cbn [item_text fst snd] in *.
  - rewrite chars_app, elem_of_app. cbn [String.list_ascii_of_string].
    rewrite elem_of_cons. intros [Hc|[->|Hc]].
    + destruct (string4_chars v c Hc); auto.
    + auto.
    + destruct (FormatInt_nonneg_spec n) as (ds & Hds & Hd & _); [lia|].
      rewrite Hds in Hc. rewrite Forall_forall in Hd. auto.
  - intros [|]%string4_chars; auto.
Qed.

Lemma item_solid item : item_ok item -> Forall (fun c => solid c = true) (chars (item_text item)).
Proof.
  intros Hi. apply Forall_forall. intros c Hc.
  destruct (item_chars item c Hi Hc) as [Hd|[->| ->]]; [|reflexivity..]. clear Hc.
  destruct c as [[] [] [] [] [] [] [] []]; try discriminate Hd; reflexivity.
Qed.

Lemma string4_nonempty v : string4 v <> "".
Proof.
  unfold string4. cbn [to_fields seq reverse rev_append fmap list_fmap join_with foldr].
  intros Hs%(f_equal chars). rewrite chars_app, chars_app in Hs.
  apply app_nil in Hs as [_ Hs]. done.
Qed.

Lemma item_nonempty item : item_text item <> "".
Proof.
  destruct item as [v [n|]]; cbn [item_text]; [|apply string4_nonempty].
  intros Hs%(f_equal chars). rewrite chars_app in Hs. by apply app_nil in Hs as [_ Hs].
Qed.

Lemma splitCSV_items items : Forall item_ok items -> splitCSV (items_text items) = item_text <$> items.
Proof.
  destruct items as [|x items]; [done|]. intros Hi. unfold splitCSV, items_text. rewrite fmap_cons.
  rewrite decide_False.
  2: { cbn [join_with]. intros Hs%(f_equal chars). rewrite chars_app in Hs.
       apply app_nil in Hs as [Hs _]. by apply (item_nonempty x), (inj chars). }
  rewrite Split_join.
  2: { rewrite <- fmap_cons. apply Forall_fmap. eapply Forall_impl; [exact Hi|].
       intros i Hok Hc. destruct (item_chars i _ Hok Hc) as [?|[?|?]]; done. }
  apply Forall_cons in Hi as [Hx Hi]. rewrite fmap_cons, TrimSpace_solid by (by apply item_solid).
  rewrite filter_cons_True by apply item_nonempty. f_equal.
  induction Hi as [|y items Hy _ IH]; [done|].
  rewrite !fmap_cons, TrimSpace_lead by (by apply item_solid).
  rewrite filter_cons_True by apply item_nonempty. by f_equal.
Qed.

Lemma parsePrefix_item_text item :
  item_ok item -> parsePrefix_item (item_text item) = Some (item_prefix item).
Proof.
  destruct item as [v [n|]]; intros [Hv Hn]; cbn [item_text item_prefix fst snd] in *;
    unfold parsePrefix_item.
  - rewrite decide_True by (rewrite chars_app; cbn [String.list_ascii_of_string];
      apply elem_of_app; right; left).
    by rewrite ParsePrefix_string4.
  - rewrite decide_False by (by intros [?|?]%string4_chars). by rewrite ParseAddr_string4.
Qed.

Lemma item_prefix_covers item u :
  item_ok item -> (0 <= u < 2 ^ 32)%Z -> Contains (item_prefix item) (Addr4 u) = true <-> covers u item.
Proof.
  assert (forall x k, (0 <= k)%Z -> Z.shiftr (Z.lxor u x) k = 0%Z <-> (u / 2 ^ k = x / 2 ^ k)%Z) as Hx.
  { intros x k Hk. rewrite Z.shiftr_lxor, Z.lxor_eq_0_iff, !Z.shiftr_div_pow2 by done. done. }
  intros [Hv Hn] Hu. destruct item as [v [n|]]; cbn [fst snd] in *; unfold Contains; simpl;
    rewrite bool_decide_eq_true, Hx by lia.
  - unfold mask. rewrite <- !Z.shiftr_div_pow2 by lia. rewrite Z.shiftr_shiftl_l by lia.
    by rewrite Z.sub_diag, Z.shiftl_0_r.
  - by rewrite !Z.div_1_r.
Qed.

Lemma parsePrefixes_items items :
  Forall item_ok items -> parsePrefixes (items_text items) = Some (item_prefix <$> items).
Proof.
  intros Hi. unfold parsePrefixes. rewrite splitCSV_items by done. apply mapM_Some_2.
  induction Hi as [|i items Hok _ IH]; constructor; [|done]. by apply parsePrefix_item_text.
Qed.

Lemma isTrusted_items items a :
  Forall item_ok items ->
  isTrusted (item_prefix <$> items) a = true <->
  exists u, Unmap a = Addr4 u /\ Exists (fun i => Contains (item_prefix i) (Addr4 u) = true) items.
Proof.
  intros Hi. unfold isTrusted. rewrite existsb_exists. setoid_rewrite <- list_elem_of_In.
  split.
  - intros (p & (i & -> & Hin)%list_elem_of_fmap & Hc).
    destruct (Unmap a) as [u|u z].
    + exists u. split; [done|]. apply Exists_exists. by exists i.
    + unfold Contains in Hc. destruct i as [v [n|]]; simpl in Hc; by destruct (negb _).
  - intros (u & -> & (i & Hin & Hc)%Exists_exists).
    exists (item_prefix i). split; [|done]. apply list_elem_of_fmap. by exists i.
Qed.

(** ** Properties *)

(** C19: [Load] accepts exactly the environments with a secret of at least 32
    bytes, a database URL, a Redis URL that is absent or parses, trusted
    proxies that all parse, and pool sizes with [0 <= min <= max] and
    [1 <= max].  What it returns is well formed: secret and URLs are trimmed,
    every trusted prefix is in normal form, origins are trimmed and non-empty,
    every duration and count fits its machine type, and the pool sizes keep
    their order when they fit [int32].  What it refuses it refuses for the
    reason it reports. *)
Theorem Load_valid `{UnicodeLower, ParseURL} (env : environment) :
  match Load env with
  | Ok c => env_ok env /\ config_ok c /\
      ((getInt env "DB_MAX_CONNS" 25 <= 2147483647)%Z ->
       (0 <= DBMinConns c <= DBMaxConns c /\ 1 <= DBMaxConns c)%Z)
  | Err e => ~ env_ok env /\ load_reason env e
  end.
Proof.
  pose proof (Load_accepts env) as Ha. destruct (Load env) as [c|e] eqn:Hl.
  - apply proj1 in Ha. specialize (Ha eq_refl). split_and!; [done|by apply Load_ok in Hl|].
    intros Hm. apply Load_fields in Hl as (-> & -> & _). destruct Ha as [_ _ _ _ Hc].
    rewrite !wrap32_id by lia. lia.
  - split; [|by apply Load_error]. rewrite <- Ha. done.
Qed.

(** C18: a list of IPv4 addresses and prefixes in [TRUSTED_PROXIES] is trusted
    as written: a peer is trusted iff its address, with an IPv4-mapped IPv6
    address unmapped, is one of the listed addresses or shares the first bits
    with one of the listed prefixes. *)
Theorem TrustedProxies_trust `{UnicodeLower, ParseURL} (env : environment)
    (items : list (Z * option Z)) (c : Config) (peer : string) (a : Addr) :
  Forall item_ok items -> env "TRUSTED_PROXIES" = items_text items -> Load env = Ok c ->
  ParseAddr peer = Some a ->
  isTrusted (TrustedProxies c) a = true <-> exists u, Unmap a = Addr4 u /\ Exists (covers u) items.
Proof.
  intros Hi He Hl Ha.
  assert (TrustedProxies c = item_prefix <$> items) as ->.
  { apply Load_fields in Hl as (_ & _ & Hl). rewrite He, parsePrefixes_items in Hl by done. congruence. }
  rewrite isTrusted_items by done.
  split; intros (u & Hu & Hc); exists u; (split; [done|]);
    (assert (0 <= u < 2 ^ 32)%Z by (apply (ParseAddr_range peer); by rewrite Ha, <- Hu));
    rewrite Exists_exists in *; destruct Hc as (i & Hin & Hc); rewrite Forall_forall in Hi;
    exists i; (split; [done|]); by apply item_prefix_covers; [apply Hi| |].
Qed.

(** ** Witnesses *)

(** A Redis URL parser that refuses everything, ASCII lower case, and an
    environment with the required variables and a few more. *)
#[local] Instance no_redis_url : ParseURL := fun url => Err "redis: invalid URL scheme".
#[local] Instance ascii_lower : UnicodeLower := fun s => s.

Definition sample_env (more : environment) : environment := fun key =>
  if decide (key = "JWT_SECRET") then " 0123456789abcdef0123456789abcdef "
  else if decide (key = "DATABASE_URL") then "postgres://lottery@db/lottery"
  else more key.

Definition proxied_env : environment := sample_env (fun key =>
  if decide (key = "TRUSTED_PROXIES") then "10.0.0.0/8, 127.0.0.1" else "").

Definition proxied_items : list (Z * option Z) := [(167772160, Some 8); (2130706433, None)]%Z.

Definition loaded (env : environment) : Config :=
  match Load env with
  | Ok c => c
  | Err _ => mkConfig "" "" 0 0 0 0 0 "" "" false 0 0 (mkRedisOptions "" "" 0 0 0) "" 0 0 0 0 0 0 0 0 0 0
               [] [] "" "" ""
  end.

Lemma Load_valid_witness :
  is_ok (Load proxied_env) = true /\
  env_ok proxied_env /\ (0 <= DBMinConns (loaded proxied_env) <= DBMaxConns (loaded proxied_env))%Z /\
  ~ env_ok (fun _ => "").
Proof.
  pose proof (Load_valid proxied_env) as Hv. pose proof (Load_valid (fun _ => "")) as He.
  assert (Load proxied_env = Ok (loaded proxied_env)) as E by (vm_compute; reflexivity).
  assert (Load (fun _ => "") = Err JWTSecretRequired) as E' by (vm_compute; reflexivity).
  rewrite E in Hv. rewrite E' in He. rewrite E.
  split; [reflexivity|]. split; [exact (proj1 Hv)|]. split; [|exact (proj1 He)].
  refine (proj1 (proj2 (proj2 Hv) _)). vm_compute. discriminate.
Defined.

Lemma TrustedProxies_trust_witness :
  isTrusted (TrustedProxies (loaded proxied_env)) (Addr6 281470849581312 "") = true.
Proof.
  apply (TrustedProxies_trust proxied_env proxied_items (loaded proxied_env) "::ffff:10.1.1.0").
  - repeat constructor; vm_compute; try discriminate; reflexivity.
  - vm_compute. reflexivity.
  - vm_compute. reflexivity.
  - vm_compute. reflexivity.
  - exists 167837952%Z. split; [vm_compute; reflexivity|]. apply Exists_cons_hd. vm_compute. reflexivity.
Defined.

(** Pool sizes are validated as [int] and then cut to [int32]: [2^32] passes and becomes [0]. *)
Lemma Load_pool_wraps :
  exists env c, Load env = Ok c /\ DBMaxConns c = 0%Z /\ ~ (1 <= DBMaxConns c)%Z.
Proof.
  set (env := sample_env (fun key => if decide (key = "DB_MAX_CONNS") then "4294967296" else "")).
  exists env, (loaded env). vm_compute. split_and!; [reflexivity..|]. intros H. by apply H.
Qed.

(** Counts and durations are not validated at all. *)
Lemma Load_accepts_nonpositive :
  exists env c, Load env = Ok c /\ MaxWinners c = 0%Z /\ MaxRequestBytes c = (-1)%Z /\ LockTTL c = (-5000000000)%Z.
Proof.
  set (env := sample_env (fun key =>
    if decide (key = "MAX_WINNERS") then "0"
    else if decide (key = "MAX_REQUEST_BYTES") then "-1"
    else if decide (key = "LOCK_TTL") then "-5s" else "")).
  exists env, (loaded env). vm_compute. split_and!; reflexivity.
Qed.
