(* ===== verification/Migrate.v ===== *)
(** * Migrations

    [src/internal/db/migrate.go]: the runner that applies the embedded SQL
    files in the order of their versions, each in a transaction, and records
    them in [schema_migrations]. *)

From stdpp Require Import sorting.
From Stdlib Require Import Ascii Sorting.Sorted.
From S2P Require Import Prelude GoFmt GoString Netip Database Effects.

(** ** Files *)

(** An entry of the embedded directory. *)
Record dir_entry := mkEntry { de_name : string; de_dir : bool; de_body : string }.

Record migration := mkMigration { mg_version : Z; mg_name : string; mg_path : string }.

Inductive mig_error :=
| CreatingLedger (e : pgerror)
| ReadingMigrations
| BadFilename (name : string)
| BadVersion (name : string) (e : num_error)
| Checking (v : Z) (e : pgerror)
| ReadingFile (path : string)
| BeginTx (v : Z) (e : pgerror)
| Applying (v : Z) (name : string) (e : pgerror)
| Recording (v : Z) (e : pgerror)
| Committing (v : Z) (e : pgerror).

(** [strings.HasSuffix] and [strings.TrimSuffix]. *)
Definition HasSuffix (s suffix : string) : bool :=
  match strip_prefix (reverse (chars suffix)) (reverse (chars s)) with Some _ => true | None => false end.
Definition TrimSuffix (s suffix : string) : string :=
  match strip_prefix (reverse (chars suffix)) (reverse (chars s)) with
  | Some r => String.string_of_list_ascii (reverse r)
  | None => s
  end.

Definition parseMigrationFilename (name : string) : result mig_error (Z * string) :=
  let base := TrimSuffix name ".sql" in
  match cut_first "_" (chars base) with
  | None | Some ([], _) => Err (BadFilename name)
  | Some (number, rest) =>
    match ParseInt (String.string_of_list_ascii number) with
    | (v, None) => Ok (v, String.string_of_list_ascii rest)
    | (_, Some e) => Err (BadVersion name e)
    end
  end.

(** The loop that collects the migrations of the directory. *)
Fixpoint collect (entries : list dir_entry) : result mig_error (list migration) :=
  match entries with
  | [] => Ok []
  | e :: entries' =>
    if de_dir e || negb (HasSuffix (de_name e) ".sql") then collect entries'
    else
      p ← parseMigrationFilename (de_name e);
      ms ← collect entries';
      Ok (mkMigration p.1 p.2 ("migrations/" +:+ de_name e) :: ms)
  end.

(** [fs.ReadFile(migrationsFS, path)]. *)
Definition ReadFile (entries : list dir_entry) (path : string) : option string :=
  head (de_body <$> filter (fun e => de_dir e = false /\ "migrations/" +:+ de_name e = path) entries).

Definition version_le (a b : migration) : Prop := (mg_version a <= mg_version b)%Z.

#[export] Instance version_le_dec a b : Decision (version_le a b).
Proof. unfold version_le. apply _. Defined.
#[export] Instance version_le_total : Total version_le.
Proof. intros a b. unfold version_le. lia. Qed.
#[export] Instance version_le_trans : Transitive version_le.
Proof. intros a b c. unfold version_le. lia. Qed.

(** [sort.Slice] by version: some sorted permutation; it is not stable, so the
    order of equal versions is open. *)
Class SortSlice := {
  sort_slice : list migration -> list migration;
  sort_slice_perm ms : sort_slice ms ≡ₚ ms;
  sort_slice_sorted ms : Sorted version_le (sort_slice ms)
}.

Lemma StronglySorted_filter {A} (R : A -> A -> Prop) (P : A -> Prop) `{!forall x, Decision (P x)} l :
  StronglySorted R l -> StronglySorted R (filter P l).
Proof.
  induction 1 as [|x l Hl IH Hx]; [constructor|]. rewrite filter_cons. case_decide; [|done].
  constructor; [done|]. rewrite !Forall_forall in *. intros y [_ Hy]%list_elem_of_filter. auto.
Qed.

(** ** The database *)

(** The rows of [schema_migrations], if the table exists, and everything
    else. *)
Record mstate (Schema : Type) := mkMState { m_ledger : option (gmap Z string); m_schema : Schema }.
Arguments mkMState {Schema} _ _.
Arguments m_ledger {Schema} _.
Arguments m_schema {Schema} _.

(** What PostgreSQL does with the text of a migration. *)
Class ExecSQL (Schema : Type) := exec_sql : string -> mstate Schema -> result pgerror (mstate Schema).

Inductive mcmd : Type -> Type :=
| CreateLedger : mcmd (result pgerror unit)
| LedgerHas (v : Z) : mcmd (result pgerror bool)
| MBegin : mcmd (result pgerror unit)
| MExec (body : string) : mcmd (result pgerror unit)
| MRecord (v : Z) (name : string) : mcmd (result pgerror unit)
| MCommit : mcmd (result pgerror unit)
| MRollback : mcmd unit.

(** ** [RunMigrations] *)

(** One turn of the loop over the sorted migrations. *)
Definition apply_migration (entries : list dir_entry) (m : migration) : prog mcmd (result mig_error unit) :=
  try exists_ := perform (LedgerHas (mg_version m)) catch e => Checking (mg_version m) e in
  if exists_ : bool then mret (Ok tt)
  else
    match ReadFile entries (mg_path m) with
    | None => mret (Err (ReadingFile (mg_path m)))
    | Some body =>
      try _ := perform MBegin catch e => BeginTx (mg_version m) e in
      r ← perform (MExec body);
      match r with
      | Err e => perform MRollback;; mret (Err (Applying (mg_version m) (mg_name m) e))
      | Ok _ =>
        r ← perform (MRecord (mg_version m) (mg_name m));
        match r with
        | Err e => perform MRollback;; mret (Err (Recording (mg_version m) e))
        | Ok _ =>
          try _ := perform MCommit catch e => Committing (mg_version m) e in
          mret (Ok tt)
        end
      end
    end.

Fixpoint apply_migrations (entries : list dir_entry) (ms : list migration)
  : prog mcmd (result mig_error unit) :=
  match ms with
  | [] => mret (Ok tt)
  | m :: ms' =>
    r ← apply_migration entries m;
    match r with
    | Ok _ => apply_migrations entries ms'
    | Err e => mret (Err e)
    end
  end.

Definition RunMigrations `{SortSlice} (migrationsFS : option (list dir_entry))
  : prog mcmd (result mig_error unit) :=
  try _ := perform CreateLedger catch e => CreatingLedger e in
  match migrationsFS with
  | None => mret (Err ReadingMigrations)
  | Some entries =>
    match collect entries with
    | Err e => mret (Err e)
    | Ok migrations => apply_migrations entries (sort_slice migrations)
    end
  end.

(** ** The interpreter *)

Definition codeUndefinedTable : string := "42P01".

Section Run.
Context {Schema : Type} `{ExecSQL Schema}.
Variable F : nat -> fault.

(** The committed state, the open transaction (its view of the database; none
    once a statement failed), and the number of calls made. *)
Record mworld := mkMWorld {
  mw_db : mstate Schema;
  mw_tx : option (option (mstate Schema));
  mw_step : nat
}.

Definition create_ledger (s : mstate Schema) : mstate Schema :=
  mkMState (Some (default ∅ (m_ledger s))) (m_schema s).

(** [INSERT ... ON CONFLICT (version) DO NOTHING]. *)
Definition record_row (v : Z) (name : string) (s : mstate Schema) : result pgerror (mstate Schema) :=
  match m_ledger s with
  | None => Err (PgError codeUndefinedTable)
  | Some l => Ok (mkMState (Some (if decide (is_Some (l !! v)) then l else <[v := name]> l)) (m_schema s))
  end.

(** A statement of the open transaction; a failed one aborts it. *)
Definition in_tx (f : mstate Schema -> result pgerror (mstate Schema)) (w : mworld)
  : result pgerror unit * mworld :=
  match mw_tx w with
  | None => (Err ErrTxClosed, w)
  | Some None => (Err (PgError codeInFailedTransaction), w)
  | Some (Some s) =>
    match F (mw_step w) with
    | NoFault => match f s with
                 | Ok s' => (Ok tt, mkMWorld (mw_db w) (Some (Some s')) (mw_step w))
                 | Err e => (Err e, mkMWorld (mw_db w) (Some None) (mw_step w))
                 end
    | _ => (Err ErrDriver, mkMWorld (mw_db w) (Some None) (mw_step w))
    end
  end.

Definition exec_mcmd {X} (c : mcmd X) (w : mworld) : X * mworld :=
  let f := F (mw_step w) in
  let (x, w') :=
    match c in mcmd X return X * mworld with
    | CreateLedger =>
      match f with
      | FailBefore => (Err ErrDriver, w)
      | NoFault => (Ok tt, mkMWorld (create_ledger (mw_db w)) (mw_tx w) (mw_step w))
      | FailAfter => (Err ErrDriver, mkMWorld (create_ledger (mw_db w)) (mw_tx w) (mw_step w))
      end
    | LedgerHas v =>
      match f, m_ledger (mw_db w) with
      | NoFault, Some l => (Ok (bool_decide (is_Some (l !! v))), w)
      | NoFault, None => (Err (PgError codeUndefinedTable), w)
      | _, _ => (Err ErrDriver, w)
      end
    | MBegin =>
      match f with
      | NoFault => (Ok tt, mkMWorld (mw_db w) (Some (Some (mw_db w))) (mw_step w))
      | _ => (Err ErrDriver, w)
      end
    | MExec body => in_tx (exec_sql body) w
    | MRecord v name => in_tx (record_row v name) w
    | MCommit =>
      match mw_tx w with
      | None => (Err ErrTxClosed, w)
      | Some None => (Err (PgError codeInFailedTransaction), mkMWorld (mw_db w) None (mw_step w))
      | Some (Some s) =>
        match f with
        | NoFault => (Ok tt, mkMWorld s None (mw_step w))
        | FailBefore => (Err ErrDriver, mkMWorld (mw_db w) None (mw_step w))
        | FailAfter => (Err ErrDriver, mkMWorld s None (mw_step w))
        end
      end
    | MRollback => (tt, mkMWorld (mw_db w) None (mw_step w))
    end in
  (x, mkMWorld (mw_db w') (mw_tx w') (S (mw_step w'))).

Fixpoint mrun {A} (p : prog mcmd A) (w : mworld) : A * mworld :=
  match p with
  | Ret a => (a, w)
  | Act c k => let (x, w') := exec_mcmd c w in mrun (k x) w'
  end.
End Run.
Arguments mworld : clear implicits.
Arguments mkMWorld {Schema} _ _ _.
Arguments mw_db {Schema} _.
Arguments mw_tx {Schema} _.
Arguments mw_step {Schema} _.

(** ** Reference: what one file and a list of files do to the database *)

Section Correct.
Context {Schema : Type} `{ExecSQL Schema}.
Variable entries : list dir_entry.

Definition ok_value {E A} (r : result E A) : option A := match r with Ok a => Some a | Err _ => None end.

(** The body and the row, or nothing at all. *)
Definition apply_one (s : mstate Schema) (m : migration) : option (mstate Schema) :=
  body ← ReadFile entries (mg_path m);
  s' ← ok_value (exec_sql body s);
  ok_value (record_row (mg_version m) (mg_name m) s').

Definition apply_seq (ms : list migration) (s : mstate Schema) : option (mstate Schema) :=
  foldl (fun o m => s ← o; apply_one s m) (Some s) ms.

Definition recorded (s : mstate Schema) (m : migration) : Prop :=
  is_Some (default ∅ (m_ledger s) !! mg_version m).

#[export] Instance recorded_dec s m : Decision (recorded s m).
Proof. unfold recorded. apply _. Defined.

(** The migrations still to be applied. *)
Definition pending (s : mstate Schema) (ms : list migration) : list migration :=
  filter (fun m => ~ recorded s m) ms.

(** The rows a file may write to the ledger: its own. *)
Definition bodies_ok (ms : list migration) : Prop :=
  forall m body s s' l, m ∈ ms -> ReadFile entries (mg_path m) = Some body ->
    exec_sql body s = Ok s' -> m_ledger s = Some l ->
    exists l', m_ledger s' = Some l' /\ forall v, v <> mg_version m -> l' !! v = l !! v.

Lemma apply_seq_cons m ms s : apply_seq (m :: ms) s = apply_one s m ≫= apply_seq ms.
Proof.
  unfold apply_seq. cbn [foldl mbind option_bind]. destruct (apply_one s m); [done|].
  induction ms; simpl; done.
Qed.

Lemma apply_one_ledger ms s m s' l :
  bodies_ok ms -> m ∈ ms -> apply_one s m = Some s' -> m_ledger s = Some l ->
  exists l', m_ledger s' = Some l' /\ is_Some (l' !! mg_version m) /\
    forall v, v <> mg_version m -> l' !! v = l !! v.
Proof.
  intros Hb Hm Ha Hl. unfold apply_one in Ha.
  apply bind_Some in Ha as (body & Hf & (s1 & He & Hr)%bind_Some).
  destruct (exec_sql body s) as [s1'|] eqn:Hx; [|done]. injection He as ->.
  destruct (Hb m body s s1 l Hm Hf Hx Hl) as (l1 & Hl1 & Hrest).
  unfold record_row in Hr. rewrite Hl1 in Hr. injection Hr as <-. simpl.
  eexists. split; [done|]. case_decide as Hd; [done|].
  split; [rewrite lookup_insert_eq; done|]. intros v Hv. rewrite lookup_insert_ne by done. auto.
Qed.

(** Applying one migration leaves the others pending. *)
Lemma pending_apply ms s m s' l ms' :
  bodies_ok ms -> m ∈ ms -> apply_one s m = Some s' -> m_ledger s = Some l ->
  mg_version m ∉ (mg_version <$> ms') -> pending s' ms' = pending s ms'.
Proof.
  intros Hb Hm Ha Hl Hn. destruct (apply_one_ledger ms s m s' l) as (l' & Hl' & _ & Hrest); [done..|].
  unfold pending. induction ms' as [|x ms' IH]; [done|].
  apply not_elem_of_cons in Hn as [Hx Hn]. rewrite !filter_cons, (IH Hn).
  assert (recorded s' x <-> recorded s x) as Hiff by (unfold recorded; rewrite Hl, Hl'; simpl; by rewrite Hrest).
  destruct (decide (~ recorded s' x)), (decide (~ recorded s x)); tauto.
Qed.

Section Faults.
Variable F : nat -> fault.

(** One turn of the loop: all of the migration or nothing, and no transaction
    is left open. *)
Definition turn_ok (s : mstate Schema) (m : migration) (r : result mig_error unit) (w' : mworld Schema) : Prop :=
  mw_tx w' = None /\
  (r = Ok tt -> if decide (recorded s m) then mw_db w' = s else apply_one s m = Some (mw_db w')) /\
  (r <> Ok tt -> mw_db w' = s \/ ~ recorded s m /\ apply_one s m = Some (mw_db w')) /\
  ((forall n, F n = NoFault) -> recorded s m \/ is_Some (apply_one s m) -> r = Ok tt).

(** A turn that stops for a fault, or because the migration cannot be applied. *)
Lemma turn_fault s m e n k : F k <> NoFault -> turn_ok s m (Err e) (mkMWorld s None n).
Proof. intros Hk. split_and!; [done|done|by left|]. intros HF. by destruct Hk. Qed.

Lemma turn_refused s m e n :
  ~ recorded s m -> apply_one s m = None -> turn_ok s m (Err e) (mkMWorld s None n).
Proof. intros Hm Ha. split_and!; [done|done|by left|]. rewrite Ha. by intros _ [|[? ?]]. Qed.

Lemma apply_migration_run m s n l r w' :
  m_ledger s = Some l -> mrun F (apply_migration entries m) (mkMWorld s None n) = (r, w') ->
  turn_ok s m r w'.
Proof.
  intros Hl. unfold apply_migration, try_catch. simpl. unfold exec_mcmd at 1. simpl. rewrite Hl.
  destruct (F n) eqn:F0; [|intros [= <- <-]; apply (turn_fault _ _ _ _ n); congruence..]. simpl.
  case_bool_decide as Hrec.
  { intros [= <- <-]. assert (recorded s m) by (unfold recorded; by rewrite Hl).
    split_and!; [done|by rewrite decide_True|done|done]. }
  assert (~ recorded s m) as Hn by (unfold recorded; by rewrite Hl). clear Hrec.
  destruct (ReadFile entries (mg_path m)) as [body|] eqn:Hf; simpl.
  2: { intros [= <- <-]. apply turn_refused; [done|]. unfold apply_one. by rewrite Hf. }
  unfold exec_mcmd at 1. simpl.
  destruct (F (S n)) eqn:F1; [|intros [= <- <-]; apply (turn_fault _ _ _ _ (S n)); congruence..]. simpl.
  unfold exec_mcmd at 1, in_tx. simpl.
  destruct (F (S (S n))) eqn:F2; [|intros [= <- <-]; apply (turn_fault _ _ _ _ (S (S n))); congruence..].
  destruct (exec_sql body s) as [s1|e] eqn:Hx; simpl.
  2: { intros [= <- <-]. apply turn_refused; [done|]. unfold apply_one. rewrite Hf. simpl. by rewrite Hx. }
  unfold exec_mcmd at 1, in_tx. simpl.
  destruct (F (S (S (S n)))) eqn:F3;
    [|intros [= <- <-]; apply (turn_fault _ _ _ _ (S (S (S n)))); congruence..].
  assert (apply_one s m = ok_value (record_row (mg_version m) (mg_name m) s1)) as Ha.
  { unfold apply_one. rewrite Hf. simpl. by rewrite Hx. }
  destruct (record_row (mg_version m) (mg_name m) s1) as [s2|e]; simpl;
    [|intros [= <- <-]; by apply turn_refused].
  unfold exec_mcmd. simpl.
  destruct (F (S (S (S (S n))))) eqn:F4; simpl.
  - intros [= <- <-]. split_and!; [done|by rewrite decide_False|done|done].
  - intros [= <- <-]. apply (turn_fault _ _ _ _ (S (S (S (S n))))). congruence.
  - intros [= <- <-]. split_and!; [done|done|by right|]. intros HF. by rewrite HF in F4.
Qed.

Lemma mrun_bind {A B} (p : prog mcmd A) (k : A -> prog mcmd B) w :
  mrun F (p ≫= k) w = (let (a, w') := mrun F p w in mrun F (k a) w').
Proof.
  revert w. induction p as [a|X c q IH]; intros w; [done|]. simpl.
  destruct (exec_mcmd F c w) as [x w']. apply IH.
Qed.

(** The loop applies a prefix of what is pending, all of it if it returns no
    error; without faults and refusals it returns none. *)
Lemma apply_migrations_run all ms s n l r w' :
  bodies_ok all -> ms ⊆ all -> NoDup (mg_version <$> ms) -> m_ledger s = Some l ->
  mrun F (apply_migrations entries ms) (mkMWorld s None n) = (r, w') ->
  mw_tx w' = None /\
  exists k, k <= length (pending s ms) /\ apply_seq (take k (pending s ms)) s = Some (mw_db w') /\
    (r = Ok tt -> k = length (pending s ms)) /\
    ((forall i, F i = NoFault) -> is_Some (apply_seq (pending s ms) s) -> r = Ok tt).
Proof.
  intros Hb. revert s n l. induction ms as [|m ms IH]; intros s n l Hsub Hnd Hl.
  { intros [= <- <-]. split; [done|]. exists 0. done. }
  cbn [apply_migrations]. rewrite mrun_bind.
  destruct (mrun F (apply_migration entries m) (mkMWorld s None n)) as [r1 [s1 t1 n1]] eqn:H1.
  apply (apply_migration_run m s n l) in H1 as (Ht & Hok & Herr & Hcalm); [|done]. simpl in *. subst t1.
  apply NoDup_cons in Hnd as [Hm Hnd]. unfold pending. rewrite filter_cons. fold (pending s ms).
  destruct r1 as [[]|e].
  - specialize (Hok eq_refl). intros Hrun. case_decide as Hrec.
    + rewrite decide_False by tauto. subst s1. eapply IH; [set_solver|done|done|exact Hrun].
    + rewrite decide_True by done.
      destruct (apply_one_ledger all s m s1 l) as (l1 & Hl1 & _ & _); [done|set_solver|done..|].
      apply (IH s1 n1 l1) in Hrun as (Ht & k & Hk & Hs & Hkl & Hc); [|set_solver|done..].
      rewrite (pending_apply all s m s1 l ms) in * by (done || set_solver).
      split; [done|]. exists (S k). cbn [take length]. rewrite !apply_seq_cons, Hok. simpl.
      split_and!; [lia|done|intros ->; f_equal; auto|done].
  - intros [= <- <-]. split; [done|]. destruct (Herr ltac:(done)) as [->|[Hrec Ha]].
    + exists 0. split_and!; [lia|done|done|]. intros HF Hs.
      assert (recorded s m \/ is_Some (apply_one s m)) as Hd; [|by specialize (Hcalm HF Hd)].
      destruct (decide (recorded s m)) as [|Hrec]; [by left|right].
      rewrite decide_True, apply_seq_cons in Hs by done.
      destruct (apply_one s m); [done|by destruct Hs].
    + exists 1. rewrite decide_True by done. cbn [take length]. rewrite !apply_seq_cons, Ha.
      rewrite take_0. split_and!; [lia|done|done|]. intros HF _.
      assert (is_Some (apply_one s m)) as Hd by (by rewrite Ha). by specialize (Hcalm HF (or_intror Hd)).
Qed.
End Faults.

(** The ledger holds what it held and the versions applied. *)
Lemma apply_seq_ledger all ms s s' l :
  bodies_ok all -> ms ⊆ all -> apply_seq ms s = Some s' -> m_ledger s = Some l ->
  exists l', m_ledger s' = Some l' /\ dom l' = dom l ∪ list_to_set (mg_version <$> ms).
Proof.
  intros Hb. revert s l. induction ms as [|m ms IH]; intros s l Hsub Hs Hl.
  { injection Hs as <-. exists l. split; [done|]. simpl. by rewrite (right_id_L ∅ (∪)). }
  rewrite apply_seq_cons in Hs. apply bind_Some in Hs as (s1 & H1 & Hs).
  destruct (apply_one_ledger all s m s1 l) as (l1 & Hl1 & Hin & Hrest); [done|set_solver|done..|].
  destruct (IH s1 l1) as (l' & Hl' & Hd); [set_solver|done..|]. exists l'. split; [done|].
  rewrite Hd, fmap_cons. cbn [list_to_set]. rewrite (assoc_L (∪)). f_equal.
  apply set_eq. intros v. rewrite elem_of_union, elem_of_singleton, !elem_of_dom.
  destruct (decide (v = mg_version m)) as [->|Hv]; [tauto|]. rewrite Hrest by done. tauto.
Qed.

Lemma all_recorded ms s s' l :
  bodies_ok ms -> apply_seq (pending s ms) s = Some s' -> m_ledger s = Some l -> pending s' ms = [].
Proof.
  intros Hb Hs Hl. destruct (apply_seq_ledger ms (pending s ms) s s' l) as (l' & Hl' & Hd);
    [done|by intros x [_ ?]%list_elem_of_filter|done..|].
  apply nil_length_inv, length_filter_none. intros m Hm Hn. apply Hn. unfold recorded. rewrite Hl'. simpl.
  apply elem_of_dom. rewrite Hd, elem_of_union.
  destruct (decide (recorded s m)) as [Hr|Hr].
  - left. unfold recorded in Hr. rewrite Hl in Hr. by apply elem_of_dom.
  - right. apply elem_of_list_to_set, list_elem_of_fmap_2. by apply list_elem_of_filter.
Qed.

Lemma RunMigrations_run `{SortSlice} F ms s n r w' :
  collect entries = Ok ms -> NoDup (mg_version <$> ms) -> bodies_ok ms ->
  mrun F (RunMigrations (Some entries)) (mkMWorld s None n) = (r, w') ->
  mw_tx w' = None /\
  (mw_db w' = s /\ r <> Ok tt /\ F n <> NoFault \/
   exists k, k <= length (pending s (sort_slice ms)) /\
     apply_seq (take k (pending s (sort_slice ms))) (create_ledger s) = Some (mw_db w') /\
     (r = Ok tt -> k = length (pending s (sort_slice ms)))) /\
  ((forall i, F i = NoFault) -> is_Some (apply_seq (pending s (sort_slice ms)) (create_ledger s)) ->
   r = Ok tt).
Proof.
  intros Hc Hnd Hb. pose proof (sort_slice_perm ms) as Hp.
  unfold RunMigrations, try_catch. simpl. unfold exec_mcmd at 1. simpl. rewrite Hc.
  destruct (F n) eqn:Fn; simpl.
  - intros Hrun. eapply (apply_migrations_run F ms) in Hrun as (Ht & k & Hk & Hs & Hr & Hcalm);
      [|done|by rewrite Hp|by rewrite Hp|done]. split_and!; [done|right; by exists k|done].
  - intros [= <- <-]. split_and!; [done|left; split_and!; [done..|congruence]|].
    intros HF. by rewrite HF in Fn.
  - intros [= <- <-]. split_and!; [done| |intros HF; by rewrite HF in Fn].
    right. exists 0. split_and!; [lia|done|done].
Qed.

Lemma bodies_ok_sorted `{SortSlice} ms : bodies_ok ms -> bodies_ok (sort_slice ms).
Proof. intros Hb m body s1 s2 l Hm. apply Hb. by rewrite (sort_slice_perm ms) in Hm. Qed.

(** After a run without an error nothing is pending. *)
Lemma RunMigrations_nothing_pending `{SortSlice} F ms s n w' :
  collect entries = Ok ms -> NoDup (mg_version <$> ms) -> bodies_ok ms ->
  mrun F (RunMigrations (Some entries)) (mkMWorld s None n) = (Ok tt, w') ->
  pending (mw_db w') (sort_slice ms) = [].
Proof.
  intros Hc Hnd Hb Hrun.
  destruct (RunMigrations_run F ms s n (Ok tt) w' Hc Hnd Hb Hrun)
    as (_ & [(_ & Hn & _)|(k & Hk & Hs & Hr)] & _); [done|].
  rewrite Hr, firstn_all in Hs by done.
  by apply (all_recorded (sort_slice ms) (create_ledger s) _ (default ∅ (m_ledger s))) in Hs;
    [|apply bodies_ok_sorted|].
Qed.
End Correct.

(** What is assumed of the embedded files: distinct versions, and texts that
    write no other rows of the ledger than their own. *)
Definition fs_ok {Schema : Type} `{ExecSQL Schema} (fs : option (list dir_entry)) : Prop :=
  forall entries ms, fs = Some entries -> collect entries = Ok ms ->
    NoDup (mg_version <$> ms) /\ bodies_ok entries ms.

(** Nothing is left to be applied. *)
Definition up_to_date {Schema : Type} `{SortSlice} (fs : option (list dir_entry)) (s : mstate Schema) : Prop :=
  exists entries ms, fs = Some entries /\ collect entries = Ok ms /\ pending s (sort_slice ms) = [].

Lemma RunMigrations_up_to_date {Schema : Type} `{ExecSQL Schema, SortSlice} F fs s n w' :
  fs_ok fs -> mrun F (RunMigrations fs) (mkMWorld s None n) = (Ok tt, w') -> up_to_date fs (mw_db w').
Proof.
  intros Hfs. destruct fs as [entries|].
  - destruct (collect entries) as [ms|e] eqn:Hc.
    + destruct (Hfs entries ms eq_refl Hc) as [Hnd Hb]. intros Hrun. exists entries, ms.
      split_and!; [done..|]. by eapply RunMigrations_nothing_pending.
    + unfold RunMigrations, try_catch. simpl. rewrite Hc. destruct (exec_mcmd F CreateLedger _) as [[] ?]; done.
  - unfold RunMigrations, try_catch. simpl. destruct (exec_mcmd F CreateLedger _) as [[] ?]; done.
Qed.

(** ** Properties *)

(** C15: whatever calls fail and whenever, [RunMigrations] leaves the database
    with exactly the first [k] of the migrations that were pending applied, in
    the order of their versions and each one entirely, the ledger extended by
    exactly their versions, and no transaction open.  If it returns no error
    nothing is pending any more and running it again, even with failures,
    changes nothing; without failures and with bodies the server accepts it
    returns no error. *)
Theorem RunMigrations_correct `{SortSlice} {Schema : Type} `{ExecSQL Schema}
    (entries : list dir_entry) (ms : list migration) (F : nat -> fault) (s : mstate Schema) (n : nat)
    (r : result mig_error unit) (w' : mworld Schema) :
  collect entries = Ok ms -> NoDup (mg_version <$> ms) -> bodies_ok entries ms ->
  mrun F (RunMigrations (Some entries)) (mkMWorld s None n) = (r, w') ->
  let todo := pending s (sort_slice ms) in
  mw_tx w' = None /\ StronglySorted version_le todo /\
  (mw_db w' = s /\ r <> Ok tt \/
   exists k l', k <= length todo /\
     apply_seq entries (take k todo) (create_ledger s) = Some (mw_db w') /\
     m_ledger (mw_db w') = Some l' /\
     dom l' = dom (default ∅ (m_ledger s)) ∪ list_to_set (mg_version <$> take k todo) /\
     (r = Ok tt -> k = length todo)) /\
  ((forall i, F i = NoFault) -> is_Some (apply_seq entries todo (create_ledger s)) -> r = Ok tt) /\
  (r = Ok tt -> forall F' n',
     mw_db (mrun F' (RunMigrations (Some entries)) (mkMWorld (mw_db w') None n')).2 = mw_db w').
Proof.
  intros Hc Hnd Hb Hrun todo.
  destruct (RunMigrations_run entries F ms s n r w' Hc Hnd Hb Hrun) as (Ht & Hdb & Hcalm).
  assert (todo ⊆ ms) as Hsub.
  { intros m [_ Hm]%list_elem_of_filter. by rewrite (sort_slice_perm ms) in Hm. }
  assert (forall k, apply_seq entries (take k todo) (create_ledger s) = Some (mw_db w') ->
    exists l', m_ledger (mw_db w') = Some l' /\
      dom l' = dom (default ∅ (m_ledger s)) ∪ list_to_set (mg_version <$> take k todo)) as Hledger.
  { intros k Hs. eapply apply_seq_ledger; [exact Hb| |exact Hs|done]. by etrans; [apply subseteq_take|]. }
  split_and!; [done| | |done|].
  - apply StronglySorted_filter, Sorted_StronglySorted; [apply _|apply sort_slice_sorted].
  - destruct Hdb as [(? & ? & _)|(k & Hk & Hs & Hr)]; [by left|right].
    destruct (Hledger k Hs) as (l' & Hl' & Hd). by exists k, l'.
  - intros -> F' n'. destruct Hdb as [(_ & Hn & _)|(k & Hk & Hs & Hr)]; [done|].
    destruct (Hledger k Hs) as (l' & Hl' & _).
    apply (RunMigrations_nothing_pending entries F ms) in Hrun; [|done..].
    destruct (mrun F' _ _) as [r2 w2] eqn:H2. cbn [snd].
    apply (RunMigrations_run entries F' ms) in H2 as (_ & [(-> & _)|(k2 & _ & Hs2 & _)] & _); [done| |done..].
    rewrite Hrun, take_nil in Hs2. injection Hs2 as <-. unfold create_ledger. rewrite Hl'. simpl.
    destruct (mw_db w'); simpl in *; congruence.
Qed.

(** ** Witnesses and findings *)

(** A sorting routine, and a server whose schema is the list of the texts it
    ran; the text of the first file inserts its own row, as [001_init.sql]
    does. *)
#[export] Program Instance merge_sort_slice : SortSlice := { sort_slice := merge_sort version_le }.
Next Obligation. intros ms. apply merge_sort_Permutation. Qed.
Next Obligation. intros ms. apply (Sorted_merge_sort version_le). Qed.

#[local] Instance text_log : ExecSQL (list string) := fun body s =>
  if decide (body = "syntax error") then Err (PgError "42601")
  else Ok (mkMState (if decide (body = "init") then <[1%Z := "init"]> <$> m_ledger s else m_ledger s)
             (m_schema s ++ [body])).

Definition two_files : list dir_entry :=
  [mkEntry "001_init.sql" false "init"; mkEntry "002_harden_audit.sql" false "harden";
   mkEntry "README.md" false "text"].

Definition two_migrations : list migration :=
  [mkMigration 1 "init" "migrations/001_init.sql"; mkMigration 2 "harden_audit" "migrations/002_harden_audit.sql"].

Lemma two_files_ok : collect two_files = Ok two_migrations /\ bodies_ok (Schema := list string) two_files two_migrations.
Proof.
  split; [reflexivity|]. intros m body s s' l Hm Hf Hx Hl.
  unfold exec_sql, text_log in Hx. case_decide; [done|]. injection Hx as <-. simpl. rewrite Hl.
  case_decide as Hi; [|by exists l]. simpl. eexists. split; [done|]. intros v Hv.
  apply elem_of_cons in Hm as [->|Hm]; [by rewrite lookup_insert_ne by done|].
  apply list_elem_of_singleton in Hm as ->. vm_compute in Hf. subst body. discriminate Hf.
Qed.

(** The commit of the second file is lost: the first one is applied. *)
Lemma RunMigrations_correct_witness :
  let F := fun i => if decide (i = 10) then FailBefore else NoFault in
  let s := mkMState None ([] : list string) in
  let (r, w') := mrun F (RunMigrations (Some two_files)) (mkMWorld s None 0) in
  r = Err (Committing 2 ErrDriver) /\ m_schema (mw_db w') = ["init"] /\ mw_tx w' = None.
Proof.
  intros F s.
  destruct (mrun F (RunMigrations (Some two_files)) (mkMWorld s None 0)) as [r w'] eqn:E.
  pose proof (RunMigrations_correct two_files two_migrations F s 0 r w'
    (proj1 two_files_ok) ltac:(apply (bool_decide_unpack _); vm_compute; exact I)
    (proj2 two_files_ok) E) as (Ht & _).
  vm_compute in E. injection E as <- <-. split; [reflexivity|]. split; [reflexivity|exact Ht].
Defined.

(** Two files with the same version: the second is skipped without an error. *)
Lemma duplicate_version_skipped :
  let files := [mkEntry "001_a.sql" false "a"; mkEntry "001_b.sql" false "b"] in
  let (r, w') := mrun (fun _ => NoFault) (RunMigrations (Some files))
                   (mkMWorld (mkMState None ([] : list string)) None 0) in
  r = Ok tt /\ m_schema (mw_db w') = ["a"].
Proof. vm_compute. split; reflexivity. Qed.

(** Run the first [n] commands of a program. *)
Fixpoint mrun_for {Schema} `{ExecSQL Schema} {A} (F : nat -> fault) (n : nat) (p : prog mcmd A)
    (w : mworld Schema) : prog mcmd A * mworld Schema :=
  match n, p with
  | S n', Act c k => let (x, w') := exec_mcmd F c w in mrun_for F n' (k x) w'
  | _, _ => (p, w)
  end.

(** Two servers that start together: one finds a migration pending, the other
    applies it, and the first applies it again. *)
Lemma concurrent_start_runs_twice :
  let F := fun _ => NoFault in
  let files := Some [mkEntry "001_seed.sql" false "seed"] in
  let w := mkMWorld (mkMState None ([] : list string)) None 0 in
  let (first, w1) := mrun_for F 2 (RunMigrations files) w in
  let (r2, w2) := mrun F (RunMigrations files) w1 in
  let (r1, w3) := mrun F first w2 in
  r1 = Ok tt /\ r2 = Ok tt /\ m_schema (mw_db w3) = ["seed"; "seed"].
Proof. vm_compute. split_and!; reflexivity. Qed.

(** The names of the repository's files. *)
Example parse_names :
  parseMigrationFilename <$> ["002_harden_audit.sql"; "_x.sql"; "12.sql"; "1x_y.sql"; "-3_neg.sql"] =
  [Ok (2%Z, "harden_audit"); Err (BadFilename "_x.sql"); Err (BadFilename "12.sql");
   Err (BadVersion "1x_y.sql" ErrSyntax); Ok ((-3)%Z, "neg")].
Proof. vm_compute. reflexivity. Qed.
