(* ===== verification/Server.v ===== *)
(** * Server

    [src/cmd/server/main.go] and [health.go], [src/internal/db/postgres.go]
    and [redis.go]: the start-up sequence with its deferred clean-up, the
    shutdown, and the probes.  The programs of the other components run
    inside it: the configuration is loaded, the migrations are applied over a
    pool of their own, the administrator is bootstrapped, and only then the
    server listens.  Which datastores answered a ping is part of the state. *)

From S2P Require Import Prelude GoFmt GoString Netip Models Database Effects Invariant Auth Config Migrate.

(** ** Data *)

(** What [NewPool] sets of a [pgxpool.Config]; the connection itself is what
    [pgxpool.ParseConfig] made of the URL. *)
Record pool_config := mkPoolConfig {
  pc_Conn : string;
  pc_MaxConns : Z;
  pc_MinConns : Z;
  pc_MaxConnLifetime : Z;
  pc_MaxConnIdleTime : Z;
  pc_HealthCheckPeriod : Z
}.

(** [pgxpool.ParseConfig]: the parsed connection or the text of the error. *)
Class ParseConfig := pgxpool_ParseConfig : string -> result string string.

(** The middleware around every route, outermost first. *)
Inductive middleware :=
| UseLogger
| UseRecoverer
| UseClientIP (trusted : list Prefix)
| UseRequestID
| UseSecurityHeaders
| UseBodyLimit (maxBytes : Z)
| UseTimeout (d : Z)
| UseCORS (origins : list string).

(** The [http.Server] and what the services and the middleware are built with. *)
Record http_server := mkHttpServer {
  sv_Addr : string;
  sv_ReadTimeout : Z;
  sv_WriteTimeout : Z;
  sv_IdleTimeout : Z;
  sv_JWTSecret : string;
  sv_JWTExpiry : Z;
  sv_MaxWinners : Z;
  sv_LockTTL : Z;
  sv_LockWait : Z;
  sv_Middleware : list middleware;
  sv_APILimit : Z * Z;
  sv_AuthLimit : Z * Z;
  sv_AccountLimit : Z * Z
}.

Inductive log_level := DebugLevel | InfoLevel | WarnLevel | ErrorLevel.
Record logger_config := mkLogger { lg_pretty : bool; lg_level : log_level }.

(** Why the [select] at the end of [run] went on. *)
Inductive exit_event := SignalReceived (sig : string) | ServerFailed (err : string).

Inductive server_error :=
| LoadFailed (e : load_error)
| ParsingURL (e : string)
| CreatingPool (e : string)
| PingingDatabase (e : string)
| PingingRedis (e : string)
| MigrationFailed (e : mig_error)
| BootstrapFailed (e : auth_error)
| ForcedShutdown (e : string).

(** ** Commands *)

Inductive scmd : Type -> Type :=
| SetLogger (l : logger_config) : scmd unit
| NewWithConfig (c : pool_config) : scmd (result string nat)     (* a handle *)
| PingPool (p : nat) : scmd (result string unit)
| ClosePool (p : nat) : scmd unit
| NewClient (o : redis_options) : scmd nat
| PingClient (c : nat) : scmd (result string unit)
| CloseClient (c : nat) : scmd unit
| OverPoolMig {A : Type} (p : nat) (m : prog mcmd A) : scmd A    (* a migration program *)
| OverPool {A : Type} (p : nat) (m : program A) : scmd A         (* a service method *)
| ListenAndServe (pool client : nat) (s : http_server) : scmd unit
| WaitExit : scmd exit_event
| Shutdown (timeout : Z) : scmd (result string unit).

(** ** Connections *)

Definition NewPool `{ParseConfig} (databaseURL : string) (maxConns minConns : Z)
  : prog scmd (result server_error nat) :=
  match pgxpool_ParseConfig databaseURL with
  | Err e => mret (Err (ParsingURL e))
  | Ok conn =>
    try pool := perform (NewWithConfig
        (mkPoolConfig conn maxConns minConns (30 * Minute) (5 * Minute) (1 * Minute)))
      catch e => CreatingPool e in
    r ← perform (PingPool pool);
    match r with
    | Err e => perform (ClosePool pool);; mret (Err (PingingDatabase e))
    | Ok _ => mret (Ok pool)
    end
  end.

Definition NewRedis (opts : redis_options) : prog scmd (result server_error nat) :=
  client ← perform (NewClient opts);
  r ← perform (PingClient client);
  match r with
  | Err e => perform (CloseClient client);; mret (Err (PingingRedis e))
  | Ok _ => mret (Ok client)
  end.

(** ** [run] *)

Definition configureLogger (env : environment) : logger_config :=
  mkLogger (bool_decide (env "PRETTY" = "true"))
    (let level := env "LOG_LEVEL" in
     if decide (level = "debug") then DebugLevel
     else if decide (level = "warn") then WarnLevel
     else if decide (level = "error") then ErrorLevel
     else InfoLevel).

Definition middleware_stack (cfg : Config) : list middleware :=
  [UseLogger; UseRecoverer; UseClientIP (TrustedProxies cfg); UseRequestID; UseSecurityHeaders;
   UseBodyLimit (MaxRequestBytes cfg); UseTimeout (30 * Second)] ++
  (if decide (0 < length (CORSAllowedOrigins cfg)) then [UseCORS (CORSAllowedOrigins cfg)] else []).

Definition server_of (cfg : Config) : http_server := {|
  sv_Addr := ":" +:+ Port cfg;
  sv_ReadTimeout := ReadTimeout cfg;
  sv_WriteTimeout := WriteTimeout cfg;
  sv_IdleTimeout := IdleTimeout cfg;
  sv_JWTSecret := JWTSecret cfg;
  sv_JWTExpiry := JWTExpiry cfg;
  sv_MaxWinners := MaxWinners cfg;
  sv_LockTTL := LockTTL cfg;
  sv_LockWait := LockWait cfg;
  sv_Middleware := middleware_stack cfg;
  sv_APILimit := (APILimitRequests cfg, APILimitWindow cfg);
  sv_AuthLimit := (AuthLimitRequests cfg, AuthLimitWindow cfg);
  sv_AccountLimit := (AccountLimitRequests cfg, AccountLimitWindow cfg)
|}.

Section Server.
Context `{UnicodeLower, ParseURL, ParseConfig, SortSlice, Bcrypt, Mail, Signer}.
Variable migrationsFS : option (list dir_entry).

Definition migrate (cfg : Config) : prog scmd (result server_error unit) :=
  let url := if decide (MigrationDatabaseURL cfg = "") then DatabaseURL cfg
             else MigrationDatabaseURL cfg in
  try pool := NewPool url 2 0 catch e => e in
  r ← perform (OverPoolMig pool (RunMigrations migrationsFS));
  perform (ClosePool pool);;
  mret (map_err MigrationFailed r).

Definition bootstrap (cfg : Config) (pool : nat) : prog scmd (result server_error unit) :=
  if decide (BootstrapAdminEmail cfg <> "" /\ BootstrapAdminPassword cfg <> "") then
    r ← perform (OverPool pool (BootstrapAdmin (BootstrapAdminEmail cfg) (BootstrapAdminPassword cfg)
                                  (BootstrapAdminName cfg)));
    mret (map_err BootstrapFailed r)
  else mret (Ok tt).

(** From [ListenAndServe] to the end: the server's failure is logged, and the
    result is that of the shutdown either way. *)
Definition serve (cfg : Config) (pool client : nat) : prog scmd (result server_error unit) :=
  perform (ListenAndServe pool client (server_of cfg));;
  _ ← perform WaitExit;
  r ← perform (Shutdown (ShutdownTimeout cfg));
  mret (map_err ForcedShutdown r).

Definition run_with (cfg : Config) : prog scmd (result server_error unit) :=
  try _ := (if MigrateOnStart cfg then migrate cfg else mret (Ok tt)) catch e => e in
  try pgPool := NewPool (DatabaseURL cfg) (DBMaxConns cfg) (DBMinConns cfg) catch e => e in
  r ← (try redisClient := NewRedis (RedisOptions cfg) catch e => e in
       r ← (try _ := bootstrap cfg pgPool catch e => e in serve cfg pgPool redisClient);
       perform (CloseClient redisClient);; mret r);
  perform (ClosePool pgPool);; mret r.

Definition run (env : environment) : prog scmd (result server_error unit) :=
  perform (SetLogger (configureLogger env));;
  match Load env with
  | Err e => mret (Err (LoadFailed e))
  | Ok cfg => run_with cfg
  end.

(** [main]: [log.Fatal] ends the process with status 1. *)
Definition exit_status (r : result server_error unit) : Z := if is_ok r then 0 else 1.
End Server.

(** ** Probes *)

(** The answer of a probe: status, the field [status] of the body, and its
    field [checks] in key order (an absent field is the empty list). *)
Record probe := mkProbe { pr_code : Z; pr_status : string; pr_checks : list (string * string) }.

Definition livenessHandler : prog scmd probe := mret (mkProbe 200 "ok" []).

Definition readinessHandler (pool client : nat) : prog scmd probe :=
  pg ← perform (PingPool pool);
  rd ← perform (PingClient client);
  let check := fun r : result string unit => match r with Ok _ => "ok" | Err e => "down: " +:+ e end in
  let status := if is_ok pg && is_ok rd then 200%Z else 503%Z in
  mret (mkProbe status (if decide (status = 200)%Z then "ok" else "degraded")
          [("postgres", check pg); ("redis", check rd)]).

(** ** The interpreter *)

Section Run.
Context {Schema : Type} `{ExecSQL Schema}.

(** What the code does not decide: which calls fail, why the server ends, and
    the fate of the calls inside migrations and service methods. *)
Record senv := mkSEnv {
  se_fault : nat -> option string;
  se_exit : exit_event;
  se_mig : nat -> fault;
  se_svc : Effects.env
}.

(** The state of the system when the server started to listen: the handles it
    was given, and whether each of them had answered its last ping. *)
Record snapshot := mkSnapshot {
  sn_server : http_server;
  sn_pool : option pool_config;
  sn_client : option redis_options;
  sn_reached : bool * bool;
  sn_mig : mstate Schema;
  sn_tables : Tables
}.

(** Open handles, the handles that answered their last ping, the database as
    migrations and as services see it, whether the server listens and how it
    started, and whether a closed handle was ever used. *)
Record sworld := mkSWorld {
  sw_next : nat;
  sw_pools : gmap nat pool_config;
  sw_clients : gmap nat redis_options;
  sw_alive : gset nat;
  sw_mig : mstate Schema;
  sw_svc : world;
  sw_listening : bool;
  sw_served : option snapshot;
  sw_misused : bool;
  sw_step : nat
}.

Variable E : senv.

Definition put_handles (next : nat) (pools : gmap nat pool_config) (clients : gmap nat redis_options)
    (misused : bool) (w : sworld) : sworld :=
  mkSWorld next pools clients (sw_alive w) (sw_mig w) (sw_svc w) (sw_listening w) (sw_served w)
    (sw_misused w || misused) (S (sw_step w)).
Definition put_data (m : mstate Schema) (s : world) (misused : bool) (w : sworld) : sworld :=
  mkSWorld (sw_next w) (sw_pools w) (sw_clients w) (sw_alive w) m s (sw_listening w) (sw_served w)
    (sw_misused w || misused) (S (sw_step w)).
Definition put_listen (l : bool) (sn : option snapshot) (misused : bool) (w : sworld) : sworld :=
  mkSWorld (sw_next w) (sw_pools w) (sw_clients w) (sw_alive w) (sw_mig w) (sw_svc w) l sn
    (sw_misused w || misused) (S (sw_step w)).

Definition put_ping (i : nat) (answered misused : bool) (w : sworld) : sworld :=
  mkSWorld (sw_next w) (sw_pools w) (sw_clients w)
    (if answered then {[ i ]} ∪ sw_alive w else sw_alive w ∖ {[ i ]})
    (sw_mig w) (sw_svc w) (sw_listening w) (sw_served w) (sw_misused w || misused) (S (sw_step w)).

(** The handle is closed. *)
Definition closed {A} (m : gmap nat A) (i : nat) : bool := bool_decide (m !! i = None).

Definition exec_scmd {X} (c : scmd X) (w : sworld) : X * sworld :=
  let answer := match se_fault E (sw_step w) with None => Ok tt | Some e => Err e end in
  let same := fun bad => put_handles (sw_next w) (sw_pools w) (sw_clients w) bad w in
  match c in scmd X return X * sworld with
  | SetLogger _ => (tt, same false)
  | NewWithConfig cfg =>
    match answer with
    | Ok _ => (Ok (sw_next w),
               put_handles (S (sw_next w)) (<[sw_next w := cfg]> (sw_pools w)) (sw_clients w) false w)
    | Err e => (Err e, same false)
    end
  | PingPool p => (answer, put_ping p (is_ok answer) (closed (sw_pools w) p) w)
  | ClosePool p => (tt, put_handles (sw_next w) (delete p (sw_pools w)) (sw_clients w)
                          (closed (sw_pools w) p) w)
  | NewClient o => (sw_next w,
                    put_handles (S (sw_next w)) (sw_pools w) (<[sw_next w := o]> (sw_clients w)) false w)
  | PingClient i => (answer, put_ping i (is_ok answer) (closed (sw_clients w) i) w)
  | CloseClient i => (tt, put_handles (sw_next w) (sw_pools w) (delete i (sw_clients w))
                            (closed (sw_clients w) i) w)
  | OverPoolMig p m =>
    let (a, mw) := mrun (se_mig E) m (mkMWorld (sw_mig w) None 0) in
    (a, put_data (mw_db mw) (sw_svc w) (closed (sw_pools w) p) w)
  | OverPool p m =>
    let (a, s) := Effects.run (se_svc E) m (sw_svc w) in
    (a, put_data (sw_mig w) s (closed (sw_pools w) p) w)
  | ListenAndServe p i s =>
    (tt, put_listen true
           (Some (mkSnapshot s (sw_pools w !! p) (sw_clients w !! i)
                    (bool_decide (p ∈ sw_alive w), bool_decide (i ∈ sw_alive w))
                    (sw_mig w) (w_tables (sw_svc w))))
           (closed (sw_pools w) p || closed (sw_clients w) i) w)
  | WaitExit => (se_exit E, same false)
  | Shutdown _ => (answer, put_listen false (sw_served w) false w)
  end.

Fixpoint srun {A} (p : prog scmd A) (w : sworld) : A * sworld :=
  match p with
  | Ret a => (a, w)
  | Act c k => let (x, w') := exec_scmd c w in srun (k x) w'
  end.
End Run.
Arguments snapshot : clear implicits.
Arguments sworld : clear implicits.

(** ** Reasoning about [srun] *)

Section Wp.
Context {Schema : Type} `{ExecSQL Schema} {E : senv}.
Abbreviation sworld := (sworld Schema).

Definition swp {A} (p : prog scmd A) (Q : A -> sworld -> Prop) (w : sworld) : Prop :=
  Q (srun E p w).1 (srun E p w).2.

Lemma swp_ret {A} (a : A) (Q : A -> sworld -> Prop) w : Q a w -> swp (Ret a) Q w.
Proof. done. Qed.

Lemma srun_bind {A B} (p : prog scmd A) (k : A -> prog scmd B) w :
  srun E (p ≫= k) w = (let (a, w') := srun E p w in srun E (k a) w').
Proof.
  revert w. induction p as [a|X c q IH]; intros w; [done|]. simpl.
  destruct (exec_scmd E c w) as [x w']. apply IH.
Qed.

Lemma swp_bind {A B} (p : prog scmd A) (k : A -> prog scmd B) Q w :
  swp p (fun a w' => swp (k a) Q w') w -> swp (p ≫= k) Q w.
Proof. unfold swp. rewrite srun_bind. by destruct (srun E p w). Qed.

Lemma swp_act {X A} (c : scmd X) (k : X -> prog scmd A) Q w :
  swp (k (exec_scmd E c w).1) Q (exec_scmd E c w).2 -> swp (Act c k) Q w.
Proof. unfold swp. simpl. by destruct (exec_scmd E c w). Qed.

Lemma swp_try {E1 E2 A B} (p : prog scmd (result E1 A)) (h : E1 -> E2)
    (k : A -> prog scmd (result E2 B)) Q w :
  swp p (fun r w' => match r with Ok a => swp (k a) Q w' | Err e => Q (Err (h e)) w' end) w ->
  swp (try_catch p h k) Q w.
Proof. intros Hp. apply swp_bind. unfold swp in *. by destruct (srun E p w) as [[] w']. Qed.

Lemma swp_mono {A} (p : prog scmd A) (Q Q' : A -> sworld -> Prop) w :
  swp p Q w -> (forall a w', Q a w' -> Q' a w') -> swp p Q' w.
Proof. unfold swp. auto. Qed.

Lemma swp_run {A} (p : prog scmd A) w a w' :
  srun E p w = (a, w') -> forall Q : A -> sworld -> Prop, swp p Q w -> Q a w'.
Proof. unfold swp. by intros -> Q. Qed.
End Wp.
#[global] Opaque swp.

(** ** The pieces *)

Section Lifecycle.
Context `{UnicodeLower, ParseURL, ParseConfig, SortSlice, Bcrypt, Mail, Signer}.
Context {Schema : Type} `{ExecSQL Schema} {E : senv}.
Variable fs : option (list dir_entry).
Abbreviation sworld := (sworld Schema).

Definition pool_of (conn : string) (maxConns minConns : Z) : pool_config :=
  mkPoolConfig conn maxConns minConns (30 * Minute) (5 * Minute) (1 * Minute).

(** The server is not listening and no closed handle was used. *)
Abbreviation quiet nx pools clients al m s n :=
  (mkSWorld nx pools clients al m s false None false n : sworld).

Lemma closed_insert {A} (m : gmap nat A) i x : closed (<[i := x]> m) i = false.
Proof. unfold closed. by rewrite lookup_insert_eq, bool_decide_false. Qed.

Lemma closed_singleton {A} i (x : A) : closed ({[i := x]} : gmap nat A) i = false.
Proof. apply closed_insert. Qed.

Lemma delete_only {A} i (x : A) : delete i ({[i := x]} : gmap nat A) = ∅.
Proof. unfold singletonM, map_singleton. by rewrite delete_insert_eq, delete_empty. Qed.

Ltac go := apply swp_act; unfold exec_scmd, put_handles, put_data, put_listen, put_ping;
  cbn [fst snd orb sw_next sw_pools sw_clients sw_alive sw_mig sw_svc sw_listening sw_served sw_misused sw_step];
  rewrite ?closed_insert, ?closed_singleton; cbn [orb].

Lemma NewPool_swp url a b nx cl al m s n (Q : result server_error nat -> sworld -> Prop) :
  (forall e nx' al' n', Q (Err e) (quiet nx' ∅ cl al' m s n')) ->
  (forall conn n', pgxpool_ParseConfig url = Ok conn ->
     Q (Ok nx) (quiet (S nx) {[nx := pool_of conn a b]} cl ({[ nx ]} ∪ al) m s n')) ->
  swp (E := E) (NewPool url a b) Q (quiet nx ∅ cl al m s n).
Proof.
  intros Herr Hok. unfold NewPool. destruct (pgxpool_ParseConfig url) as [conn|e]; [|by apply swp_ret].
  apply swp_try. go. destruct (se_fault E n) as [e|]; cbn [fst snd]; [by apply swp_ret|]. apply swp_ret.
  apply swp_bind. go. apply swp_ret. destruct (se_fault E (S n)) as [e|].
  - apply swp_bind. go. rewrite delete_insert_eq, delete_empty. by apply swp_ret, swp_ret.
  - apply swp_ret. by apply Hok.
Qed.

Lemma NewRedis_swp o nx pools al m s n (Q : result server_error nat -> sworld -> Prop) :
  (forall e nx' al' n', Q (Err e) (quiet nx' pools ∅ al' m s n')) ->
  (forall n', Q (Ok nx) (quiet (S nx) pools {[nx := o]} ({[ nx ]} ∪ al) m s n')) ->
  swp (E := E) (NewRedis o) Q (quiet nx pools ∅ al m s n).
Proof.
  intros Herr Hok. unfold NewRedis. apply swp_bind. go. apply swp_ret, swp_bind. go. apply swp_ret.
  destruct (se_fault E (S n)) as [e|].
  - apply swp_bind. go. rewrite delete_insert_eq, delete_empty. by apply swp_ret, swp_ret.
  - apply swp_ret. apply Hok.
Qed.

Lemma migrate_swp cfg nx al m s n (Q : result server_error unit -> sworld -> Prop) :
  fs_ok (Schema := Schema) fs ->
  (forall e nx' al' m' n', Q (Err e) (quiet nx' ∅ ∅ al' m' s n')) ->
  (forall nx' al' m' n', up_to_date fs m' -> Q (Ok tt) (quiet nx' ∅ ∅ al' m' s n')) ->
  swp (E := E) (migrate fs cfg) Q (quiet nx ∅ ∅ al m s n).
Proof.
  intros Hfs Herr Hok. unfold migrate. apply swp_try, NewPool_swp; [done|]. intros conn n' _.
  apply swp_bind, swp_act. unfold exec_scmd. cbn [sw_mig].
  destruct (mrun (se_mig E) (RunMigrations fs) _) as [r w'] eqn:Hrun.
  unfold put_data. cbn [fst snd sw_next sw_pools sw_clients sw_alive sw_mig sw_svc sw_listening sw_served sw_misused sw_step].
  rewrite closed_singleton. cbn [orb]. apply swp_ret, swp_bind. go.
  rewrite delete_only. apply swp_ret, swp_ret. destruct r as [[]|e]; simpl; [|done].
  apply Hok. by eapply RunMigrations_up_to_date.
Qed.

(** The account the configuration names is an administrator. *)
Definition admin_ensured (cfg : Config) (t : Tables) : Prop :=
  BootstrapAdminEmail cfg <> "" /\ BootstrapAdminPassword cfg <> "" ->
  exists id u, t_users t !! id = Some u /\
    user_Email u = normalize_email (BootstrapAdminEmail cfg) /\ user_Role u = "admin".

(** What holds when the server starts to listen: it is built from the
    configuration, both datastores are open with the configured options and
    have answered a ping, no migration is pending unless they are disabled,
    and the administrator exists. *)
Definition ready (cfg : Config) (sn : snapshot Schema) : Prop :=
  sn_server sn = server_of cfg /\
  (exists conn, pgxpool_ParseConfig (DatabaseURL cfg) = Ok conn /\
     sn_pool sn = Some (pool_of conn (DBMaxConns cfg) (DBMinConns cfg))) /\
  sn_client sn = Some (RedisOptions cfg) /\ sn_reached sn = (true, true) /\
  (MigrateOnStart cfg = true -> up_to_date fs (sn_mig sn)) /\
  admin_ensured cfg (sn_tables sn).

(** The end: no handle is open, the server does not listen; it either never
    did, and the process fails, or it was ready and the answer is that of the
    shutdown. *)
Definition finished (cfg : Config) (r : result server_error unit) (w : sworld) : Prop :=
  sw_pools w = ∅ /\ sw_clients w = ∅ /\ sw_listening w = false /\ sw_misused w = false /\
  match sw_served w with
  | None => is_ok r = false
  | Some sn => ready cfg sn /\ (r = Ok tt \/ exists e, r = Err (ForcedShutdown e))
  end.

Lemma bootstrap_swp cfg p pc cl al m s nx n (Q : result server_error unit -> sworld -> Prop) :
  tables_inv (w_tables s) -> t_users (w_tables s) !! next_user (w_seqs s) = None ->
  (forall e s' n', Q (Err e) (quiet nx {[p := pc]} cl al m s' n')) ->
  (forall s' n', admin_ensured cfg (w_tables s') -> Q (Ok tt) (quiet nx {[p := pc]} cl al m s' n')) ->
  swp (E := E) (bootstrap cfg p) Q (quiet nx {[p := pc]} cl al m s n).
Proof.
  intros Hinv Hnew Herr Hok. unfold bootstrap. case_decide as Hb.
  2: { apply swp_ret, Hok. by intros Hb'. }
  apply swp_bind, swp_act. unfold exec_scmd. cbn [sw_svc].
  destruct (Effects.run (se_svc E) _ s) as [r s'] eqn:Hrun.
  unfold put_data. cbn [fst snd sw_next sw_pools sw_clients sw_alive sw_mig sw_svc sw_listening sw_served sw_misused sw_step].
  rewrite closed_singleton. apply swp_ret, swp_ret. destruct r as [[]|e]; [|apply Herr].
  apply Hok. intros _.
  destruct (bootstrap_post_admin _ _ _ _ _ _ _ Hinv Hnew
    (wp_run _ _ _ _ _ Hrun (BootstrapAdmin_wp _ _ _ _ _))) as (id & u & ? & ? & ? & _). by exists id, u.
Qed.

(** Serving and the deferred [redisClient.Close]. *)
Lemma serve_swp cfg p pc i o al m s n :
  p ∈ al -> i ∈ al ->
  ready cfg (mkSnapshot (server_of cfg) (Some pc) (Some o) (true, true) m (w_tables s)) ->
  swp (E := E) (serve cfg p i) (fun r w =>
    exists sn n', ready cfg sn /\ (r = Ok tt \/ exists e, r = Err (ForcedShutdown e)) /\
      w = mkSWorld (S i) {[p := pc]} {[i := o]} al m s false (Some sn) false n')
    (quiet (S i) {[p := pc]} {[i := o]} al m s n).
Proof.
  intros Hp Hi Hr. unfold serve. apply swp_bind. go. rewrite !lookup_singleton_eq.
  rewrite !bool_decide_true by done.
  apply swp_ret, swp_bind. go. apply swp_ret, swp_bind. go. apply swp_ret, swp_ret.
  eexists _, _. split_and!; [exact Hr| |done].
  destruct (se_fault E (S (S n))); simpl; [right; by eexists|by left].
Qed.

Lemma run_with_swp cfg nx al m s n :
  fs_ok (Schema := Schema) fs ->
  tables_inv (w_tables s) -> t_users (w_tables s) !! next_user (w_seqs s) = None ->
  swp (E := E) (run_with fs cfg) (finished cfg) (quiet nx ∅ ∅ al m s n).
Proof.
  intros Hfs Hinv Hnew. unfold run_with. apply swp_try.
  assert (forall nx al m n, (MigrateOnStart cfg = true -> up_to_date fs m) ->
    swp (E := E) (try pgPool := NewPool (DatabaseURL cfg) (DBMaxConns cfg) (DBMinConns cfg) catch e => e in
      (r ← (try redisClient := NewRedis (RedisOptions cfg) catch e => e in
           r ← (try _ := bootstrap cfg pgPool catch e => e in serve cfg pgPool redisClient);
           perform (CloseClient redisClient);; mret r);
      perform (ClosePool pgPool);; mret r)) (finished cfg) (quiet nx ∅ ∅ al m s n)) as Hrest.
  { clear nx al m n. intros nx al m n Hmig. apply swp_try, NewPool_swp; [done|]. intros conn n1 Hconn.
    apply swp_bind, swp_try, NewRedis_swp.
    { intros e nx' al' n'. apply swp_bind. go. rewrite delete_only. by apply swp_ret, swp_ret. }
    intros n2. apply swp_bind, swp_try, bootstrap_swp; [done|done|..].
    { intros e s' n'. apply swp_bind. go. rewrite delete_only. apply swp_ret, swp_ret.
      apply swp_bind. go. rewrite delete_only. by apply swp_ret, swp_ret. }
    intros s' n' Hadm. eapply swp_mono; [apply serve_swp; [set_solver|set_solver|]|].
    { split_and!; [done|by exists conn|done..]. }
    intros r w' (sn & n3 & Hsn & Hr & ->). apply swp_bind. go. rewrite delete_only.
    apply swp_ret, swp_ret, swp_bind. go. rewrite delete_only. by apply swp_ret, swp_ret. }
  destruct (MigrateOnStart cfg) eqn:Hm; [|by apply swp_ret, Hrest].
  apply migrate_swp; [done|done|]. intros nx' al' m' n' Hup. by apply Hrest.
Qed.
End Lifecycle.

(** ** Properties *)

(** C14: whatever fails during start-up, service and shutdown, when [run]
    returns every connection pool and Redis client it opened is closed, none
    was used after it was closed, and the server does not listen.  If it ever
    listened, the configuration was valid and the server was built from it,
    both datastores were open with the configured options and had answered
    their pings, no migration was pending (unless disabled) and the bootstrap administrator existed; if it
    never did, the process exits with status 1. *)
Theorem run_lifecycle `{UnicodeLower, ParseURL, ParseConfig, SortSlice, Bcrypt, Mail, Signer}
    {Schema : Type} `{ExecSQL Schema} (E : senv) (fs : option (list dir_entry)) (env : environment)
    (m : mstate Schema) (s : world) (r : result server_error unit) (w' : sworld Schema) :
  fs_ok (Schema := Schema) fs ->
  tables_inv (w_tables s) -> t_users (w_tables s) !! next_user (w_seqs s) = None ->
  srun E (run fs env) (mkSWorld 0 ∅ ∅ ∅ m s false None false 0) = (r, w') ->
  sw_pools w' = ∅ /\ sw_clients w' = ∅ /\ sw_listening w' = false /\ sw_misused w' = false /\
  match sw_served w' with
  | None => exit_status r = 1%Z
  | Some sn => exists cfg, Load env = Ok cfg /\ config_ok cfg /\ ready fs cfg sn /\
      (r = Ok tt \/ exists e, r = Err (ForcedShutdown e))
  end.
Proof.
  intros Hfs Hinv Hnew. unfold run. rewrite srun_bind. cbn [srun exec_scmd perform].
  unfold put_handles. cbn. destruct (Load env) as [cfg|e] eqn:Hl; [|by intros [= <- <-]].
  intros Hrun. pose proof (run_with_swp (E := E) fs cfg 0 ∅ m s 1 Hfs Hinv Hnew) as Hf.
  destruct (swp_run _ _ _ _ Hrun _ Hf) as (? & ? & ? & ? & Hs). split_and!; [done..|].
  destruct (sw_served w') as [sn|]; [|unfold exit_status; by rewrite Hs].
  exists cfg. split_and!; [done|by eapply Load_ok|apply Hs..].
Qed.

(** Readiness answers 200 with status [ok] exactly when both datastores
    answer their pings, otherwise 503 with status [degraded]; each check says
    [ok] exactly if its own datastore answered, and a failed one says why.
    Liveness asks no datastore and always answers 200.  Neither changes
    anything. *)
Theorem probes_correct {Schema : Type} `{ExecSQL Schema} (E : senv) (p i : nat) (w : sworld Schema) :
  let pg := se_fault E (sw_step w) in
  let rd := se_fault E (S (sw_step w)) in
  let (a, w') := srun E (readinessHandler p i) w in
  (pr_code a = 200%Z <-> pg = None /\ rd = None) /\
  (pr_code a = 503%Z <-> pg <> None \/ rd <> None) /\
  (pr_status a = "ok" <-> pr_code a = 200%Z) /\ (pr_status a = "degraded" <-> pr_code a = 503%Z) /\
  pr_checks a = [("postgres", default "ok" (String.append "down: " <$> pg));
                 ("redis", default "ok" (String.append "down: " <$> rd))] /\
  sw_pools w' = sw_pools w /\ sw_clients w' = sw_clients w /\ sw_mig w' = sw_mig w /\
  sw_svc w' = sw_svc w /\ sw_served w' = sw_served w /\
  srun E livenessHandler w = (mkProbe 200 "ok" [], w).
Proof.
  intros pg rd. unfold readinessHandler. cbn.
  fold pg rd. destruct pg as [e|], rd as [e'|]; cbn; split_and!; naive_solver.
Qed.

(** ** Witnesses and findings *)

Section Witnesses.
#[local] Instance no_lower : UnicodeLower := fun s => s.
#[local] Instance no_url : ParseURL := fun url => Err "redis: invalid URL scheme".
#[local] Instance any_conn : ParseConfig := Ok.
#[local] Instance plain_bcrypt : Bcrypt := {| GenerateFromPassword pw := Some ("#" +:+ pw);
  CompareHashAndPassword h pw := bool_decide (h = "#" +:+ pw) |}.
#[local] Instance any_mail : Mail := fun _ => true.
#[local] Instance no_sign : Signer := fun _ _ => None.
#[local] Instance log_text : ExecSQL (list string) := fun body s =>
  Ok (mkMState (m_ledger s) (m_schema s ++ [body])).

Definition one_file : option (list dir_entry) := Some [mkEntry "001_init.sql" false "init"].

Definition boot_env : environment := fun key =>
  if decide (key = "JWT_SECRET") then "0123456789abcdef0123456789abcdef"
  else if decide (key = "DATABASE_URL") then "postgres://lottery@db/lottery"
  else if decide (key = "BOOTSTRAP_ADMIN_EMAIL") then "Root@x.et"
  else if decide (key = "BOOTSTRAP_ADMIN_PASSWORD") then "password"
  else "".

Definition boot (E : senv) : result server_error unit * sworld (list string) :=
  srun E (run one_file boot_env)
    (mkSWorld 0 ∅ ∅ ∅ (mkMState None []) (world_of empty_tables initial_seqs) false None false 0).

Definition calm_server (ev : exit_event) : senv :=
  mkSEnv (fun _ => None) ev (fun _ => NoFault) (calm_env 9).

Lemma one_file_ok : fs_ok (Schema := list string) one_file.
Proof.
  intros entries ms [= <-] Hc. vm_compute in Hc. injection Hc as <-. split.
  - apply (bool_decide_unpack _). vm_compute. exact I.
  - intros m body s s' l _ _ Hx Hl. injection Hx as <-. exists l. simpl. auto.
Qed.

Lemma run_lifecycle_witness :
  let w' := (boot (calm_server (SignalReceived "terminated"))).2 in
  sw_pools w' = ∅ /\ exists sn, sw_served w' = Some sn /\ m_schema (sn_mig sn) = ["init"].
Proof.
  intros w'. destruct (boot (calm_server (SignalReceived "terminated"))) as [r w''] eqn:Hb.
  split.
  - apply (run_lifecycle (calm_server (SignalReceived "terminated")) one_file boot_env (mkMState None [])
      (world_of empty_tables initial_seqs) r w'' one_file_ok).
    + exact empty_inv.
    + reflexivity.
    + exact Hb.
  - subst w'. vm_compute in Hb. injection Hb as <- <-. eexists. split; reflexivity.
Defined.

(** The port is taken: [ListenAndServe] fails at once, and the process still
    exits with status 0. *)
Lemma listen_failure_exits_zero :
  exit_status (boot (calm_server (ServerFailed "bind: address already in use"))).1 = 0%Z.
Proof. vm_compute. reflexivity. Qed.
End Witnesses.
