(* ===== verification/Router.v ===== *)
(** * The router

    The request path of [run] in [src/cmd/server/main.go]: the middleware in
    the order of the [r.Use] calls, the probes outside the rate limiters, and
    behind the limiters the groups of routes.  The pieces come from
    [Middleware], [Http] and [Server]; here they are composed as the source
    composes them, with the request object they share.

    The rate limiter (httprate), chi's request ids and the TCP peer are
    parameters. *)

From S2P Require Import Prelude GoFmt GoString GoJson Netip Models Shuffle Database Effects Invariant.
From S2P Require Import Auth Codec Http Middleware Config Server.

(** ** Requests and answers *)

(** The [http.Request] object: middleware that assigns to a field changes what
    the outer handlers see; middleware that calls [r.WithContext] passes a
    copy on. [rc_Body] is what reading the body gives: the bytes, and whether
    the reader fails at their end. *)
Record request_object := mkRequest {
  rc_RemoteAddr : string;
  rc_Header : string -> list string;
  rc_Method : string;
  rc_Path : list string;
  rc_Query : string -> string;
  rc_Body : option (string * bool);
  rc_RequestID : string              (* in the context; [""] if absent *)
}.

Definition header (c : request_object) (key : string) : string :=
  match rc_Header c key with v :: _ => v | [] => "" end.

Definition set_addr (a : string) (c : request_object) : request_object :=
  mkRequest a (rc_Header c) (rc_Method c) (rc_Path c) (rc_Query c) (rc_Body c) (rc_RequestID c).
Definition set_body (b : option (string * bool)) (c : request_object) : request_object :=
  mkRequest (rc_RemoteAddr c) (rc_Header c) (rc_Method c) (rc_Path c) (rc_Query c) b (rc_RequestID c).
Definition set_id (id : string) (c : request_object) : request_object :=
  mkRequest (rc_RemoteAddr c) (rc_Header c) (rc_Method c) (rc_Path c) (rc_Query c) (rc_Body c) id.

(** What the handlers of [Http] read.  Where the body reader fails at the
    limit, decoding succeeds or fails as it does on the bytes before the limit
    (only the text of a 400 differs). *)
Definition to_http (c : request_object) : http_request :=
  mkHttpRequest (rc_Method c) (rc_Path c) (rc_Query c) (header c "Authorization")
    (match rc_Body c with Some (text, _) => text | None => "" end).

(** The three limiters of the route table. *)
Inductive limiter := ApiByIP | AuthByIP | LoginByAccount.

(** Who answered. *)
Inductive source :=
| ByApp (ep : endpoint) (r : response)
| ByLimiter (l : limiter)
| ByProbe (p : probe)
| ByRouter
| ByPreflight.

(** The line [Logger] writes. *)
Record access_log := mkAccessLog { al_request_id : string; al_status : Z; al_remote_addr : string }.

(** How the handling of a request ends: the answer with the headers the
    middleware set, the limiters, the request object as the caller sees it,
    and the log line. *)
Record served_request (L : Type) := mkServed {
  sr_status : Z;
  sr_headers : header_map;
  sr_source : source;
  sr_limits : L;
  sr_request : request_object;
  sr_log : option access_log
}.
Arguments mkServed {L} sr_status sr_headers sr_source sr_limits sr_request sr_log.
Arguments sr_status {L} s.
Arguments sr_headers {L} s.
Arguments sr_source {L} s.
Arguments sr_limits {L} s.
Arguments sr_request {L} s.
Arguments sr_log {L} s.

(** httprate: [Allow] counts a request under a key of a limiter and tells
    whether it is within the limit; [KeyByIP] makes the key of an address. *)
Class HttpRate (L : Type) := {
  Allow : L -> limiter -> string -> bool * L;
  KeyByIP : string -> string
}.

(** chi's [RequestID]: the header of the client, or a generated id. *)
Class RequestIDs := NextRequestID : request_object -> string.

Section Router.
Context `{UnicodeLower, Bcrypt, Mail, Signer} {R : Type} `{RandSource R}.
Context `{JSONErrors}.
Context `{TokenParser, RequestIDs} {L : Type} `{HttpRate L}.
Variable cfg : Config.
(** The random source a draw reads, and what the readiness probe finds. *)
Variables (rand : R) (readiness : probe).

Definition handler : Type := request_object -> header_map -> L -> program (served_request L).

(** ** Routes *)

Definition app (ep : endpoint) : handler := fun c h l =>
  resp ← serve_endpoint (MaxWinners cfg) (LockTTL cfg) (LockWait cfg) (JWTSecret cfg) (JWTExpiry cfg)
           rand (to_http c) ep;
  mret (mkServed (rs_status resp) h (ByApp ep resp) l c None).

(** A limiter in front of a handler. *)
Definition limited (which : limiter) (key : string) (next : handler) : handler := fun c h l =>
  let (ok, l') := Allow l which key in
  if ok : bool then next c h l'
  else mret (mkServed 429 h (ByLimiter which) l' c None).

Definition by_ip (which : limiter) (next : handler) : handler := fun c h l =>
  limited which (KeyByIP (rc_RemoteAddr c)) next c h l.

(** [httprate.WithKeyFuncs(middleware.LoginAccountKey)]: the key is read from
    the body, which is then restored. *)
Definition by_account (next : handler) : handler := fun c h l =>
  let (key, body) := LoginAccountKey (rc_Body c) in
  let restored := match body with Some text => Some (text, false) | None => None end in
  limited LoginByAccount key next (set_body restored c) h l.

(** The limiters around a route. *)
Definition behind_limits (ep : endpoint) : handler :=
  by_ip ApiByIP
    match ep with
    | EpRegister => by_ip AuthByIP (app ep)
    | EpLogin => by_ip AuthByIP (by_account (app ep))
    | _ => app ep
    end.

(** The router's own answers: 405 where the path has a route for another
    method, else 404. *)
Definition unrouted_status (c : request_object) : Z :=
  if bool_decide (rc_Path c = ["health"] \/ rc_Path c = ["ready"]) ||
     existsb (fun m => bool_decide (is_Some (route m (rc_Path c)))) ["GET"; "POST"; "PUT"]
  then 405 else 404.

Definition mux : handler := fun c h l =>
  if decide (rc_Method c = "GET" /\ rc_Path c = ["health"])
  then mret (mkServed 200 h (ByProbe (mkProbe 200 "ok" [])) l c None)
  else if decide (rc_Method c = "GET" /\ rc_Path c = ["ready"])
  then mret (mkServed (pr_code readiness) h (ByProbe readiness) l c None)
  else match route (rc_Method c) (rc_Path c) with
  | Some ep => behind_limits ep c h l
  | None => mret (mkServed (unrouted_status c) h ByRouter l c None)
  end.

(** ** The stack *)

(** One middleware around the next handler.  [RequestID] and [Timeout] pass on
    a copy of the request: the object of their caller stays as it is.  The
    deadline and panics are not modelled here ([Recoverer] in [Middleware]). *)
Definition through (m : middleware) (next : handler) : handler := fun c h l =>
  match m with
  | UseLogger =>
    d ← next c h l;
    let c' := sr_request d in
    mret (mkServed (sr_status d) (sr_headers d) (sr_source d) (sr_limits d) c'
      (if decide (rc_Path c' = ["health"] \/ rc_Path c' = ["ready"]) then None
       else Some (mkAccessLog (rc_RequestID c') (sr_status d) (rc_RemoteAddr c'))))
  | UseRecoverer => next c h l
  | UseClientIP trusted =>
    let seen := ClientIP trusted (mkPeerRequest (rc_RemoteAddr c) (rc_Header c)) in
    next (set_addr (RemoteAddr seen) c) h l
  | UseRequestID =>
    d ← next (set_id (NextRequestID c) c) h l;
    mret (mkServed (sr_status d) (sr_headers d) (sr_source d) (sr_limits d) c (sr_log d))
  | UseSecurityHeaders => next c (SecurityHeaders h) l
  | UseBodyLimit maxBytes =>
    next (set_body (match rc_Body c with Some (text, _) => Some (BodyLimit maxBytes text) | None => None end) c) h l
  | UseTimeout _ =>
    d ← next c h l;
    mret (mkServed (sr_status d) (sr_headers d) (sr_source d) (sr_limits d) c (sr_log d))
  | UseCORS origins =>
    let (h', go_on) := CORS origins (rc_Method c) (header c "Origin") h in
    if go_on : bool then next c h' l
    else mret (mkServed 204 h' ByPreflight l c None)
  end.

(** A request from the peer at [rc_RemoteAddr c]. *)
Definition serve_request (c : request_object) (l : L) : program (served_request L) :=
  foldr through mux (middleware_stack cfg) c ∅ l.

(** ** What reaches the routes *)

(** The request after [ClientIP]: the object the logger also holds. *)
Definition addressed (c : request_object) : request_object :=
  set_addr (RemoteAddr (ClientIP (TrustedProxies cfg) (mkPeerRequest (rc_RemoteAddr c) (rc_Header c)))) c.

(** The request the routes see. *)
Definition cleaned (c : request_object) : request_object :=
  let c := addressed c in
  let c := set_id (NextRequestID c) c in
  set_body (match rc_Body c with Some (text, _) => Some (BodyLimit (MaxRequestBytes cfg) text)
            | None => None end) c.

Definition entry : handler :=
  foldr through mux
    (if decide (0 < length (CORSAllowedOrigins cfg)) then [UseCORS (CORSAllowedOrigins cfg)] else []).

Definition log_of (c : request_object) (status : Z) : option access_log :=
  if decide (rc_Path c = ["health"] \/ rc_Path c = ["ready"]) then None
  else Some (mkAccessLog (rc_RequestID c) status (rc_RemoteAddr c)).

Lemma serve_request_wp E c l Q w :
  wp E (entry (cleaned c) (SecurityHeaders ∅) l) (fun d w' =>
    Q (mkServed (sr_status d) (sr_headers d) (sr_source d) (sr_limits d) (addressed c)
         (log_of (addressed c) (sr_status d))) w') w ->
  wp E (serve_request c l) Q w.
Proof.
  intros Hw. unfold serve_request, middleware_stack. rewrite foldr_app. fold entry.
  cbn [foldr through]. apply wp_bind, wp_bind, wp_bind. eapply wp_mono; [exact Hw|].
  intros d w' HQ. by do 3 apply wp_ret.
Qed.

(** What CORS adds never replaces a security header, and a request it answers
    goes no further. *)
Definition hardened (h : header_map) : Prop :=
  h !! "X-Content-Type-Options" = Some "nosniff" /\ h !! "X-Frame-Options" = Some "DENY" /\
  h !! "Referrer-Policy" = Some "no-referrer" /\ h !! "Cache-Control" = Some "no-store".

Lemma SecurityHeaders_hardened h : hardened (SecurityHeaders h).
Proof. unfold hardened, SecurityHeaders. split_and!; by simplify_map_eq. Qed.

Lemma CORS_hardened origins method origin h :
  hardened h -> hardened (CORS origins method origin h).1.
Proof.
  intros (H1' & H2' & H3' & H4'). unfold CORS. cbn [fst]. case_decide; [|done].
  destruct (_ || _); [|done]. unfold hardened. by rewrite !lookup_insert_ne by done.
Qed.

(** A property of an answer that holds wherever the routes are entered with
    hardened headers, and of preflight answers. *)
Lemma entry_wp E c h l w (Q : served_request L -> world -> Prop) :
  hardened h ->
  (forall h', hardened h' -> wp E (mux c h' l) Q w) ->
  (forall h', hardened h' -> rc_Method c = "OPTIONS" -> Q (mkServed 204 h' ByPreflight l c None) w) ->
  wp E (entry c h l) Q w.
Proof.
  intros Hh Hmux Hpre. unfold entry. case_decide; [|by apply Hmux]. cbn [foldr through].
  pose proof (CORS_hardened (CORSAllowedOrigins cfg) (rc_Method c) (header c "Origin") h Hh) as Hc.
  destruct (CORS _ _ _ h) as [h' go_on] eqn:Hcors. simpl in Hc. destruct go_on; [by apply Hmux|].
  apply wp_ret. apply Hpre; [done|]. unfold CORS in Hcors. injection Hcors as _ Hm.
  apply negb_false_iff, bool_decide_eq_true in Hm. done.
Qed.

(** *** The routes *)

Lemma app_headers E ep c h l w : wp E (app ep c h l) (fun d _ => sr_headers d = h) w.
Proof. unfold app. apply wp_bind, wp_any. intros resp w'. by apply wp_ret. Qed.

Lemma limited_wp E which key next c h l Q w :
  (fst (Allow l which key) = true -> wp E (next c h (snd (Allow l which key))) Q w) ->
  (fst (Allow l which key) = false ->
   Q (mkServed 429 h (ByLimiter which) (snd (Allow l which key)) c None) w) ->
  wp E (limited which key next c h l) Q w.
Proof.
  intros Hok Hno. unfold limited. destruct (Allow l which key) as [[|] l']; [by apply Hok|].
  by apply wp_ret, Hno.
Qed.

Lemma behind_limits_headers E ep c h l w :
  wp E (behind_limits ep c h l) (fun d _ => sr_headers d = h) w.
Proof.
  apply limited_wp; [intros _|done]. destruct ep; try apply app_headers.
  - apply limited_wp; [intros _|done]. apply app_headers.
  - apply limited_wp; [intros _|done]. unfold by_account.
    destruct (LoginAccountKey (rc_Body c)) as [key body].
    apply limited_wp; [intros _|done]. apply app_headers.
Qed.

Lemma app_source E ep c h l w :
  wp E (app ep c h l) (fun d _ => match sr_source d with ByApp _ _ | ByLimiter _ => True | _ => False end) w.
Proof. unfold app. apply wp_bind, wp_any. intros resp w'. by apply wp_ret. Qed.

Lemma behind_limits_source E ep c h l w :
  wp E (behind_limits ep c h l)
    (fun d _ => match sr_source d with ByApp _ _ | ByLimiter _ => True | _ => False end) w.
Proof.
  apply limited_wp; [intros _|done]. destruct ep; try apply app_source.
  - apply limited_wp; [intros _|done]. apply app_source.
  - apply limited_wp; [intros _|done]. unfold by_account.
    destruct (LoginAccountKey (rc_Body c)) as [key body].
    apply limited_wp; [intros _|done]. apply app_source.
Qed.

Lemma mux_headers E c h l w : wp E (mux c h l) (fun d _ => sr_headers d = h) w.
Proof.
  unfold mux. case_decide; [by apply wp_ret|]. case_decide; [by apply wp_ret|].
  destruct (route _ _) as [ep|]; [apply behind_limits_headers|by apply wp_ret].
Qed.

(** A request was not let through to the application. *)
Definition kept_out (d : served_request L) : Prop :=
  match sr_source d with ByApp _ _ => False | _ => True end.

(** The address limiter refuses: nothing of a route runs. *)
Lemma mux_refused E c h l w :
  fst (Allow l ApiByIP (KeyByIP (rc_RemoteAddr c))) = false ->
  wp E (mux c h l) (fun d w' => w' = w /\ kept_out d) w.
Proof.
  intros Hno. unfold mux. case_decide; [by apply wp_ret|]. case_decide; [by apply wp_ret|].
  destruct (route _ _) as [ep|]; [|by apply wp_ret].
  apply limited_wp; [congruence|done].
Qed.

(** The limiters after a login request from [addr] was counted by address. *)
Definition charged (l : L) (addr : string) : L :=
  snd (Allow (snd (Allow l ApiByIP (KeyByIP addr))) AuthByIP (KeyByIP addr)).

(** The bytes of the body a handler reads. *)
Definition body_text (b : option (string * bool)) : string :=
  match b with Some (text, _) => text | None => "" end.

(** A login was turned away before the password was looked at. *)
Definition turned_away (d : served_request L) : Prop :=
  match sr_source d with ByApp _ r => rs_status r = 400%Z | _ => True end.

(** Every login the body can ask for is one for the account [account], under
    the name the login service looks up. *)
Definition login_for (account : string) (c : request_object) : Prop :=
  forall req, DecodeJSON (A := LoginRequest) (body_text (rc_Body c)) = Ok req ->
    normalize_email (login_Email req) = account.

Lemma app_login_undecoded E c h l w e :
  DecodeJSON (A := LoginRequest) (body_text (rc_Body c)) = Err e ->
  wp E (app EpLogin c h l) (fun d w' => w' = w /\ turned_away d) w.
Proof.
  intros Hd. unfold app. apply wp_bind. cbn [serve_endpoint access_of handle]. unfold handle_Login.
  change (rq_body (to_http c)) with (body_text (rc_Body c)). rewrite Hd. by do 2 apply wp_ret.
Qed.

(** The account limiter refuses: the password is not looked at. *)
Lemma login_refused `{!LowerKeepsSpace} E c h l w account :
  login_for account c ->
  (forall key, key = "login:" +:+ account \/ key = "login:none" ->
     fst (Allow (charged l (rc_RemoteAddr c)) LoginByAccount key) = false) ->
  route (rc_Method c) (rc_Path c) = Some EpLogin ->
  wp E (mux c h l) (fun d w' => w' = w /\ turned_away d) w.
Proof.
  intros Hfor Hno Hroute. unfold mux. case_decide; [by apply wp_ret|].
  case_decide; [by apply wp_ret|]. rewrite Hroute.
  apply limited_wp; [intros _|done]. apply limited_wp; [intros _|done].
  unfold by_account, login_for in *. destruct (rc_Body c) as [[text failed]|] eqn:Hbody; cbn [body_text] in Hfor.
  - destruct (DecodeJSON text) as [req|e] eqn:Hd.
    + destruct (login_budget text failed req Hd) as (key & -> & Hkey & _).
      rewrite (Hfor req eq_refl) in Hkey.
      apply limited_wp; [|done]. unfold charged in Hno. rewrite (Hno key Hkey). done.
    + cbn [LoginAccountKey]. destruct (if failed then _ else _);
        (apply limited_wp; [intros _|done]; by eapply app_login_undecoded).
  - cbn [LoginAccountKey]. apply limited_wp; [|done]. unfold charged in Hno. rewrite Hno by auto. done.
Qed.

Lemma BodyLimit_text maxBytes text :
  chars (BodyLimit maxBytes text).1 = take (Z.to_nat maxBytes) (chars text).
Proof.
  unfold BodyLimit. case_decide as Hlen; simpl.
  - rewrite take_ge; [done|]. rewrite chars_length. unfold len in Hlen. lia.
  - by rewrite String.list_ascii_of_string_of_list_ascii.
Qed.

(** The request the handlers read: the client's, with the given body. *)
Definition client_request (c : request_object) (body : string) : http_request :=
  mkHttpRequest (rc_Method c) (rc_Path c) (rc_Query c) (header c "Authorization") body.

(** The handler of route [ep] ran on the request [c]. *)
Definition ran (E : env) (c : request_object) (w : world) (d : served_request L) (w' : world) : Prop :=
  match sr_source d with
  | ByApp ep r => route (rc_Method c) (rc_Path c) = Some ep /\ sr_status d = rs_status r /\
      (r, w') = Effects.run E (serve_endpoint (MaxWinners cfg) (LockTTL cfg) (LockWait cfg) (JWTSecret cfg)
                         (JWTExpiry cfg) rand (client_request c (body_text (rc_Body c))) ep) w
  | _ => w' = w
  end.

Lemma app_ran E ep c c' h l w :
  route (rc_Method c) (rc_Path c) = Some ep ->
  to_http c' = client_request c (body_text (rc_Body c)) ->
  wp E (app ep c' h l) (ran E c w) w.
Proof.
  intros Hroute Heq. unfold app. apply wp_bind. rewrite Heq.
  destruct (Effects.run E (serve_endpoint (MaxWinners cfg) (LockTTL cfg) (LockWait cfg) (JWTSecret cfg)
    (JWTExpiry cfg) rand (client_request c (body_text (rc_Body c))) ep) w) as [r w'] eqn:Hrun.
  unfold wp. rewrite Hrun. split_and!; done.
Qed.

Lemma mux_app E c h l w : wp E (mux c h l) (ran E c w) w.
Proof.
  unfold mux. case_decide; [by apply wp_ret|]. case_decide; [by apply wp_ret|].
  destruct (route _ _) as [ep|] eqn:Hroute; [|by apply wp_ret].
  apply limited_wp; [intros _|done]. destruct ep; try by apply app_ran.
  - apply limited_wp; [intros _|done]. by apply app_ran.
  - apply limited_wp; [intros _|done]. unfold by_account.
    destruct (LoginAccountKey (rc_Body c)) as [key body] eqn:Hkey.
    apply limited_wp; [intros _|done]. apply app_ran; [done|]. unfold client_request.
    unfold LoginAccountKey in Hkey. by destruct (rc_Body c) as [[text failed]|]; injection Hkey as _ <-.
Qed.

(** *** The limiters *)

(** The limiters after counting a request under some keys. *)
Definition after_calls (l : L) (calls : list (limiter * string)) : L :=
  foldl (fun l call => snd (Allow l call.1 call.2)) l calls.

(** The limiters were asked with [calls]: every limit by address under the key
    of the address [addr], and a request they let through or refused was
    counted against the address at least once. *)
Definition counted (addr : string) (l : L) (d : served_request L) : Prop :=
  exists calls, sr_limits d = after_calls l calls /\
    Forall (fun call => call.1 = LoginByAccount \/ call.2 = KeyByIP addr) calls /\
    match sr_source d with
    | ByApp _ _ | ByLimiter _ => (ApiByIP, KeyByIP addr) ∈ calls
    | _ => calls = []
    end.

(** The limiters as they are when a handler is entered. *)
Definition entered (addr : string) (l : L) (d : served_request L) : Prop :=
  exists calls, sr_limits d = after_calls l calls /\
    Forall (fun call => call.1 = LoginByAccount \/ call.2 = KeyByIP addr) calls.

Lemma limited_entered E addr which key next c h l w :
  which = LoginByAccount \/ key = KeyByIP addr ->
  (forall l', wp E (next c h l') (fun d _ => entered addr l' d) w) ->
  wp E (limited which key next c h l) (fun d _ => exists calls,
    sr_limits d = after_calls l ((which, key) :: calls) /\
    Forall (fun call => call.1 = LoginByAccount \/ call.2 = KeyByIP addr) calls) w.
Proof.
  intros Hkey Hnext. apply limited_wp; [intros _|intros _].
  - eapply wp_mono; [apply Hnext|]. intros d _ (calls & Hl & Hall). by exists calls.
  - by exists [].
Qed.

Lemma limited_entered' E addr which key next c h l w :
  which = LoginByAccount \/ key = KeyByIP addr ->
  (forall l', wp E (next c h l') (fun d _ => entered addr l' d) w) ->
  wp E (limited which key next c h l) (fun d _ => entered addr l d) w.
Proof.
  intros Hkey Hnext. eapply wp_mono; [by apply limited_entered|].
  intros d _ (calls & Hl & Hall). exists ((which, key) :: calls). by auto using Forall_cons.
Qed.

Lemma app_entered E addr ep c h l w : wp E (app ep c h l) (fun d _ => entered addr l d) w.
Proof. unfold app. apply wp_bind, wp_any. intros resp w'. apply wp_ret. by exists []. Qed.

(** *** Who answers *)

(** What the answer is, by who gave it: the application's answers have the
    envelope; the others are a limiter's, the router's own, a preflight's and
    the two probes'. *)
Definition answer_shape (c : request_object) (d : served_request L) : Prop :=
  match sr_source d with
  | ByApp ep r => route (rc_Method c) (rc_Path c) = Some ep /\ uniform r /\ sr_status d = rs_status r
  | ByLimiter _ => sr_status d = 429%Z /\ is_Some (route (rc_Method c) (rc_Path c))
  | ByRouter => (sr_status d = 404%Z \/ sr_status d = 405%Z) /\ route (rc_Method c) (rc_Path c) = None
  | ByPreflight => sr_status d = 204%Z /\ rc_Method c = "OPTIONS"
  | ByProbe p => sr_status d = pr_code p /\ rc_Method c = "GET" /\
      (rc_Path c = ["health"] \/ rc_Path c = ["ready"] /\ p = readiness)
  end.

(** The shape and the counting of what is behind a limiter. *)
Lemma app_shape E ep c c' h l w :
  route (rc_Method c) (rc_Path c) = Some ep ->
  wp E (app ep c' h l) (fun d _ => answer_shape c d) w.
Proof.
  intros Hr. unfold app. apply wp_bind. eapply wp_mono; [apply serve_endpoint_uniform|].
  intros resp w' Hu. by apply wp_ret.
Qed.

Lemma mux_shape E c h l w : wp E (mux c h l) (fun d _ => answer_shape c d) w.
Proof.
  unfold mux. case_decide as H1'; [apply wp_ret; destruct H1'; split_and!; simpl; by auto|].
  case_decide as H2'; [apply wp_ret; destruct H2'; split_and!; simpl; by auto|].
  destruct (route (rc_Method c) (rc_Path c)) as [ep|] eqn:Hroute.
  2: { apply wp_ret. split; [|done]. simpl. unfold unrouted_status. case_match; auto. }
  assert (forall which l', answer_shape c (mkServed 429 h (ByLimiter which) l' c None)) as Hlim.
  { intros which l'. split; [done|]. by rewrite Hroute. }
  apply limited_wp; [intros _|done]. destruct ep; try by apply app_shape.
  - apply limited_wp; [intros _|done]. by apply app_shape.
  - apply limited_wp; [intros _|done]. unfold by_account.
    destruct (LoginAccountKey (rc_Body c)) as [key body].
    apply limited_wp; [intros _; by apply app_shape|]. intros _. split; [done|]. by rewrite Hroute.
Qed.

Lemma mux_counted E c h l w : wp E (mux c h l) (fun d _ => counted (rc_RemoteAddr c) l d) w.
Proof.
  unfold mux. case_decide; [apply wp_ret; by exists []|].
  case_decide; [apply wp_ret; by exists []|].
  destruct (route _ _) as [ep|] eqn:Hroute; [|apply wp_ret; by exists []].
  assert (wp E (behind_limits ep c h l) (fun d _ => exists calls,
    sr_limits d = after_calls l ((ApiByIP, KeyByIP (rc_RemoteAddr c)) :: calls) /\
    Forall (fun call => call.1 = LoginByAccount \/ call.2 = KeyByIP (rc_RemoteAddr c)) calls) w) as Hcalls.
  { apply limited_entered; [by right|]. intros l1. destruct ep; try apply app_entered.
    - apply limited_entered'; [by right|]. intros l2. apply app_entered.
    - apply limited_entered'; [by right|]. intros l2. unfold by_account.
      destruct (LoginAccountKey (rc_Body c)) as [key body].
      apply limited_entered'; [by left|]. intros l3. apply app_entered. }
  pose proof (behind_limits_source E ep c h l w) as Hsrc. unfold wp in *.
  destruct (Effects.run E (behind_limits ep c h l) w) as [d w']. simpl in *.
  destruct Hcalls as (calls & Hl & Hall).
  exists ((ApiByIP, KeyByIP (rc_RemoteAddr c)) :: calls). split; [exact Hl|].
  split; [by auto using Forall_cons|]. destruct (sr_source d); try done; apply list_elem_of_here.
Qed.

(** ** Properties *)

(** C39: every answer is hardened and accounted for.  Whatever the request,
    and whoever answers it (the application, a limiter, a probe, CORS or the
    router), the answer carries the four security headers.  A request to any
    path but [/health] and [/ready] is logged, with the status it was answered
    with and with the very address under whose key the limiters by address
    were asked about it; requests to these two paths are not logged.  The
    logged request id is the one the request came with, never the one
    [RequestID] assigns inside.  (A handler that panics is not part of this
    stack; see [Recoverer].) *)
Theorem answers_hardened E c l w :
  wp E (serve_request c l) (fun d _ =>
    hardened (sr_headers d) /\
    exists addr, counted addr l d /\
      sr_log d = (if decide (rc_Path c = ["health"] \/ rc_Path c = ["ready"]) then None
                  else Some (mkAccessLog (rc_RequestID c) (sr_status d) addr))) w.
Proof.
  apply serve_request_wp. eapply wp_mono.
  { apply (entry_wp _ _ _ _ _ (fun d _ => hardened (sr_headers d) /\ counted (rc_RemoteAddr (cleaned c)) l d));
      [apply SecurityHeaders_hardened| |].
    - intros h' Hh'. pose proof (mux_headers E (cleaned c) h' l w) as Hm.
      pose proof (mux_counted E (cleaned c) h' l w) as Hc. unfold wp in *. by rewrite Hm.
    - intros h' Hh' _. split; [done|]. by exists []. }
  simpl. intros d _ [Hh Hc]. split; [done|]. exists (rc_RemoteAddr (cleaned c)). split; [exact Hc|done].
Qed.

(** C40: which answers have the envelope.  An answer of the application comes
    from the handler of the request's route and has the uniform envelope: a
    success is 200 or 201 with data and no error, a failure has one of seven
    statuses, a message and no data, and an internal error (500) says nothing
    but which operation failed, so no database or driver text leaves the
    server through it.  The only other answers are a limiter's 429 on a route
    of the table, the router's own 404 or 405 where there is no route, the 204
    of a preflight, and the two probes. *)
Theorem responses_uniform E c l w :
  wp E (serve_request c l) (fun d _ => answer_shape c d) w.
Proof.
  apply serve_request_wp.
  apply (entry_wp _ _ _ _ _ (fun d _ => answer_shape c (mkServed (sr_status d) (sr_headers d) (sr_source d)
    (sr_limits d) (addressed c) (log_of (addressed c) (sr_status d))))); [apply SecurityHeaders_hardened| |done].
  intros h' _. apply (mux_shape E (cleaned c) h' l w).
Qed.

(** C13: the rate limits cannot be talked around.  Let a peer that is not a
    trusted proxy have used up the budget of its address: then whatever
    headers, method, path and body it sends, no handler of the application
    runs and nothing is read or written (only probes, preflights and unknown
    paths are still answered).  And once the budget of an account is used up,
    and the one budget shared by all bodies from which the limiter reads no
    email, then no login for that account reaches the password check, from
    whatever address and however the body spells the email (in letters of any
    alphabet, as long as the Unicode tables keep white space apart from
    letters, [LowerKeepsSpace]), names and orders its fields, escapes its
    characters or goes on after the object: nothing is read or written, and a
    login handler that runs at all answers 400. *)
Theorem limits_hold `{!LowerKeepsSpace} E c l w :
  ((forall peer, peerAddr (rc_RemoteAddr c) = Some peer -> isTrusted (TrustedProxies cfg) peer = false) ->
   fst (Allow l ApiByIP (KeyByIP (rc_RemoteAddr c))) = false ->
   wp E (serve_request c l) (fun d w' => w' = w /\ kept_out d) w) /\
  (forall account, login_for account (cleaned c) ->
   (forall key, key = "login:" +:+ account \/ key = "login:none" ->
      fst (Allow (charged l (rc_RemoteAddr (cleaned c))) LoginByAccount key) = false) ->
   route (rc_Method c) (rc_Path c) = Some EpLogin ->
   wp E (serve_request c l) (fun d w' => w' = w /\ turned_away d) w).
Proof.
  split.
  - intros Hpeer Hno.
    assert (rc_RemoteAddr (cleaned c) = rc_RemoteAddr c) as Haddr.
    { simpl. unfold ClientIP. case_decide; [done|]. simpl.
      destruct (peerAddr (rc_RemoteAddr c)) as [peer|] eqn:Hp; [|done]. by rewrite (Hpeer peer). }
    apply serve_request_wp. apply entry_wp; [apply SecurityHeaders_hardened| |done].
    intros h' _. apply (mux_refused E (cleaned c) h' l w). by rewrite Haddr.
  - intros account Hfor Hno Hroute. apply serve_request_wp.
    apply entry_wp; [apply SecurityHeaders_hardened| |done].
    intros h' _. by apply (login_refused E (cleaned c) h' l w account).
Qed.

(** C12: the router runs the routed handler, once, on the client's request,
    or nothing.  If the application answered, then the method and path are in
    the route table, the handler that ran is the one of that route behind its
    access group, on the request with the client's method, path, query,
    [Authorization] header and body, the body cut at the configured number of
    bytes (also for a login, whose body the account limiter has read before),
    and the answer's status is the handler's; if anything else answered, the
    database and Redis were not touched at all. *)
Theorem router_correct E c l w :
  wp E (serve_request c l) (fun d w' =>
    match sr_source d with
    | ByApp ep r => route (rc_Method c) (rc_Path c) = Some ep /\ sr_status d = rs_status r /\
        exists body, chars body = take (Z.to_nat (MaxRequestBytes cfg)) (chars (body_text (rc_Body c))) /\
        (r, w') = Effects.run E (serve_endpoint (MaxWinners cfg) (LockTTL cfg) (LockWait cfg) (JWTSecret cfg)
                           (JWTExpiry cfg) rand (client_request c body) ep) w
    | _ => w' = w
    end) w.
Proof.
  apply serve_request_wp.
  apply entry_wp; [apply SecurityHeaders_hardened| |done]. intros h' _. cbn [sr_source sr_status].
  eapply wp_mono; [apply (mux_app E (cleaned c) h' l w)|]. intros d w'. unfold ran.
  destruct (sr_source d); try done. intros (Hroute & Hst & Hrun). split_and!; [done..|].
  exists (body_text (rc_Body (cleaned c))). split; [|exact Hrun]. simpl.
  destruct (rc_Body c) as [[text failed]|]; [|by destruct (Z.to_nat _)]. simpl.
  rewrite <- BodyLimit_text. by destruct (BodyLimit _ text).
Qed.
End Router.

(** ** Witnesses *)

Section Witnesses.
Import Standin Wording.

(** One token, a limiter that remembers the keys whose budget is used up, fixed
    request ids, and lowering byte by byte. *)
#[local] Instance alice_token : TokenParser := fun token secret now =>
  if decide (token = "alice") then Some (mkClaims 2 "user" 0 0 0 "lottery-system" "user:2") else None.
#[local] Instance fixed_id : RequestIDs := fun _ => "host/1".
#[local] Instance blocked : HttpRate (list string) := {|
  Allow l which key := (bool_decide (key ∉ l), l);
  KeyByIP a := a
|}.

#[local] Existing Instance lower_bytes.
#[local] Existing Instance lower_bytes_keeps_space.

Definition site : Config :=
  mkConfig "" "8080" 0 0 0 0 1024 "" "" false 5 1 (mkRedisOptions "" "" 0 0 0) "key" 60 0 0 10
    5 60 5 60 100 60 intranet ["https://lottery.et"] "" "" "".

Definition spoofed_request (method : string) (path : list string) (body : string) : request_object :=
  mkRequest "198.51.100.9:5555"
    (fun key => if decide (key = "Authorization") then ["Bearer alice"] else ["10.0.0.1"])
    method path (fun _ => "") (Some (body, false)) "".

Definition live : probe := mkProbe 200 "ok" [].

(** A login that spells name and address of the email in an unusual way. *)
Definition odd_login : string :=
  Marshal_map [("EMAIL", " A@x.et "); ("password", "pw")].

(** A blocked address stays blocked behind a forged header, a blocked account
    behind an unusual spelling. *)
Lemma limits_hold_witness :
  wp (calm_env 5) (serve_request site [0] live (spoofed_request "GET" ["events"] "") ["198.51.100.9:5555"])
    (fun d w' => w' = sample_world /\ kept_out d) sample_world /\
  wp (calm_env 5) (serve_request site [0] live (spoofed_request "POST" ["auth"; "login"] odd_login)
      ["login:a@x.et"; "login:none"])
    (fun d w' => w' = sample_world /\ turned_away d) sample_world.
Proof.
  split.
  - refine (proj1 (limits_hold site [0] live (calm_env 5) (spoofed_request "GET" ["events"] "")
      ["198.51.100.9:5555"] sample_world) _ _).
    + intros peer Hp. vm_compute in Hp. injection Hp as <-. by vm_compute.
    + by vm_compute.
  - refine (proj2 (limits_hold site [0] live (calm_env 5) (spoofed_request "POST" ["auth"; "login"] odd_login)
      ["login:a@x.et"; "login:none"] sample_world) "a@x.et" _ _ _).
    + intros req Hd. vm_compute in Hd. injection Hd as <-. by vm_compute.
    + intros key [-> | ->]; by vm_compute.
    + reflexivity.
Defined.

(** A login reaches its handler with the body it was sent with, although the
    account limiter has read it. *)
Lemma router_correct_witness :
  exists d w' r body, Effects.run (calm_env 5)
      (serve_request site [0] live (spoofed_request "POST" ["auth"; "login"] odd_login) []) sample_world
    = (d, w') /\ sr_source d = ByApp EpLogin r /\ sr_status d = 401%Z /\ chars body = chars odd_login /\
    (r, w') = Effects.run (calm_env 5) (serve_endpoint 10 0 0 "key" 60 [0]
      (client_request (spoofed_request "POST" ["auth"; "login"] odd_login) body) EpLogin) sample_world.
Proof.
  destruct (Effects.run (calm_env 5)
    (serve_request site [0] live (spoofed_request "POST" ["auth"; "login"] odd_login) []) sample_world)
    as [d w'] eqn:Hrun.
  assert (exists r, sr_source d = ByApp EpLogin r /\ sr_status d = 401%Z) as (r & Hs & Hst).
  { vm_compute in Hrun. injection Hrun as <- _. eexists. split; reflexivity. }
  pose proof (wp_run _ _ _ _ _ Hrun (router_correct site [0] live (calm_env 5)
    (spoofed_request "POST" ["auth"; "login"] odd_login) [] sample_world)) as Hwp.
  clear Hrun. cbv beta in Hwp. rewrite Hs in Hwp.
  destruct Hwp as (_ & _ & body & Hbody & Hwp).
  exists d, w', r, body. split; [exact eq_refl|]. split; [exact Hs|]. split; [exact Hst|].
  split; [rewrite Hbody; vm_compute; exact eq_refl|exact Hwp].
Defined.
End Witnesses.
